(** * four.js: the geometry builders HyperGeometry and HyperSliceGeometry

    A shallow embedding of src/HyperGeometry.js and src/HyperSliceGeometry.js.
    JavaScript arrays are lists; a typed array is a list whose length never
    changes (a store outside the array is dropped, which is what the list
    insert of stdpp does); an exception is a [Throw] in the [result] monad.
    A method that calls the projector is a program of type [prog]: each call
    of [project] or [slice] is an [Ask] node, so the calls a method makes
    are read off its run and cannot be made otherwise.  The projector is
    the function that answers the calls, handed to each run, so that its
    state may differ from one frame to the next. *)

From stdpp Require Import base option list relations.
From Stdlib Require Import ZArith Lia.

Open Scope Z_scope.
Open Scope nat_scope.

(** ** JavaScript values *)

Module JS.

(** The two exceptions the builders can raise. *)
Inductive JSError := TypeError | RangeError.

Inductive result (A : Type) : Type :=
  | Ok (a : A)
  | Throw (e : JSError).
Arguments Ok {A} a.
Arguments Throw {A} e.

#[export] Instance result_ret : MRet result := fun A a => Ok a.
#[export] Instance result_bind : MBind result := fun A B f c =>
  match c with
  | Ok a => f a
  | Throw e => Throw e
  end.

(** [xs.forEach((x, k) => ...)] where the callback may throw: the state is
    threaded left to right, [k] counts from [from], and the first exception
    ends the loop. *)
Fixpoint forEachM {A S : Type} (f : S -> nat -> A -> result S)
  (from : nat) (xs : list A) (s : S) : result S :=
  match xs with
  | [] => Ok s
  | x :: xs' => s' ← f s from x; forEachM f (Datatypes.S from) xs' s'
  end.

(** [xs.map((x, k) => ...)] where the callback may throw. *)
Fixpoint mapM {A B : Type} (f : nat -> A -> result B) (from : nat) (xs : list A)
  : result (list B) :=
  match xs with
  | [] => Ok []
  | x :: xs' => y ← f from x; ys ← mapM f (Datatypes.S from) xs'; Ok (y :: ys)
  end.

(** [xs.forEach((x, k) => ...)] with a callback that cannot throw. *)
Fixpoint forEach {A S : Type} (f : S -> nat -> A -> S)
  (from : nat) (xs : list A) (s : S) : S :=
  match xs with
  | [] => s
  | x :: xs' => forEach f (Datatypes.S from) xs' (f s from x)
  end.

(** A method that calls the projector.  [Ask q k] is a call with the
    argument [q], continued by [k] on what the call returns; a method has
    no other access to the projector. *)
Inductive prog (Q R A : Type) : Type :=
  | Done (a : A)
  | Raise (e : JSError)
  | Ask (q : Q) (k : R -> prog Q R A).
Arguments Done {Q R A} a.
Arguments Raise {Q R A} e.
Arguments Ask {Q R A} q k.

Fixpoint prog_bind {Q R A B : Type} (f : A -> prog Q R B) (c : prog Q R A)
  : prog Q R B :=
  match c with
  | Done a => f a
  | Raise e => Raise e
  | Ask q k => Ask q (fun r => prog_bind f (k r))
  end.

#[export] Instance prog_ret {Q R : Type} : MRet (prog Q R) := fun A a => Done a.
#[export] Instance prog_mbind {Q R : Type} : MBind (prog Q R) :=
  fun A B f c => prog_bind f c.

(** One call of the projector. *)
Definition ask {Q R : Type} (q : Q) : prog Q R R := Ask q Done.

(** A step that does not call the projector. *)
Definition lift {Q R A : Type} (c : result A) : prog Q R A :=
  match c with
  | Ok a => Done a
  | Throw e => Raise e
  end.

(** The run of a method against the projector [answer]: the arguments of
    the calls made, in order, and the outcome.  The calls made before an
    exception are part of the run. *)
Fixpoint run {Q R A : Type} (answer : Q -> R) (c : prog Q R A)
  : list Q * result A :=
  match c with
  | Done a => ([], Ok a)
  | Raise e => ([], Throw e)
  | Ask q k => let r := run answer (k (answer q)) in (q :: r.1, r.2)
  end.

(** What a caller that has seen the calls [calls] sees of a run: the value
    with all the calls, or the exception. *)
Definition observed {Q A : Type} (calls : list Q) (r : list Q * result A)
  : result (A * list Q) :=
  match r.2 with
  | Ok a => Ok (a, calls ++ r.1)
  | Throw e => Throw e
  end.

(** [xs.map(x => ...)] where the callback may call the projector. *)
Fixpoint mapP {Q R A B : Type} (f : A -> prog Q R B) (xs : list A)
  : prog Q R (list B) :=
  match xs with
  | [] => Done []
  | x :: xs' => y ← f x; ys ← mapP f xs'; Done (y :: ys)
  end.

(** [xs.forEach((x, k) => ...)] where the callback may call the projector. *)
Fixpoint forEachP {Q R A S : Type} (f : S -> nat -> A -> prog Q R S)
  (from : nat) (xs : list A) (s : S) : prog Q R S :=
  match xs with
  | [] => Done s
  | x :: xs' => s' ← f s from x; forEachP f (Datatypes.S from) xs' s'
  end.

(** What the code needs of a JavaScript number.  [within_epsilon c d] is
    [Math.abs(c - d) < 1e-8]; [fround] is the rounding done by a store into
    a [Float32Array]; [nan] is what such a store writes for [undefined];
    [zero] fills a fresh [Float32Array]. *)
Class Number (num : Type) := {
  zero : num;
  nan : num;
  fround : num -> num;
  within_epsilon : num -> num -> bool;
}.

Section Float32Array.
Context {num : Type} `{Number num}.

(** [new Float32Array(n)] *)
Definition new_Float32Array (n : nat) : list num := replicate n zero.

(** [array[k] = v] on a [Float32Array]; [v] may be [undefined]. *)
Definition store (array : list num) (k : nat) (v : option num) : list num :=
  <[k := from_option fround nan v]> array.

(** [array[k] = x; array[k + 1] = y; array[k + 2] = z] *)
Definition store3 (array : list num) (k : nat) (x y z : option num) : list num :=
  store (store (store array k x) (k + 1) y) (k + 2) z.

End Float32Array.

(** [[...new Set(xs)]]: the distinct elements in order of first occurrence. *)
Definition dedup {A : Type} `{EqDecision A} (xs : list A) : list A :=
  fold_left (fun seen x => if decide (x ∈ seen) then seen else seen ++ [x]) xs [].

(** [xs.indexOf(x)]: the first position of [x], or -1. *)
Fixpoint indexOf {A : Type} `{EqDecision A} (xs : list A) (x : A) : Z :=
  match xs with
  | [] => (-1)%Z
  | y :: xs' =>
      if decide (y = x) then 0%Z
      else let k := indexOf xs' x in if (k <? 0)%Z then (-1)%Z else (k + 1)%Z
  end.

End JS.
Export JS.

(** ** The shape and the render buffers *)

(** [shape = { vertices, faces, cells }]: a face lists vertex indices, a cell
    lists face indices.  The type of a 4D vertex is left open. *)
Record Shape (vertex : Type) := {
  vertices : list vertex;
  faces : list (list nat);
  cells : list (list nat);
}.
Arguments vertices {vertex} _.
Arguments faces {vertex} _.
Arguments cells {vertex} _.

(** The constructor options both builders take ([colors] and
    [colorGenerator] stand behind the colour getter of each builder). *)
Record Options := {
  useColors : bool;
  useFaces : bool;
  useEdges : bool;
  usePoints : bool;
}.

(** [{ useColors = false, useFaces = true, useEdges = false, usePoints = false }] *)
Definition defaults : Options :=
  {| useColors := false; useFaces := true; useEdges := false; usePoints := false |}.

(** A three.js [BufferGeometry], as far as the builders touch it:
    [attributes.position.array], [attributes.color.array],
    [attributes.normal.array] (made by [computeVertexNormals]), the index
    given to [setIndex] and the count given to [setDrawRange(0, count)].
    The [needsUpdate] flags only tell the renderer to upload again and are
    left out. *)
Record BufferGeometry (num : Type) := {
  position : list num;
  color : option (list num);
  normal : option (list num);
  index : option (list Z);
  drawRange : option nat;
}.
Arguments position {num} _.
Arguments color {num} _.
Arguments normal {num} _.
Arguments index {num} _.
Arguments drawRange {num} _.

Section Geometry.
Context {num : Type} `{Number num}.

(** three.js computes the normals from the positions and the index. *)
Variable vertexNormals : list num -> option (list Z) -> list num.

(** [initGeometry(size)], the same method in both classes. *)
Definition initGeometry (useColors : bool) (size : nat) : BufferGeometry num :=
  {| position := new_Float32Array (3 * size);
     color := if useColors then Some (new_Float32Array (3 * size)) else None;
     normal := None;
     index := None;
     drawRange := None |}.

(** [geometry.setIndex(indices)] *)
Definition setIndex (indices : list Z) (g : BufferGeometry num) : BufferGeometry num :=
  {| position := position g; color := color g; normal := normal g;
     index := Some indices; drawRange := drawRange g |}.

(** [geometry.computeVertexNormals()] *)
Definition computeVertexNormals (g : BufferGeometry num) : BufferGeometry num :=
  {| position := position g; color := color g;
     normal := Some (vertexNormals (position g) (index g));
     index := index g; drawRange := drawRange g |}.

(** [geometry.setDrawRange(0, count)] *)
Definition setDrawRange (count : nat) (g : BufferGeometry num) : BufferGeometry num :=
  {| position := position g; color := color g; normal := normal g;
     index := index g; drawRange := Some count |}.

(** [geometry.attributes.position.array[k] = x], [[k + 1] = y], [[k + 2] = z] *)
Definition setPosition (k : nat) (x y z : option num) (g : BufferGeometry num)
  : BufferGeometry num :=
  {| position := store3 (position g) k x y z; color := color g;
     normal := normal g; index := index g; drawRange := drawRange g |}.

(** [geometry.attributes.color.array[k] = r], [[k + 1] = g], [[k + 2] = b] *)
Definition setColor (k : nat) (rgb : num * num * num) (g : BufferGeometry num)
  : BufferGeometry num :=
  {| position := position g;
     color := (fun a => store3 a k (Some rgb.1.1) (Some rgb.1.2) (Some rgb.2)) <$> color g;
     normal := normal g; index := index g; drawRange := drawRange g |}.

End Geometry.

(** ** HyperSliceGeometry (src/HyperSliceGeometry.js) *)

Module HyperSliceGeometry.

(** The [type] tag given to the colour getter. *)
Inductive PairType := FacePair | EdgePair | VertexPair.

(** The argument of the colour getter:
    [{ cell: cellIndex, pair: pairIndex, point: [x, y, z], type }]. *)
Record PairContext (num : Type) := {
  cell : nat;
  pair : nat;
  point : option num * option num * option num;
  type : PairType;
}.
Arguments cell {num} _.
Arguments pair {num} _.
Arguments point {num} _.
Arguments type {num} _.

(** [this], with [this.geometry] undefined when [useFaces] is off, and so on. *)
Record Builder (num vertex : Type) := {
  shape : Shape vertex;
  options : Options;
  geometry : option (BufferGeometry num);
  edgeGeometry : option (BufferGeometry num);
  pointGeometry : option (BufferGeometry num);
}.
Arguments shape {num vertex} _.
Arguments options {num vertex} _.
Arguments geometry {num vertex} _.
Arguments edgeGeometry {num vertex} _.
Arguments pointGeometry {num vertex} _.

(** How the while loop of [update] ends for one cell: it runs out of pairs
    with the chain [linkedPairs] built, or it hits [return] (line 111). *)
Inductive LoopExit (num : Type) :=
  | Closed (linkedPairs : list (list num))
  | Abandoned.
Arguments Closed {num} _.
Arguments Abandoned {num}.

(** The local variables of [update] that outlive a cell, with the three
    geometries they write to. *)
Record Frame (num : Type) := {
  i : nat;
  indices : list Z;
  edgeIndices : list Z;
  faceG : option (BufferGeometry num);
  edgeG : option (BufferGeometry num);
  pointG : option (BufferGeometry num);
}.
Arguments i {num} _.
Arguments indices {num} _.
Arguments edgeIndices {num} _.
Arguments faceG {num} _.
Arguments edgeG {num} _.
Arguments pointG {num} _.

Section Model.
Context {num : Type} `{Number num}.
Context {vertex : Type}.

(** A 3D point is the array [slice] returns. *)
Abbreviation point3 := (list num).

(** The projector's [slice(p1, p2)]: a point, or a falsy value.  An argument
    is [None] when [vertices[verticeIndex]] is undefined. *)
Abbreviation Slice := (option vertex -> option vertex -> option point3).

Variable vertexNormals : list num -> option (list Z) -> list num.

(** The getter [this.colorGenerator({ shape, colors })] returns, followed
    by [toArray()]. *)
Variable colorGetter : PairContext num -> num * num * num.

(** Lines 82-85: the boundary edges of a face, as pairs of vertices
    [[vertices[verticeIndex], vertices[face[(faceVerticeIndex + 1) % face.length]]]]. *)
Definition face_edges (vertices : list vertex) (face : list nat)
  : list (option vertex * option vertex) :=
  imap (fun faceVerticeIndex verticeIndex =>
          (vertices !! verticeIndex,
           face !! ((faceVerticeIndex + 1) mod length face) ≫= (vertices !!.)))
       face.

(** [p.every((c, ci) => Math.abs(c - dangle[ci]) < epsilon)]; the comparison
    with an undefined [dangle[ci]] is false. *)
Definition near (p dangle : point3) : bool :=
  forallb id
    (imap (fun ci c =>
             match dangle !! ci with
             | Some d => within_epsilon c d
             | None => false
             end) p).

(** [const [p1, p2] = pair].  Line 88 pushes only pairs of two or more
    points, so the defaults are never read. *)
Definition endpoints (pair : list point3) : point3 * point3 :=
  match pair with
  | p1 :: p2 :: _ => (p1, p2)
  | [p1] => (p1, [])
  | [] => ([], [])
  end.

(** Lines 96-108: the for loop.  At the first pair with an endpoint near
    [dangle] the pair is spliced out and the other endpoint is the point to
    push; [None] when no pair matches. *)
Fixpoint scan (dangle : point3) (pairs : list (list point3))
  : option (list (list point3) * point3) :=
  match pairs with
  | [] => None
  | pair :: pairs' =>
      let '(p1, p2) := endpoints pair in
      if near p1 dangle then Some (pairs', p2)
      else if near p2 dangle then Some (pairs', p1)
      else '(rest, p) ← scan dangle pairs'; Some (pair :: rest, p)
  end.

(** [linkedPairs.slice(-1)[0]].  [linkedPairs] starts with the points of the
    first pair, so the default is never read. *)
Definition dangle_of (linkedPairs : list point3) : point3 :=
  default [] (last linkedPairs).

(** Lines 94-112: one iteration of the while loop.  [None] is the [return]
    of line 111, taken when the for loop left [pairs.length] as it was. *)
Definition loop_body (st : list point3 * list (list point3))
  : option (list point3 * list (list point3)) :=
  '(pairs', p) ← scan (dangle_of st.1) st.2; Some (st.1 ++ [p], pairs').

(** Lines 93-113: the while loop, run for at most [fuel] iterations. *)
Fixpoint link_loop (fuel : nat) (linkedPairs : list point3)
  (pairs : list (list point3)) : option (LoopExit num) :=
  match pairs with
  | [] => Some (Closed linkedPairs)
  | _ :: _ =>
      match fuel with
      | 0 => None
      | S fuel' =>
          match loop_body (linkedPairs, pairs) with
          | None => Some Abandoned
          | Some (linkedPairs', pairs') => link_loop fuel' linkedPairs' pairs'
          end
      end
  end.

(** No endpoint of [pair] is near [dangle]. *)
Definition unmatched dangle (pair : list (list num)) : Prop :=
  near (endpoints pair).1 dangle = false /\ near (endpoints pair).2 dangle = false.

(** One iteration of the while loop that does not return. *)
Definition iterates (st st' : list (list num) * list (list (list num))) : Prop :=
  loop_body st = Some st'.

(** Lines 91-113: [linkedPairs.push(...pairs.shift())], then the loop.  The
    loop takes one pair away per iteration, so [length pairs] iterations are
    enough and the result is never [None] (see [link_loop_terminates]).
    Called with more than two pairs only (line 90). *)
Definition reconstruct (pairs : list (list point3)) : option (LoopExit num) :=
  match pairs with
  | [] => None
  | first :: pairs' => link_loop (length pairs') first pairs'
  end.

(** Lines 116-118: [indices.push(i, i + j + 1, i + j + 2)] for each [j]
    below [linkedPairs.length - 2]. *)
Definition fan (i n : nat) : list Z :=
  flat_map (fun j => [Z.of_nat i; Z.of_nat (i + j + 1); Z.of_nat (i + j + 2)])
           (seq 0 (n - 2)).

(** Lines 122-124: [edgeIndices.push(i + j, i + ((j + 1) % linkedPairs.length))]. *)
Definition ring (i n : nat) : list Z :=
  flat_map (fun j => [Z.of_nat (i + j); Z.of_nat (i + (j + 1) mod n)])
           (seq 0 n).

(** The stores of one of the three blocks of lines 128-175 into the
    geometry [g] of the block: the colour of the point, when colours are
    used, then its position, both at slot [i].  Reading [attributes] of a
    geometry that is not there, or [array] of a colour attribute that is
    not there, raises a TypeError. *)
Definition put (opts : Options) (ctx : PairContext num) (i : nat)
  (g : option (BufferGeometry num)) : result (BufferGeometry num) :=
  match g with
  | None => Throw TypeError
  | Some g =>
      g' ← (if useColors opts then
              match color g with
              | None => Throw TypeError
              | Some _ => Ok (setColor (3 * i) (colorGetter ctx) g)
              end
            else Ok g);
      Ok (setPosition (3 * i) ctx.(point).1.1 ctx.(point).1.2 ctx.(point).2 g')
  end.

(** One of the three blocks of lines 128-175: nothing is touched when the
    flag of the block is off. *)
Definition block (wanted : bool) (opts : Options) (ctx : PairContext num) (i : nat)
  (g : option (BufferGeometry num)) : result (option (BufferGeometry num)) :=
  if wanted then g' ← put opts ctx i g; Ok (Some g') else Ok g.

(** Lines 127-177: the callback of [linkedPairs.forEach]. *)
Definition write_point (opts : Options) (cellIndex : nat)
  (st : Frame num) (pairIndex : nat) (p : point3) : result (Frame num) :=
  let xyz := (p !! 0, p !! 1, p !! 2) in
  let ctx t := {| cell := cellIndex; pair := pairIndex; point := xyz; type := t |} in
  fg ← block (useFaces opts) opts (ctx FacePair) (i st) (faceG st);
  eg ← block (useEdges opts) opts (ctx EdgePair) (i st) (edgeG st);
  pg ← block (usePoints opts) opts (ctx VertexPair) (i st) (pointG st);
  Ok {| i := S (i st);
        indices := indices st;
        edgeIndices := edgeIndices st;
        faceG := fg; edgeG := eg; pointG := pg |}.

(** Lines 115-125: the triangles and the edges of a chain of [n] points are
    pushed before any point is written. *)
Definition push_indices (opts : Options) (n : nat) (st : Frame num) : Frame num :=
  {| i := i st;
     indices := if useFaces opts then indices st ++ fan (i st) n else indices st;
     edgeIndices := if useEdges opts then edgeIndices st ++ ring (i st) n
                    else edgeIndices st;
     faceG := faceG st; edgeG := edgeG st; pointG := pointG st |}.

(** Lines 115-177: what a cell with a closed chain adds to the output. *)
Definition emit (opts : Options) (cellIndex : nat) (linkedPairs : list point3)
  (st : Frame num) : result (Frame num) :=
  forEachM (write_point opts cellIndex) 0 linkedPairs
    (push_indices opts (length linkedPairs) st).

(** Lines 180-202 read the attributes of every geometry whose flag is set,
    and its colour attribute when colours are used: reading them of a
    geometry that is not there raises a TypeError. *)
Definition attributes (opts : Options) (g : option (BufferGeometry num))
  : result (BufferGeometry num) :=
  match g with
  | None => Throw TypeError
  | Some g =>
      if useColors opts then
        match color g with None => Throw TypeError | Some _ => Ok g end
      else Ok g
  end.

(** Lines 180-188 *)
Definition finish_faces (opts : Options) (st : Frame num)
  : result (option (BufferGeometry num)) :=
  if useFaces opts then
    g ← attributes opts (faceG st);
    Ok (Some (computeVertexNormals vertexNormals (setIndex (indices st) g)))
  else Ok (faceG st).

(** Lines 189-195 *)
Definition finish_edges (opts : Options) (st : Frame num)
  : result (option (BufferGeometry num)) :=
  if useEdges opts then
    g ← attributes opts (edgeG st);
    Ok (Some (setIndex (edgeIndices st) g))
  else Ok (edgeG st).

(** Lines 196-202 *)
Definition finish_points (opts : Options) (st : Frame num)
  : result (option (BufferGeometry num)) :=
  if usePoints opts then
    g ← attributes opts (pointG st);
    Ok (Some (setDrawRange (i st) g))
  else Ok (pointG st).

(** Lines 66-68: the frame at the start of [update], with no call of
    [slice] made yet. *)
Definition start (b : Builder num vertex)
  : Frame num * list (option vertex * option vertex) :=
  ({| i := 0; indices := []; edgeIndices := [];
      faceG := geometry b; edgeG := edgeGeometry b; pointG := pointGeometry b |},
   []).

(** Line 29: [2 * cells.reduce((rv, c) => rv + c.length, 0)] *)
Definition maxPositions (shape : Shape vertex) : nat :=
  2 * foldl (fun rv c => rv + length c) 0 (cells shape).

End Model.

(** The methods, as programs that call [slice]. *)
Module Method.

Section Model.
Context {num : Type} `{Number num}.
Context {vertex : Type}.

(** A method: its calls of [slice] take a pair of vertices and return a
    point or a falsy value. *)
Abbreviation Sliced := (prog (option vertex * option vertex) (option (list num))).

Variable vertexNormals : list num -> option (list Z) -> list num.
Variable colorGetter : PairContext num -> num * num * num.

(** Lines 81-87: [slice] is called on every boundary edge of the face, in
    order, and the falsy results are then filtered out. *)
Definition face_pair (vertices : list vertex) (face : list nat)
  : Sliced (list (list num)) :=
  results ← mapP ask (face_edges vertices face);
  Done (omap (M := list) id results).

(** Lines 77-89: the pairs of a cell.  [faces[faceIndex]] may be undefined,
    and [face.map] then raises a TypeError. *)
Fixpoint collect_pairs (vertices : list vertex)
  (cellFaces : list (option (list nat))) (pairs : list (list (list num)))
  : Sliced (list (list (list num))) :=
  match cellFaces with
  | [] => Done pairs
  | None :: _ => Raise TypeError
  | Some face :: cellFaces' =>
      pair ← face_pair vertices face;
      collect_pairs vertices cellFaces'
        (if 1 <? length pair then pairs ++ [pair] else pairs)
  end.

(** Lines 77-89 for a cell: its faces are looked up and their pairs
    collected. *)
Definition cell_pairs (shape : Shape vertex) (cell : list nat)
  : Sliced (list (list (list num))) :=
  collect_pairs (vertices shape)
    (map (fun faceIndex => faces shape !! faceIndex) cell) [].

(** Lines 69-179: the callback of [cells.forEach]. *)
Definition update_cell (shape : Shape vertex) (opts : Options)
  (st : Frame num) (cellIndex : nat) (cell : list nat) : Sliced (Frame num) :=
  pairs ← cell_pairs shape cell;
  if 2 <? length pairs then
    match reconstruct pairs with
    | Some (Closed linkedPairs) => lift (emit colorGetter opts cellIndex linkedPairs st)
    | Some Abandoned => Done st
    | None => Done st
    end
  else Done st.

(** [update()] *)
Definition update (b : Builder num vertex) : Sliced (Builder num vertex) :=
  st ← forEachP (update_cell (shape b) (options b)) 0 (cells (shape b)) (start b).1;
  g ← lift (finish_faces vertexNormals (options b) st);
  eg ← lift (finish_edges (options b) st);
  pg ← lift (finish_points (options b) st);
  Done {| shape := shape b; options := options b;
          geometry := g; edgeGeometry := eg; pointGeometry := pg |}.

(** [new HyperSliceGeometry(shape, hyperRenderer, options)] *)
Definition constructor (shape : Shape vertex) (opts : Options)
  : Sliced (Builder num vertex) :=
  let new (wanted : bool) :=
    if wanted then Some (initGeometry (useColors opts) (maxPositions shape))
    else None in
  update
    {| shape := shape; options := opts;
       geometry := new (useFaces opts);
       edgeGeometry := new (useEdges opts);
       pointGeometry := new (usePoints opts) |}.

End Model.

End Method.

(** The methods run against a projector whose [slice] is the function
    [slice]: what they return, with the calls of [slice] they have made. *)
Section Run.
Context {num : Type} `{Number num}.
Context {vertex : Type}.

Variable vertexNormals : list num -> option (list Z) -> list num.
Variable colorGetter : PairContext num -> num * num * num.
Variable slice : option vertex -> option vertex -> option (list num).

(** The projector answers a call. *)
Definition answer (e : option vertex * option vertex) : option (list num) :=
  slice e.1 e.2.

(** The pairs of a cell, after the calls [calls]. *)
Definition cell_pairs (shape : Shape vertex) (cell : list nat)
  (calls : list (option vertex * option vertex))
  : result (list (list (list num)) * list (option vertex * option vertex)) :=
  observed calls (run answer (Method.cell_pairs shape cell)).

(** The callback of [cells.forEach], on the frame [st.1] after the calls
    [st.2]. *)
Definition update_cell (shape : Shape vertex) (opts : Options)
  (st : Frame num * list (option vertex * option vertex))
  (cellIndex : nat) (cell : list nat)
  : result (Frame num * list (option vertex * option vertex)) :=
  observed st.2 (run answer (Method.update_cell colorGetter shape opts st.1 cellIndex cell)).

(** [update()]: the builder after the call and the calls of [slice] made,
    in order. *)
Definition update (b : Builder num vertex)
  : result (Builder num vertex * list (option vertex * option vertex)) :=
  observed [] (run answer (Method.update vertexNormals colorGetter b)).

(** [new HyperSliceGeometry(shape, hyperRenderer, options)] *)
Definition constructor (shape : Shape vertex) (opts : Options)
  : result (Builder num vertex * list (option vertex * option vertex)) :=
  observed [] (run answer (Method.constructor vertexNormals colorGetter shape opts)).

End Run.

End HyperSliceGeometry.

(** ** HyperGeometry (src/HyperGeometry.js) *)

Module HyperGeometry.

(** The [type] tag given to the colour getter. *)
Inductive VertexType := Face | Edge | Point.

(** The argument of the colour getter:
    [{ cell: cellIndex, face: faceIndex, vertice: verticeIndex, type }];
    [face] is [null] for the edge and point buffers. *)
Record VertexContext := {
  cell : nat;
  face : option nat;
  vertice : option nat;
  type : VertexType;
}.

(** [this].  An index list holds vertex indices and, where a cell names a
    face that does not exist, the [undefined] that [flat()] keeps.  A list
    of geometries that was never assigned is the empty list: reading its
    [i]-th element raises a TypeError either way. *)
Record Builder (num vertex : Type) := {
  shape : Shape vertex;
  options : Options;
  vertexGeometriesIndices : list (list (option nat));
  dedupVertexGeometriesIndices : list (list (option nat));
  geometries : list (BufferGeometry num);
  edgesGeometries : list (BufferGeometry num);
  pointsGeometries : list (BufferGeometry num);
}.
Arguments shape {num vertex} _.
Arguments options {num vertex} _.
Arguments vertexGeometriesIndices {num vertex} _.
Arguments dedupVertexGeometriesIndices {num vertex} _.
Arguments geometries {num vertex} _.
Arguments edgesGeometries {num vertex} _.
Arguments pointsGeometries {num vertex} _.

Section Model.
Context {num : Type} `{Number num}.
Context {vertex : Type}.

(** The projector's [project(vertex)]: an array of coordinates. *)
Abbreviation Project := (vertex -> list num).

Variable vertexNormals : list num -> option (list Z) -> list num.

(** The getter [this.colorGenerator({ shape, colors })] returns, followed
    by [toArray()]. *)
Variable colorGetter : VertexContext -> num * num * num.

(** [cell.map(faceIndex => this.shape.faces[faceIndex])] *)
Definition cell_faces (shape : Shape vertex) (cell : list nat)
  : list (option (list nat)) :=
  map (fun faceIndex => faces shape !! faceIndex) cell.

(** [faces.flat()]: an undefined face stays as one undefined element. *)
Definition flat (faces : list (option (list nat))) : list (option nat) :=
  flat_map (fun face =>
              match face with
              | Some face => map Some face
              | None => [None]
              end) faces.

(** Lines 49-51: [new Array(face.length - 2)] raises a RangeError for a
    negative length; otherwise [indices.push(faceShift, faceShift + i + 1,
    faceShift + i + 2)] for each [i] below it. *)
Definition fan (faceShift : nat) (faceLength : nat) : result (list Z) :=
  let n := (Z.of_nat faceLength - 2)%Z in
  if (n <? 0)%Z then Throw RangeError
  else Ok (flat_map
             (fun i => [Z.of_nat faceShift; Z.of_nat (faceShift + i + 1);
                        Z.of_nat (faceShift + i + 2)])
             (seq 0 (Z.to_nat n))).

(** Lines 45-54: the triangles of a cell.  Reading [face.length] of an
    undefined face raises a TypeError. *)
Fixpoint tesselate (faces : list (option (list nat)))
  (indices : list Z) (faceShift : nat) : result (list Z) :=
  match faces with
  | [] => Ok indices
  | None :: _ => Throw TypeError
  | Some face :: faces' =>
      triangles ← fan faceShift (length face);
      tesselate faces' (indices ++ triangles) (faceShift + length face)
  end.

(** Lines 68-76: the edges of a cell, as positions in its deduplicated
    index list. *)
Fixpoint edges (verticesIndices : list (option nat))
  (faces : list (option (list nat))) (indices : list Z) : result (list Z) :=
  match faces with
  | [] => Ok indices
  | None :: _ => Throw TypeError
  | Some face :: faces' =>
      edges verticesIndices faces'
        (indices ++
         flat_map (fun e => [indexOf verticesIndices (Some e.2);
                             indexOf verticesIndices (face !! ((e.1 + 1) mod length face))])
                  (imap (fun i verticeIndex => (i, verticeIndex)) face))
  end.

(** Lines 106-108 and the like: three stores at [pos], [pos + 1], [pos + 2]
    for each element, [pos] starting at 0. *)
Definition paint (rgbs : list (num * num * num)) (g : BufferGeometry num)
  : BufferGeometry num :=
  forEach (fun g k rgb => setColor (3 * k) rgb g) 0 rgbs g.

(** Lines 98-110: the colours of a face buffer, one per face vertex. *)
Fixpoint face_colors (cellIndex : nat) (faceIndex : nat)
  (faces : list (option (list nat))) : result (list (num * num * num)) :=
  match faces with
  | [] => Ok []
  | None :: _ => Throw TypeError
  | Some face :: faces' =>
      rest ← face_colors cellIndex (S faceIndex) faces';
      Ok (map (fun verticeIndex =>
                 colorGetter {| cell := cellIndex; face := Some faceIndex;
                                vertice := Some verticeIndex; type := Face |})
              face ++ rest)
  end.

(** Lines 119-129 and 139-149: the colours of an edge or point buffer, one
    per distinct vertex. *)
Definition vertex_colors (t : VertexType) (cellIndex : nat)
  (verticesIndex : list (option nat)) : list (num * num * num) :=
  map (fun verticeIndex =>
         colorGetter {| cell := cellIndex; face := None;
                        vertice := verticeIndex; type := t |})
      verticesIndex.

(** Lines 187-190, 203-206, 217-220: the body of the for loop over an index
    list.  Destructuring [vertices[vertexIndices[i]]] raises a TypeError
    when it is undefined. *)
Definition write_position (vertices : list (list num)) (g : BufferGeometry num)
  (i : nat) (vertexIndex : option nat) : result (BufferGeometry num) :=
  match vertexIndex ≫= (vertices !!.) with
  | None => Throw TypeError
  | Some p => Ok (setPosition (i * 3) (p !! 0) (p !! 1) (p !! 2) g)
  end.

(** Lines 186-191, 202-207, 216-221: the for loop over an index list. *)
Definition write_positions (vertices : list (list num))
  (vertexIndices : list (option nat)) (g : BufferGeometry num)
  : result (BufferGeometry num) :=
  forEachM (write_position vertices) 0 vertexIndices g.

(** Lines 183-196, 200-210, 214-224: the callback of the [map] over the
    index lists of the cells; [after] is [computeVertexNormals] for the face
    buffers and nothing for the others. *)
Definition refresh_cell (after : BufferGeometry num -> BufferGeometry num)
  (vertices : list (list num)) (geometries : list (BufferGeometry num))
  (i : nat) (vertexIndices : list (option nat))
  : result (list (BufferGeometry num)) :=
  match geometries !! i with
  | None => Throw TypeError
  | Some geometry =>
      g ← write_positions vertices vertexIndices geometry;
      Ok (<[i := after g]> geometries)
  end.

(** Lines 183-196, 200-210, 214-224: the [map] over the index lists. *)
Definition refresh (after : BufferGeometry num -> BufferGeometry num)
  (vertices : list (list num)) (indexLists : list (list (option nat)))
  (geometries : list (BufferGeometry num)) : result (list (BufferGeometry num)) :=
  forEachM (refresh_cell after vertices) 0 indexLists geometries.

(** Lines 181-225 of [update()]: the three kinds of buffers are refreshed
    from the projected vertices [projected]. *)
Definition update_buffers (projected : list (list num)) (b : Builder num vertex)
  : result (Builder num vertex) :=
  gs ← (if useFaces (options b)
        then refresh (computeVertexNormals vertexNormals) projected
               (vertexGeometriesIndices b) (geometries b)
        else Ok (geometries b));
  egs ← (if useEdges (options b)
         then refresh id projected (dedupVertexGeometriesIndices b) (edgesGeometries b)
         else Ok (edgesGeometries b));
  pgs ← (if usePoints (options b)
         then refresh id projected (dedupVertexGeometriesIndices b) (pointsGeometries b)
         else Ok (pointsGeometries b));
  Ok {| shape := shape b; options := options b;
        vertexGeometriesIndices := vertexGeometriesIndices b;
        dedupVertexGeometriesIndices := dedupVertexGeometriesIndices b;
        geometries := gs; edgesGeometries := egs; pointsGeometries := pgs |}.

(** Lines 37-57: the face buffers, each with its triangles. *)
Definition init_faces (shape : Shape vertex) (opts : Options)
  (indexLists : list (list (option nat))) : result (list (BufferGeometry num)) :=
  mapM (fun i verticesIndices =>
          indices ← tesselate (cell_faces shape (default [] (cells shape !! i))) [] 0;
          Ok (setIndex indices (initGeometry (useColors opts) (length verticesIndices))))
       0 indexLists.

(** Lines 59-79: the edge buffers, each with its edges. *)
Definition init_edges (shape : Shape vertex) (opts : Options)
  (indexLists : list (list (option nat))) : result (list (BufferGeometry num)) :=
  mapM (fun i verticesIndices =>
          indices ← edges verticesIndices
                      (cell_faces shape (default [] (cells shape !! i))) [];
          Ok (setIndex indices (initGeometry (useColors opts) (length verticesIndices))))
       0 indexLists.

(** Lines 81-85: the point buffers. *)
Definition init_points (opts : Options) (indexLists : list (list (option nat)))
  : list (BufferGeometry num) :=
  map (fun verticesIndices => initGeometry (useColors opts) (length verticesIndices))
      indexLists.

(** Lines 92-113 *)
Definition color_faces (shape : Shape vertex)
  (geometries : list (BufferGeometry num)) : result (list (BufferGeometry num)) :=
  mapM (fun cellIndex geometry =>
          rgbs ← face_colors cellIndex 0
                   (cell_faces shape (default [] (cells shape !! cellIndex)));
          Ok (paint rgbs geometry))
       0 geometries.

(** Lines 114-133 and 134-153.  The geometries were made one per index
    list, so walking them is walking the index lists. *)
Definition color_vertices (t : VertexType) (indexLists : list (list (option nat)))
  (geometries : list (BufferGeometry num)) : list (BufferGeometry num) :=
  imap (fun cellIndex geometry =>
          paint (vertex_colors t cellIndex (default [] (indexLists !! cellIndex)))
                geometry)
       geometries.

(** Lines 19-155 of the constructor: the index lists and the buffers, made
    and coloured before the first [update()]. *)
Definition build (shape : Shape vertex) (opts : Options)
  : result (Builder num vertex) :=
  let expanded := map (fun cell => flat (cell_faces shape cell)) (cells shape) in
  let deduped := map dedup expanded in
  gs ← (if useFaces opts then init_faces shape opts expanded else Ok []);
  egs ← (if useEdges opts then init_edges shape opts deduped else Ok []);
  let pgs := if usePoints opts then init_points opts deduped else [] in
  gs ← (if useColors opts && useFaces opts then color_faces shape gs else Ok gs);
  let egs := if useColors opts && useEdges opts
             then color_vertices Edge deduped egs else egs in
  let pgs := if useColors opts && usePoints opts
             then color_vertices Point deduped pgs else pgs in
  Ok {| shape := shape; options := opts;
        vertexGeometriesIndices := expanded;
        dedupVertexGeometriesIndices := deduped;
        geometries := gs; edgesGeometries := egs; pointsGeometries := pgs |}.

End Model.

(** The methods, as programs that call [project]. *)
Module Method.

Section Model.
Context {num : Type} `{Number num}.
Context {vertex : Type}.

(** A method: its calls of [project] take a vertex and return an array of
    coordinates. *)
Abbreviation Projected := (prog vertex (list num)).

Variable vertexNormals : list num -> option (list Z) -> list num.
Variable colorGetter : VertexContext -> num * num * num.

(** [update()]: [this.shape.vertices.map(project)] (line 179), then the
    buffers. *)
Definition update (b : Builder num vertex) : Projected (Builder num vertex) :=
  projected ← mapP ask (vertices (shape b));
  lift (update_buffers vertexNormals projected b).

(** [new HyperGeometry(shape, hyperRenderer, options)]: line 156 ends the
    constructor with [this.update()]. *)
Definition constructor (shape : Shape vertex) (opts : Options)
  : Projected (Builder num vertex) :=
  b ← lift (build colorGetter shape opts);
  update b.

End Model.

End Method.

(** The methods run against a projector whose [project] is the function
    [project]: what they return, with the calls of [project] they have
    made. *)
Section Run.
Context {num : Type} `{Number num}.
Context {vertex : Type}.

Variable vertexNormals : list num -> option (list Z) -> list num.
Variable colorGetter : VertexContext -> num * num * num.
Variable project : vertex -> list num.

(** [update()]: the builder after the call and the calls of [project]
    made, in order. *)
Definition update (b : Builder num vertex)
  : result (Builder num vertex * list vertex) :=
  observed [] (run project (Method.update vertexNormals b)).

(** [new HyperGeometry(shape, hyperRenderer, options)] *)
Definition constructor (shape : Shape vertex) (opts : Options)
  : result (Builder num vertex * list vertex) :=
  observed [] (run project (Method.constructor vertexNormals colorGetter shape opts)).

End Run.

End HyperGeometry.

(** ** Concrete numbers for the examples *)

Module Small.

(** Integer-valued numbers of small magnitude, and NaN.  On these the
    floating-point operations are exact: the rounding to 32 bits changes
    nothing and [Math.abs(c - d) < 1e-8] holds exactly when [c] and [d] are
    the same number. *)
Inductive small := Num (z : Z) | NaN.

#[export] Instance small_eq_dec : EqDecision small.
Proof. solve_decision. Defined.

#[export] Instance small_number : Number small := {|
  zero := Num 0;
  nan := NaN;
  fround := fun c => c;
  within_epsilon := fun c d =>
    match c, d with
    | Num x, Num y => (x =? y)%Z
    | _, _ => false
    end;
|}.

(** No normals: the examples do not look at them. *)
Definition no_normals (_ : list small) (_ : option (list Z)) : list small := [].

(** A colour getter that paints everything black. *)
Definition black {A : Type} (_ : A) : small * small * small := (Num 0, Num 0, Num 0).

(** A point with the coordinates [x], [y], [z]. *)
Definition pt (x y z : Z) : list small := [Num x; Num y; Num z].

End Small.


(** * An auxiliary formulation of the cell loop

    The functions of this module are not a model of the source: they are a
    device of the proofs.  They compute the result of [update] by another
    route, in which the calls of [slice] are collected in an accumulator
    that every step hands to the next, and in which a store into a geometry
    that is not there is skipped instead of raising, the exception being
    left to the read of the attributes at the end of [update].
    [HyperSliceGeometryMethods.update_threaded] proves that [update] and
    [constructor] of [HyperSliceGeometry] return what [update_logged] and
    [constructor_logged] return, on every builder; the stores themselves
    agree only when the geometries are there
    ([HyperSliceGeometryMethods.write_point_present]). *)

Module HyperSliceGeometryThreaded.
Import HyperSliceGeometry.

Section Model.
Context {num : Type} `{Number num}.
Context {vertex : Type}.

Abbreviation point3 := (list num).
Abbreviation Slice := (option vertex -> option vertex -> option point3).

Variable vertexNormals : list num -> option (list Z) -> list num.
Variable colorGetter : PairContext num -> num * num * num.

(** The pair of a face and the edges of the face, which are the calls
    [Method.face_pair] makes. *)
Definition face_pair_logged (slice : Slice) (vertices : list vertex) (face : list nat)
  : list point3 * list (option vertex * option vertex) :=
  let edges := face_edges vertices face in
  (omap (fun e => slice e.1 e.2) edges, edges).

(** The pairs of the faces, with the calls added to [calls]. *)
Fixpoint collect_pairs_logged (slice : Slice) (vertices : list vertex)
  (cellFaces : list (option (list nat)))
  (pairs : list (list point3)) (calls : list (option vertex * option vertex))
  : result (list (list point3) * list (option vertex * option vertex)) :=
  match cellFaces with
  | [] => Ok (pairs, calls)
  | None :: _ => Throw TypeError
  | Some face :: cellFaces' =>
      let '(pair, made) := face_pair_logged slice vertices face in
      collect_pairs_logged slice vertices cellFaces'
        (if 1 <? length pair then pairs ++ [pair] else pairs)
        (calls ++ made)
  end.

(** The stores of [put] into a geometry that is there. *)
Definition put_if_present (opts : Options) (ctx : PairContext num) (i : nat)
  (g : BufferGeometry num) : BufferGeometry num :=
  let g' := if useColors opts then setColor (3 * i) (colorGetter ctx) g else g in
  setPosition (3 * i) ctx.(point).1.1 ctx.(point).1.2 ctx.(point).2 g'.

(** The stores of [write_point] into the geometries that are there; a
    geometry that is missing is passed over. *)
Definition write_point_if_present (opts : Options) (cellIndex : nat)
  (st : Frame num) (pairIndex : nat) (p : point3) : Frame num :=
  let xyz := (p !! 0, p !! 1, p !! 2) in
  let ctx t := {| cell := cellIndex; pair := pairIndex; point := xyz; type := t |} in
  {| i := S (i st);
     indices := indices st;
     edgeIndices := edgeIndices st;
     faceG := if useFaces opts then put_if_present opts (ctx FacePair) (i st) <$> faceG st
              else faceG st;
     edgeG := if useEdges opts then put_if_present opts (ctx EdgePair) (i st) <$> edgeG st
              else edgeG st;
     pointG := if usePoints opts then put_if_present opts (ctx VertexPair) (i st) <$> pointG st
               else pointG st |}.

(** The indices of a chain, and its points in the geometries that are
    there. *)
Definition emit_if_present (opts : Options) (cellIndex : nat) (linkedPairs : list point3)
  (st : Frame num) : Frame num :=
  forEach (write_point_if_present opts cellIndex) 0 linkedPairs
    (push_indices opts (length linkedPairs) st).

(** The pairs of a cell; [calls] holds the calls of [slice] made before. *)
Definition cell_pairs_logged (slice : Slice) (shape : Shape vertex) (cell : list nat)
  (calls : list (option vertex * option vertex))
  : result (list (list point3) * list (option vertex * option vertex)) :=
  collect_pairs_logged slice (vertices shape)
    (map (fun faceIndex => faces shape !! faceIndex) cell) [] calls.

(** One cell: the state is the frame and the calls of [slice] made so
    far. *)
Definition update_cell_logged (slice : Slice) (shape : Shape vertex) (opts : Options)
  (st : Frame num * list (option vertex * option vertex))
  (cellIndex : nat) (cell : list nat)
  : result (Frame num * list (option vertex * option vertex)) :=
  '(pairs, calls) ← cell_pairs_logged slice shape cell st.2;
  if 2 <? length pairs then
    match reconstruct pairs with
    | Some (Closed linkedPairs) => Ok (emit_if_present opts cellIndex linkedPairs st.1, calls)
    | Some Abandoned => Ok (st.1, calls)
    | None => Ok (st.1, calls)
    end
  else Ok (st.1, calls).

(** The cells, one after the other. *)
Definition run_cells_logged (slice : Slice) (b : Builder num vertex)
  : result (Frame num * list (option vertex * option vertex)) :=
  forEachM (update_cell_logged slice (shape b) (options b)) 0 (cells (shape b)) (start b).

(** The cells, then the reads of the attributes that end [update]. *)
Definition update_logged (slice : Slice) (b : Builder num vertex)
  : result (Builder num vertex * list (option vertex * option vertex)) :=
  '(st, calls) ← run_cells_logged slice b;
  g ← finish_faces vertexNormals (options b) st;
  eg ← finish_edges (options b) st;
  pg ← finish_points (options b) st;
  Ok ({| shape := shape b; options := options b;
         geometry := g; edgeGeometry := eg; pointGeometry := pg |}, calls).

(** The geometries the constructor makes, then [update_logged]. *)
Definition constructor_logged (slice : Slice) (shape : Shape vertex) (opts : Options)
  : result (Builder num vertex * list (option vertex * option vertex)) :=
  let new (wanted : bool) :=
    if wanted then Some (initGeometry (useColors opts) (maxPositions shape))
    else None in
  update_logged slice
    {| shape := shape; options := opts;
       geometry := new (useFaces opts);
       edgeGeometry := new (useEdges opts);
       pointGeometry := new (usePoints opts) |}.

End Model.

End HyperSliceGeometryThreaded.

(** ** Vocabulary of the properties *)

Module Stores.

Section Stores.
Context {num : Type}.

(** A sequence of stores into one typed array: index and value stored. *)
Definition apply_writes (ws : list (nat * num)) (array : list num) : list num :=
  foldl (fun a w => <[w.1 := w.2]> a) array ws.

(** The value the last store to [k] wrote, if any store went to [k]. *)
Fixpoint last_write (k : nat) (ws : list (nat * num)) : option num :=
  match ws with
  | [] => None
  | w :: ws' =>
      match last_write k ws' with
      | Some v => Some v
      | None => if decide (w.1 = k) then Some w.2 else None
      end
  end.

(** The stores of an update into the position array and into the colour
    array of one geometry, applied to it. *)
Definition edit (W : list (nat * num) * list (nat * num)) (g : BufferGeometry num)
  : BufferGeometry num :=
  {| position := apply_writes W.1 (position g);
     color := apply_writes W.2 <$> color g;
     normal := normal g; index := index g; drawRange := drawRange g |}.

(** Both arrays of a geometry hold [n] numbers. *)
Definition sized (n : nat) (g : BufferGeometry num) : Prop :=
  length (position g) = n /\ forall c, color g = Some c -> length c = n.

End Stores.

Section Three.
Context {num : Type} `{Number num}.

(** The three stores of [store3]. *)
Definition stores3 (k : nat) (x y z : option num) : list (nat * num) :=
  [(k, from_option fround nan x); (k + 1, from_option fround nan y);
   (k + 2, from_option fround nan z)].

End Three.

End Stores.

Module SliceVocabulary.
Import HyperSliceGeometry.

Section Vocabulary.
Context {num : Type} `{Number num} {vertex : Type}.

(** Every boundary edge of every face named by every cell, cell after cell
    and face after face: an edge two faces share is listed once for each. *)
Definition sliced_edges (shape : Shape vertex) : list (option vertex * option vertex) :=
  flat_map (fun cell =>
    flat_map (fun faceIndex =>
                from_option (face_edges (vertices shape)) [] (faces shape !! faceIndex))
             cell)
    (cells shape).

(** The boundary edges of a face, vertex after vertex: the edge from the
    vertex at each position of the face to the vertex at the next position,
    the one after the last being the first.  An end of an edge is [None]
    when the face names a vertex that does not exist. *)
Definition boundary_edges (vs : list vertex) (face : list nat)
  : list (option vertex * option vertex) :=
  map (fun k => (face !! k ≫= (vs !!.),
                 face !! ((k + 1) mod length face) ≫= (vs !!.)))
      (seq 0 (length face)).

(** One entry for each boundary edge of each face reference: the cells in
    order, the face indices of a cell in order, the edges of a face in
    order.  A face index that names no face has no edge. *)
Definition edge_references (shape : Shape vertex)
  : list (option vertex * option vertex) :=
  flat_map (fun cell =>
    flat_map (fun faceIndex =>
                match faces shape !! faceIndex with
                | Some face => boundary_edges (vertices shape) face
                | None => []
                end)
             cell)
    (cells shape).

(** No face of a cell is cut in more than two points: [slice] has a result
    for at most two of its boundary edges. *)
Definition two_point_pairs (slice : option vertex -> option vertex -> option (list num))
  (shape : Shape vertex) : Prop :=
  forall cell faceIndex face,
    cell ∈ cells shape -> faceIndex ∈ cell -> faces shape !! faceIndex = Some face ->
    length (omap (fun e => slice e.1 e.2) (boundary_edges (vertices shape) face)) <= 2.

(** A geometry of the builder is there exactly when [wanted], holds
    [3 * maxPositions] positions, and as many colours when colours are used. *)
Definition allocated (shape : Shape vertex) (opts : Options) (wanted : bool)
  (g : option (BufferGeometry num)) : Prop :=
  if wanted then
    exists g', g = Some g' /\ length (position g') = 3 * maxPositions shape /\
      if useColors opts
      then exists c, color g' = Some c /\ length c = 3 * maxPositions shape
      else color g' = None
  else g = None.

(** The invariant of a builder: its three geometries are allocated for its
    shape and options. *)
Definition has_capacity (b : Builder num vertex) : Prop :=
  allocated (shape b) (options b) (useFaces (options b)) (geometry b)
  /\ allocated (shape b) (options b) (useEdges (options b)) (edgeGeometry b)
  /\ allocated (shape b) (options b) (usePoints (options b)) (pointGeometry b).

(** The geometry [g] is there, with its colour attribute when colours are
    used: what a block of the callback reads of it. *)
Definition has_attributes (opts : Options) (g : option (BufferGeometry num)) : Prop :=
  exists g', g = Some g' /\ (useColors opts = true -> is_Some (color g')).

(** The geometry of a block is there when the block is [wanted]. *)
Definition ready (opts : Options) (wanted : bool)
  (g : option (BufferGeometry num)) : Prop :=
  wanted = true -> has_attributes opts g.

(** The geometries of the frame that the options ask for are there, each
    with its colour attribute when colours are used. *)
Definition buffers_present (opts : Options) (st : Frame num) : Prop :=
  ready opts (useFaces opts) (faceG st)
  /\ ready opts (useEdges opts) (edgeG st)
  /\ ready opts (usePoints opts) (pointG st).

(** A geometry the options ask for, or its colour attribute, is missing. *)
Definition buffers_absent (opts : Options) (st : Frame num) : Prop :=
  (useFaces opts = true /\ ~ has_attributes opts (faceG st))
  \/ (useEdges opts = true /\ ~ has_attributes opts (edgeG st))
  \/ (usePoints opts = true /\ ~ has_attributes opts (pointG st)).

(** The number of face references of a list of cells. *)
Definition face_references (cells : list (list nat)) : nat :=
  foldl (fun rv c => rv + length c) 0 cells.

(** The frame [st] with other geometries in place of its own. *)
Definition regeometry (st : Frame num)
  (fg eg pg : option (BufferGeometry num)) : Frame num :=
  {| i := i st; indices := indices st; edgeIndices := edgeIndices st;
     faceG := fg; edgeG := eg; pointG := pg |}.

(** The stores of [put]: three positions at slot [i], and three colours
    when colours are used. *)
Definition put_stores (colorGetter : PairContext num -> num * num * num)
  (opts : Options) (ctx : PairContext num) (i : nat)
  : list (nat * num) * list (nat * num) :=
  (Stores.stores3 (3 * i) ctx.(point).1.1 ctx.(point).1.2 ctx.(point).2,
   if useColors opts
   then let rgb := colorGetter ctx in
        Stores.stores3 (3 * i) (Some rgb.1.1) (Some rgb.1.2) (Some rgb.2)
   else []).

(** A step of [update] that treats the geometries as write-only: what it
    does to the counter and the index lists does not depend on them, and
    what it does to each of them is a sequence of stores. *)
Definition write_only (F : Frame num -> Frame num) : Prop :=
  forall st, exists WF WE WP, forall fg eg pg,
    F (regeometry st fg eg pg)
    = regeometry (F st) (Stores.edit WF <$> fg) (Stores.edit WE <$> eg)
                 (Stores.edit WP <$> pg).

End Vocabulary.

End SliceVocabulary.

Module HyperVocabulary.
Import HyperGeometry.

Section Vocabulary.
Context {num : Type} `{Number num} {vertex : Type}.

(** Two states of one geometry with the same sizes, colours and topology:
    only the contents of the position array and the normals may differ. *)
Definition same_buffers (g g' : BufferGeometry num) : Prop :=
  length (position g') = length (position g)
  /\ color g' = color g /\ index g' = index g /\ drawRange g' = drawRange g.

(** Two states of one builder that differ in positions and normals only. *)
Definition same_topology (b b' : Builder num vertex) : Prop :=
  shape b' = shape b /\ options b' = options b
  /\ vertexGeometriesIndices b' = vertexGeometriesIndices b
  /\ dedupVertexGeometriesIndices b' = dedupVertexGeometriesIndices b
  /\ Forall2 same_buffers (geometries b) (geometries b')
  /\ Forall2 same_buffers (edgesGeometries b) (edgesGeometries b')
  /\ Forall2 same_buffers (pointsGeometries b) (pointsGeometries b').

(** A sequence of [update] calls, one per frame, with the [project] of the
    projector's state at each call. *)
Fixpoint updates (vertexNormals : list num -> option (list Z) -> list num)
  (projects : list (vertex -> list num)) (b : Builder num vertex)
  : result (Builder num vertex) :=
  match projects with
  | [] => Ok b
  | project :: projects' =>
      r ← update vertexNormals project b; updates vertexNormals projects' r.1
  end.

(** A shape in which a cell names faces that exist and a face has [k]
    vertices or more and names vertices that exist. *)
Definition well_formed_from (k : nat) (shape : Shape vertex) : Prop :=
  Forall (fun face => k <= length face /\
                      Forall (fun v => v < length (vertices shape)) face)
         (faces shape)
  /\ Forall (Forall (fun faceIndex => faceIndex < length (faces shape))) (cells shape).

(** The invariants of the data model: faces have three vertices or more. *)
Definition well_formed (shape : Shape vertex) : Prop := well_formed_from 3 shape.

(** An entry of an index list that names one of [n] vertices. *)
Definition names_vertex (n : nat) (vertexIndex : option nat) : Prop :=
  exists v, vertexIndex = Some v /\ v < n.

(** The fan of a face of [k] vertices whose first vertex sits at slot [f]:
    the triangles [(f, f + j + 1, f + j + 2)] for [j] from 0 to [k - 3]. *)
Definition fan_of (f k : nat) : list Z :=
  flat_map (fun j => [Z.of_nat f; (Z.of_nat f + Z.of_nat j + 1)%Z;
                      (Z.of_nat f + Z.of_nat j + 2)%Z])
           (seq 0 (k - 2)).

(** The fans of the faces of a cell, the first of which starts at slot [f]. *)
Fixpoint fans_of (f : nat) (faces : list (list nat)) : list Z :=
  match faces with
  | [] => []
  | face :: faces' => fan_of f (length face) ++ fans_of (f + length face) faces'
  end.

End Vocabulary.

End HyperVocabulary.

Module CycleVocabulary.
Import HyperSliceGeometry.

Section Vocabulary.
Context {num : Type} `{Number num}.

(** [lab] names the vertex of the cross-section a point stands for: two
    points with the same name are one vertex seen from two faces. *)
Variable lab : list num -> nat.








End Vocabulary.

End CycleVocabulary.

Module LoopVocabulary.
Import HyperSliceGeometry.

Section Vocabulary.
Context {num : Type} `{Number num}.

(** What the for loop does with a pair that matches [dangle]: it pushes the
    second endpoint when the first is near [dangle], and the first endpoint
    when only the second is. *)
Definition takes (dangle : list num) (pair : list (list num)) (next : list num)
  : Prop :=
  (near (endpoints pair).1 dangle = true /\ next = (endpoints pair).2)
  \/ (near (endpoints pair).1 dangle = false
      /\ near (endpoints pair).2 dangle = true /\ next = (endpoints pair).1).

End Vocabulary.

End LoopVocabulary.

Module ArrayVocabulary.

(** The array with the numbers [xs] in place of those it had from index
    [k] on. *)
Definition overwrite {A : Type} (k : nat) (xs : list A) (array : list A) : list A :=
  take k array ++ xs ++ drop (k + length xs) array.

Section Numbers.
Context {num : Type} `{Number num}.

(** The three numbers the stores [array[k] = x], [array[k + 1] = y],
    [array[k + 2] = z] leave in a [Float32Array]: each value rounded to 32
    bits, NaN for [undefined]. *)
Definition stored3 (x y z : option num) : list num :=
  [from_option fround nan x; from_option fround nan y; from_option fround nan z].

(** The three numbers a position write stores for a point: its first three
    coordinates rounded to 32 bits, NaN where the point has none. *)
Definition coords3 (p : list num) : list num := stored3 (p !! 0) (p !! 1) (p !! 2).

(** The three numbers a colour write stores. *)
Definition rgb3 (rgb : num * num * num) : list num :=
  stored3 (Some rgb.1.1) (Some rgb.1.2) (Some rgb.2).

End Numbers.

End ArrayVocabulary.

Module SliceOutputVocabulary.
Import HyperSliceGeometry ArrayVocabulary.

Section Vocabulary.
Context {num : Type} `{Number num} {vertex : Type}.

(** The chain a cell emits: the closed chain of its pairs when it has more
    than two pairs and the loop reconstruction succeeds, no point otherwise. *)
Definition cell_chain (slice : option vertex -> option vertex -> option (list num))
  (shape : Shape vertex) (cell : list nat) : list (list num) :=
  match cell_pairs slice shape cell [] with
  | Ok (pairs, _) =>
      if 2 <? length pairs then
        match reconstruct pairs with
        | Some (Closed chain) => chain
        | _ => []
        end
      else []
  | Throw _ => []
  end.

(** The triangles of a sequence of chains laid out one after the other
    from slot [i]. *)
Fixpoint chain_fans (i : nat) (chains : list (list (list num))) : list Z :=
  match chains with
  | [] => []
  | chain :: chains' =>
      fan i (length chain) ++ chain_fans (i + length chain) chains'
  end.

(** The edges of a sequence of chains laid out one after the other from
    slot [i]. *)
Fixpoint chain_rings (i : nat) (chains : list (list (list num))) : list Z :=
  match chains with
  | [] => []
  | chain :: chains' =>
      ring i (length chain) ++ chain_rings (i + length chain) chains'
  end.

(** The colours of the points of a chain: the getter is given the cell, the
    position of the point in the chain, the first three coordinates of the
    point and the tag of the geometry. *)
Definition chain_paints (colorGetter : PairContext num -> num * num * num)
  (tag : PairType) (cellIndex : nat) (chain : list (list num))
  : list (num * num * num) :=
  imap (fun pairIndex p =>
          colorGetter {| cell := cellIndex; pair := pairIndex;
                         point := (p !! 0, p !! 1, p !! 2); type := tag |})
       chain.

(** The colours of the points of the chains of the cells [cs], the first of
    which is cell [cellIndex]. *)
Fixpoint cells_paints (colorGetter : PairContext num -> num * num * num)
  (tag : PairType) (slice : option vertex -> option vertex -> option (list num))
  (shape : Shape vertex) (cellIndex : nat) (cs : list (list nat))
  : list (num * num * num) :=
  match cs with
  | [] => []
  | cell :: cs' =>
      chain_paints colorGetter tag cellIndex (cell_chain slice shape cell)
      ++ cells_paints colorGetter tag slice shape (S cellIndex) cs'
  end.

(** Every face index of every cell names a face of the shape. *)
Definition faces_exist (shape : Shape vertex) : Prop :=
  Forall (Forall (fun faceIndex => faceIndex < length (faces shape))) (cells shape).

End Vocabulary.

End SliceOutputVocabulary.

Module HyperOutputVocabulary.
Import HyperGeometry HyperVocabulary.

Section Vocabulary.
Context {num : Type} `{Number num} {vertex : Type}.

(** The projected vertices an index list names, in its order. *)
Definition points_of (projected : list (list num)) (vertexIndices : list (option nat))
  : list (list num) :=
  omap (fun vertexIndex => vertexIndex ≫= (projected !!.)) vertexIndices.

(** The geometries of one kind can be refreshed for a shape of [n]
    vertices: every index list has its geometry and names vertices that
    exist. *)
Definition refreshable (n : nat) (indexLists : list (list (option nat)))
  (gs : list (BufferGeometry num)) : Prop :=
  length indexLists <= length gs /\ Forall (Forall (names_vertex n)) indexLists.

(** The ends of the boundary edges of a face, edge after edge: each vertex
    and the one after it, the first one after the last. *)
Definition boundary (face : list nat) : list (option nat) :=
  flat_map (fun k => [face !! k; face !! ((k + 1) mod length face)])
           (seq 0 (length face)).

(** The buffers of a geometry made for an index list of [n] entries:
    three positions per entry, and as many colours when colours are used. *)
Definition fits (useColors : bool) (n : nat) (g : BufferGeometry num) : Prop :=
  length (position g) = 3 * n
  /\ if useColors then exists c, color g = Some c /\ length c = 3 * n
     else color g = None.

(** The invariant of a builder: one geometry per index list for each kind
    in use, of the size of its index list, and none for the other kinds. *)
Definition fitted (b : Builder num vertex) : Prop :=
  (if useFaces (options b)
   then Forall2 (fun l g => fits (useColors (options b)) (length l) g)
          (vertexGeometriesIndices b) (geometries b)
   else geometries b = [])
  /\ (if useEdges (options b)
      then Forall2 (fun l g => fits (useColors (options b)) (length l) g)
             (dedupVertexGeometriesIndices b) (edgesGeometries b)
      else edgesGeometries b = [])
  /\ (if usePoints (options b)
      then Forall2 (fun l g => fits (useColors (options b)) (length l) g)
             (dedupVertexGeometriesIndices b) (pointsGeometries b)
      else pointsGeometries b = []).

(** The two entries line 71 pushes for each vertex of a face: the position
    of the vertex and of the next vertex of the face in the deduplicated
    index list [verticesIndices]. *)
Definition edge_indices (verticesIndices : list (option nat)) (face : list nat)
  : list Z :=
  flat_map (fun e => [indexOf verticesIndices (Some e.2);
                      indexOf verticesIndices (face !! ((e.1 + 1) mod length face))])
           (imap (fun i verticeIndex => (i, verticeIndex)) face).

(** A cell the constructor can build with the options [opts]: its face
    indices name faces, the faces name vertices that exist, and with face
    buffers every face has two vertices or more. *)
Definition cell_ready (opts : Options) (shape : Shape vertex) (cell : list nat)
  : Prop :=
  exists cellFaces,
    Forall2 (fun faceIndex face => faces shape !! faceIndex = Some face) cell cellFaces
    /\ Forall (fun face =>
                 Forall (fun v => v < length (vertices shape)) face
                 /\ (useFaces opts = true -> 2 <= length face))
              cellFaces.

(** Every cell of the shape is ready: nothing is asked of a face that no
    cell names. *)
Definition buildable (opts : Options) (shape : Shape vertex) : Prop :=
  Forall (cell_ready opts shape) (cells shape).

(** The faces of a shape are fit for the buffers the options ask for,
    whatever vertices they name: every face index of every cell names a
    face, and with face buffers each of these faces has two vertices or
    more. *)
Definition faces_ready (opts : Options) (shape : Shape vertex) : Prop :=
  Forall (fun cell =>
            exists cellFaces,
              Forall2 (fun faceIndex face => faces shape !! faceIndex = Some face)
                      cell cellFaces
              /\ (useFaces opts = true ->
                  Forall (fun face => 2 <= length face) cellFaces))
         (cells shape).

(** The colours of the face buffer of cell [cellIndex]: one per vertex of
    each face, the face given by its position in the cell. *)
Definition face_paints (colorGetter : VertexContext -> num * num * num)
  (cellIndex : nat) (cellFaces : list (list nat)) : list (num * num * num) :=
  concat (imap (fun faceIndex face =>
                  map (fun verticeIndex =>
                         colorGetter {| cell := cellIndex; face := Some faceIndex;
                                        vertice := Some verticeIndex; type := Face |})
                      face)
               cellFaces).

End Vocabulary.

End HyperOutputVocabulary.

Module Spare.
Import Small.

(** A square cell beside a face of one vertex that names a vertex that
    does not exist: no cell names that face. *)
Definition shape : Shape nat :=
  {| vertices := [0; 1; 2; 3]; faces := [[0; 1; 2; 3]; [9]]; cells := [[0]] |}.

End Spare.

(** ** Example shapes *)

Module Tetrahedron.
Import Small.

(** A tetrahedron as the one cell of a shape.  Its four vertices are named
    0, 1, 2, 3; the slicing hyperplane separates vertex 0 from the other
    three, so that it cuts the edges 0-1, 0-2 and 0-3 and three of the four
    faces. *)
Definition shape : Shape nat :=
  {| vertices := [0; 1; 2; 3];
     faces := [[0; 1; 2]; [0; 1; 3]; [0; 3; 2]; [1; 2; 3]];
     cells := [[0; 1; 2; 3]] |}.

(** The point at which the edge from vertex 0 to vertex [k] is cut. *)
Definition cut (k : nat) : list small := pt (Z.of_nat k) 0 0.


(** The pairs of the cell under [slice]: the sides of a triangle. *)
Definition pairs : list (list (list small)) :=
  [[cut 1; cut 2]; [cut 1; cut 3]; [cut 3; cut 2]].

(** A [slice] for that hyperplane. *)
Definition slice (p1 p2 : option nat) : option (list small) :=
  match p1, p2 with
  | Some 0, Some (S k) => Some (cut (S k))
  | Some (S k), Some 0 => Some (cut (S k))
  | _, _ => None
  end.

(** The calls of [slice] for the cell: the three edges of each face. *)
Definition sliced_edges_of_cell : list (option nat * option nat) :=
  [(Some 0, Some 1); (Some 1, Some 2); (Some 2, Some 0);
   (Some 0, Some 1); (Some 1, Some 3); (Some 3, Some 0);
   (Some 0, Some 3); (Some 3, Some 2); (Some 2, Some 0);
   (Some 1, Some 2); (Some 2, Some 3); (Some 3, Some 1)].

(** A [slice] whose result for the edge 0-3 depends on the direction in
    which the edge is given, as for a projector that returns inconsistent
    results: the pairs of the cell no longer close. *)
Definition broken_slice (p1 p2 : option nat) : option (list small) :=
  match p1, p2 with
  | Some 0, Some 3 => Some (pt 9 9 9)
  | _, _ => slice p1 p2
  end.


(** The builder as the constructor has it before its closing [update],
    with every buffer wanted. *)
Definition fresh : HyperSliceGeometry.Builder small nat :=
  let opts := {| useColors := true; useFaces := true; useEdges := true;
                 usePoints := true |} in
  let g := Some (initGeometry true (HyperSliceGeometry.maxPositions shape)) in
  {| HyperSliceGeometry.shape := shape; HyperSliceGeometry.options := opts;
     HyperSliceGeometry.geometry := g; HyperSliceGeometry.edgeGeometry := g;
     HyperSliceGeometry.pointGeometry := g |}.

(** A builder with the default options whose geometries are missing. *)
Definition bare : HyperSliceGeometry.Builder small nat :=
  {| HyperSliceGeometry.shape := shape; HyperSliceGeometry.options := defaults;
     HyperSliceGeometry.geometry := None; HyperSliceGeometry.edgeGeometry := None;
     HyperSliceGeometry.pointGeometry := None |}.

(** The frame at the start of [update], for the builder without geometries. *)
Definition start : HyperSliceGeometry.Frame small * list (option nat * option nat) :=
  HyperSliceGeometry.start bare.

End Tetrahedron.

Module Square.
Import Small.

(** A shape of one cell with one square face.  Vertex [k] is projected to
    the point (k, 0, 0). *)
Definition shape : Shape nat :=
  {| vertices := [0; 1; 2; 3]; faces := [[0; 1; 2; 3]]; cells := [[0]] |}.

Definition project (v : nat) : list small := pt (Z.of_nat v) 0 0.

(** The same vertices seen by a projector in another state. *)
Definition project' (v : nat) : list small := pt 0 (Z.of_nat v) 1.

(** A shape whose only face has two vertices. *)
Definition digon : Shape nat :=
  {| vertices := [0; 1]; faces := [[0; 1]]; cells := [[0]] |}.

(** A shape whose cell names a face that does not exist. *)
Definition dangling_face : Shape nat :=
  {| vertices := [0; 1; 2]; faces := [[0; 1; 2]]; cells := [[0; 7]] |}.

(** A shape whose face names a vertex that does not exist. *)
Definition dangling_vertex : Shape nat :=
  {| vertices := [0; 1; 2]; faces := [[0; 1; 9]]; cells := [[0]] |}.

(** A shape with a face of a single vertex. *)
Definition monogon : Shape nat :=
  {| vertices := [0; 1]; faces := [[0]]; cells := [[0]] |}.

Definition all_buffers : Options :=
  {| useColors := true; useFaces := true; useEdges := true; usePoints := true |}.

(** The options of a builder with edge buffers alone. *)
Definition edges_only : Options :=
  {| useColors := false; useFaces := false; useEdges := true; usePoints := false |}.

(** The options of a builder with point buffers alone. *)
Definition points_only : Options :=
  {| useColors := false; useFaces := false; useEdges := false; usePoints := true |}.

(** A shape with a triangle and a face of two vertices. *)
Definition flag : Shape nat :=
  {| vertices := [0; 1; 2; 3]; faces := [[0; 1; 2]; [2; 3]; [0; 1; 2; 3]];
     cells := [[0; 1; 2]] |}.

End Square.

(** * Properties *)

(** ** The result monad and the typed arrays *)

Module JSFacts.

Lemma bind_Ok {A B : Type} (c : result A) (f : A -> result B) (b : B) :
  c ≫= f = Ok b -> exists a, c = Ok a /\ f a = Ok b.
Proof. destruct c as [a|e]; [eauto | discriminate]. Qed.

Lemma flat_map_fmap {A B C : Type} (f : B -> list C) (g : A -> B) (xs : list A) :
  flat_map f (map g xs) = flat_map (fun x => f (g x)) xs.
Proof. induction xs as [|x xs IH]; simpl; [done | by rewrite IH]. Qed.

Lemma forEach_app {A S : Type} (f : S -> nat -> A -> S) k (xs ys : list A) s :
  forEach f k (xs ++ ys) s = forEach f (k + length xs) ys (forEach f k xs s).
Proof.
  revert k s. induction xs as [|x xs IH]; intros k s; simpl.
  - by rewrite Nat.add_0_r.
  - rewrite IH. f_equal. lia.
Qed.

Lemma forEachM_app {A S : Type} (f : S -> nat -> A -> result S) k xs ys s :
  forEachM f k (xs ++ ys) s
  = forEachM f k xs s ≫= forEachM f (k + length xs) ys.
Proof.
  revert k s. induction xs as [|x xs IH]; intros k s; simpl.
  - by rewrite Nat.add_0_r.
  - destruct (f s k x) as [s'|e]; simpl; [|done].
    rewrite IH. do 2 f_equal. lia.
Qed.

Lemma mapM_length {A B : Type} (f : nat -> A -> result B) k xs ys :
  mapM f k xs = Ok ys -> length ys = length xs.
Proof.
  revert k ys. induction xs as [|x xs IH]; intros k ys; simpl.
  - by intros [= <-].
  - intros Hrun. apply bind_Ok in Hrun as (y & _ & Hrun).
    apply bind_Ok in Hrun as (ys' & Hrest & [= <-]).
    simpl. f_equal. by eapply IH.
Qed.

Lemma mapM_lookup {A B : Type} (f : nat -> A -> result B) k xs ys j x :
  mapM f k xs = Ok ys -> xs !! j = Some x ->
  exists y, ys !! j = Some y /\ f (k + j) x = Ok y.
Proof.
  revert k ys j. induction xs as [|x0 xs IH]; intros k ys j; simpl; [done|].
  intros Hrun. apply bind_Ok in Hrun as (y & Hy & Hrun).
  apply bind_Ok in Hrun as (ys' & Hrest & [= <-]).
  destruct j as [|j]; simpl.
  - intros [= <-]. exists y. by rewrite Nat.add_0_r.
  - intros Hx. destruct (IH _ _ _ Hrest Hx) as (y' & Hy' & Hf).
    exists y'. split; [done|]. by replace (k + S j) with (S k + j) by lia.
Qed.

Lemma mapM_Ok {A B : Type} (f : nat -> A -> result B) k xs :
  (forall j x, xs !! j = Some x -> exists y, f (k + j) x = Ok y) ->
  exists ys, mapM f k xs = Ok ys.
Proof.
  revert k. induction xs as [|x xs IH]; intros k Hall; simpl; [by eauto|].
  destruct (Hall 0 x eq_refl) as [y Hy]. rewrite Nat.add_0_r in Hy. rewrite Hy. simpl.
  destruct (IH (S k)) as [ys Hys].
  { intros j x' Hx'. destruct (Hall (S j) x' Hx') as [y' Hy'].
    exists y'. by replace (S k + j) with (k + S j) by lia. }
  rewrite Hys. simpl. by eauto.
Qed.

Lemma mapM_Throw {A B : Type} (f : nat -> A -> result B) k xs j x e :
  xs !! j = Some x -> f (k + j) x = Throw e -> exists e', mapM f k xs = Throw e'.
Proof.
  revert k j. induction xs as [|x0 xs IH]; intros k j; simpl; [done|].
  destruct j as [|j]; simpl.
  - intros [= <-]. rewrite Nat.add_0_r. intros ->. simpl. by eauto.
  - intros Hx Hf. destruct (f k x0) as [y|e0]; simpl; [|by eauto].
    destruct (IH (S k) j Hx) as [e' ->]; [|simpl; by eauto].
    by replace (S k + j) with (k + S j) by lia.
Qed.

Lemma dedup_step_elem {A : Type} `{EqDecision A} (xs seen : list A) x :
  x ∈ fold_left (fun seen x => if decide (x ∈ seen) then seen else seen ++ [x]) xs seen ->
  x ∈ seen \/ x ∈ xs.
Proof.
  revert seen. induction xs as [|y xs IH]; intros seen; simpl; [by left|].
  intros Hin. apply IH in Hin as [Hin|Hin]; [|right; by right].
  destruct (decide (y ∈ seen)); [by left|].
  apply elem_of_app in Hin as [Hin|Hin]; [by left|].
  apply list_elem_of_singleton in Hin as ->. right. by left.
Qed.

Lemma dedup_elem {A : Type} `{EqDecision A} (xs : list A) x : x ∈ dedup xs -> x ∈ xs.
Proof.
  intros Hin. apply dedup_step_elem in Hin as [Hin|Hin]; [|done].
  by apply not_elem_of_nil in Hin.
Qed.

Section Float32Array.
Context {num : Type} `{Number num}.

Lemma length_new_Float32Array n : length (new_Float32Array n) = n.
Proof. apply length_replicate. Qed.

Lemma length_store (array : list num) k v : length (store array k v) = length array.
Proof. apply length_insert. Qed.

Lemma length_store3 (array : list num) k x y z :
  length (store3 array k x y z) = length array.
Proof. unfold store3. by rewrite !length_store. Qed.

End Float32Array.

End JSFacts.
Import JSFacts.

(** ** The loop reconstruction of HyperSliceGeometry *)

Module HyperSliceGeometryLoop.
Import HyperSliceGeometry.

Section Loop.
Context {num : Type} `{Number num}.

Implicit Types (p dangle : list num) (linkedPairs : list (list num)).
Implicit Types (pairs : list (list (list num))).

Lemma scan_length dangle pairs pairs' p :
  scan dangle pairs = Some (pairs', p) -> S (length pairs') = length pairs.
Proof.
  revert pairs'. induction pairs as [|pair pairs IH]; intros pairs'; simpl; [done|].
  destruct (endpoints pair) as [p1 p2].
  destruct (near p1 dangle); [by intros [= <- _]|].
  destruct (near p2 dangle); [by intros [= <- _]|].
  destruct (scan dangle pairs) as [[rest q]|]; simpl; [|done].
  intros [= <- ->]. simpl. f_equal. by apply IH.
Qed.

Lemma scan_None dangle pairs :
  scan dangle pairs = None <-> Forall (unmatched dangle) pairs.
Proof.
  induction pairs as [|pair pairs IH]; simpl.
  - split; [constructor | done].
  - rewrite Forall_cons. unfold unmatched at 1.
    destruct (endpoints pair) as [p1 p2]; simpl.
    destruct (near p1 dangle); [split; [done | by intros [[? ?] _]]|].
    destruct (near p2 dangle); [split; [done | by intros [[? ?] _]]|].
    destruct (scan dangle pairs) as [[rest q]|]; simpl.
    + split; [done|]. intros [_ HF]. by apply IH in HF.
    + split; [|done]. intros _. split; [done|]. by apply IH.
Qed.

Lemma loop_body_length st st' : iterates st st' -> S (length st'.2) = length st.2.
Proof.
  unfold iterates, loop_body. destruct st as [linkedPairs pairs]; simpl.
  destruct (scan _ pairs) as [[pairs' p]|] eqn:E; simpl; [|done].
  intros [= <-]. simpl. by eapply scan_length.
Qed.

Lemma link_loop_step fuel linkedPairs pair pairs :
  link_loop (S fuel) linkedPairs (pair :: pairs)
  = match loop_body (linkedPairs, pair :: pairs) with
    | None => Some Abandoned
    | Some st' => link_loop fuel st'.1 st'.2
    end.
Proof. simpl. by destruct (loop_body _) as [[? ?]|]. Qed.

Lemma loop_body_nil linkedPairs : loop_body (linkedPairs, []) = None.
Proof. done. Qed.

Lemma link_loop_enough fuel linkedPairs pairs :
  length pairs <= fuel -> exists out, link_loop fuel linkedPairs pairs = Some out.
Proof.
  revert linkedPairs pairs.
  induction fuel as [|fuel IH]; intros linkedPairs [|pair pairs] Hlen;
    try (by simpl; eauto); try (simpl in Hlen; lia).
  rewrite link_loop_step.
  destruct (loop_body (linkedPairs, pair :: pairs)) as [st'|] eqn:E; [|by eauto].
  apply IH. apply loop_body_length in E. simpl in *. lia.
Qed.

Lemma link_loop_more fuel fuel' linkedPairs pairs out :
  link_loop fuel linkedPairs pairs = Some out -> fuel <= fuel' ->
  link_loop fuel' linkedPairs pairs = Some out.
Proof.
  revert fuel' linkedPairs pairs.
  induction fuel as [|fuel IH]; intros fuel' linkedPairs [|pair pairs];
    try (by destruct fuel'); try done.
  rewrite link_loop_step. intros Hrun Hle.
  destruct fuel' as [|fuel']; [lia|]. rewrite link_loop_step.
  destruct (loop_body (linkedPairs, pair :: pairs)) as [st'|]; [|done].
  apply IH; [done | lia].
Qed.

(** A run that reaches a state in which no remaining pair matches the
    dangling point ends in [Abandoned]. *)
Lemma link_loop_abandoned fuel st st' :
  rtc iterates st st' -> st'.2 <> [] -> Forall (unmatched (dangle_of st'.1)) st'.2 ->
  length st.2 <= fuel -> link_loop fuel st.1 st.2 = Some Abandoned.
Proof.
  intros Hrtc Hne Hun. revert fuel.
  induction Hrtc as [[l ps]|[l ps] st1 st' Hstep _ IH]; intros fuel Hlen.
  - simpl in *. destruct ps as [|pair ps]; [done|].
    destruct fuel as [|fuel]; [simpl in Hlen; lia|].
    rewrite link_loop_step. apply scan_None in Hun.
    unfold loop_body. simpl fst. simpl snd. by rewrite Hun.
  - pose proof (loop_body_length _ _ Hstep) as Hl. simpl in Hl, Hlen |- *.
    destruct ps as [|pair ps]; [by unfold iterates in Hstep|].
    destruct fuel as [|fuel]; [simpl in Hlen; lia|].
    rewrite link_loop_step. unfold iterates in Hstep. rewrite Hstep.
    apply IH; [done..|]. simpl in *. lia.
Qed.

(** C10: the while loop of the loop reconstruction terminates.  An
    iteration either takes the [return] or leaves exactly one pair fewer;
    hence [length pairs] iterations always reach the end of the loop,
    whatever the chain and the pairs are, and [reconstruct] has a result for
    every non-empty list of pairs. *)
Theorem link_loop_terminates linkedPairs pairs :
  (loop_body (linkedPairs, pairs) = None \/
   exists st', loop_body (linkedPairs, pairs) = Some st' /\
               S (length st'.2) = length pairs)
  /\ (forall fuel, length pairs <= fuel ->
        exists out, link_loop fuel linkedPairs pairs = Some out)
  /\ exists out, reconstruct (linkedPairs :: pairs) = Some out.
Proof.
  split; [|split].
  - destruct (loop_body (linkedPairs, pairs)) as [st'|] eqn:E; [right | by left].
    exists st'. split; [done|]. by apply (loop_body_length _ _ E).
  - intros fuel. apply link_loop_enough.
  - simpl. by apply link_loop_enough.
Qed.

End Loop.

Import Small.

(** The loop on a broken chain: the pair from (5,5,5) to (6,6,6) touches
    nothing. *)
Lemma link_loop_terminates_witness :
  exists out,
    link_loop 3 [pt 0 0 0; pt 1 0 0]
      [[pt 1 0 0; pt 0 1 0]; [pt 5 5 5; pt 6 6 6]; [pt 0 1 0; pt 0 0 0]] = Some out.
Proof.
  apply (link_loop_terminates [pt 0 0 0; pt 1 0 0]). simpl. lia.
Defined.

End HyperSliceGeometryLoop.

(** ** Sequences of stores *)

Module StoresFacts.
Import Stores.

Section Stores.
Context {num : Type}.
Implicit Types (ws : list (nat * num)) (a : list num).

Lemma apply_writes_cons w ws a :
  apply_writes (w :: ws) a = apply_writes ws (<[w.1 := w.2]> a).
Proof. reflexivity. Qed.

Lemma length_apply_writes ws a : length (apply_writes ws a) = length a.
Proof.
  revert a. induction ws as [|w ws IH]; intros a; [done|].
  by rewrite apply_writes_cons, IH, length_insert.
Qed.

Lemma apply_writes_app ws1 ws2 a :
  apply_writes (ws1 ++ ws2) a = apply_writes ws2 (apply_writes ws1 a).
Proof. apply foldl_app. Qed.

(** The last store to an index decides what the array holds there. *)
Lemma lookup_apply_writes ws a k :
  apply_writes ws a !! k
  = match last_write k ws with
    | Some v => if decide (k < length a) then Some v else None
    | None => a !! k
    end.
Proof.
  revert a. induction ws as [|w ws IH]; intros a; [done|].
  rewrite apply_writes_cons, IH, length_insert. simpl.
  destruct (last_write k ws) as [v|]; [done|].
  destruct (decide (w.1 = k)) as [<-|Hne].
  - destruct (decide (w.1 < length a)) as [Hlt|Hge].
    + by apply list_lookup_insert_eq.
    + rewrite list_insert_ge by lia. apply lookup_ge_None. lia.
  - by apply list_lookup_insert_ne.
Qed.

(** Doing the same stores again changes nothing. *)
Lemma apply_writes_idem ws a :
  apply_writes ws (apply_writes ws a) = apply_writes ws a.
Proof.
  apply list_eq. intros k.
  rewrite (lookup_apply_writes ws (apply_writes ws a)), length_apply_writes.
  rewrite (lookup_apply_writes ws a).
  by destruct (last_write k ws).
Qed.

Lemma edit_nil (g : BufferGeometry num) : edit ([], []) g = g.
Proof. destruct g as [p [c|] n i d]; reflexivity. Qed.

Lemma edit_edit W1 W2 (g : BufferGeometry num) :
  edit W2 (edit W1 g) = edit (W1.1 ++ W2.1, W1.2 ++ W2.2) g.
Proof.
  unfold edit. simpl. rewrite !apply_writes_app. f_equal.
  destruct (color g); simpl; [|done]. by rewrite apply_writes_app.
Qed.

Lemma sized_edit n W (g : BufferGeometry num) : sized n g -> sized n (edit W g).
Proof.
  intros [Hp Hc]. split; simpl.
  - by rewrite length_apply_writes.
  - intros c. destruct (color g) as [c0|]; simpl; [|done].
    intros [= <-]. rewrite length_apply_writes. by apply Hc.
Qed.

Lemma edit_idem W (g : BufferGeometry num) : edit W (edit W g) = edit W g.
Proof.
  unfold edit. simpl. rewrite apply_writes_idem. f_equal.
  destruct (color g); simpl; [|done]. by rewrite apply_writes_idem.
Qed.

(** A geometry that holds what the stores [W] have left is not changed by
    doing them again. *)
Lemma edit_fixed W (h g : BufferGeometry num) :
  position h = position (edit W g) -> color h = color (edit W g) -> edit W h = h.
Proof.
  destruct h as [p c n ix d]. simpl. intros -> ->. unfold edit. simpl.
  rewrite apply_writes_idem. f_equal.
  destruct (color g); simpl; [|done]. by rewrite apply_writes_idem.
Qed.

End Stores.

Section Three.
Context {num : Type} `{Number num}.

Lemma store3_stores (a : list num) k x y z :
  store3 a k x y z = apply_writes (stores3 k x y z) a.
Proof. reflexivity. Qed.

Lemma setPosition_edit k x y z (g : BufferGeometry num) :
  setPosition k x y z g = edit (stores3 k x y z, []) g.
Proof. unfold setPosition, edit. simpl. f_equal. by destruct (color g). Qed.

Lemma setColor_edit k rgb (g : BufferGeometry num) :
  setColor k rgb g = edit ([], stores3 k (Some rgb.1.1) (Some rgb.1.2) (Some rgb.2)) g.
Proof. reflexivity. Qed.

End Three.

End StoresFacts.

(** ** Runs of methods *)

Module RunFacts.

Section Run.
Context {Q R : Type}.
Variable answer : Q -> R.

Lemma run_bind {A B : Type} (c : prog Q R A) (f : A -> prog Q R B) :
  run answer (c ≫= f)
  = match (run answer c).2 with
    | Ok a => ((run answer c).1 ++ (run answer (f a)).1, (run answer (f a)).2)
    | Throw e => ((run answer c).1, Throw e)
    end.
Proof.
  unfold mbind, prog_mbind.
  induction c as [a|e|q k IH]; simpl.
  - by destruct (run answer (f a)).
  - done.
  - rewrite IH. by destruct (run answer (k (answer q))).2.
Qed.

Lemma run_lift {A : Type} (c : result A) :
  run answer (lift (Q := Q) (R := R) c) = ([], c).
Proof. by destruct c. Qed.

Lemma run_ask (q : Q) : run answer (ask q) = ([q], Ok (answer q)).
Proof. done. Qed.

(** [xs.map(x => ask(x))] calls the projector on every element, in order. *)
Lemma run_mapP_ask (xs : list Q) :
  run answer (mapP ask xs) = (xs, Ok (map answer xs)).
Proof.
  induction xs as [|x xs IH]; [done|].
  change (mapP ask (x :: xs))
    with (Ask x (fun r => (ys ← mapP ask xs; Done (r :: ys)) : prog Q R (list R))).
  simpl. rewrite run_bind, IH. simpl. by rewrite app_nil_r.
Qed.

Lemma run_lift_bind {A B : Type} (c : result A) (f : A -> prog Q R B) :
  run answer (lift c ≫= f)
  = match c with
    | Ok a => run answer (f a)
    | Throw e => ([], Throw e)
    end.
Proof.
  rewrite run_bind, run_lift. simpl. destruct c as [a|e]; [|done].
  by destruct (run answer (f a)).
Qed.

(** The calls of a run after the calls [calls] are the calls of the run,
    after them. *)
Lemma observed_app {A : Type} (calls made : list Q) (r : list Q * result A) :
  observed calls (made ++ r.1, r.2) = observed (calls ++ made) r.
Proof. unfold observed. simpl. destruct r.2; [|done]. by rewrite app_assoc. Qed.

(** A loop whose callback calls the projector, seen as a loop that hands
    the calls made so far from one turn to the next. *)
Lemma forEachP_observed {A S : Type} (f : S -> nat -> A -> prog Q R S)
  (from : nat) (xs : list A) (s : S) (calls : list Q) :
  observed calls (run answer (forEachP f from xs s))
  = forEachM (fun st k x => observed st.2 (run answer (f st.1 k x))) from xs (s, calls).
Proof.
  revert from s calls. induction xs as [|x xs IH]; intros from s calls; simpl.
  - unfold observed. simpl. by rewrite app_nil_r.
  - rewrite run_bind.
    destruct (run answer (f s from x)) as [made [s'|e]] eqn:Hrun; simpl.
    + by rewrite observed_app, IH.
    + done.
Qed.

(** The calls of a method followed by another. *)
Lemma run_bind_calls {A B : Type} (c : prog Q R A) (f : A -> prog Q R B) :
  (run answer (c ≫= f)).1
  = (run answer c).1 ++ match (run answer c).2 with
                        | Ok a => (run answer (f a)).1
                        | Throw _ => []
                        end.
Proof.
  rewrite run_bind. destruct (run answer c).2; simpl; [done|]. by rewrite app_nil_r.
Qed.

Lemma run_bind_Ok {A B : Type} (c : prog Q R A) (f : A -> prog Q R B) b :
  (run answer (c ≫= f)).2 = Ok b ->
  exists a, (run answer c).2 = Ok a /\ (run answer (f a)).2 = Ok b.
Proof.
  rewrite run_bind. destruct (run answer c).2 as [a|e]; simpl; [|done]. by exists a.
Qed.

(** A loop calls the projector turn after turn: when each turn makes a
    prefix of the calls [calls_of k x], and all of them if it returns, the
    loop makes a prefix of the calls of its turns, and all of them if it
    returns. *)
Lemma forEachP_calls {A S : Type} (f : S -> nat -> A -> prog Q R S)
  (calls_of : A -> list Q) (xs : list A) :
  (forall s k x,
      (run answer (f s k x)).1 `prefix_of` calls_of x
      /\ (forall s', (run answer (f s k x)).2 = Ok s' ->
                     (run answer (f s k x)).1 = calls_of x)) ->
  forall from s,
    (run answer (forEachP f from xs s)).1 `prefix_of` flat_map calls_of xs
    /\ (forall s', (run answer (forEachP f from xs s)).2 = Ok s' ->
                   (run answer (forEachP f from xs s)).1 = flat_map calls_of xs).
Proof.
  intros Hf. induction xs as [|x xs IH]; intros from s; simpl.
  - split; [done|]. by intros _ _.
  - destruct (Hf s from x) as [Hpre Hall]. rewrite run_bind_calls. split.
    + destruct (run answer (f s from x)).2 as [s1|e] eqn:Hrun.
      * rewrite (Hall s1 eq_refl). apply prefix_app, IH.
      * rewrite app_nil_r. by apply prefix_app_r.
    + intros s' Hok. apply run_bind_Ok in Hok as (s1 & Hs1 & Hrest).
      rewrite Hs1, (Hall s1 Hs1). f_equal. by eapply IH.
Qed.

(** A run that returns, seen after the calls [calls]. *)
Lemma observed_Ok {A : Type} (calls : list Q) (r : list Q * result A) a made :
  observed calls r = Ok (a, made) <-> r.2 = Ok a /\ made = calls ++ r.1.
Proof.
  unfold observed. destruct r.2; split.
  - intros Heq. by injection Heq as -> ->.
  - by intros [[= ->] ->].
  - done.
  - by intros [? _].
Qed.

Lemma observed_Throw {A : Type} (calls : list Q) (r : list Q * result A) e :
  observed calls r = Throw e <-> r.2 = Throw e.
Proof.
  unfold observed. destruct r.2; split; try done.
  - intros Heq. by injection Heq as ->.
  - by intros [= ->].
Qed.

End Run.

End RunFacts.

(** ** HyperSliceGeometry: the methods and their threaded formulation *)

Module HyperSliceGeometryMethods.
Import HyperSliceGeometry SliceVocabulary RunFacts JSFacts.

Section Methods.
Context {num : Type} `{Number num} {vertex : Type}.
Variable vertexNormals : list num -> option (list Z) -> list num.
Variable colorGetter : PairContext num -> num * num * num.
Variable slice : option vertex -> option vertex -> option (list num).

Implicit Types (st : Frame num) (g : BufferGeometry num).
Implicit Types (calls : list (option vertex * option vertex)).

(** *** The runs of the methods that collect the pairs *)

Lemma omap_id_map {A B : Type} (f : A -> option B) (xs : list A) :
  omap id (map f xs) = omap f xs.
Proof.
  induction xs as [|x xs IH]; [done|]. csimpl. rewrite IH. by destruct (f x).
Qed.

(** A face: one call for each boundary edge, in order; the pair is what
    the non-falsy results make. *)
Lemma face_pair_run (vs : list vertex) face :
  run (answer slice) (Method.face_pair vs face)
  = (face_edges vs face, Ok (omap (fun e => slice e.1 e.2) (face_edges vs face))).
Proof.
  unfold Method.face_pair. rewrite run_bind, run_mapP_ask. simpl.
  by rewrite app_nil_r, omap_id_map.
Qed.

Lemma collect_pairs_threaded (vs : list vertex) cellFaces pairs calls :
  observed calls (run (answer slice) (Method.collect_pairs vs cellFaces pairs))
  = HyperSliceGeometryThreaded.collect_pairs_logged slice vs cellFaces pairs calls.
Proof.
  revert pairs calls.
  induction cellFaces as [|[face|] cellFaces IH]; intros pairs calls; simpl.
  - unfold observed. simpl. by rewrite app_nil_r.
  - rewrite run_bind, face_pair_run. simpl. rewrite <- IH.
    unfold observed. simpl.
    destruct (run _ _).2; [|done]. by rewrite app_assoc.
  - done.
Qed.

Lemma cell_pairs_threaded shape cell calls :
  cell_pairs slice shape cell calls = HyperSliceGeometryThreaded.cell_pairs_logged slice shape cell calls.
Proof. apply collect_pairs_threaded. Qed.

(** *** The calls of [slice] *)

(** The edges of a face as the code lists them are its boundary edges. *)
Lemma face_edges_boundary (vs : list vertex) face :
  face_edges vs face = boundary_edges vs face.
Proof.
  unfold face_edges, boundary_edges. apply list_eq. intros k.
  rewrite list_lookup_imap, list_lookup_fmap.
  destruct (face !! k) as [v|] eqn:Hk; simpl.
  - rewrite lookup_seq_lt by (by eapply lookup_lt_Some). simpl. by rewrite Hk.
  - rewrite lookup_seq_ge; [done|]. by apply lookup_ge_None.
Qed.

(** The calls [collect_pairs] makes: the boundary edges of its faces, up to
    the first face that is missing. *)
Lemma collect_pairs_calls_made (vs : list vertex) cellFaces pairs :
  (run (answer slice) (Method.collect_pairs vs cellFaces pairs)).1
    `prefix_of` flat_map (from_option (boundary_edges vs) []) cellFaces
  /\ (forall pairs',
        (run (answer slice) (Method.collect_pairs vs cellFaces pairs)).2 = Ok pairs' ->
        (run (answer slice) (Method.collect_pairs vs cellFaces pairs)).1
        = flat_map (from_option (boundary_edges vs) []) cellFaces).
Proof.
  revert pairs.
  induction cellFaces as [|[face|] cellFaces IH]; intros pairs; simpl.
  - split; [done|]. by intros _ _.
  - rewrite run_bind, face_pair_run, face_edges_boundary. simpl.
    destruct (IH (if 1 <? length (omap (fun e => slice e.1 e.2) (boundary_edges vs face))
                  then pairs ++ [omap (fun e => slice e.1 e.2) (boundary_edges vs face)]
                  else pairs)) as [Hpre Hall].
    split.
    + by apply prefix_app.
    + intros pairs' Hok. f_equal. by eapply Hall.
  - split; [apply prefix_nil | done].
Qed.

Lemma update_cell_calls_made shape opts st cellIndex cell :
  let calls_of (cell : list nat) :=
    flat_map (fun faceIndex =>
                match faces shape !! faceIndex with
                | Some face => boundary_edges (vertices shape) face
                | None => []
                end) cell in
  (run (answer slice) (Method.update_cell colorGetter shape opts st cellIndex cell)).1
    `prefix_of` calls_of cell
  /\ (forall st',
        (run (answer slice) (Method.update_cell colorGetter shape opts st cellIndex cell)).2
        = Ok st' ->
        (run (answer slice) (Method.update_cell colorGetter shape opts st cellIndex cell)).1
        = calls_of cell).
Proof.
  intros calls_of.
  assert (calls_of cell
          = flat_map (from_option (boundary_edges (vertices shape)) [])
              (map (fun faceIndex => faces shape !! faceIndex) cell)) as ->.
  { unfold calls_of. rewrite flat_map_fmap. apply flat_map_ext. intros faceIndex.
    by destruct (faces shape !! faceIndex). }
  destruct (collect_pairs_calls_made (vertices shape)
              (map (fun faceIndex => faces shape !! faceIndex) cell) []) as [Hpre Hall].
  unfold Method.update_cell, Method.cell_pairs. rewrite run_bind_calls.
  set (r := run (answer slice) (Method.collect_pairs _ _ _)) in *.
  assert (forall pairs, (run (answer slice)
            (if 2 <? length pairs
             then match reconstruct pairs with
                  | Some (Closed linkedPairs) =>
                      lift (emit colorGetter opts cellIndex linkedPairs st)
                  | Some Abandoned => Done st
                  | None => Done st
                  end
             else Done st)).1 = []) as Hrest.
  { intros pairs. destruct (2 <? length pairs); [|done].
    destruct (reconstruct pairs) as [[chain|]|]; try done. by rewrite run_lift. }
  split.
  - destruct r.2; rewrite ?Hrest, app_nil_r; done.
  - intros st' Hok. apply run_bind_Ok in Hok as (pairs & Hpairs & _).
    fold r in Hpairs. rewrite Hpairs, Hrest, app_nil_r. by eapply Hall.
Qed.

(** [update] calls [slice] on the boundary edges of the face references, in
    order, until it returns or raises. *)
Lemma update_calls_made (b : Builder num vertex) :
  (run (answer slice) (Method.update vertexNormals colorGetter b)).1
    `prefix_of` edge_references (shape b)
  /\ (forall b1,
        (run (answer slice) (Method.update vertexNormals colorGetter b)).2 = Ok b1 ->
        (run (answer slice) (Method.update vertexNormals colorGetter b)).1
        = edge_references (shape b)).
Proof.
  destruct (forEachP_calls (answer slice)
              (Method.update_cell colorGetter (shape b) (options b))
              (fun cell => flat_map (fun faceIndex =>
                                       match faces (shape b) !! faceIndex with
                                       | Some face => boundary_edges (vertices (shape b)) face
                                       | None => []
                                       end) cell)
              (cells (shape b))
              (fun st k cell => update_cell_calls_made (shape b) (options b) st k cell)
              0 (start b).1) as [Hpre Hall].
  unfold Method.update. rewrite run_bind_calls.
  set (r := run (answer slice) (forEachP _ _ _ _)) in *.
  assert (forall st, (run (answer slice)
            (g ← lift (finish_faces vertexNormals (options b) st);
             eg ← lift (finish_edges (options b) st);
             pg ← lift (finish_points (options b) st);
             Done {| shape := shape b; options := options b;
                     geometry := g; edgeGeometry := eg; pointGeometry := pg |})).1 = [])
    as Hrest.
  { intros st. rewrite run_lift_bind.
    destruct (finish_faces vertexNormals (options b) st); [|done].
    rewrite run_lift_bind. destruct (finish_edges (options b) st); [|done].
    rewrite run_lift_bind. by destruct (finish_points (options b) st). }
  split.
  - destruct r.2; rewrite ?Hrest, app_nil_r; done.
  - intros b1 Hok. apply run_bind_Ok in Hok as (st & Hst & _).
    fold r in Hst. rewrite Hst, Hrest, app_nil_r. by eapply Hall.
Qed.

(** *** The callback of [cells.forEach] *)

Lemma update_cell_unfold shape opts (st : Frame num * list (option vertex * option vertex))
  cellIndex cell :
  update_cell colorGetter slice shape opts st cellIndex cell
  = ('(pairs, calls) ← cell_pairs slice shape cell st.2;
     if 2 <? length pairs then
       match reconstruct pairs with
       | Some (Closed linkedPairs) =>
           st' ← emit colorGetter opts cellIndex linkedPairs st.1; Ok (st', calls)
       | _ => Ok (st.1, calls)
       end
     else Ok (st.1, calls)).
Proof.
  unfold update_cell, Method.update_cell, cell_pairs. rewrite run_bind.
  unfold observed.
  destruct (run (answer slice) (Method.cell_pairs shape cell)) as [made [pairs|e]];
    simpl; [|done].
  destruct (2 <? length pairs); [|simpl; by rewrite app_nil_r].
  destruct (reconstruct pairs) as [[chain|]|]; simpl; rewrite ?app_nil_r; try done.
  rewrite run_lift. simpl.
  destruct (emit colorGetter opts cellIndex chain st.1); simpl; by rewrite ?app_nil_r.
Qed.

(** *** Stores into geometries that are there *)

Lemma attributes_Ok_inv opts (og : option (BufferGeometry num)) g :
  attributes opts og = Ok g ->
  og = Some g /\ (useColors opts = true -> is_Some (color g)).
Proof.
  destruct og as [g'|]; [|done]. simpl.
  destruct (useColors opts) eqn:Hc.
  - destruct (color g') eqn:Hcol; [|done]. intros [= <-]. split; [done|]. by rewrite Hcol.
  - intros [= <-]. by split.
Qed.

Lemma has_attributes_Ok opts (og : option (BufferGeometry num)) :
  has_attributes opts og <-> exists g, attributes opts og = Ok g.
Proof.
  split.
  - intros (g & -> & Hcol). exists g. simpl.
    destruct (useColors opts); [|done]. by destruct (Hcol eq_refl) as [c ->].
  - intros [g Hg]. exists g. by apply attributes_Ok_inv.
Qed.

Lemma attributes_cases opts (og : option (BufferGeometry num)) :
  (exists g, og = Some g /\ attributes opts og = Ok g)
  \/ attributes opts og = Throw TypeError.
Proof.
  destruct og as [g|]; [|by right]. simpl.
  destruct (useColors opts); [|left; by exists g].
  destruct (color g); [left; by exists g|by right].
Qed.

Lemma has_attributes_Throw opts (og : option (BufferGeometry num)) :
  ~ has_attributes opts og <-> attributes opts og = Throw TypeError.
Proof.
  rewrite has_attributes_Ok. split.
  - intros Hnot. destruct (attributes_cases opts og) as [(g & _ & Hg)|Hg]; [|done].
    destruct Hnot. by exists g.
  - intros Hg [g Hg']. congruence.
Qed.

Lemma present_or_absent opts st : buffers_present opts st \/ buffers_absent opts st.
Proof.
  unfold buffers_present, buffers_absent, ready.
  setoid_rewrite has_attributes_Throw. setoid_rewrite has_attributes_Ok.
  destruct (useFaces opts);
    [destruct (attributes_cases opts (faceG st)) as [(g & _ & Hg)|Hg];
       [|right; by left]|];
    (destruct (useEdges opts);
       [destruct (attributes_cases opts (edgeG st)) as [(eg & _ & Heg)|Heg];
          [|right; right; by left]|]);
    (destruct (usePoints opts);
       [destruct (attributes_cases opts (pointG st)) as [(pg & _ & Hpg)|Hpg];
          [|right; right; by right]|]);
    left; repeat split; intros; by eauto.
Qed.

Lemma put_Ok opts ctx k (og : option (BufferGeometry num)) g :
  attributes opts og = Ok g ->
  put colorGetter opts ctx k og = Ok (HyperSliceGeometryThreaded.put_if_present colorGetter opts ctx k g)
  /\ attributes opts (Some (HyperSliceGeometryThreaded.put_if_present colorGetter opts ctx k g))
     = Ok (HyperSliceGeometryThreaded.put_if_present colorGetter opts ctx k g).
Proof.
  intros Hg. apply attributes_Ok_inv in Hg as [-> Hcol].
  unfold put, HyperSliceGeometryThreaded.put_if_present. simpl. destruct (useColors opts); simpl; [|done].
  destruct (Hcol eq_refl) as [c Hc]. by rewrite Hc.
Qed.

Lemma put_Throw opts ctx k (og : option (BufferGeometry num)) :
  attributes opts og = Throw TypeError ->
  put colorGetter opts ctx k og = Throw TypeError
  /\ attributes opts (HyperSliceGeometryThreaded.put_if_present colorGetter opts ctx k <$> og) = Throw TypeError.
Proof.
  destruct og as [g|]; simpl; [|by intros _].
  unfold put, HyperSliceGeometryThreaded.put_if_present. simpl.
  destruct (useColors opts); [|done].
  destruct (color g) eqn:Hc; [done|]. intros _. simpl. by rewrite Hc.
Qed.

Lemma block_ready opts (wanted : bool) ctx k (og : option (BufferGeometry num)) :
  ready opts wanted og ->
  block colorGetter wanted opts ctx k og
  = Ok (if wanted then HyperSliceGeometryThreaded.put_if_present colorGetter opts ctx k <$> og else og)
  /\ ready opts wanted (if wanted then HyperSliceGeometryThreaded.put_if_present colorGetter opts ctx k <$> og else og).
Proof.
  unfold ready, block. destruct wanted; [|done]. intros Hready.
  destruct (proj1 (has_attributes_Ok opts og) (Hready eq_refl)) as [g Hg].
  destruct (put_Ok opts ctx k og g Hg) as [-> Hg'].
  apply attributes_Ok_inv in Hg as [-> _]. simpl. split; [done|]. intros _.
  apply has_attributes_Ok. by eexists.
Qed.

Lemma block_cases opts (wanted : bool) ctx k (og : option (BufferGeometry num)) :
  block colorGetter wanted opts ctx k og = Throw TypeError
  \/ (ready opts wanted og /\
      block colorGetter wanted opts ctx k og
      = Ok (if wanted then HyperSliceGeometryThreaded.put_if_present colorGetter opts ctx k <$> og else og)).
Proof.
  destruct wanted eqn:Hw.
  - destruct (attributes_cases opts og) as [(g & _ & Hg)|Hg].
    + right. assert (ready opts true og) as Hr
        by (intros _; apply has_attributes_Ok; by exists g).
      split; [done|]. by apply (block_ready opts true).
    + left. unfold block. by rewrite (proj1 (put_Throw opts ctx k og Hg)).
  - right. by split.
Qed.

Lemma block_Throw opts ctx k (og : option (BufferGeometry num)) :
  attributes opts og = Throw TypeError ->
  block colorGetter true opts ctx k og = Throw TypeError.
Proof. intros Hg. unfold block. by rewrite (proj1 (put_Throw opts ctx k og Hg)). Qed.

(** With its geometries there, the callback of [linkedPairs.forEach] makes
    its stores and returns. *)
Lemma write_point_present opts cellIndex st pairIndex p :
  buffers_present opts st ->
  write_point colorGetter opts cellIndex st pairIndex p
  = Ok (HyperSliceGeometryThreaded.write_point_if_present colorGetter opts cellIndex st pairIndex p)
  /\ buffers_present opts (HyperSliceGeometryThreaded.write_point_if_present colorGetter opts cellIndex st pairIndex p).
Proof.
  intros (HF & HE & HP). unfold write_point, HyperSliceGeometryThreaded.write_point_if_present, buffers_present.
  cbv zeta.
  edestruct (block_ready opts (useFaces opts)) as [-> HF']; [exact HF|].
  edestruct (block_ready opts (useEdges opts)) as [-> HE']; [exact HE|].
  edestruct (block_ready opts (usePoints opts)) as [-> HP']; [exact HP|].
  simpl. split; [done|]. split; [exact HF'|]. split; [exact HE'|exact HP'].
Qed.

(** With a geometry missing, it raises a TypeError. *)
Lemma write_point_absent opts cellIndex st pairIndex p :
  buffers_absent opts st ->
  write_point colorGetter opts cellIndex st pairIndex p = Throw TypeError.
Proof.
  intros Habs. unfold write_point. cbv zeta.
  match goal with
  | |- context [block colorGetter (useFaces opts) opts ?c ?k (faceG st)] =>
      destruct (block_cases opts (useFaces opts) c k (faceG st)) as [->|[HF ->]]; [done|]
  end.
  simpl.
  match goal with
  | |- context [block colorGetter (useEdges opts) opts ?c ?k (edgeG st)] =>
      destruct (block_cases opts (useEdges opts) c k (edgeG st)) as [->|[HE ->]]; [done|]
  end.
  simpl.
  match goal with
  | |- context [block colorGetter (usePoints opts) opts ?c ?k (pointG st)] =>
      destruct (block_cases opts (usePoints opts) c k (pointG st)) as [->|[HP ->]]; [done|]
  end.
  exfalso.
  destruct Habs as [[Hw Hg]|[[Hw Hg]|[Hw Hg]]]; apply Hg; by eauto.
Qed.

Lemma attributes_put_Throw opts ctx k (wanted : bool) (og : option (BufferGeometry num)) :
  attributes opts og = Throw TypeError ->
  attributes opts (if wanted then HyperSliceGeometryThreaded.put_if_present colorGetter opts ctx k <$> og else og)
  = Throw TypeError.
Proof.
  intros Hg. destruct wanted; [|done]. by apply put_Throw.
Qed.

Lemma threaded_write_point_absent opts cellIndex st pairIndex p :
  buffers_absent opts st ->
  buffers_absent opts (HyperSliceGeometryThreaded.write_point_if_present colorGetter opts cellIndex st pairIndex p).
Proof.
  unfold buffers_absent, HyperSliceGeometryThreaded.write_point_if_present. cbv zeta. simpl.
  setoid_rewrite has_attributes_Throw.
  intros [[Hw Hg]|[[Hw Hg]|[Hw Hg]]].
  - left. split; [done|]. by apply attributes_put_Throw.
  - right. left. split; [done|]. by apply attributes_put_Throw.
  - right. right. split; [done|]. by apply attributes_put_Throw.
Qed.

Lemma forEachM_write_point_present opts cellIndex chain k st :
  buffers_present opts st ->
  forEachM (write_point colorGetter opts cellIndex) k chain st
  = Ok (forEach (HyperSliceGeometryThreaded.write_point_if_present colorGetter opts cellIndex) k chain st)
  /\ buffers_present opts (forEach (HyperSliceGeometryThreaded.write_point_if_present colorGetter opts cellIndex) k chain st).
Proof.
  revert k st. induction chain as [|p chain IH]; intros k st Hst; simpl; [done|].
  destruct (write_point_present opts cellIndex st k p Hst) as [-> Hst'].
  simpl. by apply IH.
Qed.

Lemma forEach_write_point_absent opts cellIndex chain k st :
  buffers_absent opts st ->
  buffers_absent opts (forEach (HyperSliceGeometryThreaded.write_point_if_present colorGetter opts cellIndex) k chain st).
Proof.
  revert k st. induction chain as [|p chain IH]; intros k st Hst; simpl; [done|].
  apply IH. by apply threaded_write_point_absent.
Qed.

(** *** The points of a cell *)

Lemma emit_present opts cellIndex chain st :
  buffers_present opts st ->
  emit colorGetter opts cellIndex chain st
  = Ok (HyperSliceGeometryThreaded.emit_if_present colorGetter opts cellIndex chain st)
  /\ buffers_present opts (HyperSliceGeometryThreaded.emit_if_present colorGetter opts cellIndex chain st).
Proof.
  intros Hst. unfold emit, HyperSliceGeometryThreaded.emit_if_present. by apply forEachM_write_point_present.
Qed.

Lemma emit_absent opts cellIndex chain st :
  buffers_absent opts st -> chain <> [] ->
  emit colorGetter opts cellIndex chain st = Throw TypeError.
Proof.
  intros Hst Hne. unfold emit. destruct chain as [|p chain]; [done|]. simpl.
  by rewrite write_point_absent.
Qed.

Lemma threaded_emit_absent opts cellIndex chain st :
  buffers_absent opts st ->
  buffers_absent opts (HyperSliceGeometryThreaded.emit_if_present colorGetter opts cellIndex chain st).
Proof. intros Hst. unfold HyperSliceGeometryThreaded.emit_if_present. by apply forEach_write_point_absent. Qed.

Lemma emit_absent_cases opts cellIndex chain st :
  buffers_absent opts st ->
  emit colorGetter opts cellIndex chain st = Throw TypeError
  \/ exists st', emit colorGetter opts cellIndex chain st = Ok st'
                 /\ buffers_absent opts st'.
Proof.
  intros Hst. destruct chain as [|p chain].
  - right. by eexists.
  - left. by apply emit_absent.
Qed.

(** *** The cells *)

Implicit Types (fr : Frame num * list (option vertex * option vertex)).

Lemma threaded_collect_pairs_Throw (vs : list vertex) cellFaces pairs calls e :
  HyperSliceGeometryThreaded.collect_pairs_logged slice vs cellFaces pairs calls = Throw e -> e = TypeError.
Proof.
  revert pairs calls.
  induction cellFaces as [|[face|] cellFaces IH]; intros pairs calls; simpl.
  - done.
  - apply IH.
  - by intros [= <-].
Qed.

Lemma update_cell_present shape opts fr cellIndex cell :
  buffers_present opts fr.1 ->
  update_cell colorGetter slice shape opts fr cellIndex cell
  = HyperSliceGeometryThreaded.update_cell_logged colorGetter slice shape opts fr cellIndex cell
  /\ forall fr', HyperSliceGeometryThreaded.update_cell_logged colorGetter slice shape opts fr cellIndex cell = Ok fr' ->
                 buffers_present opts fr'.1.
Proof.
  intros Hst. rewrite update_cell_unfold, cell_pairs_threaded. unfold HyperSliceGeometryThreaded.update_cell_logged.
  destruct (HyperSliceGeometryThreaded.cell_pairs_logged slice shape cell fr.2) as [[pairs calls]|e]; simpl; [|done].
  destruct (2 <? length pairs); [|split; [done|by intros ? [= <-]]].
  destruct (reconstruct pairs) as [[chain|]|];
    try (split; [done|by intros ? [= <-]]).
  destruct (emit_present opts cellIndex chain fr.1 Hst) as [-> Hst']. simpl.
  split; [done|]. by intros ? [= <-].
Qed.

Lemma update_cell_absent shape opts fr cellIndex cell :
  buffers_absent opts fr.1 ->
  update_cell colorGetter slice shape opts fr cellIndex cell = Throw TypeError
  \/ exists fr', update_cell colorGetter slice shape opts fr cellIndex cell = Ok fr'
                 /\ buffers_absent opts fr'.1.
Proof.
  intros Hst. rewrite update_cell_unfold, cell_pairs_threaded.
  destruct (HyperSliceGeometryThreaded.cell_pairs_logged slice shape cell fr.2) as [[pairs calls]|e] eqn:Hcp; simpl.
  - destruct (2 <? length pairs); [|right; by eexists].
    destruct (reconstruct pairs) as [[chain|]|]; try (right; by eexists).
    destruct (emit_absent_cases opts cellIndex chain fr.1 Hst) as [->|(st' & -> & Hst')].
    + by left.
    + right. by eexists.
  - left. by rewrite (threaded_collect_pairs_Throw _ _ _ _ _ Hcp).
Qed.

Lemma threaded_update_cell_absent shape opts fr cellIndex cell :
  buffers_absent opts fr.1 ->
  HyperSliceGeometryThreaded.update_cell_logged colorGetter slice shape opts fr cellIndex cell = Throw TypeError
  \/ exists fr', HyperSliceGeometryThreaded.update_cell_logged colorGetter slice shape opts fr cellIndex cell = Ok fr'
                 /\ buffers_absent opts fr'.1.
Proof.
  intros Hst. unfold HyperSliceGeometryThreaded.update_cell_logged.
  destruct (HyperSliceGeometryThreaded.cell_pairs_logged slice shape cell fr.2) as [[pairs calls]|e] eqn:Hcp; simpl.
  - destruct (2 <? length pairs); [|right; by eexists].
    destruct (reconstruct pairs) as [[chain|]|]; try (right; by eexists).
    right. eexists. split; [done|]. by apply threaded_emit_absent.
  - left. by rewrite (threaded_collect_pairs_Throw _ _ _ _ _ Hcp).
Qed.

Lemma forEachM_invariant {A S : Type} (F : S -> nat -> A -> result S) (P : S -> Prop) :
  (forall s k x, P s -> F s k x = Throw TypeError \/ exists s', F s k x = Ok s' /\ P s') ->
  forall xs k s, P s ->
    forEachM F k xs s = Throw TypeError \/ exists s', forEachM F k xs s = Ok s' /\ P s'.
Proof.
  intros HF xs. induction xs as [|x xs IH]; intros k s Hs; simpl.
  - right. by eexists.
  - destruct (HF s k x Hs) as [->|(s' & -> & Hs')]; [by left|]. simpl. by apply IH.
Qed.

Lemma run_present shape opts (cs : list (list nat)) k fr :
  buffers_present opts fr.1 ->
  forEachM (update_cell colorGetter slice shape opts) k cs fr
  = forEachM (HyperSliceGeometryThreaded.update_cell_logged colorGetter slice shape opts) k cs fr.
Proof.
  revert k fr. induction cs as [|cell cs IH]; intros k fr Hfr; simpl; [done|].
  destruct (update_cell_present shape opts fr k cell Hfr) as [-> Hfr'].
  destruct (HyperSliceGeometryThreaded.update_cell_logged colorGetter slice shape opts fr k cell) as [fr'|e]; [|done].
  simpl. apply IH. by apply Hfr'.
Qed.

(** *** update *)

Implicit Types (b : Builder num vertex).

Lemma slice_update_unfold b :
  update vertexNormals colorGetter slice b
  = ('(st, calls) ← forEachM (update_cell colorGetter slice (shape b) (options b)) 0
                      (cells (shape b)) (start b);
     g ← finish_faces vertexNormals (options b) st;
     eg ← finish_edges (options b) st;
     pg ← finish_points (options b) st;
     Ok ({| shape := shape b; options := options b;
            geometry := g; edgeGeometry := eg; pointGeometry := pg |}, calls)).
Proof.
  pose proof (forEachP_observed (answer slice)
                (Method.update_cell colorGetter (shape b) (options b)) 0
                (cells (shape b)) (start b).1 []) as Hrun.
  change (forEachM (update_cell colorGetter slice (shape b) (options b)) 0
            (cells (shape b)) (start b))
    with (forEachM (fun fr k x =>
                      observed fr.2
                        (run (answer slice)
                           (Method.update_cell colorGetter (shape b) (options b) fr.1 k x)))
            0 (cells (shape b)) ((start b).1, [])).
  rewrite <- Hrun. unfold update, Method.update. rewrite run_bind.
  unfold observed.
  destruct (run (answer slice) (forEachP _ 0 (cells (shape b)) (start b).1))
    as [made [st|e]]; simpl; [|done].
  rewrite run_lift_bind.
  destruct (finish_faces vertexNormals (options b) st) as [g|e]; simpl; [|done].
  rewrite run_lift_bind.
  destruct (finish_edges (options b) st) as [eg|e]; simpl; [|done].
  rewrite run_lift_bind.
  destruct (finish_points (options b) st) as [pg|e]; simpl; [|done].
  by rewrite app_nil_r.
Qed.

Lemma finish_absent opts st (k : option (BufferGeometry num) -> option (BufferGeometry num) ->
                             option (BufferGeometry num) -> Builder num vertex)
  calls :
  buffers_absent opts st ->
  (g ← finish_faces vertexNormals opts st;
   eg ← finish_edges opts st;
   pg ← finish_points opts st;
   Ok (k g eg pg, calls)) = Throw TypeError.
Proof.
  intros Habs. unfold finish_faces, finish_edges, finish_points.
  unfold buffers_absent in Habs. setoid_rewrite has_attributes_Throw in Habs.
  destruct (attributes_cases opts (faceG st)) as [(g & _ & Hg)|Hg];
    destruct (attributes_cases opts (edgeG st)) as [(eg & _ & Heg)|Heg];
    destruct (attributes_cases opts (pointG st)) as [(pg & _ & Hpg)|Hpg];
    rewrite ?Hg, ?Heg, ?Hpg;
    destruct Habs as [[Hw Hg']|[[Hw Hg']|[Hw Hg']]]; try congruence;
    rewrite ?Hw;
    destruct (useFaces opts); simpl; try done;
    destruct (useEdges opts); simpl; try done;
    destruct (usePoints opts); simpl; try done.
Qed.

(** The methods compute what their threaded formulation computes. *)
Lemma update_threaded b :
  update vertexNormals colorGetter slice b = HyperSliceGeometryThreaded.update_logged vertexNormals colorGetter slice b.
Proof.
  rewrite slice_update_unfold. unfold HyperSliceGeometryThreaded.update_logged, HyperSliceGeometryThreaded.run_cells_logged.
  destruct (present_or_absent (options b) (start b).1) as [Hst|Hst].
  - by rewrite run_present.
  - destruct (forEachM_invariant
                (update_cell colorGetter slice (shape b) (options b))
                (fun fr => buffers_absent (options b) fr.1)
                (fun fr k x => update_cell_absent (shape b) (options b) fr k x)
                (cells (shape b)) 0 (start b) Hst) as [->|([st calls] & -> & Hst1)];
      destruct (forEachM_invariant
                  (HyperSliceGeometryThreaded.update_cell_logged colorGetter slice (shape b) (options b))
                  (fun fr => buffers_absent (options b) fr.1)
                  (fun fr k x => threaded_update_cell_absent (shape b) (options b) fr k x)
                  (cells (shape b)) 0 (start b) Hst) as [->|([st' calls'] & -> & Hst2)];
      simpl; rewrite ?finish_absent; done.
Qed.

Lemma constructor_threaded shape opts :
  constructor vertexNormals colorGetter slice shape opts
  = HyperSliceGeometryThreaded.constructor_logged vertexNormals colorGetter slice shape opts.
Proof. unfold HyperSliceGeometryThreaded.constructor_logged. rewrite <- update_threaded. reflexivity. Qed.

End Methods.

End HyperSliceGeometryMethods.

(** ** One cell of HyperSliceGeometry.update *)

Module HyperSliceGeometryCell.
Import HyperSliceGeometry HyperSliceGeometryLoop HyperSliceGeometryMethods.

Section Cell.
Context {num : Type} `{Number num} {vertex : Type}.
Variable colorGetter : PairContext num -> num * num * num.
Variable slice : option vertex -> option vertex -> option (list num).

Implicit Types (shape : Shape vertex) (opts : Options).
Implicit Types (st : Frame num * list (option vertex * option vertex)).

(** C4: when the loop reconstruction of a cell reaches a state in which
    pairs remain and none of them has an endpoint near the dangling point,
    the callback of the cell ends without an exception and leaves the frame
    as it was: the counter [i], both index lists and the three geometries
    are unchanged, so the cell adds no point, no triangle and no edge. *)
Theorem unmatched_cell_emits_nothing shape opts st cellIndex cell
  first rest calls linkedPairs remaining :
  cell_pairs slice shape cell st.2 = Ok (first :: rest, calls) ->
  rtc iterates (first, rest) (linkedPairs, remaining) ->
  remaining <> [] ->
  Forall (unmatched (dangle_of linkedPairs)) remaining ->
  update_cell colorGetter slice shape opts st cellIndex cell = Ok (st.1, calls).
Proof.
  intros Hpairs Hrun Hne Hun.
  rewrite update_cell_unfold, Hpairs. simpl.
  destruct (2 <? S (length rest)); [|done].
  by rewrite (link_loop_abandoned (length rest) (first, rest) (linkedPairs, remaining)).
Qed.

End Cell.

Import Small Tetrahedron.

(** The tetrahedron with a projector that gives two different points for
    the edge 0-3: after one iteration the pair of face 1 is left and does
    not touch the dangling point (9,9,9). *)
Lemma unmatched_cell_emits_nothing_witness :
  update_cell black broken_slice shape defaults start 0 [0; 1; 2; 3]
  = Ok (start.1,
        [(Some 0, Some 1); (Some 1, Some 2); (Some 2, Some 0);
         (Some 0, Some 1); (Some 1, Some 3); (Some 3, Some 0);
         (Some 0, Some 3); (Some 3, Some 2); (Some 2, Some 0);
         (Some 1, Some 2); (Some 2, Some 3); (Some 3, Some 1)]).
Proof.
  apply (unmatched_cell_emits_nothing black broken_slice shape defaults start 0
           [0; 1; 2; 3] [cut 1; cut 2] [[cut 1; cut 3]; [pt 9 9 9; cut 2]] _
           [cut 1; cut 2; pt 9 9 9] [[cut 1; cut 3]]).
  - reflexivity.
  - eapply rtc_l; [|apply rtc_refl]. reflexivity.
  - discriminate.
  - repeat constructor.
Defined.

End HyperSliceGeometryCell.

(** ** The frame of HyperSliceGeometry.update across the cells *)

Module HyperSliceGeometryRun.
Import HyperSliceGeometry HyperSliceGeometryThreaded HyperSliceGeometryLoop HyperSliceGeometryCell.
Import Stores StoresFacts SliceVocabulary.

Section Run.
Context {num : Type} `{Number num} {vertex : Type}.
Variable colorGetter : PairContext num -> num * num * num.

Implicit Types (shape : Shape vertex) (opts : Options) (st : Frame num).
Implicit Types (slice : option vertex -> option vertex -> option (list num)).

Lemma regeometry_own st : regeometry st (faceG st) (edgeG st) (pointG st) = st.
Proof. by destruct st. Qed.

Lemma fmap_edit_nil (g : option (BufferGeometry num)) : edit ([], []) <$> g = g.
Proof. destruct g; simpl; [|done]. by rewrite edit_nil. Qed.

Lemma fmap_edit_edit W1 W2 (g : option (BufferGeometry num)) :
  edit W2 <$> (edit W1 <$> g) = edit (W1.1 ++ W2.1, W1.2 ++ W2.2) <$> g.
Proof. destruct g; simpl; [|done]. by rewrite edit_edit. Qed.

Lemma put_edit opts ctx k (g : BufferGeometry num) :
  put_if_present colorGetter opts ctx k g = edit (put_stores colorGetter opts ctx k) g.
Proof.
  unfold put_if_present, put_stores. rewrite setPosition_edit.
  destruct (useColors opts).
  - by rewrite setColor_edit, edit_edit.
  - done.
Qed.

Lemma write_only_id : write_only (fun st => st).
Proof.
  intros st. exists ([], []), ([], []), ([], []). intros fg eg pg.
  by rewrite !fmap_edit_nil.
Qed.

Lemma write_only_compose F G :
  write_only F -> write_only G -> write_only (fun st => G (F st)).
Proof.
  intros HF HG st.
  destruct (HF st) as (WF & WE & WP & HFst).
  destruct (HG (F st)) as (WF' & WE' & WP' & HGst).
  eexists _, _, _. intros fg eg pg.
  by rewrite HFst, HGst, !fmap_edit_edit.
Qed.

Lemma write_only_push_indices opts n :
  write_only (fun st => push_indices opts n st).
Proof.
  intros st. exists ([], []), ([], []), ([], []). intros fg eg pg.
  by rewrite !fmap_edit_nil.
Qed.

Lemma write_only_write_point opts cellIndex pairIndex p :
  write_only (fun st => write_point_if_present colorGetter opts cellIndex st pairIndex p).
Proof.
  intros st.
  set (ctx t := {| cell := cellIndex; pair := pairIndex;
                   point := (p !! 0, p !! 1, p !! 2); type := t |}).
  exists (if useFaces opts then put_stores colorGetter opts (ctx FacePair) (i st)
          else ([], [])),
         (if useEdges opts then put_stores colorGetter opts (ctx EdgePair) (i st)
          else ([], [])),
         (if usePoints opts then put_stores colorGetter opts (ctx VertexPair) (i st)
          else ([], [])).
  intros fg eg pg. unfold write_point_if_present, regeometry. simpl. f_equal.
  - destruct (useFaces opts); [|by rewrite fmap_edit_nil].
    destruct fg; simpl; [|done]. by rewrite put_edit.
  - destruct (useEdges opts); [|by rewrite fmap_edit_nil].
    destruct eg; simpl; [|done]. by rewrite put_edit.
  - destruct (usePoints opts); [|by rewrite fmap_edit_nil].
    destruct pg; simpl; [|done]. by rewrite put_edit.
Qed.

Lemma write_only_forEach opts cellIndex linkedPairs k :
  write_only (forEach (write_point_if_present colorGetter opts cellIndex) k linkedPairs).
Proof.
  revert k. induction linkedPairs as [|p linkedPairs IH]; intros k; simpl.
  - apply write_only_id.
  - apply (write_only_compose
             (fun st => write_point_if_present colorGetter opts cellIndex st k p)
             (forEach (write_point_if_present colorGetter opts cellIndex) (S k) linkedPairs));
      [apply write_only_write_point | apply IH].
Qed.

Lemma write_only_emit opts cellIndex linkedPairs :
  write_only (emit_if_present colorGetter opts cellIndex linkedPairs).
Proof.
  apply (write_only_compose (fun st => push_indices opts (length linkedPairs) st)
           (forEach (write_point_if_present colorGetter opts cellIndex) 0 linkedPairs));
    [apply write_only_push_indices | apply write_only_forEach].
Qed.

(** The callback of a cell treats the geometries as write-only, and
    whether it throws does not depend on them. *)
Lemma update_cell_write_only slice shape opts st calls cellIndex cell st' calls' :
  update_cell_logged colorGetter slice shape opts (st, calls) cellIndex cell = Ok (st', calls') ->
  exists WF WE WP, forall fg eg pg,
    update_cell_logged colorGetter slice shape opts (regeometry st fg eg pg, calls) cellIndex cell
    = Ok (regeometry st' (edit WF <$> fg) (edit WE <$> eg) (edit WP <$> pg), calls').
Proof.
  unfold update_cell_logged. simpl.
  destruct (cell_pairs_logged slice shape cell calls) as [[pairs calls1]|e]; simpl; [|done].
  assert (Hskip : Ok (st, calls1) = Ok (st', calls') ->
    exists WF WE WP, forall fg eg pg,
      @Ok (Frame num * list (option vertex * option vertex))
          (regeometry st fg eg pg, calls1)
      = Ok (regeometry st' (edit WF <$> fg) (edit WE <$> eg) (edit WP <$> pg), calls')).
  { intros [= <- <-]. exists ([], []), ([], []), ([], []). intros fg eg pg.
    by rewrite !fmap_edit_nil. }
  destruct (2 <? length pairs); [|done].
  destruct (reconstruct pairs) as [[linkedPairs|]|]; [|done..].
  intros [= <- <-].
  destruct (write_only_emit opts cellIndex linkedPairs st) as (WF & WE & WP & HW).
  exists WF, WE, WP. intros fg eg pg. by rewrite HW.
Qed.

Lemma run_write_only slice shape opts cells k st calls st' calls' :
  forEachM (update_cell_logged colorGetter slice shape opts) k cells (st, calls)
  = Ok (st', calls') ->
  exists WF WE WP, forall fg eg pg,
    forEachM (update_cell_logged colorGetter slice shape opts) k cells
      (regeometry st fg eg pg, calls)
    = Ok (regeometry st' (edit WF <$> fg) (edit WE <$> eg) (edit WP <$> pg), calls').
Proof.
  revert k st calls.
  induction cells as [|cell cells IH]; intros k st calls; simpl.
  - intros [= <- <-]. exists ([], []), ([], []), ([], []). intros fg eg pg.
    by rewrite !fmap_edit_nil.
  - intros Hrun. apply bind_Ok in Hrun as ([st1 calls1] & Hcell & Hrest).
    apply update_cell_write_only in Hcell as (WF & WE & WP & Hcell).
    apply IH in Hrest as (WF' & WE' & WP' & Hrest).
    eexists _, _, _. intros fg eg pg.
    rewrite Hcell. simpl. rewrite Hrest. by rewrite !fmap_edit_edit.
Qed.

(** *** The counter *)

Lemma forEach_write_point_i opts cellIndex linkedPairs k st :
  i (forEach (write_point_if_present colorGetter opts cellIndex) k linkedPairs st)
  = i st + length linkedPairs.
Proof.
  revert k st. induction linkedPairs as [|p linkedPairs IH]; intros k st; simpl.
  - lia.
  - rewrite IH. simpl. lia.
Qed.

Lemma emit_i opts cellIndex linkedPairs st :
  i (emit_if_present colorGetter opts cellIndex linkedPairs st) = i st + length linkedPairs.
Proof. unfold emit_if_present. by rewrite forEach_write_point_i. Qed.

Lemma link_loop_length fuel (linkedPairs : list (list num)) pairs chain :
  link_loop fuel linkedPairs pairs = Some (Closed chain) ->
  length chain = length linkedPairs + length pairs.
Proof.
  revert linkedPairs pairs.
  induction fuel as [|fuel IH]; intros linkedPairs [|pair pairs].
  - intros [= <-]. simpl. lia.
  - done.
  - intros [= <-]. simpl. lia.
  - rewrite link_loop_step.
    destruct (loop_body (linkedPairs, pair :: pairs)) as [[l' ps']|] eqn:E; [|done].
    intros Hrun. apply IH in Hrun. simpl in Hrun.
    pose proof (loop_body_length _ _ E) as Hl. simpl in Hl.
    unfold loop_body in E. simpl fst in E. simpl snd in E.
    destruct (scan _ _) as [[ps'' p]|]; simpl in E; [|done].
    injection E as <- <-. rewrite length_app in Hrun. simpl in *. lia.
Qed.

(** The pairs of a cell: at most one per face, each of two points or more,
    and of exactly two when no face is cut in more than two points. *)
Lemma collect_pairs_bound slice vertices cellFaces pairs calls pairs' calls' :
  collect_pairs_logged slice vertices cellFaces pairs calls = Ok (pairs', calls') ->
  length pairs' <= length pairs + length cellFaces
  /\ (Forall (fun f => forall face, f = Some face ->
                length (face_pair_logged slice vertices face).1 <= 2) cellFaces ->
      Forall (fun pair => length pair = 2) pairs ->
      Forall (fun pair => length pair = 2) pairs').
Proof.
  revert pairs calls.
  induction cellFaces as [|[face|] cellFaces IH]; intros pairs calls; simpl.
  - intros [= <- <-]. split; [lia | done].
  - intros Hrun. apply IH in Hrun as [Hlen Htwo]. split.
    + destruct (1 <? _); rewrite ?length_app in Hlen; simpl in *; lia.
    + intros Hfaces Hpairs. apply Forall_cons in Hfaces as [Hface Hfaces].
      apply Htwo; [done|].
      destruct (1 <? _) eqn:E; [|done].
      apply Forall_app. split; [done|]. apply Forall_singleton.
      apply Nat.ltb_lt in E. specialize (Hface face eq_refl). simpl in Hface. lia.
  - done.
Qed.

Lemma face_references_app cells1 cells2 :
  face_references (cells1 ++ cells2) = face_references cells1 + face_references cells2.
Proof.
  unfold face_references. rewrite foldl_app.
  generalize (foldl (fun rv (c : list nat) => rv + length c) 0 cells1) as n.
  induction cells2 as [|c cells2 IH] using rev_ind; intros n; simpl; [lia|].
  rewrite !foldl_app. simpl. rewrite IH. lia.
Qed.

Lemma face_references_cons cell cells :
  face_references (cell :: cells) = length cell + face_references cells.
Proof.
  change (cell :: cells) with ([cell] ++ cells). rewrite face_references_app.
  reflexivity.
Qed.

(** The faces of one cell, as [two_point_pairs] sees them. *)
Lemma two_point_pairs_cell slice shape cell :
  two_point_pairs slice shape -> cell ∈ cells shape ->
  Forall (fun f => forall face, f = Some face ->
            length (face_pair_logged slice (vertices shape) face).1 <= 2)
         (map (fun faceIndex => faces shape !! faceIndex) cell).
Proof.
  intros Htwo Hcell. apply Forall_map, Forall_forall. intros faceIndex Hin face Hface.
  simpl. rewrite HyperSliceGeometryMethods.face_edges_boundary. by eapply Htwo.
Qed.

(** A closed chain of a cell whose faces are cut in two points at most has
    no more than twice as many points as the cell has faces. *)
Lemma chain_length_bound slice shape cell calls pairs calls' linkedPairs :
  two_point_pairs slice shape -> cell ∈ cells shape ->
  cell_pairs_logged slice shape cell calls = Ok (pairs, calls') -> 2 < length pairs ->
  reconstruct pairs = Some (Closed linkedPairs) ->
  length linkedPairs = length pairs + 1 /\ length linkedPairs <= 2 * length cell.
Proof.
  intros Htwo Hcell Hpairs Hlen Hrec.
  apply collect_pairs_bound in Hpairs as [Hle Hall].
  specialize (Hall (two_point_pairs_cell _ _ _ Htwo Hcell) (Forall_nil_2 _)).
  rewrite length_map in Hle. simpl in Hle.
  destruct pairs as [|first rest]; [done|].
  apply Forall_cons in Hall as [Hfirst _].
  unfold reconstruct in Hrec. apply link_loop_length in Hrec.
  simpl in *. lia.
Qed.

(** After a cell the counter has grown by no more than twice the number of
    faces of the cell. *)
Lemma update_cell_i slice shape opts st calls cellIndex cell st' calls' :
  two_point_pairs slice shape -> cell ∈ cells shape ->
  update_cell_logged colorGetter slice shape opts (st, calls) cellIndex cell = Ok (st', calls') ->
  i st' <= i st + 2 * length cell.
Proof.
  intros Htwo Hcell. unfold update_cell_logged. simpl.
  destruct (cell_pairs_logged slice shape cell calls) as [[pairs calls1]|e] eqn:Hpairs;
    simpl; [|done].
  destruct (2 <? length pairs) eqn:E; [|intros [= <- <-]; lia].
  apply Nat.ltb_lt in E.
  destruct (reconstruct pairs) as [[linkedPairs|]|] eqn:Hrec;
    [|intros [= <- <-]; lia..].
  intros [= <- <-]. rewrite emit_i.
  pose proof (chain_length_bound _ _ _ _ _ _ _ Htwo Hcell Hpairs E Hrec). lia.
Qed.

Lemma run_i slice shape opts (cs : list (list nat)) k st calls st' calls' :
  two_point_pairs slice shape -> (forall cell, cell ∈ cs -> cell ∈ cells shape) ->
  forEachM (update_cell_logged colorGetter slice shape opts) k cs (st, calls)
  = Ok (st', calls') ->
  i st' <= i st + 2 * face_references cs.
Proof.
  intros Htwo. revert k st calls.
  induction cs as [|cell cs IH]; intros k st calls Hsub; simpl.
  - intros [= <- <-]. lia.
  - intros Hrun. apply bind_Ok in Hrun as ([st1 calls1] & Hcell & Hrest).
    apply update_cell_i in Hcell; [|done|apply Hsub; left].
    apply IH in Hrest; [|intros c Hc; apply Hsub; by right].
    rewrite face_references_cons. lia.
Qed.

End Run.

End HyperSliceGeometryRun.

(** ** HyperSliceGeometry.update as a whole *)

Module HyperSliceGeometryUpdate.
Import HyperSliceGeometry HyperSliceGeometryThreaded HyperSliceGeometryLoop HyperSliceGeometryCell.
Import Stores StoresFacts SliceVocabulary HyperSliceGeometryRun.

Section Update.
Context {num : Type} `{Number num} {vertex : Type}.
Variable vertexNormals : list num -> option (list Z) -> list num.
Variable colorGetter : PairContext num -> num * num * num.

Implicit Types (shape : Shape vertex) (opts : Options) (st : Frame num).
Implicit Types (slice : option vertex -> option vertex -> option (list num)).
Implicit Types (b : Builder num vertex) (g h : BufferGeometry num).
Implicit Types (fg eg pg out : option (BufferGeometry num)).

Lemma attributes_Ok opts (og : option (BufferGeometry num)) g :
  attributes opts og = Ok g ->
  og = Some g /\ (useColors opts = true -> is_Some (color g)).
Proof.
  destruct og as [g'|]; simpl; [|done].
  destruct (useColors opts).
  - destruct (color g') eqn:E; [|done]. intros [= <-]. split; [done|]. by rewrite E.
  - intros [= <-]. by split.
Qed.

Lemma attributes_same_color opts g h :
  attributes opts (Some g) = Ok g -> color h = color g ->
  attributes opts (Some h) = Ok h.
Proof.
  simpl. intros Hg Hc. rewrite Hc. destruct (useColors opts); [|done].
  by destruct (color g).
Qed.

(** The last step on a geometry, run on what it has produced, gives it
    back: the stores find their values in place, and setting the index, the
    normals or the draw range again changes nothing. *)
Lemma finish_again (after : BufferGeometry num -> BufferGeometry num) opts W fg out :
  (forall g, position (after g) = position g) ->
  (forall g, color (after g) = color g) ->
  (forall g, after (after g) = after g) ->
  (g ← attributes opts (edit W <$> fg); Ok (Some (after g))) = Ok out ->
  (g ← attributes opts (edit W <$> out); Ok (Some (after g))) = Ok out.
Proof.
  intros Hpos Hcol Hidem Hfin.
  apply bind_Ok in Hfin as (g & Hattr & [= <-]).
  destruct fg as [g0|]; [|done].
  pose proof (attributes_Ok _ _ _ Hattr) as [[= <-] _].
  change (edit W <$> Some (after (edit W g0))) with (Some (edit W (after (edit W g0)))).
  rewrite (edit_fixed W (after (edit W g0)) g0) by (by rewrite ?Hpos, ?Hcol).
  rewrite (attributes_same_color opts (edit W g0) (after (edit W g0)) Hattr (Hcol _)).
  change (Ok (Some (after (after (edit W g0)))) = Ok (Some (after (edit W g0)))).
  by rewrite Hidem.
Qed.

Lemma fmap_edit_idem W fg : edit W <$> (edit W <$> fg) = edit W <$> fg.
Proof. destruct fg; simpl; [|done]. by rewrite edit_idem. Qed.

Lemma finish_faces_again opts st W fg eg pg eg' pg' out :
  finish_faces vertexNormals opts (regeometry st (edit W <$> fg) eg pg) = Ok out ->
  finish_faces vertexNormals opts (regeometry st (edit W <$> out) eg' pg') = Ok out.
Proof.
  unfold finish_faces, regeometry. cbn [faceG indices]. destruct (useFaces opts).
  - by apply (finish_again
                (fun g => computeVertexNormals vertexNormals (setIndex (indices st) g))).
  - intros [= <-]. by rewrite fmap_edit_idem.
Qed.

Lemma finish_edges_again opts st W fg eg pg fg' pg' out :
  finish_edges opts (regeometry st fg (edit W <$> eg) pg) = Ok out ->
  finish_edges opts (regeometry st fg' (edit W <$> out) pg') = Ok out.
Proof.
  unfold finish_edges, regeometry. cbn [edgeG edgeIndices]. destruct (useEdges opts).
  - by apply (finish_again (fun g => setIndex (edgeIndices st) g)).
  - intros [= <-]. by rewrite fmap_edit_idem.
Qed.

Lemma finish_points_again opts st W fg eg pg fg' eg' out :
  finish_points opts (regeometry st fg eg (edit W <$> pg)) = Ok out ->
  finish_points opts (regeometry st fg' eg' (edit W <$> out)) = Ok out.
Proof.
  unfold finish_points, regeometry. cbn [pointG i]. destruct (usePoints opts).
  - by apply (finish_again (fun g => setDrawRange (i st) g)).
  - intros [= <-]. by rewrite fmap_edit_idem.
Qed.

(** The loop over the cells from the frame of a builder, whatever its
    geometries are. *)
Lemma run_cells_write_only slice b st calls :
  run_cells_logged colorGetter slice b = Ok (st, calls) ->
  exists WF WE WP,
    st = regeometry st (edit WF <$> geometry b) (edit WE <$> edgeGeometry b)
           (edit WP <$> pointGeometry b)
    /\ forall b', shape b' = shape b -> options b' = options b ->
         run_cells_logged colorGetter slice b'
         = Ok (regeometry st (edit WF <$> geometry b') (edit WE <$> edgeGeometry b')
                 (edit WP <$> pointGeometry b'), calls).
Proof.
  unfold run_cells_logged, start. intros Hrun.
  destruct (run_write_only _ _ _ _ _ _ _ _ _ _ Hrun) as (WF & WE & WP & HW).
  exists WF, WE, WP. split.
  - specialize (HW (geometry b) (edgeGeometry b) (pointGeometry b)).
    unfold regeometry at 1 in HW. simpl in HW. rewrite Hrun in HW.
    by injection HW.
  - intros b' -> ->. apply (HW (geometry b') (edgeGeometry b') (pointGeometry b')).
Qed.

(** A second [update] with the same [slice] gives the builder of the first. *)
Lemma slice_update_again slice b b1 calls :
  update_logged vertexNormals colorGetter slice b = Ok (b1, calls) ->
  update_logged vertexNormals colorGetter slice b1 = Ok (b1, calls).
Proof.
  unfold update_logged. intros Hup.
  apply bind_Ok in Hup as ([st calls1] & Hrun & Hup).
  apply bind_Ok in Hup as (g & Hg & Hup).
  apply bind_Ok in Hup as (eg & Heg & Hup).
  apply bind_Ok in Hup as (pg & Hpg & Hup).
  injection Hup as Hb1 <-.
  assert (shape b1 = shape b) as Hs by (by rewrite <- Hb1).
  assert (options b1 = options b) as Ho by (by rewrite <- Hb1).
  assert (geometry b1 = g) as Hg1 by (by rewrite <- Hb1).
  assert (edgeGeometry b1 = eg) as Heg1 by (by rewrite <- Hb1).
  assert (pointGeometry b1 = pg) as Hpg1 by (by rewrite <- Hb1).
  apply run_cells_write_only in Hrun as (WF & WE & WP & Hst & Hany).
  rewrite (Hany b1 Hs Ho), Hs, Ho, Hg1, Heg1, Hpg1.
  rewrite Hst in Hg, Heg, Hpg.
  cbn [mbind result_bind].
  rewrite (finish_faces_again _ _ _ _ _ _ _ _ _ Hg). cbn [mbind result_bind].
  rewrite (finish_edges_again _ _ _ _ _ _ _ _ _ Heg). cbn [mbind result_bind].
  rewrite (finish_points_again _ _ _ _ _ _ _ _ _ Hpg). cbn [mbind result_bind].
  by rewrite Hb1.
Qed.

(** *** The capacity of the buffers *)

Lemma allocated_init shape opts (wanted : bool) :
  allocated shape opts wanted
    (if wanted then Some (initGeometry (useColors opts) (maxPositions shape)) else None).
Proof.
  unfold allocated. destruct wanted; [|done].
  eexists. split; [done|]. simpl. rewrite length_new_Float32Array. split; [done|].
  destruct (useColors opts); [|done].
  eexists. split; [done|]. by rewrite length_new_Float32Array.
Qed.

Lemma allocated_after (after : BufferGeometry num -> BufferGeometry num)
  shape opts (wanted : bool) W fg :
  (forall g, position (after g) = position g) ->
  (forall g, color (after g) = color g) ->
  allocated shape opts wanted fg ->
  allocated shape opts wanted (after <$> (edit W <$> fg)).
Proof.
  intros Hpos Hcol. unfold allocated. destruct wanted; [|by intros ->].
  intros (g & -> & Hlen & Hc). eexists. split; [done|].
  rewrite Hpos, Hcol. simpl. rewrite length_apply_writes. split; [done|].
  destruct (useColors opts).
  - destruct Hc as (c & -> & Hc). eexists. split; [done|].
    by rewrite length_apply_writes.
  - by rewrite Hc.
Qed.

Lemma allocated_edit shape opts (wanted : bool) W fg :
  allocated shape opts wanted fg -> allocated shape opts wanted (edit W <$> fg).
Proof.
  intros Hfg.
  pose proof (allocated_after (fun g => g) shape opts wanted W fg
                (fun _ => eq_refl) (fun _ => eq_refl) Hfg) as Ha.
  by destruct fg.
Qed.

Lemma allocated_sized shape opts (wanted : bool) g :
  allocated shape opts wanted (Some g) -> sized (3 * maxPositions shape) g.
Proof.
  unfold allocated. destruct wanted; [|done].
  intros (g' & [= <-] & Hlen & Hc). split; [done|].
  intros c Hcg. destruct (useColors opts).
  - destruct Hc as (c' & Hc' & Hlen'). congruence.
  - congruence.
Qed.

Lemma finish_allocated (after : BufferGeometry num -> BufferGeometry num)
  shape opts (wanted : bool) W fg out :
  (forall g, position (after g) = position g) ->
  (forall g, color (after g) = color g) ->
  allocated shape opts wanted fg ->
  (if wanted then g ← attributes opts (edit W <$> fg); Ok (Some (after g))
   else Ok (edit W <$> fg)) = Ok out ->
  allocated shape opts wanted out.
Proof.
  intros Hpos Hcol Hfg. destruct wanted.
  - intros Hfin. apply bind_Ok in Hfin as (g & Hattr & [= <-]).
    apply attributes_Ok in Hattr as [Hg _].
    pose proof (allocated_after after shape opts true W fg Hpos Hcol Hfg) as Ha.
    by rewrite Hg in Ha.
  - intros [= <-]. by apply allocated_edit.
Qed.

(** [update] leaves every buffer with the size it had. *)
Lemma update_allocated slice b b1 calls :
  update_logged vertexNormals colorGetter slice b = Ok (b1, calls) ->
  allocated (shape b) (options b) (useFaces (options b)) (geometry b) ->
  allocated (shape b) (options b) (useEdges (options b)) (edgeGeometry b) ->
  allocated (shape b) (options b) (usePoints (options b)) (pointGeometry b) ->
  shape b1 = shape b /\ options b1 = options b
  /\ allocated (shape b) (options b) (useFaces (options b)) (geometry b1)
  /\ allocated (shape b) (options b) (useEdges (options b)) (edgeGeometry b1)
  /\ allocated (shape b) (options b) (usePoints (options b)) (pointGeometry b1).
Proof.
  unfold update_logged. intros Hup HF HE HP.
  apply bind_Ok in Hup as ([st calls1] & Hrun & Hup).
  apply bind_Ok in Hup as (g & Hg & Hup).
  apply bind_Ok in Hup as (eg & Heg & Hup).
  apply bind_Ok in Hup as (pg & Hpg & Hup).
  injection Hup as <- <-. simpl.
  apply run_cells_write_only in Hrun as (WF & WE & WP & Hst & _).
  rewrite Hst in Hg, Heg, Hpg.
  split; [done|]. split; [done|]. split; [|split].
  - by apply (finish_allocated
                (fun g => computeVertexNormals vertexNormals (setIndex (indices st) g))
                _ _ _ WF (geometry b)).
  - by apply (finish_allocated (fun g => setIndex (edgeIndices st) g)
                _ _ _ WE (edgeGeometry b)).
  - by apply (finish_allocated (fun g => setDrawRange (i st) g)
                _ _ _ WP (pointGeometry b)).
Qed.

Lemma constructor_allocated slice shape opts b calls :
  constructor_logged vertexNormals colorGetter slice shape opts = Ok (b, calls) ->
  HyperSliceGeometry.shape b = shape /\ options b = opts
  /\ allocated shape opts (useFaces opts) (geometry b)
  /\ allocated shape opts (useEdges opts) (edgeGeometry b)
  /\ allocated shape opts (usePoints opts) (pointGeometry b).
Proof.
  unfold constructor_logged. intros Hup.
  apply update_allocated in Hup; [done|apply allocated_init..].
Qed.

(** The geometries of a frame reached from the frame of a builder have the
    sizes of those of the builder. *)
Lemma run_sized slice b (cs : list (list nat)) k st calls g :
  forEachM (update_cell_logged colorGetter slice (shape b) (options b)) k cs (start b)
  = Ok (st, calls) ->
  allocated (shape b) (options b) (useFaces (options b)) (geometry b) ->
  allocated (shape b) (options b) (useEdges (options b)) (edgeGeometry b) ->
  allocated (shape b) (options b) (usePoints (options b)) (pointGeometry b) ->
  faceG st = Some g \/ edgeG st = Some g \/ pointG st = Some g ->
  sized (3 * maxPositions (shape b)) g.
Proof.
  unfold start. intros Hrun HF HE HP Hg.
  destruct (run_write_only _ _ _ _ _ _ _ _ _ _ Hrun) as (WF & WE & WP & HW).
  specialize (HW (geometry b) (edgeGeometry b) (pointGeometry b)).
  unfold regeometry at 1 in HW. simpl in HW. rewrite Hrun in HW.
  injection HW as Hst. rewrite Hst in Hg. simpl in Hg.
  destruct Hg as [Hg|[Hg|Hg]];
    eapply allocated_sized; rewrite <- Hg; by apply allocated_edit.
Qed.

End Update.

End HyperSliceGeometryUpdate.

(** ** HyperSliceGeometry: sizes and calls of slice *)

Module HyperSliceGeometryBounds.
Import HyperSliceGeometry HyperSliceGeometryThreaded HyperSliceGeometryLoop HyperSliceGeometryCell.
Import Stores StoresFacts SliceVocabulary HyperSliceGeometryRun HyperSliceGeometryUpdate.

Section Bounds.
Context {num : Type} `{Number num} {vertex : Type}.
Variable vertexNormals : list num -> option (list Z) -> list num.
Variable colorGetter : PairContext num -> num * num * num.

Implicit Types (shape : Shape vertex) (opts : Options) (st : Frame num).
Implicit Types (slice : option vertex -> option vertex -> option (list num)).
Implicit Types (b : Builder num vertex) (g : BufferGeometry num).

Lemma write_only_sized (F : Frame num -> Frame num) st n g :
  write_only F ->
  (forall g0, faceG st = Some g0 \/ edgeG st = Some g0 \/ pointG st = Some g0 ->
              sized n g0) ->
  faceG (F st) = Some g \/ edgeG (F st) = Some g \/ pointG (F st) = Some g ->
  sized n g.
Proof.
  intros HF Hst Hg. destruct (HF st) as (WF & WE & WP & HW).
  specialize (HW (faceG st) (edgeG st) (pointG st)).
  rewrite regeometry_own in HW. rewrite HW in Hg. simpl in Hg.
  destruct Hg as [Hg|[Hg|Hg]].
  - destruct (faceG st) as [g0|] eqn:E; [|done]. injection Hg as <-.
    apply sized_edit, Hst. by left.
  - destruct (edgeG st) as [g0|] eqn:E; [|done]. injection Hg as <-.
    apply sized_edit, Hst. right. by left.
  - destruct (pointG st) as [g0|] eqn:E; [|done]. injection Hg as <-.
    apply sized_edit, Hst. right. by right.
Qed.

(** *** The calls of slice *)

Lemma face_edges_length (vertices : list vertex) face :
  length (face_edges vertices face) = length face.
Proof. unfold face_edges. apply length_imap. Qed.

Lemma collect_pairs_calls slice vertices cellFaces pairs calls pairs' calls' :
  collect_pairs_logged slice vertices cellFaces pairs calls = Ok (pairs', calls') ->
  calls' = calls ++ flat_map (from_option (face_edges vertices) []) cellFaces.
Proof.
  revert pairs calls.
  induction cellFaces as [|[face|] cellFaces IH]; intros pairs calls; simpl.
  - intros [= <- <-]. by rewrite app_nil_r.
  - intros Hrun. apply IH in Hrun. by rewrite Hrun, <- app_assoc.
  - done.
Qed.

Lemma update_cell_calls slice shape opts st calls cellIndex cell st' calls' :
  update_cell_logged colorGetter slice shape opts (st, calls) cellIndex cell = Ok (st', calls') ->
  calls' = calls ++ flat_map (fun faceIndex =>
             from_option (face_edges (vertices shape)) [] (faces shape !! faceIndex)) cell.
Proof.
  unfold update_cell_logged, cell_pairs_logged. simpl.
  destruct (collect_pairs_logged _ _ _ _ _) as [[pairs calls1]|e] eqn:Hpairs; simpl; [|done].
  apply collect_pairs_calls in Hpairs. rewrite flat_map_fmap in Hpairs.
  intros Hcalls.
  assert (calls1 = calls') as <-.
  { destruct (2 <? length pairs); [|by injection Hcalls].
    destruct (reconstruct pairs) as [[?|]|]; by injection Hcalls. }
  done.
Qed.

Lemma run_calls slice shape opts (cs : list (list nat)) k st calls st' calls' :
  forEachM (update_cell_logged colorGetter slice shape opts) k cs (st, calls)
  = Ok (st', calls') ->
  calls' = calls ++ flat_map (fun cell => flat_map (fun faceIndex =>
             from_option (face_edges (vertices shape)) [] (faces shape !! faceIndex)) cell) cs.
Proof.
  revert k st calls. induction cs as [|cell cs IH]; intros k st calls; simpl.
  - intros [= <- <-]. by rewrite app_nil_r.
  - intros Hrun. apply bind_Ok in Hrun as ([st1 calls1] & Hcell & Hrest).
    apply update_cell_calls in Hcell. apply IH in Hrest.
    by rewrite Hrest, Hcell, <- app_assoc.
Qed.

(** [update] calls [slice] on the boundary edges of every face reference,
    in order. *)
Lemma update_calls slice b b1 calls :
  update_logged vertexNormals colorGetter slice b = Ok (b1, calls) ->
  calls = sliced_edges (HyperSliceGeometry.shape b).
Proof.
  unfold update_logged. intros Hup.
  apply bind_Ok in Hup as ([st calls1] & Hrun & Hup).
  apply bind_Ok in Hup as (g & Hg & Hup).
  apply bind_Ok in Hup as (eg & Heg & Hup).
  apply bind_Ok in Hup as (pg & Hpg & Hup).
  injection Hup as _ <-.
  unfold run_cells_logged, start in Hrun. by apply run_calls in Hrun.
Qed.

End Bounds.

End HyperSliceGeometryBounds.

(** ** Pairs that form one cycle *)

Module HyperSliceGeometryCycle.
Import HyperSliceGeometry HyperSliceGeometryLoop CycleVocabulary SliceVocabulary.
Import HyperSliceGeometryMethods.

(** *** Walks *)







Section Labels.
Context {num : Type} `{Number num}.
Variable lab : list num -> nat.

(** The points on which the tolerance agrees with the names. *)
Variable known : list num -> Prop.
Hypothesis near_lab :
  forall x y, known x -> known y -> (near x y = true <-> lab x = lab y).

Implicit Types (pair : list (list num)) (pairs segs : list (list (list num))).
Implicit Types (dangle next : list num) (chain : list (list num)).







End Labels.

Section Cycle.
Context {num : Type} `{Number num} {vertex : Type}.
Variable lab : list num -> nat.
Variable colorGetter : PairContext num -> num * num * num.

Implicit Types (pairs segs rest : list (list (list num))) (chain : list (list num)).




End Cycle.

Import Small Tetrahedron.




End HyperSliceGeometryCycle.

(** ** HyperGeometry.update *)

Module HyperGeometryUpdate.
Import HyperGeometry Stores StoresFacts HyperVocabulary.

Section Update.
Context {num : Type} `{Number num} {vertex : Type}.
Variable vertexNormals : list num -> option (list Z) -> list num.

Implicit Types (g h : BufferGeometry num) (gs : list (BufferGeometry num)).
Implicit Types (projected : list (list num)) (vertexIndices : list (option nat)).
Implicit Types (indexLists : list (list (option nat))).
Implicit Types (after : BufferGeometry num -> BufferGeometry num).

Lemma write_positions_eq projected vertexIndices g :
  write_positions projected vertexIndices g
  = forEachM (write_position projected) 0 vertexIndices g.
Proof. reflexivity. Qed.

Lemma refresh_eq after projected indexLists gs :
  refresh after projected indexLists gs
  = forEachM (refresh_cell after projected) 0 indexLists gs.
Proof. reflexivity. Qed.

(** The for loop is a sequence of stores into the position array; the
    sequence, and whether the loop throws, do not depend on the geometry. *)
Lemma write_positions_stores projected vertexIndices k g g' :
  forEachM (write_position projected) k vertexIndices g = Ok g' ->
  exists P, forall h,
    forEachM (write_position projected) k vertexIndices h = Ok (edit (P, []) h).
Proof.
  revert k g. induction vertexIndices as [|vi vertexIndices IH]; intros k g; simpl.
  - intros _. exists []. intros h. by rewrite edit_nil.
  - intros Hrun. apply bind_Ok in Hrun as (g1 & Hw & Hrest).
    unfold write_position in Hw |- *.
    destruct (vi ≫= (projected !!.)) as [p|]; [|done].
    apply IH in Hrest as (P & HP).
    eexists. intros h. simpl. rewrite HP, setPosition_edit, edit_edit. done.
Qed.

Lemma write_positions_edit projected vertexIndices g g' :
  write_positions projected vertexIndices g = Ok g' ->
  exists P, g' = edit (P, []) g /\
    forall h, write_positions projected vertexIndices h = Ok (edit (P, []) h).
Proof.
  rewrite write_positions_eq. intros Hrun.
  destruct (write_positions_stores _ _ _ _ _ Hrun) as (P & HP).
  exists P. split; [|done]. rewrite HP in Hrun. by injection Hrun.
Qed.

(** The map over the index lists touches the geometry of each cell once and
    leaves the list as long as it was. *)
Lemma refresh_cells_untouched after projected indexLists k gs gs1 :
  forEachM (refresh_cell after projected) k indexLists gs = Ok gs1 ->
  length gs1 = length gs /\ forall j, j < k -> gs1 !! j = gs !! j.
Proof.
  revert k gs. induction indexLists as [|l indexLists IH]; intros k gs; simpl.
  - intros [= <-]. done.
  - intros Hrun. apply bind_Ok in Hrun as (gs' & Hcell & Hrest).
    unfold refresh_cell in Hcell. destruct (gs !! k) as [g|]; [|done].
    apply bind_Ok in Hcell as (g' & _ & [= <-]).
    apply IH in Hrest as [Hlen Hlt]. rewrite length_insert in Hlen.
    split; [done|]. intros j Hj. rewrite Hlt by lia.
    apply list_lookup_insert_ne. lia.
Qed.

(** Refreshing again with the same projected vertices changes nothing. *)
Lemma refresh_cells_again after projected indexLists k gs gs1 :
  (forall g, position (after g) = position g) ->
  (forall g, color (after g) = color g) ->
  (forall g, after (after g) = after g) ->
  forEachM (refresh_cell after projected) k indexLists gs = Ok gs1 ->
  forEachM (refresh_cell after projected) k indexLists gs1 = Ok gs1.
Proof.
  intros Hpos Hcol Hidem. revert k gs.
  induction indexLists as [|l indexLists IH]; intros k gs; simpl; [done|].
  intros Hrun. apply bind_Ok in Hrun as (gs' & Hcell & Hrest).
  unfold refresh_cell in Hcell |- *.
  destruct (gs !! k) as [g|] eqn:Hk; [|done].
  apply bind_Ok in Hcell as (g' & Hw & [= <-]).
  apply write_positions_edit in Hw as (P & -> & HP).
  destruct (refresh_cells_untouched _ _ _ _ _ _ Hrest) as [Hlen Hlt].
  rewrite (Hlt k) by lia.
  rewrite list_lookup_insert_eq by (by eapply lookup_lt_Some).
  rewrite HP. simpl.
  rewrite (edit_fixed (P, []) (after (edit (P, []) g)) g) by (by rewrite ?Hpos, ?Hcol).
  rewrite Hidem, list_insert_id.
  - by eapply IH.
  - rewrite (Hlt k) by lia. apply list_lookup_insert_eq. by eapply lookup_lt_Some.
Qed.

(** *** What update leaves as it was *)

Lemma same_buffers_refl g : same_buffers g g.
Proof. by repeat split. Qed.

Lemma same_buffers_trans g1 g2 g3 :
  same_buffers g1 g2 -> same_buffers g2 g3 -> same_buffers g1 g3.
Proof. intros (?&?&?&?) (?&?&?&?). repeat split; congruence. Qed.

Lemma same_buffers_all_refl gs : Forall2 same_buffers gs gs.
Proof. apply Forall_Forall2_diag, Forall_forall. intros. apply same_buffers_refl. Qed.

Lemma same_buffers_all_trans gs1 gs2 gs3 :
  Forall2 same_buffers gs1 gs2 -> Forall2 same_buffers gs2 gs3 ->
  Forall2 same_buffers gs1 gs3.
Proof.
  intros H12. revert gs3. induction H12 as [|g1 g2 gs1 gs2 Hg _ IH]; intros gs3 H23.
  - by inversion H23.
  - inversion H23 as [|? g3 ? gs3' Hg' H23']; subst. constructor.
    + by eapply same_buffers_trans.
    + by apply IH.
Qed.

Lemma same_buffers_positions P g : same_buffers g (edit (P, []) g).
Proof.
  unfold same_buffers. simpl. rewrite length_apply_writes.
  repeat split. by destruct (color g).
Qed.

Lemma refresh_cells_same after projected indexLists k gs gs1 :
  (forall g, same_buffers g (after g)) ->
  forEachM (refresh_cell after projected) k indexLists gs = Ok gs1 ->
  Forall2 same_buffers gs gs1.
Proof.
  intros Hafter. revert k gs.
  induction indexLists as [|l indexLists IH]; intros k gs; simpl.
  - intros [= <-]. apply same_buffers_all_refl.
  - intros Hrun. apply bind_Ok in Hrun as (gs' & Hcell & Hrest).
    unfold refresh_cell in Hcell. destruct (gs !! k) as [g|] eqn:Hk; [|done].
    apply bind_Ok in Hcell as (g' & Hw & [= <-]).
    apply write_positions_edit in Hw as (P & -> & _).
    apply IH in Hrest. eapply same_buffers_all_trans; [|done].
    rewrite <- (list_insert_id gs k g) at 1 by done.
    apply Forall2_insert; [apply same_buffers_all_refl|].
    eapply same_buffers_trans; [apply same_buffers_positions | apply Hafter].
Qed.

Lemma same_buffers_normals g : same_buffers g (computeVertexNormals vertexNormals g).
Proof. by repeat split. Qed.

(** *** When update succeeds *)

Lemma write_positions_succeeds projected projected' vertexIndices k g g' h :
  length projected' = length projected ->
  forEachM (write_position projected) k vertexIndices g = Ok g' ->
  exists h', forEachM (write_position projected') k vertexIndices h = Ok h'.
Proof.
  intros Hlen. revert k g h.
  induction vertexIndices as [|vi vertexIndices IH]; intros k g h; simpl; [by eauto|].
  intros Hrun. apply bind_Ok in Hrun as (g1 & Hw & Hrest).
  unfold write_position in Hw |- *.
  destruct vi as [v|]; simpl in *; [|done].
  destruct (projected !! v) as [p|] eqn:Hv; [|done].
  destruct (lookup_lt_is_Some_2 projected' v) as [p' ->].
  { rewrite Hlen. by eapply lookup_lt_Some. }
  simpl. by eapply IH.
Qed.

Lemma refresh_cells_succeed after after' projected projected' indexLists k gs gs1 hs :
  length projected' = length projected -> length hs = length gs ->
  forEachM (refresh_cell after projected) k indexLists gs = Ok gs1 ->
  exists hs1, forEachM (refresh_cell after' projected') k indexLists hs = Ok hs1.
Proof.
  intros Hlen. revert k gs hs.
  induction indexLists as [|l indexLists IH]; intros k gs hs Hhs; simpl; [by eauto|].
  intros Hrun. apply bind_Ok in Hrun as (gs' & Hcell & Hrest).
  unfold refresh_cell in Hcell |- *.
  destruct (gs !! k) as [g|] eqn:Hk; [|done].
  apply bind_Ok in Hcell as (g' & Hw & [= <-]).
  destruct (lookup_lt_is_Some_2 hs k) as [h ->].
  { rewrite Hhs. by eapply lookup_lt_Some. }
  destruct (write_positions_succeeds _ projected' _ _ _ _ h Hlen Hw) as [h' Hh'].
  unfold write_positions. rewrite Hh'. simpl.
  eapply IH; [|done]. by rewrite !length_insert.
Qed.

(** *** update as a whole *)

Implicit Types (b : Builder num vertex) (project : vertex -> list num).

(** [update] calls [project] on the vertices of the shape, in order, and
    then refreshes the buffers from the results. *)
Lemma update_run project b :
  run project (Method.update vertexNormals b)
  = (vertices (shape b),
     update_buffers vertexNormals (map project (vertices (shape b))) b).
Proof.
  unfold Method.update. rewrite RunFacts.run_bind, RunFacts.run_mapP_ask. simpl.
  rewrite RunFacts.run_lift. simpl. by rewrite app_nil_r.
Qed.

Lemma update_unfold project b :
  update vertexNormals project b
  = (gs ← (if useFaces (options b)
           then refresh (computeVertexNormals vertexNormals)
                  (map project (vertices (shape b)))
                  (vertexGeometriesIndices b) (geometries b)
           else Ok (geometries b));
     egs ← (if useEdges (options b)
            then refresh id (map project (vertices (shape b)))
                   (dedupVertexGeometriesIndices b) (edgesGeometries b)
            else Ok (edgesGeometries b));
     pgs ← (if usePoints (options b)
            then refresh id (map project (vertices (shape b)))
                   (dedupVertexGeometriesIndices b) (pointsGeometries b)
            else Ok (pointsGeometries b));
     Ok ({| shape := shape b; options := options b;
            vertexGeometriesIndices := vertexGeometriesIndices b;
            dedupVertexGeometriesIndices := dedupVertexGeometriesIndices b;
            geometries := gs; edgesGeometries := egs; pointsGeometries := pgs |},
         vertices (shape b))).
Proof.
  unfold update. rewrite update_run. unfold observed, update_buffers. simpl.
  destruct (if useFaces (options b) then _ else _) as [gs|e]; [|done]. simpl.
  destruct (if useEdges (options b) then _ else _) as [egs|e]; [|done]. simpl.
  by destruct (if usePoints (options b) then _ else _) as [pgs|e].
Qed.

Lemma update_inv project b b1 calls :
  update vertexNormals project b = Ok (b1, calls) ->
  exists gs egs pgs,
    (if useFaces (options b)
     then refresh (computeVertexNormals vertexNormals) (map project (vertices (shape b)))
            (vertexGeometriesIndices b) (geometries b)
     else Ok (geometries b)) = Ok gs
    /\ (if useEdges (options b)
        then refresh id (map project (vertices (shape b))) (dedupVertexGeometriesIndices b) (edgesGeometries b)
        else Ok (edgesGeometries b)) = Ok egs
    /\ (if usePoints (options b)
        then refresh id (map project (vertices (shape b))) (dedupVertexGeometriesIndices b) (pointsGeometries b)
        else Ok (pointsGeometries b)) = Ok pgs
    /\ b1 = {| shape := shape b; options := options b;
               vertexGeometriesIndices := vertexGeometriesIndices b;
               dedupVertexGeometriesIndices := dedupVertexGeometriesIndices b;
               geometries := gs; edgesGeometries := egs; pointsGeometries := pgs |}
    /\ calls = vertices (shape b).
Proof.
  rewrite update_unfold. intros Hup.
  apply bind_Ok in Hup as (gs & Hgs & Hup).
  apply bind_Ok in Hup as (egs & Hegs & Hup).
  apply bind_Ok in Hup as (pgs & Hpgs & Hup).
  injection Hup as <- <-. by exists gs, egs, pgs.
Qed.

Lemma update_intro project b gs egs pgs :
  (if useFaces (options b)
   then refresh (computeVertexNormals vertexNormals) (map project (vertices (shape b)))
          (vertexGeometriesIndices b) (geometries b)
   else Ok (geometries b)) = Ok gs ->
  (if useEdges (options b)
   then refresh id (map project (vertices (shape b))) (dedupVertexGeometriesIndices b) (edgesGeometries b)
   else Ok (edgesGeometries b)) = Ok egs ->
  (if usePoints (options b)
   then refresh id (map project (vertices (shape b))) (dedupVertexGeometriesIndices b) (pointsGeometries b)
   else Ok (pointsGeometries b)) = Ok pgs ->
  update vertexNormals project b
  = Ok ({| shape := shape b; options := options b;
           vertexGeometriesIndices := vertexGeometriesIndices b;
           dedupVertexGeometriesIndices := dedupVertexGeometriesIndices b;
           geometries := gs; edgesGeometries := egs; pointsGeometries := pgs |},
        vertices (shape b)).
Proof. intros Hgs Hegs Hpgs. rewrite update_unfold. by rewrite Hgs, Hegs, Hpgs. Qed.

(** A second [update] with the same [project] gives the builder of the first. *)
Lemma hyper_update_again project b b1 calls :
  update vertexNormals project b = Ok (b1, calls) ->
  update vertexNormals project b1 = Ok (b1, calls).
Proof.
  intros Hup. apply update_inv in Hup as (gs & egs & pgs & Hgs & Hegs & Hpgs & -> & ->).
  apply (update_intro project
           {| shape := shape b; options := options b;
              vertexGeometriesIndices := vertexGeometriesIndices b;
              dedupVertexGeometriesIndices := dedupVertexGeometriesIndices b;
              geometries := gs; edgesGeometries := egs; pointsGeometries := pgs |});
    simpl.
  - destruct (useFaces (options b)); [|done].
    by apply refresh_cells_again in Hgs.
  - destruct (useEdges (options b)); [|done].
    by apply refresh_cells_again in Hegs.
  - destruct (usePoints (options b)); [|done].
    by apply refresh_cells_again in Hpgs.
Qed.

Lemma refresh_or_keep_same after (wanted : bool) projected indexLists gs gs1 :
  (forall g, same_buffers g (after g)) ->
  (if wanted then refresh after projected indexLists gs else Ok gs) = Ok gs1 ->
  Forall2 same_buffers gs gs1.
Proof.
  intros Hafter. destruct wanted.
  - by apply refresh_cells_same.
  - intros [= <-]. apply same_buffers_all_refl.
Qed.

(** [update] changes positions and normals only. *)
Lemma update_same_topology project b b1 calls :
  update vertexNormals project b = Ok (b1, calls) -> same_topology b b1.
Proof.
  intros Hup. apply update_inv in Hup as (gs & egs & pgs & Hgs & Hegs & Hpgs & -> & _).
  unfold same_topology. simpl. repeat split.
  - eapply refresh_or_keep_same; [|done]. apply same_buffers_normals.
  - eapply refresh_or_keep_same; [|done]. apply same_buffers_refl.
  - eapply refresh_or_keep_same; [|done]. apply same_buffers_refl.
Qed.

Lemma same_topology_refl b : same_topology b b.
Proof. unfold same_topology. repeat split; apply same_buffers_all_refl. Qed.

Lemma same_topology_trans b1 b2 b3 :
  same_topology b1 b2 -> same_topology b2 b3 -> same_topology b1 b3.
Proof.
  intros (?&?&?&?&?&?&?) (?&?&?&?&?&?&?).
  unfold same_topology. repeat split; try congruence;
    by eapply same_buffers_all_trans.
Qed.

Lemma refresh_or_keep_succeeds after after' (wanted : bool)
  projected projected' indexLists gs gs1 hs :
  length projected' = length projected -> length hs = length gs ->
  (if wanted then refresh after projected indexLists gs else Ok gs) = Ok gs1 ->
  exists hs1, (if wanted then refresh after' projected' indexLists hs else Ok hs) = Ok hs1.
Proof.
  intros Hlen Hhs. destruct wanted; [|by eauto].
  by apply refresh_cells_succeed.
Qed.

(** Whether [update] succeeds depends on neither [project] nor the positions. *)
Lemma update_succeeds project project' b b1 calls b' :
  update vertexNormals project b = Ok (b1, calls) -> same_topology b b' ->
  exists b1', update vertexNormals project' b' = Ok (b1', vertices (shape b')).
Proof.
  intros Hup (Hs & Ho & Hv & Hd & HF & HE & HP).
  apply update_inv in Hup as (gs & egs & pgs & Hgs & Hegs & Hpgs & _ & _).
  assert (length (map project' (vertices (shape b')))
          = length (map project (vertices (shape b)))) as Hlen.
  { by rewrite !length_map, Hs. }
  apply Forall2_length in HF, HE, HP.
  destruct (refresh_or_keep_succeeds _ (computeVertexNormals vertexNormals) _ _ _ _ _ _
              (geometries b') Hlen (eq_sym HF) Hgs) as [gs' Hgs'].
  destruct (refresh_or_keep_succeeds _ id _ _ _ _ _ _
              (edgesGeometries b') Hlen (eq_sym HE) Hegs) as [egs' Hegs'].
  destruct (refresh_or_keep_succeeds _ id _ _ _ _ _ _
              (pointsGeometries b') Hlen (eq_sym HP) Hpgs) as [pgs' Hpgs'].
  eexists. apply update_intro; rewrite Ho, ?Hv, ?Hd; done.
Qed.

Lemma updates_from project0 b0 b calls projects b' :
  update vertexNormals project0 b0 = Ok (b, calls) ->
  same_topology b0 b' -> same_topology b b' ->
  exists b'', updates vertexNormals projects b' = Ok b'' /\ same_topology b b''.
Proof.
  intros Hup. revert b'.
  induction projects as [|project projects IH]; intros b' H0 Hb; simpl.
  - by exists b'.
  - destruct (update_succeeds _ project _ _ _ _ Hup H0) as [b1' Hup'].
    rewrite Hup'. simpl.
    pose proof (update_same_topology _ _ _ _ Hup') as Hstep.
    apply IH; by eapply same_topology_trans.
Qed.

(** Every sequence of updates of a builder that one update has left
    succeeds, and changes positions and normals only. *)
Lemma updates_same_topology project0 b0 b calls projects :
  update vertexNormals project0 b0 = Ok (b, calls) ->
  exists b', updates vertexNormals projects b = Ok b' /\ same_topology b b'.
Proof.
  intros Hup. eapply updates_from; [done| |apply same_topology_refl].
  by eapply update_same_topology.
Qed.

End Update.

End HyperGeometryUpdate.

(** ** The constructor of HyperGeometry *)

Module HyperGeometryConstructor.
Import HyperGeometry Stores StoresFacts HyperVocabulary HyperGeometryUpdate.

Section Constructor.
Context {num : Type} `{Number num} {vertex : Type}.
Variable vertexNormals : list num -> option (list Z) -> list num.
Variable colorGetter : VertexContext -> num * num * num.

Implicit Types (shape : Shape vertex) (opts : Options) (cell : list nat).
Implicit Types (g : BufferGeometry num) (gs : list (BufferGeometry num)).
Implicit Types (b : Builder num vertex) (project : vertex -> list num).
Implicit Types (cellFaces : list (list nat)).

(** *** Triangles *)

Lemma fan_Ok faceShift faceLength :
  2 <= faceLength -> fan faceShift faceLength = Ok (fan_of faceShift faceLength).
Proof.
  intros Hlen. unfold fan, fan_of.
  destruct (Z.ltb_spec (Z.of_nat faceLength - 2) 0) as [Hlt|_]; [lia|].
  replace (Z.to_nat (Z.of_nat faceLength - 2)) with (faceLength - 2) by lia.
  f_equal. apply flat_map_ext. intros j. by rewrite !Nat2Z.inj_add.
Qed.

Lemma fan_Throw faceShift faceLength :
  faceLength < 2 -> fan faceShift faceLength = Throw RangeError.
Proof.
  intros Hlen. unfold fan.
  destruct (Z.ltb_spec (Z.of_nat faceLength - 2) 0) as [_|Hge]; [done | lia].
Qed.

Lemma length_triples {A B : Type} (t : A -> B * B * B) (xs : list A) :
  length (flat_map (fun x => [(t x).1.1; (t x).1.2; (t x).2]) xs) = 3 * length xs.
Proof. induction xs as [|x xs IH]; simpl; [done|]. rewrite IH. lia. Qed.

Lemma length_fan_of f k : length (fan_of f k) = 3 * (k - 2).
Proof.
  unfold fan_of.
  rewrite (length_triples
             (fun j => (Z.of_nat f, (Z.of_nat f + Z.of_nat j + 1)%Z,
                        (Z.of_nat f + Z.of_nat j + 2)%Z))).
  by rewrite length_seq.
Qed.

Lemma fans_of_app f cellFaces1 cellFaces2 :
  fans_of f (cellFaces1 ++ cellFaces2)
  = fans_of f cellFaces1 ++ fans_of (f + length (concat cellFaces1)) cellFaces2.
Proof.
  revert f. induction cellFaces1 as [|face cellFaces1 IH]; intros f; simpl.
  - by rewrite Nat.add_0_r.
  - rewrite IH, length_app, <- app_assoc. do 3 f_equal. lia.
Qed.

Lemma tesselate_Ok cellFaces indices faceShift :
  Forall (fun face => 2 <= length face) cellFaces ->
  tesselate (map Some cellFaces) indices faceShift
  = Ok (indices ++ fans_of faceShift cellFaces).
Proof.
  revert indices faceShift.
  induction cellFaces as [|face cellFaces IH]; intros indices faceShift Hall; simpl.
  - by rewrite app_nil_r.
  - apply Forall_cons in Hall as [Hface Hall].
    rewrite fan_Ok by done. simpl. rewrite IH by done. by rewrite <- app_assoc.
Qed.

Lemma tesselate_inv (faces : list (option (list nat))) indices faceShift out :
  tesselate faces indices faceShift = Ok out ->
  exists cellFaces, faces = map Some cellFaces /\
                    Forall (fun face => 2 <= length face) cellFaces.
Proof.
  revert indices faceShift.
  induction faces as [|[face|] faces IH]; intros indices faceShift; simpl.
  - intros _. by exists [].
  - intros Hrun. apply bind_Ok in Hrun as (triangles & Hfan & Hrest).
    apply IH in Hrest as (cellFaces & -> & Hall).
    exists (face :: cellFaces). split; [done|]. constructor; [|done].
    destruct (decide (2 <= length face)) as [|Hshort]; [done|].
    rewrite fan_Throw in Hfan by lia. done.
  - done.
Qed.

Lemma flat_Some cellFaces : flat (map Some cellFaces) = map Some (concat cellFaces).
Proof.
  induction cellFaces as [|face cellFaces IH]; [done|].
  change (flat (map Some (face :: cellFaces)))
    with (map Some face ++ flat (map Some cellFaces)).
  rewrite IH. simpl. by rewrite map_app.
Qed.

(** *** Colours leave the index alone *)

Lemma forEach_index {A : Type} (f : BufferGeometry num -> nat -> A -> BufferGeometry num)
  k (xs : list A) g :
  (forall g k x, index (f g k x) = index g) -> index (forEach f k xs g) = index g.
Proof.
  intros Hf. revert k g. induction xs as [|x xs IH]; intros k g; simpl; [done|].
  by rewrite IH, Hf.
Qed.

Lemma paint_index rgbs g : index (paint rgbs g) = index g.
Proof. unfold paint. by apply forEach_index. Qed.

(** *** The steps of the constructor *)

(** The constructor builds the buffers without a call of [project], and
    ends with [update()]. *)
Lemma constructor_build project shape opts :
  constructor vertexNormals colorGetter project shape opts
  = (b0 ← build colorGetter shape opts; update vertexNormals project b0).
Proof.
  unfold constructor, Method.constructor.
  rewrite RunFacts.run_bind, RunFacts.run_lift. simpl.
  by destruct (build colorGetter shape opts) as [b0|e].
Qed.

Lemma constructor_unfold project shape opts :
  constructor vertexNormals colorGetter project shape opts
  = (let expanded := map (fun cell => flat (cell_faces shape cell)) (cells shape) in
     let deduped := map dedup expanded in
     gs ← (if useFaces opts then init_faces shape opts expanded else Ok []);
     egs ← (if useEdges opts then init_edges shape opts deduped else Ok []);
     let pgs := if usePoints opts then init_points opts deduped else [] in
     gs ← (if useColors opts && useFaces opts
           then color_faces colorGetter shape gs else Ok gs);
     let egs := if useColors opts && useEdges opts
                then color_vertices colorGetter Edge deduped egs else egs in
     let pgs := if useColors opts && usePoints opts
                then color_vertices colorGetter Point deduped pgs else pgs in
     update vertexNormals project
       {| shape := shape; options := opts;
          vertexGeometriesIndices := expanded;
          dedupVertexGeometriesIndices := deduped;
          geometries := gs; edgesGeometries := egs; pointsGeometries := pgs |}).
Proof.
  rewrite constructor_build. unfold build. cbv zeta.
  destruct (if useFaces opts then _ else _) as [gs|e]; [|done]. simpl.
  destruct (if useEdges opts then _ else _) as [egs|e]; [|done]. simpl.
  by destruct (if useColors opts && useFaces opts then _ else _) as [gs1|e].
Qed.

Lemma constructor_inv project shape opts b calls :
  constructor vertexNormals colorGetter project shape opts = Ok (b, calls) ->
  let expanded := map (fun cell => flat (cell_faces shape cell)) (cells shape) in
  let deduped := map dedup expanded in
  exists gs0 egs0 gs1 b0,
    (if useFaces opts then init_faces shape opts expanded else Ok []) = Ok gs0
    /\ (if useEdges opts then init_edges shape opts deduped else Ok []) = Ok egs0
    /\ (if useColors opts && useFaces opts
        then color_faces colorGetter shape gs0 else Ok gs0) = Ok gs1
    /\ update vertexNormals project b0 = Ok (b, calls)
    /\ geometries b0 = gs1
    /\ HyperGeometry.shape b0 = shape /\ options b0 = opts
    /\ vertexGeometriesIndices b0 = expanded.
Proof.
  rewrite constructor_unfold. cbv zeta. intros Hc.
  apply bind_Ok in Hc as (gs0 & Hgs0 & Hc).
  apply bind_Ok in Hc as (egs0 & Hegs0 & Hc).
  apply bind_Ok in Hc as (gs1 & Hgs1 & Hc).
  cbv zeta. eexists gs0, egs0, gs1, _.
  split; [done|]. split; [done|]. split; [done|]. split; [exact Hc|]. done.
Qed.

(** With face buffers, the index of the geometry of a cell is the
    concatenation of the fans of the faces the cell names. *)
Lemma constructor_fans project shape opts b calls cellIndex cell :
  constructor vertexNormals colorGetter project shape opts = Ok (b, calls) ->
  useFaces opts = true ->
  cells shape !! cellIndex = Some cell ->
  exists cellFaces g,
    cell_faces shape cell = map Some cellFaces
    /\ vertexGeometriesIndices b !! cellIndex = Some (map Some (concat cellFaces))
    /\ geometries b !! cellIndex = Some g
    /\ index g = Some (fans_of 0 cellFaces)
    /\ forall before face after,
         cellFaces = before ++ face :: after ->
         let f := length (concat before) in
         2 <= length face
         /\ fans_of 0 cellFaces
            = fans_of 0 before ++ fan_of f (length face)
              ++ fans_of (f + length face) after
         /\ length (fan_of f (length face)) = 3 * (length face - 2).
Proof.
  intros Hc Hfaces Hcell.
  apply constructor_inv in Hc
    as (gs0 & egs0 & gs1 & b0 & Hgs0 & _ & Hgs1 & Hup & Hb0 & Hs & Ho & Hv).
  cbv zeta in *. rewrite Hfaces in Hgs0.
  assert (map (fun cell => flat (cell_faces shape cell)) (cells shape) !! cellIndex
          = Some (flat (cell_faces shape cell))) as Hx.
  { by rewrite list_lookup_fmap, Hcell. }
  destruct (mapM_lookup _ _ _ _ _ _ Hgs0 Hx) as (g0 & Hg0 & Hinit).
  simpl in Hinit. rewrite Hcell in Hinit. simpl in Hinit.
  apply bind_Ok in Hinit as (indices & Htess & [= <-]).
  destruct (tesselate_inv _ _ _ _ Htess) as (cellFaces & Hcf & Hall).
  rewrite Hcf, tesselate_Ok in Htess by done. injection Htess as <-.
  assert (exists g1, gs1 !! cellIndex = Some g1 /\ index g1 = Some (fans_of 0 cellFaces))
    as (g1 & Hg1 & Hi1).
  { destruct (useColors opts && useFaces opts).
    - destruct (mapM_lookup _ _ _ _ _ _ Hgs1 Hg0) as (g1 & Hg1 & Hpaint).
      apply bind_Ok in Hpaint as (rgbs & _ & [= <-]).
      exists (paint rgbs (setIndex (fans_of 0 cellFaces)
                (initGeometry (useColors opts) (length (flat (cell_faces shape cell)))))).
      split; [done|]. by rewrite paint_index.
    - injection Hgs1 as <-. by eexists. }
  apply update_same_topology in Hup as (_ & _ & Hv' & _ & HF & _ & _).
  rewrite Hb0 in HF.
  destruct (Forall2_lookup_l _ _ _ _ _ HF Hg1) as (g & Hg & _ & _ & Hi & _).
  exists cellFaces, g. split; [done|]. split; [|split; [done|split]].
  - by rewrite Hv', Hv, Hx, Hcf, flat_Some.
  - by rewrite Hi.
  - intros before face after ->. cbv zeta.
    apply Forall_app in Hall as [_ Hall]. apply Forall_cons in Hall as [Hface _].
    split; [done|]. split; [|apply length_fan_of].
    by rewrite fans_of_app.
Qed.

(** *** Well-formed shapes *)

Lemma edges_Ok verticesIndices cellFaces indices :
  exists out, edges verticesIndices (map Some cellFaces) indices = Ok out.
Proof.
  revert indices. induction cellFaces as [|face cellFaces IH]; intros indices; simpl.
  - by eauto.
  - apply IH.
Qed.

Lemma face_colors_Ok cellIndex faceIndex cellFaces :
  exists rgbs, face_colors colorGetter cellIndex faceIndex (map Some cellFaces) = Ok rgbs.
Proof.
  revert faceIndex. induction cellFaces as [|face cellFaces IH]; intros faceIndex; simpl.
  - by eauto.
  - destruct (IH (S faceIndex)) as [rest ->]. simpl. by eauto.
Qed.

Lemma cell_faces_well_formed shape cell :
  well_formed_from 2 shape -> cell ∈ cells shape ->
  exists cellFaces,
    cell_faces shape cell = map Some cellFaces
    /\ Forall (fun face => 2 <= length face /\
                           Forall (fun v => v < length (vertices shape)) face) cellFaces.
Proof.
  intros [Hfaces Hcells] Hcell.
  rewrite Forall_forall in Hcells. specialize (Hcells cell Hcell). clear Hcell.
  unfold cell_faces. induction Hcells as [|faceIndex cell' Hfi _ IH]; simpl.
  - by exists [].
  - destruct IH as (cellFaces & -> & Hall).
    destruct (lookup_lt_is_Some_2 _ _ Hfi) as [face Hface]. rewrite Hface.
    exists (face :: cellFaces). split; [done|]. constructor; [|done].
    rewrite Forall_forall in Hfaces. apply Hfaces. by eapply list_elem_of_lookup_2.
Qed.

Lemma default_cell_faces shape cellIndex :
  well_formed_from 2 shape ->
  exists cellFaces,
    cell_faces shape (default [] (cells shape !! cellIndex)) = map Some cellFaces
    /\ Forall (fun face => 2 <= length face /\
                           Forall (fun v => v < length (vertices shape)) face) cellFaces.
Proof.
  intros Hwf. destruct (cells shape !! cellIndex) as [cell|] eqn:Hcell; simpl.
  - apply cell_faces_well_formed; [done|]. by eapply list_elem_of_lookup_2.
  - by exists [].
Qed.

Lemma expanded_names_vertices shape :
  well_formed_from 2 shape ->
  Forall (Forall (names_vertex (length (vertices shape))))
         (map (fun cell => flat (cell_faces shape cell)) (cells shape)).
Proof.
  intros Hwf. apply Forall_map, Forall_forall. intros cell Hcell.
  destruct (cell_faces_well_formed _ _ Hwf Hcell) as (cellFaces & -> & Hall).
  rewrite flat_Some. apply Forall_map, Forall_forall. intros v Hv.
  exists v. split; [done|].
  apply list_elem_of_In, in_concat in Hv as (face & Hface & Hvf).
  apply list_elem_of_In in Hface, Hvf.
  rewrite Forall_forall in Hall. destruct (Hall face Hface) as [_ Hvs].
  rewrite Forall_forall in Hvs. by apply Hvs.
Qed.

Lemma deduped_names_vertices n (indexLists : list (list (option nat))) :
  Forall (Forall (names_vertex n)) indexLists ->
  Forall (Forall (names_vertex n)) (map dedup indexLists).
Proof.
  intros Hall. apply Forall_map. eapply Forall_impl; [done|].
  intros l Hl. simpl. rewrite Forall_forall in Hl |- *.
  intros vi Hvi. apply Hl. by apply dedup_elem.
Qed.

Lemma write_positions_Ok (projected : list (list num)) vertexIndices k g :
  Forall (names_vertex (length projected)) vertexIndices ->
  exists g', forEachM (write_position projected) k vertexIndices g = Ok g'.
Proof.
  intros Hall. revert k g.
  induction Hall as [|vi vertexIndices (v & -> & Hv) _ IH]; intros k g; simpl.
  - by eauto.
  - destruct (lookup_lt_is_Some_2 _ _ Hv) as [p Hp].
    assert (write_position projected g k (Some v)
            = Ok (setPosition (k * 3) (p !! 0) (p !! 1) (p !! 2) g)) as ->.
    { unfold write_position. simpl. by rewrite Hp. }
    cbn [mbind result_bind]. apply IH.
Qed.

Lemma refresh_cells_Ok after (projected : list (list num))
  (indexLists : list (list (option nat))) k gs :
  Forall (Forall (names_vertex (length projected))) indexLists ->
  k + length indexLists <= length gs ->
  exists gs1, forEachM (refresh_cell after projected) k indexLists gs = Ok gs1.
Proof.
  intros Hall. revert k gs.
  induction Hall as [|l indexLists Hl _ IH]; intros k gs Hlen; simpl.
  - by eauto.
  - simpl in Hlen.
    destruct (lookup_lt_is_Some_2 gs k) as [g Hg]; [lia|].
    destruct (write_positions_Ok projected l 0 g Hl) as [g' Hg'].
    assert (refresh_cell after projected gs k l = Ok (<[k := after g']> gs)) as ->.
    { unfold refresh_cell, write_positions. by rewrite Hg, Hg'. }
    cbn [mbind result_bind]. apply IH. rewrite length_insert. lia.
Qed.

Lemma refresh_or_keep_Ok after (wanted : bool) (projected : list (list num))
  (indexLists : list (list (option nat))) gs :
  Forall (Forall (names_vertex (length projected))) indexLists ->
  (wanted = true -> length gs = length indexLists) ->
  exists gs1, (if wanted then refresh after projected indexLists gs else Ok gs) = Ok gs1.
Proof.
  intros Hall Hlen. destruct wanted; [|by eauto].
  apply refresh_cells_Ok; [done|]. rewrite Hlen by done. simpl. lia.
Qed.

(** The constructor accepts every shape whose cells and faces name what
    exists and whose faces have two vertices or more. *)
Lemma constructor_Ok project shape opts :
  well_formed_from 2 shape ->
  exists b, constructor vertexNormals colorGetter project shape opts
            = Ok (b, vertices shape).
Proof.
  intros Hwf. rewrite constructor_unfold. cbv zeta.
  set (expanded := map (fun cell => flat (cell_faces shape cell)) (cells shape)).
  set (deduped := map dedup expanded).
  assert (exists gs0, (if useFaces opts then init_faces shape opts expanded else Ok [])
                      = Ok gs0 /\ (useFaces opts = true -> length gs0 = length expanded))
    as (gs0 & -> & Hgs0).
  { destruct (useFaces opts); [|exists []; by split].
    destruct (mapM_Ok (fun i verticesIndices =>
                indices ← tesselate (cell_faces shape (default [] (cells shape !! i))) [] 0;
                Ok (setIndex indices
                      (initGeometry (num := num) (useColors opts) (length verticesIndices))))
              0 expanded) as [gs0 Hgs0].
    { intros j x _. simpl.
      destruct (default_cell_faces shape j Hwf) as (cellFaces & -> & Hall).
      rewrite tesselate_Ok; [simpl; by eauto|].
      eapply Forall_impl; [done|]. simpl. intros face [Hlen _]. lia. }
    exists gs0. split; [done|]. intros _. by eapply mapM_length. }
  assert (exists egs0, (if useEdges opts then init_edges shape opts deduped else Ok [])
                       = Ok egs0 /\ (useEdges opts = true -> length egs0 = length deduped))
    as (egs0 & -> & Hegs0).
  { destruct (useEdges opts); [|exists []; by split].
    destruct (mapM_Ok (fun i verticesIndices =>
                indices ← edges verticesIndices
                            (cell_faces shape (default [] (cells shape !! i))) [];
                Ok (setIndex indices
                      (initGeometry (num := num) (useColors opts) (length verticesIndices))))
              0 deduped) as [egs0 Hegs0].
    { intros j x _. simpl.
      destruct (default_cell_faces shape j Hwf) as (cellFaces & -> & _).
      destruct (edges_Ok x cellFaces []) as [out ->]. simpl. by eauto. }
    exists egs0. split; [done|]. intros _. by eapply mapM_length. }
  cbn [mbind result_bind].
  assert (exists gs1, (if useColors opts && useFaces opts
                       then color_faces colorGetter shape gs0 else Ok gs0) = Ok gs1
                      /\ length gs1 = length gs0)
    as (gs1 & -> & Hgs1).
  { destruct (useColors opts && useFaces opts); [|exists gs0; by split].
    destruct (mapM_Ok (fun cellIndex geometry =>
                rgbs ← face_colors colorGetter cellIndex 0
                         (cell_faces shape (default [] (cells shape !! cellIndex)));
                Ok (paint rgbs geometry)) 0 gs0) as [gs1 Hgs1].
    { intros j x _. simpl.
      destruct (default_cell_faces shape j Hwf) as (cellFaces & -> & _).
      destruct (face_colors_Ok j 0 cellFaces) as [rgbs ->]. simpl. by eauto. }
    exists gs1. split; [done|]. by eapply mapM_length. }
  cbn [mbind result_bind].
  pose proof (expanded_names_vertices shape Hwf) as Hexp. fold expanded in Hexp.
  pose proof (deduped_names_vertices _ _ Hexp) as Hded. fold deduped in Hded.
  match goal with |- exists b, update _ _ ?r = _ => set (b0 := r) end.
  assert (length (map project (vertices (HyperGeometry.shape b0)))
          = length (vertices shape)) as Hlen by (by rewrite length_map).
  destruct (refresh_or_keep_Ok (computeVertexNormals vertexNormals) (useFaces opts)
              (map project (vertices (HyperGeometry.shape b0))) expanded gs1)
    as [gs2 Hgs2]; [by rewrite Hlen | intros Hf; rewrite Hgs1; by apply Hgs0 |].
  destruct (refresh_or_keep_Ok id (useEdges opts)
              (map project (vertices (HyperGeometry.shape b0))) deduped
              (edgesGeometries b0))
    as [egs2 Hegs2]; [by rewrite Hlen | |].
  { intros He. simpl. destruct (useColors opts && useEdges opts).
    - unfold color_vertices. rewrite length_imap. by apply Hegs0.
    - by apply Hegs0. }
  destruct (refresh_or_keep_Ok id (usePoints opts)
              (map project (vertices (HyperGeometry.shape b0))) deduped
              (pointsGeometries b0))
    as [pgs2 Hpgs2]; [by rewrite Hlen | |].
  { intros Hp. simpl. rewrite Hp.
    destruct (useColors opts && true).
    - unfold color_vertices, init_points. by rewrite length_imap, length_map.
    - unfold init_points. by rewrite length_map. }
  eexists. by apply (update_intro vertexNormals project b0 gs2 egs2 pgs2).
Qed.

(** *** Shapes the constructor rejects *)

Lemma tesselate_Throw (faces : list (option (list nat))) indices faceShift :
  None ∈ faces \/ (exists face, Some face ∈ faces /\ length face < 2) ->
  exists e, tesselate faces indices faceShift = Throw e.
Proof.
  intros Hbad. destruct (tesselate faces indices faceShift) as [out|e] eqn:E; [|by eauto].
  exfalso. apply tesselate_inv in E as (cellFaces & -> & Hall).
  destruct Hbad as [Hnone|(face & Hface & Hshort)].
  - apply list_elem_of_fmap in Hnone as (face & ? & _). done.
  - apply list_elem_of_fmap in Hface as (face' & [= <-] & Hin).
    rewrite Forall_forall in Hall. specialize (Hall face Hin). lia.
Qed.

Lemma init_faces_Throw shape opts cellIndex cell faceIndex :
  cells shape !! cellIndex = Some cell -> faceIndex ∈ cell ->
  faces shape !! faceIndex = None
  \/ (exists face, faces shape !! faceIndex = Some face /\ length face < 2) ->
  exists e, init_faces (num := num) shape opts
              (map (fun cell => flat (cell_faces shape cell)) (cells shape)) = Throw e.
Proof.
  intros Hcell Hin Hbad.
  destruct (tesselate_Throw (cell_faces shape cell) [] 0) as [e He].
  { unfold cell_faces. destruct Hbad as [Hnone|(face & Hface & Hshort)].
    - left. apply list_elem_of_fmap. by exists faceIndex.
    - right. exists face. split; [|done]. apply list_elem_of_fmap. by exists faceIndex. }
  unfold init_faces.
  eapply (mapM_Throw _ 0 _ cellIndex (flat (cell_faces shape cell)) e).
  - by rewrite list_lookup_fmap, Hcell.
  - simpl. rewrite Hcell. simpl. by rewrite He.
Qed.

Lemma write_positions_names (projected : list (list num)) vertexIndices k g g' :
  forEachM (write_position projected) k vertexIndices g = Ok g' ->
  Forall (names_vertex (length projected)) vertexIndices.
Proof.
  revert k g. induction vertexIndices as [|vi vertexIndices IH]; intros k g; simpl.
  - constructor.
  - intros Hrun. apply bind_Ok in Hrun as (g1 & Hw & Hrest).
    constructor; [|by eapply IH].
    unfold write_position in Hw. destruct vi as [v|]; [|done]. simpl in Hw.
    destruct (projected !! v) as [p|] eqn:Hv; [|done].
    exists v. split; [done|]. by eapply lookup_lt_Some.
Qed.

Lemma refresh_cells_names after (projected : list (list num))
  (indexLists : list (list (option nat))) k gs gs1 :
  forEachM (refresh_cell after projected) k indexLists gs = Ok gs1 ->
  Forall (Forall (names_vertex (length projected))) indexLists.
Proof.
  revert k gs. induction indexLists as [|l indexLists IH]; intros k gs; simpl.
  - constructor.
  - intros Hrun. apply bind_Ok in Hrun as (gs' & Hcell & Hrest).
    constructor; [|by eapply IH].
    unfold refresh_cell in Hcell. destruct (gs !! k) as [g|]; [|done].
    apply bind_Ok in Hcell as (g' & Hw & _). by eapply write_positions_names.
Qed.

Lemma constructor_names_vertices project shape opts b calls :
  constructor vertexNormals colorGetter project shape opts = Ok (b, calls) ->
  useFaces opts = true ->
  Forall (Forall (names_vertex (length (vertices shape))))
         (map (fun cell => flat (cell_faces shape cell)) (cells shape)).
Proof.
  intros Hc Hfaces.
  apply constructor_inv in Hc
    as (gs0 & egs0 & gs1 & b0 & _ & _ & _ & Hup & _ & Hs & Ho & Hv).
  cbv zeta in *.
  apply update_inv in Hup as (gs & _ & _ & Hgs & _).
  rewrite Ho, Hfaces, Hv, Hs in Hgs.
  apply refresh_cells_names in Hgs. by rewrite length_map in Hgs.
Qed.

End Constructor.

End HyperGeometryConstructor.

(** ** HyperGeometry: what update keeps *)

Module HyperGeometryClaims.
Import HyperGeometry Stores StoresFacts HyperVocabulary.
Import HyperGeometryUpdate HyperGeometryConstructor.

Section Claims.
Context {num : Type} `{Number num} {vertex : Type}.
Variable vertexNormals : list num -> option (list Z) -> list num.
Variable colorGetter : VertexContext -> num * num * num.

Implicit Types (shape : Shape vertex) (opts : Options) (cell : list nat).
Implicit Types (b : Builder num vertex) (project : vertex -> list num).

Lemma flat_names shape cell faceIndex face v :
  faceIndex ∈ cell -> faces shape !! faceIndex = Some face -> v ∈ face ->
  Some v ∈ flat (cell_faces shape cell).
Proof.
  intros Hfi Hface Hv. unfold flat, cell_faces.
  apply list_elem_of_In, in_flat_map. exists (Some face). split.
  - apply list_elem_of_In, list_elem_of_fmap. by exists faceIndex.
  - apply list_elem_of_In, list_elem_of_fmap. by exists v.
Qed.

(** C7: the constructor accepts a well-formed shape, and whatever the
    projector does between the frames every later [update] succeeds and
    leaves the builder with the same shape, options and index lists and
    with geometries of the same array sizes, colours, indices and draw
    ranges: positions and normals are all that an [update] changes. *)
Theorem topology_fixed project0 shape opts :
  well_formed shape ->
  exists b,
    constructor vertexNormals colorGetter project0 shape opts = Ok (b, vertices shape)
    /\ (forall projects,
          exists b', updates vertexNormals projects b = Ok b' /\ same_topology b b')
    /\ (forall project b1 b2 calls,
          update vertexNormals project b1 = Ok (b2, calls) -> same_topology b1 b2).
Proof.
  intros [Hfaces Hcells].
  destruct (constructor_Ok vertexNormals colorGetter project0 shape opts) as [b Hb].
  { split; [|done]. eapply Forall_impl; [done|]. simpl. intros face [Hlen Hvs].
    split; [lia | done]. }
  exists b. split; [done|]. split.
  - intros projects. pose proof Hb as Hc.
    apply constructor_inv in Hc as (_ & _ & _ & b0 & _ & _ & _ & Hup & _).
    by eapply updates_same_topology.
  - intros project b1 b2 calls. apply update_same_topology.
Qed.

(** [update] calls [project] once on each vertex of the shape, in order. *)
Lemma update_projects_each_vertex project b b1 calls :
  update vertexNormals project b = Ok (b1, calls) ->
  calls = vertices (HyperGeometry.shape b).
Proof. intros Hup. by apply update_inv in Hup as (_ & _ & _ & _ & _ & _ & _ & ->). Qed.

End Claims.

Import Small Square.

(** The square: constructed with every buffer, then updated over three
    frames with two states of the projector. *)
Lemma topology_fixed_witness :
  exists b,
    constructor no_normals black project shape all_buffers = Ok (b, vertices shape)
    /\ exists b', updates no_normals [project'; project; project'] b = Ok b'
                  /\ same_topology b b'.
Proof.
  destruct (topology_fixed no_normals black project shape all_buffers)
    as (b & Hb & Hupdates & _).
  - split; repeat constructor.
  - exists b. split; [done|]. apply Hupdates.
Defined.

End HyperGeometryClaims.

(** ** Both builders: the calls of the projector and a repeated update *)

Module BuilderClaims.
Import Stores StoresFacts SliceVocabulary HyperVocabulary.

Section Claims.
Context {num : Type} `{Number num} {vertex : Type}.
Variable vertexNormals : list num -> option (list Z) -> list num.
Variable vertexColor : HyperGeometry.VertexContext -> num * num * num.
Variable pairColor : HyperSliceGeometry.PairContext num -> num * num * num.

(** C2, as amended: every [update] of HyperGeometry, whether it returns
    or raises, calls [project] exactly once on each vertex of the shape, in
    the order of the vertices.  An [update] of HyperSliceGeometry that
    returns has called [slice] exactly once for each boundary edge of each
    face reference of each cell, in order, so an edge that several faces
    share, in one cell or across cells, is sliced once for each of them;
    an [update] that raises has made the first of these calls and no
    other. *)
Theorem projector_calls :
  (forall project (b : HyperGeometry.Builder num vertex),
     (run project (HyperGeometry.Method.update vertexNormals b)).1
     = vertices (HyperGeometry.shape b))
  /\ (forall slice (b : HyperSliceGeometry.Builder num vertex),
        (run (HyperSliceGeometry.answer slice)
           (HyperSliceGeometry.Method.update vertexNormals pairColor b)).1
          `prefix_of` edge_references (HyperSliceGeometry.shape b))
  /\ (forall slice (b b1 : HyperSliceGeometry.Builder num vertex),
        (run (HyperSliceGeometry.answer slice)
           (HyperSliceGeometry.Method.update vertexNormals pairColor b)).2 = Ok b1 ->
        (run (HyperSliceGeometry.answer slice)
           (HyperSliceGeometry.Method.update vertexNormals pairColor b)).1
        = edge_references (HyperSliceGeometry.shape b))
  /\ (forall project (b b1 : HyperGeometry.Builder num vertex) calls,
        HyperGeometry.update vertexNormals project b = Ok (b1, calls) ->
        calls = vertices (HyperGeometry.shape b))
  /\ (forall slice (b b1 : HyperSliceGeometry.Builder num vertex) calls,
        HyperSliceGeometry.update vertexNormals pairColor slice b = Ok (b1, calls) ->
        calls = edge_references (HyperSliceGeometry.shape b)).
Proof.
  split; [|split; [|split; [|split]]].
  - intros project b. by rewrite HyperGeometryUpdate.update_run.
  - intros slice b. apply HyperSliceGeometryMethods.update_calls_made.
  - intros slice b. apply HyperSliceGeometryMethods.update_calls_made.
  - intros project b b1 calls.
    apply HyperGeometryClaims.update_projects_each_vertex.
  - intros slice b b1 calls Hup. unfold HyperSliceGeometry.update in Hup.
    apply RunFacts.observed_Ok in Hup as [Hok ->]. simpl.
    by eapply HyperSliceGeometryMethods.update_calls_made.
Qed.

(** C8: for both builders, an [update] that follows an [update] with the
    same [project], or the same [slice], gives the builder the first one
    gave, position arrays included, and makes the same calls. *)
Theorem update_twice :
  (forall project (b b1 : HyperGeometry.Builder num vertex) calls,
     HyperGeometry.update vertexNormals project b = Ok (b1, calls) ->
     HyperGeometry.update vertexNormals project b1 = Ok (b1, calls))
  /\ (forall slice (b b1 : HyperSliceGeometry.Builder num vertex) calls,
        HyperSliceGeometry.update vertexNormals pairColor slice b = Ok (b1, calls) ->
        HyperSliceGeometry.update vertexNormals pairColor slice b1 = Ok (b1, calls)).
Proof.
  split.
  - intros project b b1 calls. apply HyperGeometryUpdate.hyper_update_again.
  - intros slice b b1 calls.
    rewrite !HyperSliceGeometryMethods.update_threaded.
    apply HyperSliceGeometryUpdate.slice_update_again.
Qed.

End Claims.

Import Small.

(** The tetrahedron: twelve calls of [slice] for its six edges, also when
    the geometries are missing and the first write raises; the square: one
    call of [project] for each of its four vertices. *)
Lemma projector_calls_witness :
  (exists b1,
     HyperSliceGeometry.update no_normals black Tetrahedron.slice Tetrahedron.fresh
     = Ok (b1, Tetrahedron.sliced_edges_of_cell))
  /\ ((run (HyperSliceGeometry.answer Tetrahedron.slice)
          (HyperSliceGeometry.Method.update no_normals black Tetrahedron.bare)).2
       = Throw TypeError
      /\ (run (HyperSliceGeometry.answer Tetrahedron.slice)
             (HyperSliceGeometry.Method.update no_normals black Tetrahedron.bare)).1
           `prefix_of` Tetrahedron.sliced_edges_of_cell)
  /\ (exists b b1,
        HyperGeometry.constructor no_normals black Square.project Square.shape
          Square.all_buffers = Ok (b, [0; 1; 2; 3])
        /\ HyperGeometry.update no_normals Square.project' b = Ok (b1, [0; 1; 2; 3])).
Proof.
  destruct (projector_calls (num := small) (vertex := nat) no_normals black)
    as (_ & Hprefix & _ & Hproject & Hslice).
  split; [|split].
  - destruct (HyperSliceGeometry.update no_normals black Tetrahedron.slice
                Tetrahedron.fresh) as [[b1 calls]|e] eqn:Hup;
      [|vm_compute in Hup; discriminate].
    exists b1. by rewrite (Hslice _ _ _ _ Hup).
  - split; [reflexivity|]. exact (Hprefix Tetrahedron.slice Tetrahedron.bare).
  - destruct (HyperGeometry.constructor no_normals black Square.project Square.shape
                Square.all_buffers) as [[b calls0]|e] eqn:Hb;
      [|vm_compute in Hb; discriminate].
    pose proof Hb as Hc. apply HyperGeometryConstructor.constructor_inv in Hc
      as (_ & _ & _ & b0 & _ & _ & _ & Hup0 & _ & Hs & _).
    pose proof (Hproject _ _ _ _ Hup0) as Hcalls0. rewrite Hs in Hcalls0.
    pose proof (HyperGeometryUpdate.update_same_topology _ _ _ _ _ Hup0) as (Hsb & _).
    destruct (HyperGeometryUpdate.updates_same_topology no_normals Square.project
                b0 b calls0 [Square.project'] Hup0) as (b' & Hups & _).
    simpl in Hups.
    destruct (HyperGeometry.update no_normals Square.project' b)
      as [[b1 calls]|e] eqn:Hup; [|discriminate].
    pose proof (Hproject _ _ _ _ Hup) as Hcalls. rewrite Hsb, Hs in Hcalls.
    exists b, b1. by rewrite Hcalls0, Hup, Hcalls.
Defined.

(** C2 as the specification words it fails: in the tetrahedron the edge
    from vertex 0 to vertex 1 lies on two faces and is sliced twice in one
    [update]. *)
Lemma shared_edge_sliced_twice :
  ~ (forall slice (b b1 : HyperSliceGeometry.Builder small nat) calls,
       HyperSliceGeometry.update no_normals black slice b = Ok (b1, calls) ->
       NoDup calls).
Proof.
  intros Hclaim.
  destruct (HyperSliceGeometry.update no_normals black Tetrahedron.slice Tetrahedron.fresh)
    as [[b1 calls]|e] eqn:Hup; [|by vm_compute in Hup].
  specialize (Hclaim _ _ _ _ Hup).
  vm_compute in Hup. injection Hup as _ <-.
  apply NoDup_cons in Hclaim as [Hnotin _]. apply Hnotin.
  do 2 right. left.
Qed.

(** The tetrahedron sliced twice, the square projected twice. *)
Lemma update_twice_witness :
  (exists b1 calls,
     HyperSliceGeometry.update no_normals black Tetrahedron.slice Tetrahedron.fresh
     = Ok (b1, calls)
     /\ HyperSliceGeometry.update no_normals black Tetrahedron.slice b1 = Ok (b1, calls))
  /\ (exists b calls,
        HyperGeometry.constructor no_normals black Square.project Square.shape
          Square.all_buffers = Ok (b, calls)
        /\ HyperGeometry.update no_normals Square.project b = Ok (b, calls)).
Proof.
  destruct (update_twice (num := small) (vertex := nat) no_normals black)
    as (Hproject & Hslice).
  split.
  - destruct (HyperSliceGeometry.update no_normals black Tetrahedron.slice
                Tetrahedron.fresh) as [[b1 calls]|e] eqn:Hup;
      [|vm_compute in Hup; discriminate].
    exists b1, calls. split; [done|]. apply (Hslice _ _ _ _ Hup).
  - destruct (HyperGeometry.constructor no_normals black Square.project Square.shape
                Square.all_buffers) as [[b calls]|e] eqn:Hb;
      [|vm_compute in Hb; discriminate].
    exists b, calls. split; [done|].
    pose proof Hb as Hup. apply HyperGeometryConstructor.constructor_inv in Hup
      as (_ & _ & _ & b0 & _ & _ & _ & Hup & _).
    by apply (Hproject _ _ _ _ Hup).
Defined.

End BuilderClaims.

(** * Further properties *)

(** ** The matching and the loop of HyperSliceGeometry.update *)

Module HyperSliceGeometryMatching.
Import HyperSliceGeometry HyperSliceGeometryLoop LoopVocabulary.

Section Matching.
Context {num : Type} `{Number num}.

Implicit Types (p dangle next : list num) (chain : list (list num)).
Implicit Types (pair : list (list num)) (pairs : list (list (list num))).

Lemma forallb_imap {A : Type} (f : nat -> A -> bool) (l : list A) :
  forallb id (imap f l) = true <-> forall i x, l !! i = Some x -> f i x = true.
Proof.
  revert f. induction l as [|a l IH]; intros f; simpl.
  - split; [by intros _ i x ? | done].
  - rewrite andb_true_iff, IH. split.
    + intros [Ha Hl] [|i] x; simpl; [by intros [= <-] | apply Hl].
    + intros Hall. split; [by apply (Hall 0) | intros i x Hx; by apply (Hall (S i))].
Qed.

(** X1: [p] matches [dangle] exactly when every coordinate of [p] has a
    coordinate of [dangle] at the same position and is within epsilon of
    it.  A point without coordinates matches every point, and a point
    with more coordinates than [dangle] matches none. *)
Theorem near_spec p dangle :
  (near p dangle = true <->
   forall ci c, p !! ci = Some c ->
     exists d, dangle !! ci = Some d /\ within_epsilon c d = true)
  /\ near [] dangle = true
  /\ (length dangle < length p -> near p dangle = false).
Proof.
  assert (near p dangle = true <->
          forall ci c, p !! ci = Some c ->
            exists d, dangle !! ci = Some d /\ within_epsilon c d = true) as Hiff.
  { unfold near. rewrite forallb_imap. split.
    - intros Hall ci c Hc. specialize (Hall ci c Hc).
      destruct (dangle !! ci) as [d|]; [by exists d | done].
    - intros Hall ci c Hc. destruct (Hall ci c Hc) as (d & -> & Hd). done. }
  split; [done|]. split; [done|].
  intros Hlen. apply not_true_is_false. intros E.
  pose proof (proj1 Hiff E) as Hall.
  destruct (lookup_lt_is_Some_2 p (length dangle) Hlen) as [c Hc].
  destruct (Hall _ _ Hc) as (d & Hd & _). apply lookup_lt_Some in Hd. lia.
Qed.

Lemma unmatched_not_takes dangle pair next : unmatched dangle pair -> ~ takes dangle pair next.
Proof. intros [H1 H2] [[? _]|(_ & ? & _)]; congruence. Qed.

Lemma scan_cons dangle pair pairs :
  scan dangle (pair :: pairs)
  = if near (endpoints pair).1 dangle then Some (pairs, (endpoints pair).2)
    else if near (endpoints pair).2 dangle then Some (pairs, (endpoints pair).1)
    else '(rest, p) ← scan dangle pairs; Some (pair :: rest, p).
Proof. simpl. by destruct (endpoints pair). Qed.

Lemma scan_Some dangle pairs pairs' next :
  scan dangle pairs = Some (pairs', next) <->
  exists pre pair post,
    pairs = pre ++ pair :: post /\ pairs' = pre ++ post
    /\ Forall (unmatched dangle) pre /\ takes dangle pair next.
Proof.
  revert pairs' next.
  induction pairs as [|pair pairs IH]; intros pairs' next.
  - split; [done|]. intros (pre & q & post & Hnil & _). by destruct pre.
  - rewrite scan_cons. split.
    + destruct (near (endpoints pair).1 dangle) eqn:E1.
      { intros [= <- <-]. exists [], pair, pairs. repeat split; [constructor|].
        by left. }
      destruct (near (endpoints pair).2 dangle) eqn:E2.
      { intros [= <- <-]. exists [], pair, pairs. repeat split; [constructor|].
        by right. }
      destruct (scan dangle pairs) as [[rest q]|] eqn:Hscan; simpl; [|done].
      intros [= <- <-].
      destruct (proj1 (IH rest q) eq_refl) as (pre & q' & post & -> & -> & Hpre & Htakes).
      exists (pair :: pre), q', post. repeat split; [|done].
      by constructor.
    + intros (pre & q & post & Hpairs & -> & Hpre & Htakes).
      destruct pre as [|q0 pre]; simpl in Hpairs; injection Hpairs as <- ->.
      * destruct Htakes as [[-> ->]|(-> & -> & ->)]; done.
      * apply Forall_cons in Hpre as [[-> ->] Hpre].
        rewrite (proj2 (IH (pre ++ post) next)); [done|].
        by exists pre, q, post.
Qed.

(** X2: the for loop takes the first pair that has an endpoint near the
    dangling point and leaves the other pairs in their order; it pushes
    the far endpoint, the second one when both endpoints are near.  It
    takes nothing exactly when no pair has an endpoint near the dangling
    point. *)
Theorem scan_first_match dangle pairs :
  (forall pairs' next,
     scan dangle pairs = Some (pairs', next) <->
     exists pre pair post,
       pairs = pre ++ pair :: post /\ pairs' = pre ++ post
       /\ Forall (unmatched dangle) pre /\ takes dangle pair next)
  /\ (scan dangle pairs = None <-> Forall (unmatched dangle) pairs).
Proof. split; [intros; apply scan_Some | apply scan_None]. Qed.

(** One iteration of the loop, seen from outside. *)
Lemma loop_body_takes chain pairs chain' pairs' :
  loop_body (chain, pairs) = Some (chain', pairs') ->
  exists pre pair post next,
    pairs = pre ++ pair :: post /\ pairs' = pre ++ post /\ chain' = chain ++ [next]
    /\ takes (dangle_of chain) pair next.
Proof.
  unfold loop_body. simpl.
  destruct (scan (dangle_of chain) pairs) as [[ps next]|] eqn:Hscan; simpl; [|done].
  intros [= <- <-].
  apply scan_Some in Hscan as (pre & pair & post & -> & -> & _ & Htakes).
  by exists pre, pair, post, next.
Qed.

Lemma dangle_of_snoc chain next : dangle_of (chain ++ [next]) = next.
Proof. unfold dangle_of. by rewrite last_snoc. Qed.

(** X3: when the loop runs out of pairs, the chain it leaves is the chain
    it started from followed by one point per pair, and the pairs, taken
    in some order, are each used exactly once: each links a point of the
    chain (the dangling point at that time) to the point pushed after it. *)
Theorem closed_chain_uses_each_pair fuel chain pairs closed :
  link_loop fuel chain pairs = Some (Closed closed) ->
  exists added order,
    closed = chain ++ added /\ length added = length pairs
    /\ order ≡ₚ pairs
    /\ Forall2 (fun pair e => takes e.1 pair e.2) order
               (zip (dangle_of chain :: added) added).
Proof.
  revert chain pairs. induction fuel as [|fuel IH]; intros chain [|pair pairs].
  - intros [= <-]. exists [], []. rewrite app_nil_r. repeat split; constructor.
  - done.
  - intros [= <-]. exists [], []. rewrite app_nil_r. repeat split; constructor.
  - rewrite link_loop_step.
    destruct (loop_body (chain, pair :: pairs)) as [[chain' pairs']|] eqn:Hbody; [|done].
    intros Hrun. simpl in Hrun.
    apply loop_body_takes in Hbody
      as (pre & q & post & next & Hpairs & -> & -> & Htakes).
    apply IH in Hrun as (added & order & -> & Hlen & Hord & Hlinks).
    rewrite dangle_of_snoc in Hlinks.
    exists (next :: added), (q :: order). split; [by rewrite <- app_assoc|].
    split; [|split].
    + apply (f_equal length) in Hpairs. rewrite !length_app in *. simpl in *. lia.
    + by rewrite Hpairs, Hord, Permutation_middle.
    + simpl. by constructor.
Qed.

(** X4: with enough fuel the loop ends in the [return] of line 111 exactly
    when its iterations reach a state in which pairs are left and none of
    them has an endpoint near the dangling point; otherwise it runs out of
    pairs. *)
Theorem abandoned_iff_stuck fuel chain pairs :
  length pairs <= fuel ->
  (link_loop fuel chain pairs = Some Abandoned <->
   exists chain' pairs',
     rtc iterates (chain, pairs) (chain', pairs') /\ pairs' <> []
     /\ Forall (unmatched (dangle_of chain')) pairs')
  /\ (link_loop fuel chain pairs <> Some Abandoned ->
      exists closed, link_loop fuel chain pairs = Some (Closed closed)).
Proof.
  intros Hfuel. split; [split|].
  - revert chain pairs Hfuel.
    induction fuel as [|fuel IH]; intros chain [|pair pairs] Hfuel; try done;
      try (simpl in Hfuel; lia).
    rewrite link_loop_step.
    destruct (loop_body (chain, pair :: pairs)) as [[chain1 pairs1]|] eqn:Hbody.
    + intros Hrun. simpl in Hrun.
      apply IH in Hrun as (chain' & pairs' & Hrtc & Hne & Hun).
      * exists chain', pairs'. split; [|done]. by eapply rtc_l.
      * apply loop_body_length in Hbody. simpl in *. lia.
    + intros _. exists chain, (pair :: pairs). split; [apply rtc_refl|].
      split; [done|]. apply scan_None.
      unfold loop_body in Hbody. simpl fst in Hbody. simpl snd in Hbody.
      by destruct (scan (dangle_of chain) (pair :: pairs)) as [[? ?]|].
  - intros (chain' & pairs' & Hrtc & Hne & Hun).
    by apply (link_loop_abandoned fuel (chain, pairs) (chain', pairs')).
  - intros Hnot. destruct (link_loop_enough fuel chain pairs Hfuel) as [[closed|] Hout].
    + by exists closed.
    + done.
Qed.

End Matching.

Import Small Tetrahedron.

(** The pairs of the sliced tetrahedron after the first: two pairs, two
    points added. *)
Lemma closed_chain_uses_each_pair_witness :
  exists added order,
    [cut 1; cut 2; cut 3; cut 1] = [cut 1; cut 2] ++ added /\ length added = 2
    /\ order ≡ₚ [[cut 1; cut 3]; [cut 3; cut 2]]
    /\ Forall2 (fun pair e => takes e.1 pair e.2) order
               (zip (dangle_of [cut 1; cut 2] :: added) added).
Proof.
  apply (closed_chain_uses_each_pair 2 [cut 1; cut 2] [[cut 1; cut 3]; [cut 3; cut 2]]).
  reflexivity.
Defined.

(** The broken chain of the tetrahedron: stuck after one iteration. *)
Lemma abandoned_iff_stuck_witness :
  link_loop 2 [cut 1; cut 2] [[cut 1; cut 3]; [pt 9 9 9; cut 2]] = Some Abandoned.
Proof.
  apply (abandoned_iff_stuck 2 [cut 1; cut 2] [[cut 1; cut 3]; [pt 9 9 9; cut 2]]).
  - simpl. lia.
  - exists [cut 1; cut 2; pt 9 9 9], [[cut 1; cut 3]]. split; [|split].
    + eapply rtc_l; [|apply rtc_refl]. reflexivity.
    + discriminate.
    + repeat constructor.
Defined.

End HyperSliceGeometryMatching.

(** ** Runs of stores into a typed array *)

Module ArrayFacts.
Import ArrayVocabulary.

Section Arrays.
Context {num : Type} `{Number num}.

Lemma length_overwrite {A} k (xs array : list A) :
  k + length xs <= length array -> length (overwrite k xs array) = length array.
Proof.
  intros Hle. unfold overwrite.
  rewrite !length_app, length_take, length_drop. lia.
Qed.

Lemma overwrite_nil {A} k (array : list A) : overwrite k [] array = array.
Proof. unfold overwrite. simpl. by rewrite Nat.add_0_r, take_drop. Qed.

(** Writing [ys] right after [xs] is writing [xs ++ ys]. *)
Lemma overwrite_overwrite {A} k (xs ys array : list A) :
  k + length xs + length ys <= length array ->
  overwrite (k + length xs) ys (overwrite k xs array) = overwrite k (xs ++ ys) array.
Proof.
  intros Hle.
  assert (length (take k array ++ xs) = k + length xs) as Hlen.
  { rewrite length_app, length_take. lia. }
  assert (overwrite k xs array = (take k array ++ xs) ++ drop (k + length xs) array)
    as -> by (unfold overwrite; by rewrite app_assoc).
  unfold overwrite.
  rewrite take_app_length' by done.
  rewrite drop_app_add' by done. rewrite drop_drop.
  rewrite length_app, <- !app_assoc.
  by rewrite Nat.add_assoc.
Qed.

Lemma overwrite_0 {A} (xs array : list A) :
  overwrite 0 xs array = xs ++ drop (length xs) array.
Proof. unfold overwrite. by rewrite take_0. Qed.

(** Writing a whole array leaves what was written. *)
Lemma overwrite_all {A} (xs array : list A) :
  length xs = length array -> overwrite 0 xs array = xs.
Proof.
  intros Hlen. rewrite overwrite_0, drop_ge by lia. apply app_nil_r.
Qed.

Lemma length_coords3 (ps : list (list num)) :
  length (flat_map coords3 ps) = 3 * length ps.
Proof. induction ps as [|p ps IH]; simpl; [done|]. rewrite IH. lia. Qed.

Lemma length_rgb3 (rgbs : list (num * num * num)) :
  length (flat_map rgb3 rgbs) = 3 * length rgbs.
Proof. induction rgbs as [|rgb rgbs IH]; simpl; [done|]. rewrite IH. lia. Qed.

(** Three stores in a row overwrite three numbers. *)
Lemma store3_stored3 (array : list num) k x y z :
  k + 3 <= length array ->
  store3 array k x y z = overwrite k (stored3 x y z) array.
Proof.
  unfold store3, store, overwrite, stored3. revert array.
  induction k as [|k IH]; intros array Hle.
  - destruct array as [|a0 [|a1 [|a2 array]]]; simpl in Hle; try lia. done.
  - destruct array as [|a0 array]; simpl in Hle; [lia|].
    simpl. f_equal. apply IH. lia.
Qed.

(** The three stores of a point overwrite three numbers. *)
Lemma store3_overwrite (array : list num) k (p : list num) :
  k + 3 <= length array ->
  store3 array k (p !! 0) (p !! 1) (p !! 2) = overwrite k (coords3 p) array.
Proof. apply store3_stored3. Qed.

End Arrays.

End ArrayFacts.

(** ** What HyperSliceGeometry.update writes: the threaded formulation *)

Module HyperSliceGeometryOutputFacts.
Import HyperSliceGeometry HyperSliceGeometryThreaded HyperSliceGeometryLoop HyperSliceGeometryCell.
Import Stores StoresFacts SliceVocabulary HyperSliceGeometryRun HyperSliceGeometryUpdate.
Import HyperSliceGeometryBounds ArrayVocabulary ArrayFacts SliceOutputVocabulary JSFacts.

Section Output.
Context {num : Type} `{Number num} {vertex : Type}.
Variable vertexNormals : list num -> option (list Z) -> list num.
Variable colorGetter : PairContext num -> num * num * num.

Implicit Types (shape : Shape vertex) (opts : Options) (st : Frame num).
Implicit Types (slice : option vertex -> option vertex -> option (list num)).
Implicit Types (b : Builder num vertex) (g : BufferGeometry num).

(** *** The pairs of a cell *)

Lemma collect_pairs_Some slice (vs : list vertex) cellFaces pairs calls :
  collect_pairs_logged slice vs (map Some cellFaces) pairs calls
  = Ok (pairs ++ filter (fun pair => 2 <= length pair)
                   (map (fun face => (face_pair_logged slice vs face).1) cellFaces),
        calls ++ flat_map (face_edges vs) cellFaces).
Proof.
  revert pairs calls.
  induction cellFaces as [|face cellFaces IH]; intros pairs calls.
  - simpl. by rewrite !app_nil_r.
  - change (collect_pairs_logged slice vs (map Some (face :: cellFaces)) pairs calls)
      with (collect_pairs_logged slice vs (map Some cellFaces)
              (if 1 <? length (face_pair_logged slice vs face).1
               then pairs ++ [(face_pair_logged slice vs face).1] else pairs)
              (calls ++ face_edges vs face)).
    rewrite IH. simpl map. simpl flat_map. rewrite <- (app_assoc calls).
    destruct (1 <? length (face_pair_logged slice vs face).1) eqn:E.
    + apply Nat.ltb_lt in E. rewrite filter_cons_True by (simpl in *; lia).
      by rewrite <- app_assoc.
    + apply Nat.ltb_ge in E. by rewrite filter_cons_False by (simpl in *; lia).
Qed.

Lemma collect_pairs_None slice (vs : list vertex) cellFaces pairs calls :
  None ∈ cellFaces -> collect_pairs_logged slice vs cellFaces pairs calls = Throw TypeError.
Proof.
  revert pairs calls.
  induction cellFaces as [|[face|] cellFaces IH]; intros pairs calls Hin.
  - by apply not_elem_of_nil in Hin.
  - apply elem_of_cons in Hin as [|Hin]; [done|].
    simpl. by apply IH.
  - done.
Qed.

Lemma faces_found (fs : list (list nat)) (cell : list nat) :
  Forall (fun faceIndex => faceIndex < length fs) cell ->
  exists cellFaces,
    Forall2 (fun faceIndex face => fs !! faceIndex = Some face) cell cellFaces
    /\ map (fun faceIndex => fs !! faceIndex) cell = map Some cellFaces.
Proof.
  induction 1 as [|faceIndex cell Hlt _ (cellFaces & Hall & Heq)].
  - by exists [].
  - apply lookup_lt_is_Some_2 in Hlt as [face Hface].
    exists (face :: cellFaces). split; [by constructor|].
    simpl. by rewrite Hface, Heq.
Qed.

Lemma faces_missing (fs : list (list nat)) (cell : list nat) :
  ~ Forall (fun faceIndex => faceIndex < length fs) cell ->
  None ∈ map (fun faceIndex => fs !! faceIndex) cell.
Proof.
  intros Hnot. apply not_Forall_Exists in Hnot; [|apply _].
  apply Exists_exists in Hnot as (faceIndex & Hin & Hge). simpl in Hge.
  apply list_elem_of_In, in_map_iff. exists faceIndex. split.
  - apply lookup_ge_None_2. lia.
  - by apply list_elem_of_In.
Qed.

(** The pairs of a cell do not depend on the calls made before. *)
Lemma cell_pairs_any_calls slice shape cell calls pairs calls' :
  cell_pairs_logged slice shape cell calls = Ok (pairs, calls') ->
  Forall (fun faceIndex => faceIndex < length (faces shape)) cell
  /\ exists made, cell_pairs_logged slice shape cell [] = Ok (pairs, made).
Proof.
  intros Hpairs.
  destruct (decide (Forall (fun faceIndex => faceIndex < length (faces shape)) cell))
    as [Hall|Hnot].
  - split; [done|].
    apply faces_found in Hall as (cellFaces & _ & Heq).
    unfold cell_pairs_logged in *. rewrite Heq in *.
    rewrite collect_pairs_Some in Hpairs. injection Hpairs as <- _.
    eexists. apply collect_pairs_Some.
  - unfold cell_pairs_logged in Hpairs.
    by rewrite (collect_pairs_None _ _ _ _ _ (faces_missing _ _ Hnot)) in Hpairs.
Qed.

(** *** One cell *)

Lemma emit_nil opts cellIndex st : emit_if_present colorGetter opts cellIndex [] st = st.
Proof.
  unfold emit_if_present, push_indices. destruct st. simpl.
  f_equal; [destruct (useFaces opts) | destruct (useEdges opts)];
    by rewrite ?app_nil_r.
Qed.

(** The callback of a cell emits the chain of the cell. *)
Lemma update_cell_chain slice shape opts st calls cellIndex cell st' calls' :
  update_cell_logged colorGetter slice shape opts (st, calls) cellIndex cell = Ok (st', calls') ->
  st' = emit_if_present colorGetter opts cellIndex (cell_chain slice shape cell) st.
Proof.
  unfold update_cell_logged. simpl.
  destruct (cell_pairs_logged slice shape cell calls) as [[pairs calls1]|e] eqn:Hpairs;
    simpl; [|done].
  apply cell_pairs_any_calls in Hpairs as [_ [made Hpairs]].
  unfold cell_chain. rewrite HyperSliceGeometryMethods.cell_pairs_threaded, Hpairs.
  destruct (2 <? length pairs); [|intros [= <- _]; by rewrite emit_nil].
  destruct (reconstruct pairs) as [[linkedPairs|]|];
    intros [= <- _]; by rewrite ?emit_nil.
Qed.

Lemma update_cell_succeeds slice shape opts st calls cellIndex cell :
  Forall (fun faceIndex => faceIndex < length (faces shape)) cell ->
  exists st' calls',
    update_cell_logged colorGetter slice shape opts (st, calls) cellIndex cell = Ok (st', calls').
Proof.
  intros Hall. apply faces_found in Hall as (cellFaces & _ & Heq).
  unfold update_cell_logged, cell_pairs_logged. simpl. rewrite Heq, collect_pairs_Some. simpl.
  destruct (2 <? _); [|by eexists _, _].
  destruct (reconstruct _) as [[?|]|]; by eexists _, _.
Qed.

Lemma update_cell_raises slice shape opts st calls cellIndex cell :
  ~ Forall (fun faceIndex => faceIndex < length (faces shape)) cell ->
  update_cell_logged colorGetter slice shape opts (st, calls) cellIndex cell = Throw TypeError.
Proof.
  intros Hnot. unfold update_cell_logged, cell_pairs_logged. simpl.
  by rewrite (collect_pairs_None _ _ _ _ _ (faces_missing _ _ Hnot)).
Qed.

(** *** The cells *)

Lemma run_succeeds slice shape opts (cs : list (list nat)) k st calls :
  Forall (Forall (fun faceIndex => faceIndex < length (faces shape))) cs ->
  exists st' calls',
    forEachM (update_cell_logged colorGetter slice shape opts) k cs (st, calls)
    = Ok (st', calls').
Proof.
  intros Hall. revert k st calls.
  induction Hall as [|cell cs Hcell _ IH]; intros k st calls; simpl.
  - by eexists _, _.
  - destruct (update_cell_succeeds slice shape opts st calls k cell Hcell)
      as (st1 & calls1 & ->).
    simpl. apply IH.
Qed.

Lemma run_raises slice shape opts (cs : list (list nat)) k st calls :
  ~ Forall (Forall (fun faceIndex => faceIndex < length (faces shape))) cs ->
  forEachM (update_cell_logged colorGetter slice shape opts) k cs (st, calls)
  = Throw TypeError.
Proof.
  revert k st calls. induction cs as [|cell cs IH]; intros k st calls Hnot.
  - by destruct Hnot.
  - simpl.
    destruct (decide (Forall (fun faceIndex => faceIndex < length (faces shape)) cell))
      as [Hcell|Hcell].
    + destruct (update_cell_succeeds slice shape opts st calls k cell Hcell)
        as (st1 & calls1 & ->).
      simpl. apply IH. intros Hcs. apply Hnot. by constructor.
    + by rewrite update_cell_raises.
Qed.

Lemma attributes_allocated shape opts W (fg : option (BufferGeometry num)) :
  allocated shape opts true fg ->
  exists g, fg = Some g /\ attributes opts (edit W <$> fg) = Ok (edit W g).
Proof.
  intros (g & -> & _ & Hc). exists g. split; [done|]. simpl.
  destruct (useColors opts); [|done].
  by destruct Hc as (c & -> & _).
Qed.

Lemma finish_succeeds (after : BufferGeometry num -> BufferGeometry num)
  shape opts (wanted : bool) W fg :
  allocated shape opts wanted fg ->
  exists out,
    (if wanted then g ← attributes opts (edit W <$> fg); Ok (Some (after g))
     else Ok (edit W <$> fg)) = Ok out.
Proof.
  intros Hfg. destruct wanted; [|by eexists].
  destruct (attributes_allocated shape opts W fg Hfg) as (g & _ & ->).
  by eexists.
Qed.

Lemma slice_update_succeeds slice b :
  has_capacity b -> faces_exist (shape b) ->
  exists b1, update_logged vertexNormals colorGetter slice b = Ok (b1, sliced_edges (shape b)).
Proof.
  intros (HF & HE & HP) Hfaces.
  destruct (run_succeeds slice (shape b) (options b) (cells (shape b)) 0
              (start b).1 (start b).2 Hfaces) as (st & calls & Hrun).
  assert (exists b1 calls1, update_logged vertexNormals colorGetter slice b = Ok (b1, calls1))
    as (b1 & calls1 & Hup).
  { unfold update_logged, run_cells_logged.
    change (start b) with ((start b).1, (start b).2). rewrite Hrun.
    cbn [mbind result_bind].
    assert (run_cells_logged colorGetter slice b = Ok (st, calls)) as Hrun' by done.
    apply run_cells_write_only in Hrun' as (WF & WE & WP & Hst & _).
    rewrite Hst. unfold finish_faces, finish_edges, finish_points, regeometry.
    cbn [faceG edgeG pointG indices edgeIndices i].
    destruct (finish_succeeds
                (fun g => computeVertexNormals vertexNormals (setIndex (indices st) g))
                _ _ _ WF _ HF) as (g & ->).
    cbn [mbind result_bind].
    destruct (finish_succeeds (fun g => setIndex (edgeIndices st) g)
                _ _ _ WE _ HE) as (eg & ->).
    cbn [mbind result_bind].
    destruct (finish_succeeds (fun g => setDrawRange (i st) g)
                _ _ _ WP _ HP) as (pg & ->).
    cbn [mbind result_bind]. by eexists _, _. }
  exists b1. by rewrite Hup, (update_calls _ _ _ _ _ _ Hup).
Qed.

Lemma slice_update_raises slice b :
  ~ faces_exist (shape b) ->
  update_logged vertexNormals colorGetter slice b = Throw TypeError.
Proof.
  intros Hnot. unfold update_logged, run_cells_logged.
  change (start b) with ((start b).1, (start b).2).
  by rewrite run_raises.
Qed.

(** *** The counter and the index lists *)

Lemma forEach_write_point_indices opts cellIndex linkedPairs k st :
  indices (forEach (write_point_if_present colorGetter opts cellIndex) k linkedPairs st)
  = indices st
  /\ edgeIndices (forEach (write_point_if_present colorGetter opts cellIndex) k linkedPairs st)
     = edgeIndices st.
Proof.
  revert k st. induction linkedPairs as [|p linkedPairs IH]; intros k st; simpl.
  - done.
  - by destruct (IH (S k) (write_point_if_present colorGetter opts cellIndex st k p)) as [-> ->].
Qed.

Lemma emit_indices opts cellIndex chain st :
  indices (emit_if_present colorGetter opts cellIndex chain st)
  = (if useFaces opts then indices st ++ fan (i st) (length chain) else indices st)
  /\ edgeIndices (emit_if_present colorGetter opts cellIndex chain st)
     = (if useEdges opts then edgeIndices st ++ ring (i st) (length chain)
        else edgeIndices st).
Proof.
  unfold emit_if_present.
  by destruct (forEach_write_point_indices opts cellIndex chain 0
                 (push_indices opts (length chain) st)) as [-> ->].
Qed.

(** The frame after the cells [cs]: the chains of the cells lie one after
    the other. *)
Lemma run_frame slice shape opts (cs : list (list nat)) k st calls st' calls' :
  forEachM (update_cell_logged colorGetter slice shape opts) k cs (st, calls)
  = Ok (st', calls') ->
  i st' = i st + length (concat (map (cell_chain slice shape) cs))
  /\ indices st'
     = (if useFaces opts
        then indices st ++ chain_fans (i st) (map (cell_chain slice shape) cs)
        else indices st)
  /\ edgeIndices st'
     = (if useEdges opts
        then edgeIndices st ++ chain_rings (i st) (map (cell_chain slice shape) cs)
        else edgeIndices st).
Proof.
  revert k st calls. induction cs as [|cell cs IH]; intros k st calls; simpl.
  - intros [= <- <-]. rewrite !app_nil_r. split; [lia|].
    by destruct (useFaces opts), (useEdges opts).
  - intros Hrun. apply bind_Ok in Hrun as ([st1 calls1] & Hcell & Hrest).
    apply update_cell_chain in Hcell. apply IH in Hrest as (Hi & Hind & Hedge).
    rewrite Hi, Hind, Hedge, Hcell, emit_i.
    destruct (emit_indices opts k (cell_chain slice shape cell) st) as [-> ->].
    rewrite length_app. split; [lia|].
    split; [destruct (useFaces opts) | destruct (useEdges opts)];
      by rewrite <- ?app_assoc.
Qed.

(** *** The positions *)

Lemma position_put opts ctx k g :
  position (put_if_present colorGetter opts ctx k g)
  = store3 (position g) (3 * k) ctx.(point).1.1 ctx.(point).1.2 ctx.(point).2.
Proof. unfold put_if_present. by destruct (useColors opts). Qed.

Section Selector.
(** One of the three geometries of a frame, the flag that asks for it and
    the tag of its colours. *)
Variable sel : Frame num -> option (BufferGeometry num).
Variable wanted : Options -> bool.
Variable tag : PairType.

Hypothesis sel_write_point : forall opts cellIndex st pairIndex p,
  sel (write_point_if_present colorGetter opts cellIndex st pairIndex p)
  = if wanted opts
    then put_if_present colorGetter opts
           {| cell := cellIndex; pair := pairIndex;
              point := (p !! 0, p !! 1, p !! 2); type := tag |} (i st) <$> sel st
    else sel st.
Hypothesis sel_push_indices : forall opts n st, sel (push_indices opts n st) = sel st.

Lemma forEach_positions opts cellIndex (ps : list (list num)) k st g :
  wanted opts = true -> sel st = Some g ->
  3 * (i st + length ps) <= length (position g) ->
  exists g', sel (forEach (write_point_if_present colorGetter opts cellIndex) k ps st) = Some g'
    /\ position g' = overwrite (3 * i st) (flat_map coords3 ps) (position g).
Proof.
  intros Hw. revert k st g.
  induction ps as [|p ps IH]; intros k st g Hg Hcap.
  - exists g. split; [done|]. symmetry. apply overwrite_nil.
  - change (length (p :: ps)) with (S (length ps)) in Hcap.
    set (ctx := {| cell := cellIndex; pair := k;
                   point := (p !! 0, p !! 1, p !! 2); type := tag |}).
    assert (position (put_if_present colorGetter opts ctx (i st) g)
            = overwrite (3 * i st) (coords3 p) (position g)) as Hput.
    { rewrite position_put. apply store3_overwrite. lia. }
    destruct (IH (S k) (write_point_if_present colorGetter opts cellIndex st k p)
                (put_if_present colorGetter opts ctx (i st) g)) as (g' & Hg' & Hpos).
    + by rewrite sel_write_point, Hw, Hg.
    + rewrite Hput, length_overwrite by (change (length (coords3 p)) with 3; lia).
      change (i (write_point_if_present colorGetter opts cellIndex st k p)) with (S (i st)).
      lia.
    + exists g'. split; [done|]. rewrite Hpos, Hput.
      change (i (write_point_if_present colorGetter opts cellIndex st k p)) with (S (i st)).
      change (flat_map coords3 (p :: ps)) with (coords3 p ++ flat_map coords3 ps).
      replace (3 * S (i st)) with (3 * i st + length (coords3 p))
        by (change (length (coords3 p)) with 3; lia).
      apply overwrite_overwrite.
      pose proof (length_coords3 ps) as Hps.
      change (length (coords3 p)) with 3. lia.
Qed.

Lemma forEach_unwanted opts cellIndex (ps : list (list num)) k st :
  wanted opts = false ->
  sel (forEach (write_point_if_present colorGetter opts cellIndex) k ps st) = sel st.
Proof.
  intros Hw. revert k st. induction ps as [|p ps IH]; intros k st; simpl; [done|].
  by rewrite IH, sel_write_point, Hw.
Qed.

Lemma emit_positions opts cellIndex (chain : list (list num)) st g :
  wanted opts = true -> sel st = Some g ->
  3 * (i st + length chain) <= length (position g) ->
  exists g', sel (emit_if_present colorGetter opts cellIndex chain st) = Some g'
    /\ position g' = overwrite (3 * i st) (flat_map coords3 chain) (position g).
Proof.
  intros Hw Hg Hcap. unfold emit_if_present.
  apply (forEach_positions opts cellIndex chain 0
           (push_indices opts (length chain) st) g Hw); [|done].
  by rewrite sel_push_indices.
Qed.

Lemma emit_unwanted opts cellIndex (chain : list (list num)) st :
  wanted opts = false -> sel (emit_if_present colorGetter opts cellIndex chain st) = sel st.
Proof.
  intros Hw. unfold emit_if_present. by rewrite forEach_unwanted, sel_push_indices.
Qed.

Lemma run_positions slice shape opts (cs : list (list nat)) k st calls st' calls' g :
  forEachM (update_cell_logged colorGetter slice shape opts) k cs (st, calls)
  = Ok (st', calls') ->
  wanted opts = true -> sel st = Some g ->
  3 * (i st + length (concat (map (cell_chain slice shape) cs)))
  <= length (position g) ->
  exists g', sel st' = Some g'
    /\ position g'
       = overwrite (3 * i st)
           (flat_map coords3 (concat (map (cell_chain slice shape) cs))) (position g).
Proof.
  intros Hrun Hw. revert k st calls g Hrun.
  induction cs as [|cell cs IH]; intros k st calls g; simpl.
  - intros [= <- <-] Hg _. exists g. split; [done|]. symmetry. apply overwrite_nil.
  - intros Hrun Hg Hcap. rewrite length_app in Hcap.
    apply bind_Ok in Hrun as ([st1 calls1] & Hcell & Hrest).
    apply update_cell_chain in Hcell.
    destruct (emit_positions opts k (cell_chain slice shape cell) st g Hw Hg)
      as (g1 & Hg1 & Hpos1); [lia|].
    rewrite <- Hcell in Hg1.
    assert (i st1 = i st + length (cell_chain slice shape cell)) as Hi
      by (by rewrite Hcell, emit_i).
    assert (length (position g1) = length (position g)) as Hlen.
    { rewrite Hpos1. apply length_overwrite. rewrite length_coords3. lia. }
    destruct (IH (S k) st1 calls1 g1 Hrest Hg1) as (g' & Hg' & Hpos); [lia|].
    exists g'. split; [done|]. rewrite Hpos, Hpos1, Hi, flat_map_app.
    replace (3 * (i st + length (cell_chain slice shape cell)))
      with (3 * i st + length (flat_map coords3 (cell_chain slice shape cell)))
      by (rewrite length_coords3; lia).
    apply overwrite_overwrite. rewrite !length_coords3. lia.
Qed.

Lemma run_unwanted slice shape opts (cs : list (list nat)) k st calls st' calls' :
  forEachM (update_cell_logged colorGetter slice shape opts) k cs (st, calls)
  = Ok (st', calls') ->
  wanted opts = false -> sel st' = sel st.
Proof.
  intros Hrun Hw. revert k st calls Hrun.
  induction cs as [|cell cs IH]; intros k st calls; simpl.
  - by intros [= <- <-].
  - intros Hrun. apply bind_Ok in Hrun as ([st1 calls1] & Hcell & Hrest).
    apply update_cell_chain in Hcell. apply IH in Hrest.
    by rewrite Hrest, Hcell, emit_unwanted.
Qed.

(** *** The colours *)

Lemma color_put opts ctx k g :
  color (put_if_present colorGetter opts ctx k g)
  = if useColors opts
    then (fun a => store3 a (3 * k) (Some (colorGetter ctx).1.1)
                     (Some (colorGetter ctx).1.2) (Some (colorGetter ctx).2))
         <$> color g
    else color g.
Proof. unfold put_if_present. by destruct (useColors opts). Qed.

Lemma forEach_colors opts cellIndex (ps : list (list num)) k st g c :
  wanted opts = true -> useColors opts = true ->
  sel st = Some g -> color g = Some c ->
  3 * (i st + length ps) <= length c ->
  exists g', sel (forEach (write_point_if_present colorGetter opts cellIndex) k ps st) = Some g'
    /\ color g'
       = Some (overwrite (3 * i st)
                 (flat_map rgb3
                    (imap (fun j p =>
                             colorGetter {| cell := cellIndex; pair := k + j;
                                            point := (p !! 0, p !! 1, p !! 2);
                                            type := tag |}) ps))
                 c).
Proof.
  intros Hw Hcolors. revert k st g c.
  induction ps as [|p ps IH]; intros k st g c Hg Hc Hcap.
  - exists g. split; [done|]. simpl. by rewrite overwrite_nil.
  - change (length (p :: ps)) with (S (length ps)) in Hcap.
    set (ctx := {| cell := cellIndex; pair := k;
                   point := (p !! 0, p !! 1, p !! 2); type := tag |}).
    assert (color (put_if_present colorGetter opts ctx (i st) g)
            = Some (overwrite (3 * i st) (rgb3 (colorGetter ctx)) c)) as Hput.
    { rewrite color_put, Hcolors, Hc. simpl. f_equal. apply store3_stored3. lia. }
    destruct (IH (S k) (write_point_if_present colorGetter opts cellIndex st k p)
                (put_if_present colorGetter opts ctx (i st) g)
                (overwrite (3 * i st) (rgb3 (colorGetter ctx)) c))
      as (g' & Hg' & Hcol).
    + by rewrite sel_write_point, Hw, Hg.
    + done.
    + rewrite length_overwrite by (change (length (rgb3 (colorGetter ctx))) with 3; lia).
      change (i (write_point_if_present colorGetter opts cellIndex st k p)) with (S (i st)).
      lia.
    + exists g'. split; [done|]. rewrite Hcol. f_equal.
      change (i (write_point_if_present colorGetter opts cellIndex st k p)) with (S (i st)).
      rewrite imap_cons.
      change (flat_map rgb3 (?x :: ?xs)) with (rgb3 x ++ flat_map rgb3 xs).
      rewrite Nat.add_0_r. fold ctx.
      replace (3 * S (i st)) with (3 * i st + length (rgb3 (colorGetter ctx)))
        by (change (length (rgb3 (colorGetter ctx))) with 3; lia).
      rewrite overwrite_overwrite.
      * do 3 f_equal. apply imap_ext. intros j q _. simpl. by rewrite Nat.add_succ_r.
      * rewrite length_rgb3, length_imap.
        change (length (rgb3 (colorGetter ctx))) with 3. lia.
Qed.

Lemma emit_colors opts cellIndex (chain : list (list num)) st g c :
  wanted opts = true -> useColors opts = true ->
  sel st = Some g -> color g = Some c ->
  3 * (i st + length chain) <= length c ->
  exists g', sel (emit_if_present colorGetter opts cellIndex chain st) = Some g'
    /\ color g'
       = Some (overwrite (3 * i st)
                 (flat_map rgb3 (chain_paints colorGetter tag cellIndex chain)) c).
Proof.
  intros Hw Hcolors Hg Hc Hcap. unfold emit_if_present.
  apply (forEach_colors opts cellIndex chain 0
           (push_indices opts (length chain) st) g c Hw Hcolors); [|done..].
  by rewrite sel_push_indices.
Qed.

Lemma length_chain_paints cellIndex (chain : list (list num)) :
  length (chain_paints colorGetter tag cellIndex chain) = length chain.
Proof. apply length_imap. Qed.

Lemma run_colors slice shape opts (cs : list (list nat)) k st calls st' calls' g c :
  forEachM (update_cell_logged colorGetter slice shape opts) k cs (st, calls)
  = Ok (st', calls') ->
  wanted opts = true -> useColors opts = true ->
  sel st = Some g -> color g = Some c ->
  3 * (i st + length (concat (map (cell_chain slice shape) cs))) <= length c ->
  exists g', sel st' = Some g'
    /\ color g'
       = Some (overwrite (3 * i st)
                 (flat_map rgb3 (cells_paints colorGetter tag slice shape k cs)) c).
Proof.
  intros Hrun Hw Hcolors. revert k st calls g c Hrun.
  induction cs as [|cell cs IH]; intros k st calls g c; simpl.
  - intros [= <- <-] Hg Hc _. exists g. split; [done|]. by rewrite overwrite_nil.
  - intros Hrun Hg Hc Hcap. rewrite length_app in Hcap.
    apply bind_Ok in Hrun as ([st1 calls1] & Hcell & Hrest).
    apply update_cell_chain in Hcell.
    destruct (emit_colors opts k (cell_chain slice shape cell) st g c Hw Hcolors Hg Hc)
      as (g1 & Hg1 & Hcol1); [lia|].
    rewrite <- Hcell in Hg1.
    assert (i st1 = i st + length (cell_chain slice shape cell)) as Hi
      by (by rewrite Hcell, emit_i).
    destruct (IH (S k) st1 calls1 g1 _ Hrest Hg1 Hcol1) as (g' & Hg' & Hcol).
    { rewrite length_overwrite; rewrite ?length_rgb3, ?length_chain_paints; lia. }
    exists g'. split; [done|]. rewrite Hcol, Hi, flat_map_app. f_equal.
    replace (3 * (i st + length (cell_chain slice shape cell)))
      with (3 * i st
            + length (flat_map rgb3
                        (chain_paints colorGetter tag k (cell_chain slice shape cell))))
      by (rewrite length_rgb3, length_chain_paints; lia).
    apply overwrite_overwrite.
    rewrite !length_rgb3, length_chain_paints.
    assert (length (cells_paints colorGetter tag slice shape (S k) cs)
            = length (concat (map (cell_chain slice shape) cs))) as ->; [|lia].
    clear. generalize (S k) as n.
    induction cs as [|cell' cs IHcs]; intros n; simpl; [done|].
    by rewrite !length_app, length_chain_paints, IHcs.
Qed.

End Selector.

(** What the last lines of [update] keep of a geometry. *)
Lemma finish_position (after : BufferGeometry num -> BufferGeometry num)
  opts (wanted : bool) (fg out : option (BufferGeometry num)) :
  (if wanted then g ← attributes opts fg; Ok (Some (after g)) else Ok fg) = Ok out ->
  if wanted then exists g, fg = Some g /\ out = Some (after g) else out = fg.
Proof.
  destruct wanted; [|by intros [= <-]].
  intros Hfin. apply bind_Ok in Hfin as (g & Hattr & [= <-]).
  apply attributes_Ok in Hattr as [-> _]. by exists g.
Qed.

(** The steps of a successful [update]. *)
Lemma update_steps slice b b1 calls :
  update_logged vertexNormals colorGetter slice b = Ok (b1, calls) ->
  exists st,
    forEachM (update_cell_logged colorGetter slice (shape b) (options b)) 0 (cells (shape b))
      (start b) = Ok (st, calls)
    /\ (if useFaces (options b)
        then exists g, faceG st = Some g
               /\ geometry b1
                  = Some (computeVertexNormals vertexNormals (setIndex (indices st) g))
        else geometry b1 = faceG st)
    /\ (if useEdges (options b)
        then exists g, edgeG st = Some g
               /\ edgeGeometry b1 = Some (setIndex (edgeIndices st) g)
        else edgeGeometry b1 = edgeG st)
    /\ (if usePoints (options b)
        then exists g, pointG st = Some g
               /\ pointGeometry b1 = Some (setDrawRange (i st) g)
        else pointGeometry b1 = pointG st).
Proof.
  unfold update_logged. intros Hup.
  apply bind_Ok in Hup as ([st calls1] & Hrun & Hup).
  apply bind_Ok in Hup as (fg & Hfg & Hup).
  apply bind_Ok in Hup as (eg & Heg & Hup).
  apply bind_Ok in Hup as (pg & Hpg & Hup).
  injection Hup as <- <-. exists st. split; [done|]. simpl.
  split; [|split].
  - exact (finish_position
             (fun g => computeVertexNormals vertexNormals (setIndex (indices st) g))
             (options b) (useFaces (options b)) (faceG st) fg Hfg).
  - exact (finish_position (fun g => setIndex (edgeIndices st) g)
             (options b) (useEdges (options b)) (edgeG st) eg Heg).
  - exact (finish_position (fun g => setDrawRange (i st) g)
             (options b) (usePoints (options b)) (pointG st) pg Hpg).
Qed.

Lemma length_cells_paints tag slice shape k (cs : list (list nat)) :
  length (cells_paints colorGetter tag slice shape k cs)
  = length (concat (map (cell_chain slice shape) cs)).
Proof.
  revert k. induction cs as [|cell cs IH]; intros k; simpl; [done|].
  rewrite !length_app, IH. f_equal. apply length_imap.
Qed.

(** *** The size of the index lists *)

Lemma fan_range i n :
  Forall (fun e => (Z.of_nat i <= e < Z.of_nat (i + n))%Z) (fan i n).
Proof.
  unfold fan. apply Forall_flat_map, Forall_seq. intros j Hj.
  repeat constructor; lia.
Qed.

Lemma ring_range i n :
  Forall (fun e => (Z.of_nat i <= e < Z.of_nat (i + n))%Z) (ring i n).
Proof.
  unfold ring. apply Forall_flat_map, Forall_seq. intros j Hj.
  assert ((j + 1) mod n < n) by (apply Nat.mod_upper_bound; lia).
  repeat constructor; lia.
Qed.

Lemma chain_fans_range i (chains : list (list (list num))) :
  Forall (fun e => (Z.of_nat i <= e < Z.of_nat (i + length (concat chains)))%Z)
         (chain_fans i chains).
Proof.
  revert i. induction chains as [|chain chains IH]; intros i; simpl; [done|].
  rewrite length_app. apply Forall_app. split.
  - eapply Forall_impl; [apply fan_range|]. simpl. lia.
  - eapply Forall_impl; [apply IH|]. simpl. lia.
Qed.

Lemma chain_rings_range i (chains : list (list (list num))) :
  Forall (fun e => (Z.of_nat i <= e < Z.of_nat (i + length (concat chains)))%Z)
         (chain_rings i chains).
Proof.
  revert i. induction chains as [|chain chains IH]; intros i; simpl; [done|].
  rewrite length_app. apply Forall_app. split.
  - eapply Forall_impl; [apply ring_range|]. simpl. lia.
  - eapply Forall_impl; [apply IH|]. simpl. lia.
Qed.

Lemma length_fan i n : length (fan i n) = 3 * (n - 2).
Proof.
  unfold fan. rewrite (flat_map_constant_length (c := 3)) by done.
  rewrite length_seq. lia.
Qed.

Lemma length_ring i n : length (ring i n) = 2 * n.
Proof.
  unfold ring. rewrite (flat_map_constant_length (c := 2)) by done.
  rewrite length_seq. lia.
Qed.

Lemma length_chain_fans i (chains : list (list (list num))) :
  length (chain_fans i chains)
  = 3 * list_sum (map (fun chain => length chain - 2) chains).
Proof.
  revert i. induction chains as [|chain chains IH]; intros i; simpl; [done|].
  rewrite length_app, length_fan, IH. lia.
Qed.

Lemma length_chain_rings i (chains : list (list (list num))) :
  length (chain_rings i chains) = 2 * length (concat chains).
Proof.
  revert i. induction chains as [|chain chains IH]; intros i; simpl; [done|].
  rewrite !length_app, length_ring, IH. lia.
Qed.

(** *** The results, for the threaded formulation *)

Lemma cell_pairs_of_faces_threaded slice shape cell calls :
  (Forall (fun faceIndex => faceIndex < length (faces shape)) cell ->
   exists cellFaces,
     Forall2 (fun faceIndex face => faces shape !! faceIndex = Some face) cell cellFaces
     /\ cell_pairs_logged slice shape cell calls
        = Ok (filter (fun pair => 2 <= length pair)
                (map (fun face =>
                        omap (fun e => slice e.1 e.2) (face_edges (vertices shape) face))
                     cellFaces),
              calls ++ flat_map (face_edges (vertices shape)) cellFaces))
  /\ (~ Forall (fun faceIndex => faceIndex < length (faces shape)) cell ->
      cell_pairs_logged slice shape cell calls = Throw TypeError).
Proof.
  split.
  - intros Hall. apply faces_found in Hall as (cellFaces & Hall & Heq).
    exists cellFaces. split; [done|].
    unfold cell_pairs_logged. rewrite Heq. apply collect_pairs_Some.
  - intros Hnot. apply collect_pairs_None. by apply faces_missing.
Qed.

Lemma slice_update_result_threaded slice b :
  has_capacity b ->
  (faces_exist (shape b) ->
   exists b1, update_logged vertexNormals colorGetter slice b = Ok (b1, sliced_edges (shape b)))
  /\ (~ faces_exist (shape b) ->
      update_logged vertexNormals colorGetter slice b = Throw TypeError).
Proof.
  intros Hcap. split; [by apply slice_update_succeeds | apply slice_update_raises].
Qed.

Lemma slice_constructor_result_threaded slice shape opts :
  (faces_exist shape ->
   exists b, constructor_logged vertexNormals colorGetter slice shape opts
             = Ok (b, sliced_edges shape))
  /\ (~ faces_exist shape ->
      constructor_logged vertexNormals colorGetter slice shape opts = Throw TypeError).
Proof.
  unfold constructor_logged. split.
  - intros Hfaces. apply slice_update_succeeds; [|done].
    repeat split; apply allocated_init.
  - intros Hnot. by apply slice_update_raises.
Qed.


Lemma slice_update_positions_threaded slice b b1 calls :
  update_logged vertexNormals colorGetter slice b = Ok (b1, calls) ->
  let points := concat (map (cell_chain slice (shape b)) (cells (shape b))) in
  (forall g, useFaces (options b) = true -> geometry b = Some g ->
     3 * length points <= length (position g) ->
     exists g1, geometry b1 = Some g1
       /\ position g1 = flat_map coords3 points ++ drop (3 * length points) (position g))
  /\ (forall g, useEdges (options b) = true -> edgeGeometry b = Some g ->
        3 * length points <= length (position g) ->
        exists g1, edgeGeometry b1 = Some g1
          /\ position g1
             = flat_map coords3 points ++ drop (3 * length points) (position g))
  /\ (forall g, usePoints (options b) = true -> pointGeometry b = Some g ->
        3 * length points <= length (position g) ->
        exists g1, pointGeometry b1 = Some g1
          /\ position g1
             = flat_map coords3 points ++ drop (3 * length points) (position g))
  /\ (useFaces (options b) = false -> geometry b1 = geometry b)
  /\ (useEdges (options b) = false -> edgeGeometry b1 = edgeGeometry b)
  /\ (usePoints (options b) = false -> pointGeometry b1 = pointGeometry b).
Proof.
  intros Hup points. apply update_steps in Hup as (st & Hrun & HF & HE & HP).
  assert (forall xs (array : list num),
            overwrite (3 * 0) (flat_map coords3 xs) array
            = flat_map coords3 xs ++ drop (3 * length xs) array) as Hzero.
  { intros xs array. by rewrite overwrite_0, length_coords3. }
  repeat split.
  - intros g Hw Hg Hcap. rewrite Hw in HF. destruct HF as (g' & Hg' & ->).
    destruct (run_positions faceG useFaces FacePair (fun _ _ _ _ _ => eq_refl)
                (fun _ _ _ => eq_refl) _ _ _ _ _ _ _ _ _ g Hrun Hw Hg)
      as (g1 & Hg1 & Hpos); [simpl; fold points; lia|].
    eexists. split; [done|]. simpl. rewrite Hg' in Hg1. injection Hg1 as ->.
    by rewrite Hpos, <- Hzero.
  - intros g Hw Hg Hcap. rewrite Hw in HE. destruct HE as (g' & Hg' & ->).
    destruct (run_positions edgeG useEdges EdgePair (fun _ _ _ _ _ => eq_refl)
                (fun _ _ _ => eq_refl) _ _ _ _ _ _ _ _ _ g Hrun Hw Hg)
      as (g1 & Hg1 & Hpos); [simpl; fold points; lia|].
    eexists. split; [done|]. simpl. rewrite Hg' in Hg1. injection Hg1 as ->.
    by rewrite Hpos, <- Hzero.
  - intros g Hw Hg Hcap. rewrite Hw in HP. destruct HP as (g' & Hg' & ->).
    destruct (run_positions pointG usePoints VertexPair (fun _ _ _ _ _ => eq_refl)
                (fun _ _ _ => eq_refl) _ _ _ _ _ _ _ _ _ g Hrun Hw Hg)
      as (g1 & Hg1 & Hpos); [simpl; fold points; lia|].
    eexists. split; [done|]. simpl. rewrite Hg' in Hg1. injection Hg1 as ->.
    by rewrite Hpos, <- Hzero.
  - intros Hw. rewrite Hw in HF. rewrite HF.
    by apply (run_unwanted faceG useFaces FacePair (fun _ _ _ _ _ => eq_refl)
                (fun _ _ _ => eq_refl) _ _ _ _ _ _ _ _ _ Hrun).
  - intros Hw. rewrite Hw in HE. rewrite HE.
    by apply (run_unwanted edgeG useEdges EdgePair (fun _ _ _ _ _ => eq_refl)
                (fun _ _ _ => eq_refl) _ _ _ _ _ _ _ _ _ Hrun).
  - intros Hw. rewrite Hw in HP. rewrite HP.
    by apply (run_unwanted pointG usePoints VertexPair (fun _ _ _ _ _ => eq_refl)
                (fun _ _ _ => eq_refl) _ _ _ _ _ _ _ _ _ Hrun).
Qed.

Lemma slice_update_colors_threaded slice b b1 calls :
  update_logged vertexNormals colorGetter slice b = Ok (b1, calls) ->
  useColors (options b) = true ->
  let points := concat (map (cell_chain slice (shape b)) (cells (shape b))) in
  let paints tag := cells_paints colorGetter tag slice (shape b) 0 (cells (shape b)) in
  (forall g c, useFaces (options b) = true -> geometry b = Some g ->
     color g = Some c -> 3 * length points <= length c ->
     exists g1, geometry b1 = Some g1
       /\ color g1
          = Some (flat_map rgb3 (paints FacePair) ++ drop (3 * length points) c))
  /\ (forall g c, useEdges (options b) = true -> edgeGeometry b = Some g ->
        color g = Some c -> 3 * length points <= length c ->
        exists g1, edgeGeometry b1 = Some g1
          /\ color g1
             = Some (flat_map rgb3 (paints EdgePair) ++ drop (3 * length points) c))
  /\ (forall g c, usePoints (options b) = true -> pointGeometry b = Some g ->
        color g = Some c -> 3 * length points <= length c ->
        exists g1, pointGeometry b1 = Some g1
          /\ color g1
             = Some (flat_map rgb3 (paints VertexPair) ++ drop (3 * length points) c)).
Proof.
  intros Hup Hcolors points paints.
  apply update_steps in Hup as (st & Hrun & HF & HE & HP).
  assert (forall tag (array : list num),
            overwrite (3 * 0) (flat_map rgb3 (paints tag)) array
            = flat_map rgb3 (paints tag) ++ drop (3 * length points) array) as Hzero.
  { intros tag array. unfold paints, points.
    by rewrite overwrite_0, length_rgb3, length_cells_paints. }
  repeat split.
  - intros g c Hw Hg Hc Hcap. rewrite Hw in HF. destruct HF as (g' & Hg' & ->).
    destruct (run_colors faceG useFaces FacePair (fun _ _ _ _ _ => eq_refl)
                (fun _ _ _ => eq_refl) _ _ _ _ _ _ _ _ _ g c Hrun Hw Hcolors Hg Hc)
      as (g1 & Hg1 & Hcol); [simpl; fold points; lia|].
    eexists. split; [done|]. simpl. rewrite Hg' in Hg1. injection Hg1 as ->.
    by rewrite Hcol, <- Hzero.
  - intros g c Hw Hg Hc Hcap. rewrite Hw in HE. destruct HE as (g' & Hg' & ->).
    destruct (run_colors edgeG useEdges EdgePair (fun _ _ _ _ _ => eq_refl)
                (fun _ _ _ => eq_refl) _ _ _ _ _ _ _ _ _ g c Hrun Hw Hcolors Hg Hc)
      as (g1 & Hg1 & Hcol); [simpl; fold points; lia|].
    eexists. split; [done|]. simpl. rewrite Hg' in Hg1. injection Hg1 as ->.
    by rewrite Hcol, <- Hzero.
  - intros g c Hw Hg Hc Hcap. rewrite Hw in HP. destruct HP as (g' & Hg' & ->).
    destruct (run_colors pointG usePoints VertexPair (fun _ _ _ _ _ => eq_refl)
                (fun _ _ _ => eq_refl) _ _ _ _ _ _ _ _ _ g c Hrun Hw Hcolors Hg Hc)
      as (g1 & Hg1 & Hcol); [simpl; fold points; lia|].
    eexists. split; [done|]. simpl. rewrite Hg' in Hg1. injection Hg1 as ->.
    by rewrite Hcol, <- Hzero.
Qed.

Lemma slice_indices_in_range_threaded slice b b1 calls :
  update_logged vertexNormals colorGetter slice b = Ok (b1, calls) ->
  let chains := map (cell_chain slice (shape b)) (cells (shape b)) in
  (forall g ixs,
     useFaces (options b) = true -> geometry b1 = Some g -> index g = Some ixs ->
     Forall (fun e => (0 <= e < Z.of_nat (length (concat chains)))%Z) ixs
     /\ length ixs = 3 * list_sum (map (fun chain => length chain - 2) chains))
  /\ (forall g ixs,
        useEdges (options b) = true -> edgeGeometry b1 = Some g -> index g = Some ixs ->
        Forall (fun e => (0 <= e < Z.of_nat (length (concat chains)))%Z) ixs
        /\ length ixs = 2 * length (concat chains)).
Proof.
  intros Hup chains. apply update_steps in Hup as (st & Hrun & HF & HE & _).
  apply run_frame in Hrun as (_ & Hind & Hedge). simpl in Hind, Hedge.
  split; intros g ixs Hw Hg Hixs; rewrite Hw in *.
  - destruct HF as (g' & _ & Hb1). rewrite Hb1 in Hg. injection Hg as <-.
    simpl in Hixs. rewrite Hind in Hixs. injection Hixs as <-.
    split; [apply (chain_fans_range 0) | apply length_chain_fans].
  - destruct HE as (g' & _ & Hb1). rewrite Hb1 in Hg. injection Hg as <-.
    simpl in Hixs. rewrite Hedge in Hixs. injection Hixs as <-.
    split; [apply (chain_rings_range 0) | apply length_chain_rings].
Qed.

Lemma cell_emits_four_points_threaded slice shape cell :
  cell_chain slice shape cell = []
  \/ exists first rest made,
       cell_pairs_logged slice shape cell [] = Ok (first :: rest, made)
       /\ 2 <= length first /\ 2 <= length rest
       /\ length (cell_chain slice shape cell) = length first + length rest
       /\ 6 <= length (fan 0 (length (cell_chain slice shape cell))).
Proof.
  unfold cell_chain. rewrite HyperSliceGeometryMethods.cell_pairs_threaded.
  destruct (cell_pairs_logged slice shape cell []) as [[pairs made]|e] eqn:Hpairs;
    [|by left].
  destruct (2 <? length pairs) eqn:Hlen; [|by left].
  destruct (reconstruct pairs) as [[chain|]|] eqn:Hrec; [|by left..].
  right. apply Nat.ltb_lt in Hlen.
  destruct pairs as [|first rest]; [done|]. simpl in Hlen.
  assert (2 <= length first) as Hfirst.
  { pose proof Hpairs as Hall. apply cell_pairs_any_calls in Hall as [Hall _].
    apply faces_found in Hall as (cellFaces & _ & Heq).
    unfold cell_pairs_logged in Hpairs. rewrite Heq, collect_pairs_Some in Hpairs.
    injection Hpairs as Hfilter _.
    assert (first ∈ first :: rest) as Hin by left.
    rewrite <- Hfilter in Hin. simpl in Hin.
    by apply list_elem_of_filter in Hin as [Hin _]. }
  unfold reconstruct in Hrec. apply link_loop_length in Hrec.
  exists first, rest, made. rewrite length_fan. repeat split; [lia..].
Qed.

End Output.

End HyperSliceGeometryOutputFacts.

(** ** HyperSliceGeometry: which cells emit, and where the points go *)

Module HyperSliceGeometryPairs.
Import HyperSliceGeometry HyperSliceGeometryLoop SliceVocabulary.
Import HyperSliceGeometryMethods.

Section Pairs.
Context {num : Type} `{Number num} {vertex : Type}.
Variable colorGetter : PairContext num -> num * num * num.
Variable slice : option vertex -> option vertex -> option (list num).

Implicit Types (shape : Shape vertex) (opts : Options).
Implicit Types (st : Frame num * list (option vertex * option vertex)).



End Pairs.

Import Small Tetrahedron.



End HyperSliceGeometryPairs.

Module HyperSliceGeometryCapacity.
Import HyperSliceGeometry SliceVocabulary ArrayVocabulary SliceOutputVocabulary.
Import HyperSliceGeometryMethods ArrayFacts.

Section Capacity.
Context {num : Type} `{Number num} {vertex : Type}.
Variable vertexNormals : list num -> option (list Z) -> list num.
Variable colorGetter : PairContext num -> num * num * num.

Implicit Types (shape : Shape vertex) (opts : Options).
Implicit Types (slice : option vertex -> option vertex -> option (list num)).
Implicit Types (b : Builder num vertex) (g : BufferGeometry num).

Lemma face_references_sum (cs : list (list nat)) :
  face_references cs = list_sum (map length cs).
Proof.
  induction cs as [|cell cs IH]; [done|].
  rewrite HyperSliceGeometryRun.face_references_cons, IH. done.
Qed.

Lemma allocated_ready shape opts (wanted : bool) (og : option (BufferGeometry num)) :
  allocated shape opts wanted og -> ready opts wanted og.
Proof.
  intros Hg Hw. rewrite Hw in Hg. destruct Hg as (g & -> & _ & Hc).
  exists g. split; [done|]. intros Hcolors. rewrite Hcolors in Hc.
  by destruct Hc as (c & -> & _).
Qed.

Lemma has_capacity_present b : has_capacity b -> buffers_present (options b) (start b).1.
Proof.
  intros (HF & HE & HP). repeat split; by eapply allocated_ready.
Qed.

(** The arrays of a geometry after an [update] that has written [points]
    with the colours [paints]: they have the size the constructor gave
    them, and they hold every point and every colour. *)
Lemma stored_all shape opts (wanted : bool) (og og1 : option (BufferGeometry num))
  (points : list (list num)) (paints : list (num * num * num)) :
  wanted = true ->
  allocated shape opts wanted og ->
  allocated shape opts wanted og1 ->
  length points <= maxPositions shape ->
  length paints = length points ->
  (forall g, og = Some g -> 3 * length points <= length (position g) ->
     exists g1, og1 = Some g1
       /\ position g1 = flat_map coords3 points ++ drop (3 * length points) (position g)) ->
  (useColors opts = true ->
   forall g c, og = Some g -> color g = Some c -> 3 * length points <= length c ->
     exists g1, og1 = Some g1
       /\ color g1 = Some (flat_map rgb3 paints ++ drop (3 * length points) c)) ->
  exists g1, og1 = Some g1
    /\ length (position g1) = 3 * maxPositions shape
    /\ take (3 * length points) (position g1) = flat_map coords3 points
    /\ (useColors opts = true ->
        exists c, color g1 = Some c /\ length c = 3 * maxPositions shape
                  /\ take (3 * length points) c = flat_map rgb3 paints).
Proof.
  intros -> (g & -> & Hsize & Hcol) (g1 & -> & Hsize1 & Hcol1) Hroom Hpaints Hpos Hcolor.
  exists g1. split; [done|]. split; [done|].
  destruct (Hpos g eq_refl) as (g1' & [= <-] & Hposition); [lia|].
  split.
  - rewrite Hposition. apply take_app_length'. by rewrite length_coords3.
  - intros Hcolors. rewrite Hcolors in Hcol, Hcol1.
    destruct Hcol as (c & Hc & Hlen). destruct Hcol1 as (c1 & Hc1 & Hlen1).
    exists c1. split; [done|]. split; [done|].
    destruct (Hcolor Hcolors g c eq_refl Hc) as (g1' & [= <-] & Hc1'); [lia|].
    rewrite Hc1 in Hc1'. injection Hc1' as ->.
    apply take_app_length'. rewrite length_rgb3. lia.
Qed.

(** C9: the constructor gives each geometry the options ask for a position
    array, and with colours a colour array, of three numbers for each of
    [2 *] (the number of face references of the cells) points; [update]
    keeps these arrays at that size.  In an [update] in which no face gives
    more than two intersection points, the counter of points is at most
    that number of points after every cell, and at the end each of these
    geometries holds, from the start of its arrays, the coordinates and the
    colour of every point of every chain: no store fell outside. *)
Theorem writes_within_capacity :
  (forall slice shape opts,
     faces_exist shape ->
     exists b calls,
       constructor vertexNormals colorGetter slice shape opts = Ok (b, calls)
       /\ HyperSliceGeometry.shape b = shape /\ options b = opts
       /\ has_capacity b)
  /\ (forall shape, maxPositions shape = 2 * list_sum (map length (cells shape)))
  /\ (forall slice b b1 calls,
        has_capacity b ->
        update vertexNormals colorGetter slice b = Ok (b1, calls) ->
        HyperSliceGeometry.shape b1 = HyperSliceGeometry.shape b /\
        options b1 = options b /\ has_capacity b1)
  /\ (forall slice b b1 calls,
        has_capacity b ->
        two_point_pairs slice (HyperSliceGeometry.shape b) ->
        update vertexNormals colorGetter slice b = Ok (b1, calls) ->
        let chain_of := cell_chain slice (HyperSliceGeometry.shape b) in
        let points := concat (map chain_of (cells (HyperSliceGeometry.shape b))) in
        let paints tag :=
          cells_paints colorGetter tag slice (HyperSliceGeometry.shape b) 0
            (cells (HyperSliceGeometry.shape b)) in
        let stored tag (g : option (BufferGeometry num)) :=
          exists g1, g = Some g1
            /\ length (position g1) = 3 * maxPositions (HyperSliceGeometry.shape b)
            /\ take (3 * length points) (position g1) = flat_map coords3 points
            /\ (useColors (options b) = true ->
                exists c, color g1 = Some c
                  /\ length c = 3 * maxPositions (HyperSliceGeometry.shape b)
                  /\ take (3 * length points) c = flat_map rgb3 (paints tag)) in
        length points <= maxPositions (HyperSliceGeometry.shape b)
        /\ (forall pre post frame made,
              cells (HyperSliceGeometry.shape b) = pre ++ post ->
              forEachM (update_cell colorGetter slice (HyperSliceGeometry.shape b)
                          (options b)) 0 pre (start b) = Ok (frame, made) ->
              i frame = length (concat (map chain_of pre))
              /\ i frame <= maxPositions (HyperSliceGeometry.shape b))
        /\ (useFaces (options b) = true -> stored FacePair (geometry b1))
        /\ (useEdges (options b) = true -> stored EdgePair (edgeGeometry b1))
        /\ (usePoints (options b) = true -> stored VertexPair (pointGeometry b1))).
Proof.
  split; [|split; [|split]].
  - intros slice shape opts Hfaces. rewrite constructor_threaded.
    destruct (HyperSliceGeometryOutputFacts.slice_constructor_result_threaded
                vertexNormals colorGetter slice shape opts) as [Hok _].
    destruct (Hok Hfaces) as [b Hb]. exists b, (sliced_edges shape).
    split; [done|].
    apply HyperSliceGeometryUpdate.constructor_allocated in Hb
      as (Hs & Ho & HF & HE & HP).
    rewrite <- Hs, <- Ho in HF, HE, HP. by repeat split.
  - intros shape. unfold maxPositions. f_equal. apply face_references_sum.
  - intros slice b b1 calls (HF & HE & HP). rewrite update_threaded. intros Hup.
    destruct (HyperSliceGeometryUpdate.update_allocated _ _ _ _ _ _ Hup HF HE HP)
      as (Hs & Ho & HF1 & HE1 & HP1).
    unfold has_capacity. rewrite Hs, Ho. by repeat split.
  - intros slice b b1 calls Hcap Htwo Hup chain_of points paints stored.
    pose proof Hcap as (HF & HE & HP).
    pose proof Hup as Hup'. rewrite update_threaded in Hup'.
    destruct (HyperSliceGeometryUpdate.update_allocated _ _ _ _ _ _ Hup' HF HE HP)
      as (_ & _ & HF1 & HE1 & HP1).
    assert (forall pre post frame made,
              cells (HyperSliceGeometry.shape b) = pre ++ post ->
              forEachM (update_cell colorGetter slice (HyperSliceGeometry.shape b)
                          (options b)) 0 pre (start b) = Ok (frame, made) ->
              i frame = length (concat (map chain_of pre))
              /\ i frame <= maxPositions (HyperSliceGeometry.shape b)) as Hcounter.
    { intros pre post frame made Hcells Hrun.
      rewrite run_present in Hrun by (by apply has_capacity_present).
      pose proof (HyperSliceGeometryOutputFacts.run_frame colorGetter slice _ _ _ _ _ _
                    _ _ Hrun) as (Hi & _).
      apply HyperSliceGeometryRun.run_i in Hrun; [|done|].
      - simpl in Hi, Hrun. split; [done|].
        unfold maxPositions. fold (face_references (cells (HyperSliceGeometry.shape b))).
        rewrite Hcells, HyperSliceGeometryRun.face_references_app. lia.
      - intros c Hc. rewrite Hcells. apply elem_of_app. by left. }
    assert (length points <= maxPositions (HyperSliceGeometry.shape b)) as Hroom.
    { apply HyperSliceGeometryOutputFacts.update_steps in Hup' as (frame & Hrun & _).
      rewrite <- run_present in Hrun by (by apply has_capacity_present).
      destruct (Hcounter (cells (HyperSliceGeometry.shape b)) [] frame calls) as [Hi Hle];
        [by rewrite app_nil_r | done |].
      unfold points. by rewrite <- Hi. }
    destruct (HyperSliceGeometryOutputFacts.slice_update_positions_threaded
                vertexNormals colorGetter slice b b1 calls Hup')
      as (HFp & HEp & HPp & _).
    pose proof (HyperSliceGeometryOutputFacts.slice_update_colors_threaded
                  vertexNormals colorGetter slice b b1 calls Hup') as Hcolors.
    split; [done|]. split; [done|].
    split; [|split]; intros Hw.
    + eapply (stored_all _ _ _ (geometry b)); try done.
      * apply HyperSliceGeometryOutputFacts.length_cells_paints.
      * intros g. by apply HFp.
      * intros Hc. destruct (Hcolors Hc) as (HFc & _). intros g c. by apply HFc.
    + eapply (stored_all _ _ _ (edgeGeometry b)); try done.
      * apply HyperSliceGeometryOutputFacts.length_cells_paints.
      * intros g. by apply HEp.
      * intros Hc. destruct (Hcolors Hc) as (_ & HEc & _). intros g c. by apply HEc.
    + eapply (stored_all _ _ _ (pointGeometry b)); try done.
      * apply HyperSliceGeometryOutputFacts.length_cells_paints.
      * intros g. by apply HPp.
      * intros Hc. destruct (Hcolors Hc) as (_ & _ & HPc). intros g c. by apply HPc.
Qed.

End Capacity.

Import Small Tetrahedron.

(** The sliced tetrahedron with every buffer: the constructor allocates
    room for 8 points, 24 numbers, and the four points of the chain are
    found at the start of the position array. *)
Lemma writes_within_capacity_witness :
  exists b calls b1 calls1 g1,
    constructor no_normals black slice shape (options fresh) = Ok (b, calls)
    /\ has_capacity b
    /\ update no_normals black slice b = Ok (b1, calls1)
    /\ geometry b1 = Some g1
    /\ length (position g1) = 24
    /\ take 12 (position g1) = cut 1 ++ cut 2 ++ cut 3 ++ cut 1.
Proof.
  destruct (writes_within_capacity (num := small) (vertex := nat) no_normals black)
    as (Hctor & _ & _ & Hwrites).
  destruct (Hctor slice shape (options fresh)) as (b & calls & Hb & Hs & Ho & Hcap).
  { repeat constructor. }
  destruct (update no_normals black slice b) as [[b1 calls1]|e] eqn:Hup.
  - destruct (Hwrites slice b b1 calls1 Hcap) as (_ & _ & HF & _); [|done|].
    + rewrite Hs. intros cell faceIndex face Hcell Hfi Hface.
      apply list_elem_of_singleton in Hcell as ->.
      repeat (apply elem_of_cons in Hfi as [->|Hfi]);
        try (by apply not_elem_of_nil in Hfi);
        injection Hface as <-; vm_compute; lia.
    + rewrite Ho, Hs in HF. destruct (HF eq_refl) as (g1 & Hg1 & Hlen & Htake & _).
      exists b, calls, b1, calls1, g1.
      split; [done|]. split; [done|]. split; [done|]. split; [done|].
      split; [exact Hlen | exact Htake].
  - exfalso. pose proof Hb as Hb'. vm_compute in Hb'. injection Hb' as Hb' _.
    rewrite <- Hb' in Hup. vm_compute in Hup. discriminate.
Defined.

End HyperSliceGeometryCapacity.

(** ** What HyperSliceGeometry.update writes *)

Module HyperSliceGeometryOutput.
Import HyperSliceGeometry SliceVocabulary ArrayVocabulary SliceOutputVocabulary.
Import HyperSliceGeometryMethods HyperSliceGeometryOutputFacts.

Section Output.
Context {num : Type} `{Number num} {vertex : Type}.
Variable vertexNormals : list num -> option (list Z) -> list num.
Variable colorGetter : PairContext num -> num * num * num.

Implicit Types (shape : Shape vertex) (opts : Options) (st : Frame num).
Implicit Types (slice : option vertex -> option vertex -> option (list num)).
Implicit Types (b : Builder num vertex) (g : BufferGeometry num).

(** X5: the pairs of a cell.  When every face index of the cell names a
    face, the pairs are the point lists of its faces that hold two points
    or more, in the order of the faces, a point list being what [slice]
    returns on the boundary edges of the face without the falsy results;
    [slice] is called on every boundary edge of every face, kept or not.
    When a face index names no face, the callback raises a TypeError. *)
Theorem cell_pairs_of_faces slice shape cell calls :
  (Forall (fun faceIndex => faceIndex < length (faces shape)) cell ->
   exists cellFaces,
     Forall2 (fun faceIndex face => faces shape !! faceIndex = Some face) cell cellFaces
     /\ cell_pairs slice shape cell calls
        = Ok (filter (fun pair => 2 <= length pair)
                (map (fun face =>
                        omap (fun e => slice e.1 e.2) (face_edges (vertices shape) face))
                     cellFaces),
              calls ++ flat_map (face_edges (vertices shape)) cellFaces))
  /\ (~ Forall (fun faceIndex => faceIndex < length (faces shape)) cell ->
      cell_pairs slice shape cell calls = Throw TypeError).
Proof.
  rewrite cell_pairs_threaded. apply cell_pairs_of_faces_threaded.
Qed.

(** X6: an [update] of a builder whose geometries are allocated succeeds
    exactly when every face index of every cell names a face of the shape,
    and has then called [slice] on the boundary edges of every face
    reference; otherwise it raises a TypeError, whatever [slice] returns. *)
Theorem slice_update_result slice b :
  has_capacity b ->
  (faces_exist (shape b) ->
   exists b1, update vertexNormals colorGetter slice b = Ok (b1, sliced_edges (shape b)))
  /\ (~ faces_exist (shape b) ->
      update vertexNormals colorGetter slice b = Throw TypeError).
Proof.
  rewrite update_threaded. apply slice_update_result_threaded.
Qed.

(** X7: the constructor succeeds exactly when every face index of every
    cell names a face of the shape, whatever the options and whatever
    [slice] returns; otherwise [new HyperSliceGeometry] raises a TypeError. *)
Theorem slice_constructor_result slice shape opts :
  (faces_exist shape ->
   exists b, constructor vertexNormals colorGetter slice shape opts
             = Ok (b, sliced_edges shape))
  /\ (~ faces_exist shape ->
      constructor vertexNormals colorGetter slice shape opts = Throw TypeError).
Proof.
  rewrite constructor_threaded. apply slice_constructor_result_threaded.
Qed.


(** X9: the positions [update] leaves.  A geometry that is in use and has
    room for the points of all chains holds, from the start of its position
    array, the first three coordinates of each point of each chain rounded
    to 32 bits (NaN for a missing coordinate), chain after chain; the rest
    of the array is as it was.  A geometry that is not in use is left as it
    was. *)
Theorem slice_update_positions slice b b1 calls :
  update vertexNormals colorGetter slice b = Ok (b1, calls) ->
  let points := concat (map (cell_chain slice (shape b)) (cells (shape b))) in
  (forall g, useFaces (options b) = true -> geometry b = Some g ->
     3 * length points <= length (position g) ->
     exists g1, geometry b1 = Some g1
       /\ position g1 = flat_map coords3 points ++ drop (3 * length points) (position g))
  /\ (forall g, useEdges (options b) = true -> edgeGeometry b = Some g ->
        3 * length points <= length (position g) ->
        exists g1, edgeGeometry b1 = Some g1
          /\ position g1
             = flat_map coords3 points ++ drop (3 * length points) (position g))
  /\ (forall g, usePoints (options b) = true -> pointGeometry b = Some g ->
        3 * length points <= length (position g) ->
        exists g1, pointGeometry b1 = Some g1
          /\ position g1
             = flat_map coords3 points ++ drop (3 * length points) (position g))
  /\ (useFaces (options b) = false -> geometry b1 = geometry b)
  /\ (useEdges (options b) = false -> edgeGeometry b1 = edgeGeometry b)
  /\ (usePoints (options b) = false -> pointGeometry b1 = pointGeometry b).
Proof.
  rewrite update_threaded. apply slice_update_positions_threaded.
Qed.

(** X18: the colours [update] leaves.  With colours, a geometry that is in
    use and has room for the points of all chains holds, from the start of
    its colour array, one colour for each point of each chain, chain after
    chain: the colour the getter gives for the cell, the position of the
    point in the chain of the cell, the first three coordinates of the
    point and the tag of the geometry, stored as three numbers rounded to
    32 bits; the rest of the array is as it was. *)
Theorem slice_update_colors slice b b1 calls :
  update vertexNormals colorGetter slice b = Ok (b1, calls) ->
  useColors (options b) = true ->
  let points := concat (map (cell_chain slice (shape b)) (cells (shape b))) in
  let paints tag := cells_paints colorGetter tag slice (shape b) 0 (cells (shape b)) in
  (forall g c, useFaces (options b) = true -> geometry b = Some g ->
     color g = Some c -> 3 * length points <= length c ->
     exists g1, geometry b1 = Some g1
       /\ color g1
          = Some (flat_map rgb3 (paints FacePair) ++ drop (3 * length points) c))
  /\ (forall g c, useEdges (options b) = true -> edgeGeometry b = Some g ->
        color g = Some c -> 3 * length points <= length c ->
        exists g1, edgeGeometry b1 = Some g1
          /\ color g1
             = Some (flat_map rgb3 (paints EdgePair) ++ drop (3 * length points) c))
  /\ (forall g c, usePoints (options b) = true -> pointGeometry b = Some g ->
        color g = Some c -> 3 * length points <= length c ->
        exists g1, pointGeometry b1 = Some g1
          /\ color g1
             = Some (flat_map rgb3 (paints VertexPair) ++ drop (3 * length points) c)).
Proof.
  rewrite update_threaded. apply slice_update_colors_threaded.
Qed.

Lemma coords3_written (points : list (list num)) (rest : list num) k p :
  points !! k = Some p ->
  take 3 (drop (3 * k) (flat_map coords3 points ++ rest)) = coords3 p.
Proof.
  revert k. induction points as [|q points IH]; intros k Hk; [done|].
  destruct k as [|k]; simpl in Hk.
  - injection Hk as ->. done.
  - replace (3 * S k) with (3 + 3 * k) by lia.
    change (flat_map coords3 (q :: points) ++ rest)
      with (coords3 q ++ (flat_map coords3 points ++ rest)).
    rewrite <- drop_drop.
    change (drop 3 (coords3 q ++ (flat_map coords3 points ++ rest)))
      with (flat_map coords3 points ++ rest).
    by apply IH.
Qed.

(** X10: every entry of the index of the face geometry and of the index of
    the edge geometry that [update] sets names a point that was written:
    for a geometry with room for the points of all chains, the entry is at
    least 0 and below the number of points, and the three positions at its
    slot are the coordinates of the point it names.  The edge index holds
    two entries for each point, and the face index three entries for each
    triangle, two triangles fewer per chain than the chain has points. *)
Theorem slice_indices_in_range slice b b1 calls :
  update vertexNormals colorGetter slice b = Ok (b1, calls) ->
  let chains := map (cell_chain slice (shape b)) (cells (shape b)) in
  let points := concat chains in
  let written (g : BufferGeometry num) (e : Z) :=
    (0 <= e < Z.of_nat (length points))%Z
    /\ exists p, points !! Z.to_nat e = Some p
                 /\ take 3 (drop (3 * Z.to_nat e) (position g)) = coords3 p in
  (forall g0 g ixs,
     useFaces (options b) = true -> geometry b = Some g0 ->
     3 * length points <= length (position g0) ->
     geometry b1 = Some g -> index g = Some ixs ->
     Forall (written g) ixs
     /\ length ixs = 3 * list_sum (map (fun chain => length chain - 2) chains))
  /\ (forall g0 g ixs,
        useEdges (options b) = true -> edgeGeometry b = Some g0 ->
        3 * length points <= length (position g0) ->
        edgeGeometry b1 = Some g -> index g = Some ixs ->
        Forall (written g) ixs
        /\ length ixs = 2 * length points).
Proof.
  rewrite update_threaded. intros Hup chains points written.
  destruct (slice_indices_in_range_threaded vertexNormals colorGetter slice b b1 calls Hup)
    as [HF HE].
  destruct (slice_update_positions_threaded vertexNormals colorGetter slice b b1 calls Hup)
    as (HFp & HEp & _).
  assert (forall g g0 ixs,
            position g = flat_map coords3 points ++ drop (3 * length points) (position g0) ->
            Forall (fun e => (0 <= e < Z.of_nat (length points))%Z) ixs ->
            Forall (written g) ixs) as Hwritten.
  { intros g g0 ixs Hpos Hall. eapply Forall_impl; [exact Hall|].
    intros e He. split; [done|].
    destruct (lookup_lt_is_Some_2 points (Z.to_nat e)) as [p Hp].
    { simpl in He. destruct He as [He0 He1].
      apply Nat2Z.inj_lt. by rewrite Z2Nat.id. }
    exists p. split; [done|]. rewrite Hpos. by apply coords3_written. }
  split.
  - intros g0 g ixs Hw Hg0 Hroom Hg Hixs.
    destruct (HF g ixs Hw Hg Hixs) as [Hrange Hlen]. split; [|done].
    destruct (HFp g0 Hw Hg0 Hroom) as (g1 & Hg1 & Hpos).
    rewrite Hg in Hg1. injection Hg1 as <-. by eapply Hwritten.
  - intros g0 g ixs Hw Hg0 Hroom Hg Hixs.
    destruct (HE g ixs Hw Hg Hixs) as [Hrange Hlen]. split; [|done].
    destruct (HEp g0 Hw Hg0 Hroom) as (g1 & Hg1 & Hpos).
    rewrite Hg in Hg1. injection Hg1 as <-. by eapply Hwritten.
Qed.

(** X11: a cell emits no point at all or a chain of four points or more:
    the points of its first pair, of which there are at least two, and one
    point more for each of its other pairs, of which there are at least
    two.  A cell that emits thus adds at least two triangles. *)
Theorem cell_emits_four_points slice shape cell :
  cell_chain slice shape cell = []
  \/ exists first rest made,
       cell_pairs slice shape cell [] = Ok (first :: rest, made)
       /\ 2 <= length first /\ 2 <= length rest
       /\ length (cell_chain slice shape cell) = length first + length rest
       /\ 6 <= length (fan 0 (length (cell_chain slice shape cell))).
Proof.
  destruct (cell_emits_four_points_threaded slice shape cell)
    as [Hnil|(first & rest & made & Hpairs & Hrest)]; [by left|].
  right. exists first, rest, made. by rewrite cell_pairs_threaded.
Qed.

End Output.

Import Small Tetrahedron.

(** The builder of the sliced tetrahedron has its buffers allocated. *)
Lemma slice_update_result_witness :
  (faces_exist (HyperSliceGeometry.shape fresh) ->
   exists b1, update no_normals black slice fresh
              = Ok (b1, sliced_edges (HyperSliceGeometry.shape fresh)))
  /\ (~ faces_exist (HyperSliceGeometry.shape fresh) ->
      update no_normals black slice fresh = Throw TypeError).
Proof.
  apply (slice_update_result (num := small) (vertex := nat) no_normals black slice fresh).
  repeat split; exact (HyperSliceGeometryUpdate.allocated_init shape (options fresh) true).
Defined.


(** The sliced tetrahedron: the four points of the chain at the start of
    the position array, the rest of the fresh buffer behind them. *)
Lemma slice_update_positions_witness :
  exists b1 calls g1,
    update no_normals black slice fresh = Ok (b1, calls)
    /\ geometry b1 = Some g1
    /\ position g1
       = cut 1 ++ cut 2 ++ cut 3 ++ cut 1 ++ replicate 12 (Num 0).
Proof.
  destruct (update no_normals black slice fresh) as [[b1 calls]|e] eqn:Hup;
    [|vm_compute in Hup; discriminate].
  destruct (slice_update_positions (num := small) (vertex := nat)
              no_normals black slice fresh b1 calls Hup) as (HF & _).
  destruct (HF (initGeometry true (maxPositions shape)) eq_refl eq_refl)
    as (g1 & Hg1 & Hpos); [vm_compute; lia|].
  by exists b1, calls, g1.
Defined.

(** The sliced tetrahedron: six face indices, each of them the slot of one
    of the four points of the chain, with the coordinates of that point in
    the position array. *)
Lemma slice_indices_in_range_witness :
  exists b1 calls,
    update no_normals black slice fresh = Ok (b1, calls)
    /\ forall g ixs, geometry b1 = Some g -> index g = Some ixs ->
         Forall (fun e =>
                   (0 <= e < 4)%Z
                   /\ exists p, [cut 1; cut 2; cut 3; cut 1] !! Z.to_nat e = Some p
                                /\ take 3 (drop (3 * Z.to_nat e) (position g)) = coords3 p)
                ixs
         /\ length ixs = 6.
Proof.
  destruct (update no_normals black slice fresh) as [[b1 calls]|e] eqn:Hup;
    [|vm_compute in Hup; discriminate].
  destruct (slice_indices_in_range (num := small) (vertex := nat)
              no_normals black slice fresh b1 calls Hup) as (HF & _).
  exists b1, calls. split; [done|]. intros g ixs Hg Hixs.
  refine (HF (initGeometry true (maxPositions shape)) g ixs eq_refl eq_refl _ Hg Hixs).
  vm_compute. lia.
Defined.

(** The sliced tetrahedron painted black: twelve colour components written,
    the rest of the fresh buffer behind them. *)
Lemma slice_update_colors_witness :
  exists b1 calls g1,
    update no_normals black slice fresh = Ok (b1, calls)
    /\ geometry b1 = Some g1
    /\ color g1 = Some (replicate 24 (Num 0)).
Proof.
  destruct (update no_normals black slice fresh) as [[b1 calls]|e] eqn:Hup;
    [|vm_compute in Hup; discriminate].
  destruct (slice_update_colors (num := small) (vertex := nat)
              no_normals black slice fresh b1 calls Hup eq_refl) as (HF & _).
  destruct (HF (initGeometry true (maxPositions shape)) (replicate 24 (Num 0))
              eq_refl eq_refl eq_refl) as (g1 & Hg1 & Hcol); [vm_compute; lia|].
  by exists b1, calls, g1.
Defined.

End HyperSliceGeometryOutput.

(** ** What HyperGeometry builds and writes *)

Module HyperGeometryOutput.
Import HyperGeometry HyperVocabulary HyperGeometryUpdate HyperGeometryConstructor.
Import Stores StoresFacts ArrayVocabulary ArrayFacts HyperOutputVocabulary JSFacts.

(** *** [[...new Set(xs)]] and [indexOf] *)

Section Arrays.
Context {A : Type} `{EqDecision A}.

Lemma dedup_snoc (xs : list A) x :
  dedup (xs ++ [x]) = if decide (x ∈ dedup xs) then dedup xs else dedup xs ++ [x].
Proof. unfold dedup. by rewrite fold_left_app. Qed.

Lemma dedup_elem_iff (xs : list A) x : x ∈ dedup xs <-> x ∈ xs.
Proof.
  induction xs as [|y xs IH] using rev_ind; [done|].
  rewrite dedup_snoc, elem_of_app, list_elem_of_singleton.
  destruct (decide (y ∈ dedup xs)) as [Hy|Hy].
  - rewrite IH. split; [by left|]. intros [Hx| ->]; [done|]. by apply IH.
  - by rewrite elem_of_app, list_elem_of_singleton, IH.
Qed.

Lemma NoDup_dedup (xs : list A) : NoDup (dedup xs).
Proof.
  induction xs as [|y xs IH] using rev_ind; [constructor|].
  rewrite dedup_snoc. destruct (decide (y ∈ dedup xs)) as [Hy|Hy]; [done|].
  apply NoDup_app. split; [done|]. split; [|apply NoDup_singleton].
  intros x Hx Hxy. apply list_elem_of_singleton in Hxy as ->. done.
Qed.

(** The elements a [Set] that holds [seen] lets through. *)
Lemma dedup_from (seen xs : list A) :
  fold_left (fun seen x => if decide (x ∈ seen) then seen else seen ++ [x]) xs seen
  = seen ++ filter (fun y => y ∉ seen) (dedup xs).
Proof.
  induction xs as [|x xs IH] using rev_ind.
  - simpl. by rewrite app_nil_r.
  - rewrite fold_left_app, dedup_snoc. simpl. rewrite IH.
    destruct (decide (x ∈ seen ++ filter (fun y => y ∉ seen) (dedup xs))) as [Hin|Hout];
      destruct (decide (x ∈ dedup xs)) as [Hd|Hd].
    + done.
    + rewrite filter_app, filter_cons_False, filter_nil, app_nil_r; [done|].
      apply elem_of_app in Hin as [Hin|Hin]; [by intros ?|].
      by apply list_elem_of_filter in Hin as [_ Hin].
    + exfalso. apply Hout, elem_of_app.
      destruct (decide (x ∈ seen)); [by left|].
      right. by apply list_elem_of_filter.
    + rewrite filter_app, filter_cons_True, filter_nil, app_assoc; [done|].
      intros Hin. apply Hout, elem_of_app. by left.
Qed.

(** A [Set] keeps the first occurrence of each element. *)
Lemma dedup_cons (xs : list A) x :
  dedup (x :: xs) = x :: filter (fun y => y <> x) (dedup xs).
Proof.
  unfold dedup at 1. simpl. rewrite (dedup_from [x] xs). simpl. f_equal.
  apply list_filter_iff. intros y. by rewrite list_elem_of_singleton.
Qed.

Lemma indexOf_elem (xs : list A) x :
  x ∈ xs ->
  (0 <= indexOf xs x < Z.of_nat (length xs))%Z
  /\ xs !! Z.to_nat (indexOf xs x) = Some x.
Proof.
  induction xs as [|y xs IH]; intros Hin; [by apply not_elem_of_nil in Hin|].
  simpl. destruct (decide (y = x)) as [->|Hne].
  - split; [lia | done].
  - apply elem_of_cons in Hin as [->|Hin]; [done|].
    destruct (IH Hin) as [Hrange Hlookup].
    destruct (Z.ltb_spec (indexOf xs x) 0) as [Hlt|_]; [lia|].
    split; [lia|].
    replace (Z.to_nat (indexOf xs x + 1)) with (S (Z.to_nat (indexOf xs x))) by lia.
    done.
Qed.

Lemma indexOf_not_elem (xs : list A) x : x ∉ xs -> indexOf xs x = (-1)%Z.
Proof.
  induction xs as [|y xs IH]; intros Hout; [done|].
  simpl. apply not_elem_of_cons in Hout as [Hne Hout].
  destruct (decide (y = x)) as [->|_]; [done|].
  rewrite (IH Hout). done.
Qed.

End Arrays.

Section Output.
Context {num : Type} `{Number num} {vertex : Type}.
Variable vertexNormals : list num -> option (list Z) -> list num.
Variable colorGetter : VertexContext -> num * num * num.

Implicit Types (shape : Shape vertex) (opts : Options).
Implicit Types (project : vertex -> list num).
Implicit Types (b : Builder num vertex) (g : BufferGeometry num).

(** *** The steps of the constructor *)

Lemma constructor_steps project shape opts b calls :
  constructor vertexNormals colorGetter project shape opts = Ok (b, calls) ->
  let expanded := map (fun cell => flat (cell_faces shape cell)) (cells shape) in
  let deduped := map dedup expanded in
  exists gs0 egs0 gs1,
    (if useFaces opts then init_faces shape opts expanded else Ok []) = Ok gs0
    /\ (if useEdges opts then init_edges shape opts deduped else Ok []) = Ok egs0
    /\ (if useColors opts && useFaces opts
        then color_faces colorGetter shape gs0 else Ok gs0) = Ok gs1
    /\ update vertexNormals project
         {| shape := shape; options := opts;
            vertexGeometriesIndices := expanded;
            dedupVertexGeometriesIndices := deduped;
            geometries := gs1;
            edgesGeometries :=
              if useColors opts && useEdges opts
              then color_vertices colorGetter Edge deduped egs0 else egs0;
            pointsGeometries :=
              if useColors opts && usePoints opts
              then color_vertices colorGetter Point deduped
                     (if usePoints opts then init_points opts deduped else [])
              else if usePoints opts then init_points opts deduped else [] |}
       = Ok (b, calls).
Proof.
  rewrite constructor_unfold. cbv zeta. intros Hc.
  apply bind_Ok in Hc as (gs0 & Hgs0 & Hc).
  apply bind_Ok in Hc as (egs0 & Hegs0 & Hc).
  apply bind_Ok in Hc as (gs1 & Hgs1 & Hc).
  cbv zeta. by exists gs0, egs0, gs1.
Qed.

(** X12: the index lists of a builder.  The expanded list of a cell is the
    vertex indices of its faces, face after face; the deduplicated list
    holds each entry of the expanded list once, in the order of the first
    occurrences, as the spread of a [Set] does. *)
Theorem index_lists_of_cells project shape opts b calls :
  constructor vertexNormals colorGetter project shape opts = Ok (b, calls) ->
  vertexGeometriesIndices b = map (fun cell => flat (cell_faces shape cell)) (cells shape)
  /\ dedupVertexGeometriesIndices b = map dedup (vertexGeometriesIndices b)
  /\ (forall cellIndex cell cellFaces,
        cells shape !! cellIndex = Some cell ->
        Forall2 (fun faceIndex face => faces shape !! faceIndex = Some face)
                cell cellFaces ->
        vertexGeometriesIndices b !! cellIndex = Some (map Some (concat cellFaces)))
  /\ Forall2 (fun l d =>
                NoDup d /\ (forall v, v ∈ d <-> v ∈ l) /\ d `sublist_of` l
                /\ forall v l', l = v :: l' ->
                     d = v :: filter (fun w => w <> v) (dedup l'))
             (vertexGeometriesIndices b) (dedupVertexGeometriesIndices b).
Proof.
  intros Hc. apply constructor_steps in Hc as (gs0 & egs0 & gs1 & _ & _ & _ & Hup).
  cbv zeta in Hup. apply update_same_topology in Hup as (_ & _ & Hv & Hd & _).
  simpl in Hv, Hd. rewrite Hv, Hd. split; [done|]. split; [done|]. split.
  - intros cellIndex cell cellFaces Hcell Hfaces.
    rewrite list_lookup_fmap, Hcell. simpl. f_equal.
    rewrite <- flat_Some. f_equal. unfold cell_faces.
    clear Hcell. induction Hfaces as [|faceIndex face cell cellFaces Hface _ IH];
      [done|]. simpl. by rewrite Hface, IH.
  - apply Forall2_fmap_r, Forall_Forall2_diag, Forall_forall. intros l _. simpl.
    split; [apply NoDup_dedup|]. split; [apply dedup_elem_iff|]. split.
    + induction l as [|v l IH] using rev_ind; [done|].
      rewrite dedup_snoc. destruct (decide (v ∈ dedup l)).
      * by apply sublist_inserts_r.
      * by apply sublist_app.
    + intros v l' ->. apply dedup_cons.
Qed.

(** *** The sizes of the buffers *)

Lemma mapM_Forall2 {A B : Type} (f : nat -> A -> result B) k xs ys :
  mapM f k xs = Ok ys -> Forall2 (fun x y => exists j, f j x = Ok y) xs ys.
Proof.
  revert k ys. induction xs as [|x xs IH]; intros k ys; simpl.
  - intros [= <-]. constructor.
  - intros Hrun. apply bind_Ok in Hrun as (y & Hy & Hrun).
    apply bind_Ok in Hrun as (ys' & Hrest & [= <-]).
    constructor; [by exists k | by eapply IH].
Qed.

Lemma fits_init (colors : bool) n : fits colors n (initGeometry (num := num) colors n).
Proof.
  split; simpl; [apply length_new_Float32Array|].
  destruct colors; [|done]. eexists. split; [done|]. apply length_new_Float32Array.
Qed.

Lemma fits_same_buffers (colors : bool) n g g' :
  same_buffers g g' -> fits colors n g -> fits colors n g'.
Proof.
  intros (Hlen & Hcol & _) [Hpos Hc]. split; [lia|]. by rewrite Hcol.
Qed.

Lemma fits_setIndex (colors : bool) n indices g :
  fits colors n g -> fits colors n (setIndex indices g).
Proof. done. Qed.

(** The colour stores of the constructor, from slot [k] on. *)
Lemma paint_from (rgbs : list (num * num * num)) k g :
  position (forEach (fun g k rgb => setColor (3 * k) rgb g) k rgbs g) = position g
  /\ (color g = None ->
      color (forEach (fun g k rgb => setColor (3 * k) rgb g) k rgbs g) = None)
  /\ (forall c, color g = Some c -> 3 * (k + length rgbs) <= length c ->
        color (forEach (fun g k rgb => setColor (3 * k) rgb g) k rgbs g)
        = Some (overwrite (3 * k) (flat_map rgb3 rgbs) c)).
Proof.
  revert k g. induction rgbs as [|rgb rgbs IH]; intros k g.
  - simpl. split; [done|]. split; [done|]. intros c -> _. by rewrite overwrite_nil.
  - change (forEach (fun g k rgb => setColor (3 * k) rgb g) k (rgb :: rgbs) g)
      with (forEach (fun g k rgb => setColor (3 * k) rgb g) (S k) rgbs
              (setColor (3 * k) rgb g)).
    destruct (IH (S k) (setColor (3 * k) rgb g)) as (Hpos & Hnone & Hsome).
    split; [by rewrite Hpos|]. split.
    + intros Hc. apply Hnone. simpl. by rewrite Hc.
    + intros c Hc Hcap. change (length (rgb :: rgbs)) with (S (length rgbs)) in Hcap.
      assert (color (setColor (3 * k) rgb g) = Some (overwrite (3 * k) (rgb3 rgb) c))
        as Hset.
      { simpl. rewrite Hc. simpl. f_equal. apply store3_stored3. lia. }
      rewrite (Hsome _ Hset)
        by (rewrite length_overwrite; change (length (rgb3 rgb)) with 3; lia).
      f_equal. change (flat_map rgb3 (rgb :: rgbs)) with (rgb3 rgb ++ flat_map rgb3 rgbs).
      replace (3 * S k) with (3 * k + length (rgb3 rgb))
        by (change (length (rgb3 rgb)) with 3; lia).
      apply overwrite_overwrite.
      pose proof (length_rgb3 rgbs). change (length (rgb3 rgb)) with 3. lia.
Qed.

(** Painting one colour per entry fills the colour buffer. *)
Lemma paint_fits n (rgbs : list (num * num * num)) g :
  length rgbs = n -> fits true n g ->
  fits true n (paint rgbs g)
  /\ color (paint rgbs g) = Some (flat_map rgb3 rgbs)
  /\ position (paint rgbs g) = position g.
Proof.
  intros Hlen [Hpos (c & Hc & Hclen)]. unfold paint.
  destruct (paint_from rgbs 0 g) as (Hpos' & _ & Hsome).
  split; [|split; [|done]].
  - split; [by rewrite Hpos'|]. rewrite (Hsome c Hc) by lia.
    eexists. split; [done|]. rewrite length_overwrite; rewrite ?length_rgb3; lia.
  - rewrite (Hsome c Hc) by lia. f_equal. apply overwrite_all.
    rewrite length_rgb3. lia.
Qed.

Lemma face_colors_Some cellIndex k (cellFaces : list (list nat)) :
  face_colors colorGetter cellIndex k (map Some cellFaces)
  = Ok (concat (imap (fun faceIndex face =>
                        map (fun verticeIndex =>
                               colorGetter {| cell := cellIndex;
                                              face := Some (k + faceIndex);
                                              vertice := Some verticeIndex;
                                              type := Face |}) face)
                     cellFaces)).
Proof.
  revert k. induction cellFaces as [|face cellFaces IH]; intros k; [done|].
  change (face_colors colorGetter cellIndex k (map Some (face :: cellFaces)))
    with (rest ← face_colors colorGetter cellIndex (S k) (map Some cellFaces);
          Ok (map (fun verticeIndex =>
                     colorGetter {| cell := cellIndex; face := Some k;
                                    vertice := Some verticeIndex; type := Face |})
                  face ++ rest)).
  rewrite IH. simpl. rewrite Nat.add_0_r. do 3 f_equal.
  apply imap_ext. intros j f _. simpl. by rewrite Nat.add_succ_r.
Qed.

Lemma face_colors_inv cellIndex k (fs : list (option (list nat))) rgbs :
  face_colors colorGetter cellIndex k fs = Ok rgbs ->
  exists cellFaces, fs = map Some cellFaces.
Proof.
  revert k rgbs. induction fs as [|[face|] fs IH]; intros k rgbs; simpl.
  - intros _. by exists [].
  - intros Hrun. apply bind_Ok in Hrun as (rest & Hrest & _).
    apply IH in Hrest as [cellFaces ->]. by exists (face :: cellFaces).
  - done.
Qed.

Lemma length_concat_imap_map {B : Type} (t : nat -> nat -> B)
  (cellFaces : list (list nat)) :
  length (concat (imap (fun faceIndex face => map (t faceIndex) face) cellFaces))
  = length (concat cellFaces).
Proof.
  revert t. induction cellFaces as [|face cellFaces IH]; intros t; [done|].
  simpl. rewrite !length_app, length_map. f_equal.
  apply (IH (fun faceIndex => t (S faceIndex))).
Qed.

Lemma length_face_paints cellIndex (cellFaces : list (list nat)) :
  length (face_paints colorGetter cellIndex cellFaces) = length (concat cellFaces).
Proof. unfold face_paints. apply length_concat_imap_map. Qed.

(** *** The positions *)

Lemma points_of_cons (projected : list (list num)) vertexIndex vertexIndices p :
  vertexIndex ≫= (projected !!.) = Some p ->
  points_of projected (vertexIndex :: vertexIndices)
  = p :: points_of projected vertexIndices.
Proof. intros Hp. unfold points_of. simpl. by rewrite Hp. Qed.

(** The for loop over an index list writes the projected vertices it
    names, slot after slot. *)
Lemma write_positions_overwrite (projected : list (list num)) vertexIndices k g g' :
  forEachM (write_position projected) k vertexIndices g = Ok g' ->
  3 * (k + length vertexIndices) <= length (position g) ->
  position g'
  = overwrite (3 * k) (flat_map coords3 (points_of projected vertexIndices)) (position g)
  /\ length (points_of projected vertexIndices) = length vertexIndices.
Proof.
  revert k g. induction vertexIndices as [|vi vertexIndices IH]; intros k g.
  - intros [= <-] _. simpl. by rewrite overwrite_nil.
  - change (forEachM (write_position projected) k (vi :: vertexIndices) g)
      with (g1 ← write_position projected g k vi;
            forEachM (write_position projected) (S k) vertexIndices g1).
    intros Hrun Hcap. change (length (vi :: vertexIndices)) with (S (length vertexIndices)) in Hcap.
    apply bind_Ok in Hrun as (g1 & Hw & Hrest).
    unfold write_position in Hw.
    destruct (vi ≫= (projected !!.)) as [p|] eqn:Hp; [|done].
    injection Hw as <-.
    assert (position (setPosition (k * 3) (p !! 0) (p !! 1) (p !! 2) g)
            = overwrite (3 * k) (coords3 p) (position g)) as Hset.
    { simpl. rewrite (Nat.mul_comm k 3). apply store3_overwrite. lia. }
    apply IH in Hrest as [Hpos Hlen];
      [|rewrite Hset, length_overwrite; change (length (coords3 p)) with 3; lia].
    rewrite (points_of_cons _ _ _ _ Hp). split; [|simpl; by rewrite Hlen].
    rewrite Hpos, Hset.
    change (flat_map coords3 (p :: points_of projected vertexIndices))
      with (coords3 p ++ flat_map coords3 (points_of projected vertexIndices)).
    replace (3 * S k) with (3 * k + length (coords3 p))
      by (change (length (coords3 p)) with 3; lia).
    apply overwrite_overwrite.
    rewrite length_coords3, Hlen. change (length (coords3 p)) with 3. lia.
Qed.

(** The entries of an index list that was written name the vertices whose
    projections were written. *)
Lemma points_of_names project (vs : list vertex) (vertexIndices : list (option nat)) :
  Forall (names_vertex (length (map project vs))) vertexIndices ->
  Forall2 (fun vertexIndex p =>
             exists v x, vertexIndex = Some v /\ vs !! v = Some x /\ p = project x)
          vertexIndices (points_of (map project vs) vertexIndices).
Proof.
  induction 1 as [|vi vertexIndices (v & -> & Hv) _ IH]; [constructor|].
  rewrite length_map in Hv. apply lookup_lt_is_Some_2 in Hv as [x Hx].
  rewrite (points_of_cons _ _ _ (project x)) by (simpl; by rewrite list_lookup_fmap, Hx).
  constructor; [|done]. by exists v, x.
Qed.

(** The map over the index lists gives the geometry of each cell its
    positions, and leaves it to [after]. *)
Lemma refresh_lookup after (projected : list (list num))
  (indexLists : list (list (option nat))) k gs gs1 :
  forEachM (refresh_cell after projected) k indexLists gs = Ok gs1 ->
  forall j l g, indexLists !! j = Some l -> gs !! (k + j) = Some g ->
    exists g', write_positions projected l g = Ok g'
               /\ gs1 !! (k + j) = Some (after g').
Proof.
  revert k gs. induction indexLists as [|l0 indexLists IH]; intros k gs; [done|].
  change (forEachM (refresh_cell after projected) k (l0 :: indexLists) gs)
    with (gs' ← refresh_cell after projected gs k l0;
          forEachM (refresh_cell after projected) (S k) indexLists gs').
  intros Hrun. apply bind_Ok in Hrun as (gs' & Hcell & Hrest).
  unfold refresh_cell in Hcell. destruct (gs !! k) as [g0|] eqn:Hk; [|done].
  apply bind_Ok in Hcell as (g0' & Hw & [= <-]).
  intros [|j] l g; simpl.
  - intros [= <-]. rewrite Nat.add_0_r, Hk. intros [= <-].
    exists g0'. split; [done|].
    destruct (refresh_cells_untouched _ _ _ _ _ _ Hrest) as [_ Hbefore].
    rewrite Hbefore by lia. apply list_lookup_insert_eq.
    by eapply lookup_lt_Some.
  - intros Hl Hg. replace (k + S j) with (S k + j) in * by lia.
    apply (IH _ _ Hrest j l g Hl). by rewrite list_lookup_insert_ne by lia.
Qed.

(** One kind of geometries across [update]. *)
Lemma refresh_positions after (wanted : bool) project (vs : list vertex)
  (indexLists : list (list (option nat))) gs gs1 :
  (forall g, position (after g) = position g) ->
  (if wanted then refresh after (map project vs) indexLists gs else Ok gs) = Ok gs1 ->
  if wanted then
    forall j l g, indexLists !! j = Some l -> gs !! j = Some g ->
      3 * length l <= length (position g) ->
      exists g', gs1 !! j = Some (after g')
        /\ write_positions (map project vs) l g = Ok g'
        /\ position (after g')
           = flat_map coords3 (points_of (map project vs) l)
             ++ drop (3 * length l) (position g)
        /\ Forall2 (fun vertexIndex p =>
                      exists v x, vertexIndex = Some v /\ vs !! v = Some x
                                  /\ p = project x)
                   l (points_of (map project vs) l)
  else gs1 = gs.
Proof.
  intros Hafter. destruct wanted; [|by intros [= <-]].
  intros Hrun j l g Hl Hg Hcap.
  destruct (refresh_lookup _ _ _ _ _ _ Hrun j l g Hl Hg) as (g' & Hw & Hg1).
  exists g'. split; [done|]. split; [done|].
  pose proof Hw as Hpos. apply write_positions_overwrite in Hpos as [Hpos Hlen]; [|lia].
  split.
  - by rewrite Hafter, Hpos, overwrite_0, length_coords3, Hlen.
  - apply points_of_names. by eapply write_positions_names.
Qed.

(** X13: the positions [update] leaves.  The geometry of a cell holds, from
    the start of its position array, the first three coordinates of the
    projection of each vertex its index list names, rounded to 32 bits and
    in the order of the list: the expanded list for a face geometry, the
    deduplicated list for an edge or point geometry; what lies behind three
    numbers per entry is left as it was.  The normals of a face geometry
    are computed from the new positions.  The geometries of a kind that is
    not in use are left as they were. *)
Theorem hyper_update_positions project b b1 calls :
  update vertexNormals project b = Ok (b1, calls) ->
  let projected := map project (vertices (shape b)) in
  let written (l : list (option nat)) (g g1 : BufferGeometry num) :=
    position g1 = flat_map coords3 (points_of projected l)
                  ++ drop (3 * length l) (position g)
    /\ Forall2 (fun vertexIndex p =>
                  exists v x, vertexIndex = Some v
                              /\ vertices (shape b) !! v = Some x /\ p = project x)
               l (points_of projected l) in
  (forall cellIndex l g,
     useFaces (options b) = true ->
     vertexGeometriesIndices b !! cellIndex = Some l ->
     geometries b !! cellIndex = Some g -> 3 * length l <= length (position g) ->
     exists g1, geometries b1 !! cellIndex = Some g1 /\ written l g g1
       /\ normal g1 = Some (vertexNormals (position g1) (index g)))
  /\ (forall cellIndex l g,
        useEdges (options b) = true ->
        dedupVertexGeometriesIndices b !! cellIndex = Some l ->
        edgesGeometries b !! cellIndex = Some g -> 3 * length l <= length (position g) ->
        exists g1, edgesGeometries b1 !! cellIndex = Some g1 /\ written l g g1)
  /\ (forall cellIndex l g,
        usePoints (options b) = true ->
        dedupVertexGeometriesIndices b !! cellIndex = Some l ->
        pointsGeometries b !! cellIndex = Some g -> 3 * length l <= length (position g) ->
        exists g1, pointsGeometries b1 !! cellIndex = Some g1 /\ written l g g1)
  /\ (useFaces (options b) = false -> geometries b1 = geometries b)
  /\ (useEdges (options b) = false -> edgesGeometries b1 = edgesGeometries b)
  /\ (usePoints (options b) = false -> pointsGeometries b1 = pointsGeometries b).
Proof.
  intros Hup projected written.
  apply update_inv in Hup as (gs & egs & pgs & Hgs & Hegs & Hpgs & -> & _).
  apply refresh_positions in Hgs; [|done].
  apply refresh_positions in Hegs; [|done].
  apply refresh_positions in Hpgs; [|done].
  simpl. repeat split.
  - intros cellIndex l g Hw Hl Hg Hcap. rewrite Hw in Hgs.
    destruct (Hgs cellIndex l g Hl Hg Hcap) as (g' & Hg1 & Hwr & Hpos & Hnames).
    eexists. split; [done|]. split; [by split|]. simpl.
    apply write_positions_edit in Hwr as (P & -> & _). done.
  - intros cellIndex l g Hw Hl Hg Hcap. rewrite Hw in Hegs.
    destruct (Hegs cellIndex l g Hl Hg Hcap) as (g' & Hg1 & _ & Hpos & Hnames).
    eexists. split; [done|]. by split.
  - intros cellIndex l g Hw Hl Hg Hcap. rewrite Hw in Hpgs.
    destruct (Hpgs cellIndex l g Hl Hg Hcap) as (g' & Hg1 & _ & Hpos & Hnames).
    eexists. split; [done|]. by split.
  - intros Hw. by rewrite Hw in Hgs.
  - intros Hw. by rewrite Hw in Hegs.
  - intros Hw. by rewrite Hw in Hpgs.
Qed.

(** *** When update succeeds *)

Lemma write_positions_raises (projected : list (list num)) vertexIndices k g e :
  forEachM (write_position projected) k vertexIndices g = Throw e -> e = TypeError.
Proof.
  revert k g. induction vertexIndices as [|vi vertexIndices IH]; intros k g; [done|].
  change (forEachM (write_position projected) k (vi :: vertexIndices) g)
    with (g1 ← write_position projected g k vi;
          forEachM (write_position projected) (S k) vertexIndices g1).
  destruct (write_position projected g k vi) as [g1|e1] eqn:Hw;
    cbn [mbind result_bind].
  - apply IH.
  - intros [= <-]. unfold write_position in Hw.
    destruct (vi ≫= (projected !!.)); [done|]. by injection Hw as <-.
Qed.

Lemma refresh_raises after (projected : list (list num))
  (indexLists : list (list (option nat))) k gs e :
  forEachM (refresh_cell after projected) k indexLists gs = Throw e -> e = TypeError.
Proof.
  revert k gs. induction indexLists as [|l indexLists IH]; intros k gs; [done|].
  change (forEachM (refresh_cell after projected) k (l :: indexLists) gs)
    with (gs' ← refresh_cell after projected gs k l;
          forEachM (refresh_cell after projected) (S k) indexLists gs').
  destruct (refresh_cell after projected gs k l) as [gs'|e1] eqn:Hcell;
    cbn [mbind result_bind].
  - apply IH.
  - intros [= <-]. unfold refresh_cell in Hcell.
    destruct (gs !! k) as [g|]; [|by injection Hcell as <-].
    unfold write_positions in Hcell.
    destruct (forEachM (write_position projected) 0 l g) as [g'|e'] eqn:Hw;
      [done|]. injection Hcell as <-. by eapply write_positions_raises.
Qed.

Lemma refresh_needs_geometries after (projected : list (list num))
  (indexLists : list (list (option nat))) k gs gs1 :
  forEachM (refresh_cell after projected) k indexLists gs = Ok gs1 ->
  indexLists = [] \/ k + length indexLists <= length gs.
Proof.
  revert k gs. induction indexLists as [|l indexLists IH]; intros k gs; [by left|].
  intros Hrun. right. simpl in Hrun.
  apply bind_Ok in Hrun as (gs' & Hcell & Hrest).
  unfold refresh_cell in Hcell. destruct (gs !! k) as [g|] eqn:Hk; [|done].
  apply bind_Ok in Hcell as (g' & _ & [= <-]).
  apply lookup_lt_Some in Hk.
  apply IH in Hrest as [->|Hrest]; simpl; [lia|].
  rewrite length_insert in Hrest. lia.
Qed.

(** One kind of geometries: [update] gets through it exactly when it is
    refreshable, and raises a TypeError otherwise. *)
Lemma refresh_or_keep_result after (wanted : bool) (projected : list (list num))
  (indexLists : list (list (option nat))) gs :
  (exists gs1, (if wanted then refresh after projected indexLists gs else Ok gs)
               = Ok gs1
     /\ (wanted = true -> refreshable (length projected) indexLists gs))
  \/ ((if wanted then refresh after projected indexLists gs else Ok gs)
      = Throw TypeError
      /\ ~ (wanted = true -> refreshable (length projected) indexLists gs)).
Proof.
  destruct wanted; [|left; exists gs; by split].
  destruct (refresh after projected indexLists gs) as [gs1|e] eqn:Hrun.
  - left. exists gs1. split; [done|]. intros _. split.
    + apply refresh_needs_geometries in Hrun as [->|Hrun]; simpl; lia.
    + by eapply refresh_cells_names.
  - right. split; [f_equal; by eapply refresh_raises|].
    intros Hok. destruct (Hok eq_refl) as [Hlen Hall].
    destruct (refresh_cells_Ok after projected indexLists 0 gs Hall Hlen) as [gs1 Hgs1].
    unfold refresh in Hrun. by rewrite Hgs1 in Hrun.
Qed.

(** X14: when [update] succeeds.  It succeeds exactly when, for each kind
    of geometry in use, every index list has a geometry and every entry of
    every index list names a vertex of the shape; it has then called
    [project] once on each vertex, in order.  Otherwise it raises a
    TypeError: whatever [project] returns, [update] raises nothing else. *)
Theorem hyper_update_result project b :
  let n := length (vertices (shape b)) in
  let ready :=
    (useFaces (options b) = true ->
     refreshable n (vertexGeometriesIndices b) (geometries b))
    /\ (useEdges (options b) = true ->
        refreshable n (dedupVertexGeometriesIndices b) (edgesGeometries b))
    /\ (usePoints (options b) = true ->
        refreshable n (dedupVertexGeometriesIndices b) (pointsGeometries b)) in
  (ready -> exists b1, update vertexNormals project b = Ok (b1, vertices (shape b)))
  /\ (~ ready -> update vertexNormals project b = Throw TypeError).
Proof.
  intros n ready.
  assert (length (map project (vertices (shape b))) = n) as Hn by apply length_map.
  destruct (refresh_or_keep_result (computeVertexNormals vertexNormals)
              (useFaces (options b)) (map project (vertices (shape b)))
              (vertexGeometriesIndices b) (geometries b))
    as [(gs & Hgs & HF)|[Hgs HF]]; rewrite Hn in HF;
    [|split; [intros (HF' & _); by destruct HF
             | intros _; rewrite update_unfold; by rewrite Hgs]].
  destruct (refresh_or_keep_result id (useEdges (options b))
              (map project (vertices (shape b)))
              (dedupVertexGeometriesIndices b) (edgesGeometries b))
    as [(egs & Hegs & HE)|[Hegs HE]]; rewrite Hn in HE;
    [|split; [intros (_ & HE' & _); by destruct HE
             | intros _; rewrite update_unfold; by rewrite Hgs, Hegs]].
  destruct (refresh_or_keep_result id (usePoints (options b))
              (map project (vertices (shape b)))
              (dedupVertexGeometriesIndices b) (pointsGeometries b))
    as [(pgs & Hpgs & HP)|[Hpgs HP]]; rewrite Hn in HP;
    [|split; [intros (_ & _ & HP'); by destruct HP
             | intros _; rewrite update_unfold; by rewrite Hgs, Hegs, Hpgs]].
  split.
  - intros _. eexists. by apply update_intro.
  - intros Hnot. by destruct Hnot.
Qed.

(** *** The geometries the constructor makes *)

Lemma lookup_expanded shape cellIndex (l : list (option nat)) :
  map (fun cell => flat (cell_faces shape cell)) (cells shape) !! cellIndex = Some l ->
  exists cell, cells shape !! cellIndex = Some cell /\ l = flat (cell_faces shape cell).
Proof.
  rewrite list_lookup_fmap. destruct (cells shape !! cellIndex) as [cell|]; [|done].
  intros [= <-]. by exists cell.
Qed.

(** The face geometries before the closing [update]. *)
Lemma faces_made shape opts gs0 gs1 :
  init_faces shape opts (map (fun cell => flat (cell_faces shape cell)) (cells shape))
  = Ok gs0 ->
  (if useColors opts then color_faces colorGetter shape gs0 else Ok gs0) = Ok gs1 ->
  length gs1 = length (cells shape)
  /\ forall cellIndex cell, cells shape !! cellIndex = Some cell ->
       exists cellFaces g,
         cell_faces shape cell = map Some cellFaces
         /\ gs1 !! cellIndex = Some g
         /\ fits (useColors opts) (length (concat cellFaces)) g
         /\ (useColors opts = true ->
             color g = Some (flat_map rgb3 (face_paints colorGetter cellIndex cellFaces))).
Proof.
  intros Hgs0 Hgs1. split.
  - transitivity (length gs0).
    + destruct (useColors opts); [by eapply mapM_length | by injection Hgs1 as <-].
    + apply mapM_length in Hgs0. by rewrite Hgs0, length_map.
  - intros cellIndex cell Hcell.
    assert (map (fun cell => flat (cell_faces shape cell)) (cells shape) !! cellIndex
            = Some (flat (cell_faces shape cell))) as Hx
      by (by rewrite list_lookup_fmap, Hcell).
    destruct (mapM_lookup _ _ _ _ _ _ Hgs0 Hx) as (g0 & Hg0 & Hinit).
    simpl in Hinit. rewrite Hcell in Hinit. simpl in Hinit.
    apply bind_Ok in Hinit as (indices & Htess & [= <-]).
    destruct (tesselate_inv _ _ _ _ Htess) as (cellFaces & Hcf & _).
    rewrite Hcf, flat_Some, length_map in Hg0.
    exists cellFaces.
    destruct (useColors opts) eqn:Hcolors.
    + destruct (mapM_lookup _ _ _ _ _ _ Hgs1 Hg0) as (g1 & Hg1 & Hpaint).
      change (0 + cellIndex) with cellIndex in Hpaint. cbv beta in Hpaint.
      rewrite Hcell in Hpaint. change (default [] (Some cell)) with cell in Hpaint.
      rewrite Hcf, face_colors_Some in Hpaint. injection Hpaint as <-.
      eexists. split; [done|]. split; [done|].
      destruct (paint_fits (length (concat cellFaces))
                  (face_paints colorGetter cellIndex cellFaces)
                  (setIndex indices (initGeometry true (length (concat cellFaces)))))
        as (Hfits & Hcolor & _);
        [apply length_face_paints | apply fits_setIndex, fits_init |].
      split; [exact Hfits|]. intros _. exact Hcolor.
    + injection Hgs1 as <-. eexists. split; [done|]. split; [done|].
      split; [apply fits_setIndex, fits_init | done].
Qed.

Lemma edges_Some (verticesIndices : list (option nat)) cellFaces indices :
  edges verticesIndices (map Some cellFaces) indices
  = Ok (indices ++ flat_map (edge_indices verticesIndices) cellFaces).
Proof.
  revert indices. induction cellFaces as [|face cellFaces IH]; intros indices.
  - simpl. by rewrite app_nil_r.
  - change (edges verticesIndices (map Some (face :: cellFaces)) indices)
      with (edges verticesIndices (map Some cellFaces)
              (indices ++ edge_indices verticesIndices face)).
    rewrite IH. simpl. by rewrite <- app_assoc.
Qed.

Lemma edges_inv (verticesIndices : list (option nat)) fs indices out :
  edges verticesIndices fs indices = Ok out -> exists cellFaces, fs = map Some cellFaces.
Proof.
  revert indices. induction fs as [|[face|] fs IH]; intros indices; simpl.
  - intros _. by exists [].
  - intros Hrun. apply IH in Hrun as [cellFaces ->]. by exists (face :: cellFaces).
  - done.
Qed.

(** The edge geometries before the colours. *)
Lemma edges_made shape opts egs0 :
  init_edges shape opts
    (map dedup (map (fun cell => flat (cell_faces shape cell)) (cells shape))) = Ok egs0 ->
  length egs0 = length (cells shape)
  /\ forall cellIndex cell, cells shape !! cellIndex = Some cell ->
       exists cellFaces,
         cell_faces shape cell = map Some cellFaces
         /\ egs0 !! cellIndex
            = Some (setIndex
                      (flat_map (edge_indices (dedup (map Some (concat cellFaces))))
                                cellFaces)
                      (initGeometry (useColors opts)
                         (length (dedup (map Some (concat cellFaces)))))).
Proof.
  intros Hegs0. split.
  - apply mapM_length in Hegs0. by rewrite Hegs0, !length_map.
  - intros cellIndex cell Hcell.
    assert (map dedup (map (fun cell => flat (cell_faces shape cell)) (cells shape))
              !! cellIndex = Some (dedup (flat (cell_faces shape cell)))) as Hx
      by (by rewrite !list_lookup_fmap, Hcell).
    destruct (mapM_lookup _ _ _ _ _ _ Hegs0 Hx) as (g0 & Hg0 & Hinit).
    change (0 + cellIndex) with cellIndex in Hinit. cbv beta in Hinit.
    rewrite Hcell in Hinit. change (default [] (Some cell)) with cell in Hinit.
    apply bind_Ok in Hinit as (indices & Hedges & [= <-]).
    destruct (edges_inv _ _ _ _ Hedges) as (cellFaces & Hcf).
    rewrite Hcf, flat_Some in *. rewrite edges_Some in Hedges. injection Hedges as <-.
    by exists cellFaces.
Qed.

Lemma forEach_drawRange {B : Type}
  (f : BufferGeometry num -> nat -> B -> BufferGeometry num) k (xs : list B) g :
  (forall g k x, drawRange (f g k x) = drawRange g) ->
  drawRange (forEach f k xs g) = drawRange g.
Proof.
  intros Hf. revert k g. induction xs as [|x xs IH]; intros k g; simpl; [done|].
  by rewrite IH, Hf.
Qed.

Lemma paint_drawRange rgbs g : drawRange (paint rgbs g) = drawRange g.
Proof. unfold paint. by apply forEach_drawRange. Qed.

(** The colours of an edge or point geometry. *)
Lemma vertices_painted (t : VertexType) (deduped : list (list (option nat)))
  (gs : list (BufferGeometry num)) cellIndex d g :
  deduped !! cellIndex = Some d -> gs !! cellIndex = Some g -> fits true (length d) g ->
  exists g', color_vertices colorGetter t deduped gs !! cellIndex = Some g'
    /\ fits true (length d) g'
    /\ color g' = Some (flat_map rgb3 (vertex_colors colorGetter t cellIndex d))
    /\ index g' = index g /\ drawRange g' = drawRange g.
Proof.
  intros Hd Hg Hfits. unfold color_vertices.
  rewrite list_lookup_imap, Hg. simpl. rewrite Hd. simpl.
  eexists. split; [done|].
  destruct (paint_fits (length d) (vertex_colors colorGetter t cellIndex d) g)
    as (Hfits' & Hcolor & _); [apply length_map | done |].
  split; [done|]. split; [done|]. split; [apply paint_index | apply paint_drawRange].
Qed.

Lemma length_color_vertices (t : VertexType) (deduped : list (list (option nat)))
  (gs : list (BufferGeometry num)) :
  length (color_vertices colorGetter t deduped gs) = length gs.
Proof. apply length_imap. Qed.

(** *** The geometries of a new builder *)

Lemma same_buffers_lookup (gs gs' : list (BufferGeometry num)) j g0 :
  Forall2 same_buffers gs gs' -> gs !! j = Some g0 ->
  exists g, gs' !! j = Some g /\ same_buffers g0 g.
Proof. intros Hall Hg0. by eapply Forall2_lookup_l. Qed.

Lemma constructor_lists project shape opts b calls :
  constructor vertexNormals colorGetter project shape opts = Ok (b, calls) ->
  HyperGeometry.shape b = shape /\ options b = opts
  /\ vertexGeometriesIndices b
     = map (fun cell => flat (cell_faces shape cell)) (cells shape)
  /\ dedupVertexGeometriesIndices b
     = map dedup (map (fun cell => flat (cell_faces shape cell)) (cells shape)).
Proof.
  intros Hc. apply constructor_steps in Hc as (gs0 & egs0 & gs1 & _ & _ & _ & Hup).
  cbv zeta in Hup. by apply update_same_topology in Hup as (Hs & Ho & Hv & Hd & _).
Qed.

Lemma constructor_faces project shape opts b calls :
  constructor vertexNormals colorGetter project shape opts = Ok (b, calls) ->
  if useFaces opts then
    length (geometries b) = length (cells shape)
    /\ forall cellIndex cell, cells shape !! cellIndex = Some cell ->
         exists cellFaces g,
           cell_faces shape cell = map Some cellFaces
           /\ geometries b !! cellIndex = Some g
           /\ fits (useColors opts) (length (concat cellFaces)) g
           /\ (useColors opts = true ->
               color g
               = Some (flat_map rgb3 (face_paints colorGetter cellIndex cellFaces)))
  else geometries b = [].
Proof.
  intros Hc.
  apply constructor_steps in Hc as (gs0 & egs0 & gs1 & Hgs0 & _ & Hgs1 & Hup).
  cbv zeta in Hup. apply update_same_topology in Hup as (_ & _ & _ & _ & HF & _).
  simpl in HF. destruct (useFaces opts).
  - rewrite andb_true_r in Hgs1.
    destruct (faces_made _ _ _ _ Hgs0 Hgs1) as [Hlen Hcells]. split.
    + by rewrite <- (Forall2_length _ _ _ HF).
    + intros cellIndex cell Hcell.
      destruct (Hcells cellIndex cell Hcell) as (cellFaces & g0 & Hcf & Hg0 & Hfits & Hcol).
      destruct (same_buffers_lookup _ _ _ _ HF Hg0) as (g & Hg & Hsame).
      exists cellFaces, g. split; [done|]. split; [done|].
      split; [by eapply fits_same_buffers|].
      intros Hcolors. destruct Hsame as (_ & -> & _). by apply Hcol.
  - rewrite andb_false_r in Hgs1. injection Hgs0 as <-. injection Hgs1 as <-.
    by apply Forall2_nil_inv_l in HF.
Qed.

Lemma constructor_edges project shape opts b calls :
  constructor vertexNormals colorGetter project shape opts = Ok (b, calls) ->
  if useEdges opts then
    length (edgesGeometries b) = length (cells shape)
    /\ forall cellIndex cell, cells shape !! cellIndex = Some cell ->
         exists cellFaces g,
           cell_faces shape cell = map Some cellFaces
           /\ edgesGeometries b !! cellIndex = Some g
           /\ fits (useColors opts) (length (dedup (map Some (concat cellFaces)))) g
           /\ index g
              = Some (flat_map (edge_indices (dedup (map Some (concat cellFaces))))
                               cellFaces)
           /\ (useColors opts = true ->
               color g
               = Some (flat_map rgb3
                         (vertex_colors colorGetter Edge cellIndex
                            (dedup (map Some (concat cellFaces))))))
  else edgesGeometries b = [].
Proof.
  intros Hc.
  apply constructor_steps in Hc as (gs0 & egs0 & gs1 & _ & Hegs0 & _ & Hup).
  cbv zeta in Hup. apply update_same_topology in Hup as (_ & _ & _ & _ & _ & HE & _).
  simpl in HE. destruct (useEdges opts).
  - rewrite andb_true_r in HE.
    destruct (edges_made _ _ _ Hegs0) as [Hlen Hcells]. split.
    + rewrite <- (Forall2_length _ _ _ HE).
      destruct (useColors opts); [by rewrite length_color_vertices | done].
    + intros cellIndex cell Hcell.
      destruct (Hcells cellIndex cell Hcell) as (cellFaces & Hcf & Hg0).
      set (d := dedup (map Some (concat cellFaces))) in *.
      assert (map dedup (map (fun cell => flat (cell_faces shape cell)) (cells shape))
                !! cellIndex = Some d) as Hd.
      { rewrite !list_lookup_fmap, Hcell. simpl. by rewrite Hcf, flat_Some. }
      exists cellFaces.
      destruct (useColors opts) eqn:Hcolors.
      * destruct (vertices_painted Edge _ _ _ _ _ Hd Hg0)
          as (g' & Hg' & Hfits & Hcol & Hindex & _);
          [apply fits_setIndex, fits_init|].
        destruct (same_buffers_lookup _ _ _ _ HE Hg') as (g & Hg & Hsame).
        exists g. split; [done|]. split; [done|].
        split; [by eapply fits_same_buffers|].
        destruct Hsame as (_ & -> & -> & _). rewrite Hindex. by split.
      * destruct (same_buffers_lookup _ _ _ _ HE Hg0) as (g & Hg & Hsame).
        exists g. split; [done|]. split; [done|].
        split; [eapply fits_same_buffers; [done|]; apply fits_setIndex, fits_init|].
        destruct Hsame as (_ & _ & -> & _). by split.
  - rewrite andb_false_r in HE. injection Hegs0 as <-.
    by apply Forall2_nil_inv_l in HE.
Qed.

Lemma constructor_points project shape opts b calls :
  constructor vertexNormals colorGetter project shape opts = Ok (b, calls) ->
  if usePoints opts then
    length (pointsGeometries b) = length (cells shape)
    /\ forall cellIndex cell, cells shape !! cellIndex = Some cell ->
         exists g,
           pointsGeometries b !! cellIndex = Some g
           /\ fits (useColors opts) (length (dedup (flat (cell_faces shape cell)))) g
           /\ index g = None
           /\ (useColors opts = true ->
               color g
               = Some (flat_map rgb3
                         (vertex_colors colorGetter Point cellIndex
                            (dedup (flat (cell_faces shape cell))))))
  else pointsGeometries b = [].
Proof.
  intros Hc.
  apply constructor_steps in Hc as (gs0 & egs0 & gs1 & _ & _ & _ & Hup).
  cbv zeta in Hup. apply update_same_topology in Hup as (_ & _ & _ & _ & _ & _ & HP).
  simpl in HP. destruct (usePoints opts).
  - rewrite andb_true_r in HP. split.
    + rewrite <- (Forall2_length _ _ _ HP).
      destruct (useColors opts); rewrite ?length_color_vertices;
        unfold init_points; by rewrite !length_map.
    + intros cellIndex cell Hcell.
      set (d := dedup (flat (cell_faces shape cell))).
      assert (map dedup (map (fun cell => flat (cell_faces shape cell)) (cells shape))
                !! cellIndex = Some d) as Hd
        by (by rewrite !list_lookup_fmap, Hcell).
      assert (init_points opts
                (map dedup (map (fun cell => flat (cell_faces shape cell)) (cells shape)))
                !! cellIndex = Some (initGeometry (useColors opts) (length d))) as Hg0.
      { unfold init_points. by rewrite list_lookup_fmap, Hd. }
      destruct (useColors opts) eqn:Hcolors.
      * destruct (vertices_painted Point _ _ _ _ _ Hd Hg0)
          as (g' & Hg' & Hfits & Hcol & Hindex & _); [apply fits_init|].
        destruct (same_buffers_lookup _ _ _ _ HP Hg') as (g & Hg & Hsame).
        exists g. split; [done|]. split; [by eapply fits_same_buffers|].
        destruct Hsame as (_ & -> & -> & _). rewrite Hindex. by split.
      * destruct (same_buffers_lookup _ _ _ _ HP Hg0) as (g & Hg & Hsame).
        exists g. split; [done|].
        split; [eapply fits_same_buffers; [done|]; apply fits_init|].
        destruct Hsame as (_ & _ & -> & _). by split.
  - rewrite andb_false_r in HP. by apply Forall2_nil_inv_l in HP.
Qed.

Lemma constructor_fitted project shape opts b calls :
  constructor vertexNormals colorGetter project shape opts = Ok (b, calls) -> fitted b.
Proof.
  intros Hc.
  destruct (constructor_lists _ _ _ _ _ Hc) as (Hs & Ho & Hv & Hd).
  pose proof (constructor_faces _ _ _ _ _ Hc) as HF.
  pose proof (constructor_edges _ _ _ _ _ Hc) as HE.
  pose proof (constructor_points _ _ _ _ _ Hc) as HP.
  unfold fitted. rewrite Ho, Hv, Hd. split; [|split].
  - destruct (useFaces opts); [|done]. destruct HF as [Hlen Hcells].
    apply Forall2_same_length_lookup_2; [by rewrite length_map|].
    intros cellIndex l g Hl Hg.
    apply lookup_expanded in Hl as (cell & Hcell & ->).
    destruct (Hcells cellIndex cell Hcell) as (cellFaces & g' & Hcf & Hg' & Hfits & _).
    rewrite Hg in Hg'. injection Hg' as <-.
    by rewrite Hcf, flat_Some, length_map.
  - destruct (useEdges opts); [|done]. destruct HE as [Hlen Hcells].
    apply Forall2_same_length_lookup_2; [by rewrite !length_map|].
    intros cellIndex d g Hl Hg. rewrite list_lookup_fmap in Hl.
    destruct (_ !! cellIndex) as [l|] eqn:Hx in Hl; [|done]. injection Hl as <-.
    apply lookup_expanded in Hx as (cell & Hcell & ->).
    destruct (Hcells cellIndex cell Hcell) as (cellFaces & g' & Hcf & Hg' & Hfits & _).
    rewrite Hg in Hg'. injection Hg' as <-.
    by rewrite Hcf, flat_Some.
  - destruct (usePoints opts); [|done]. destruct HP as [Hlen Hcells].
    apply Forall2_same_length_lookup_2; [by rewrite !length_map|].
    intros cellIndex d g Hl Hg. rewrite list_lookup_fmap in Hl.
    destruct (_ !! cellIndex) as [l|] eqn:Hx in Hl; [|done]. injection Hl as <-.
    apply lookup_expanded in Hx as (cell & Hcell & ->).
    destruct (Hcells cellIndex cell Hcell) as (g' & Hg' & Hfits & _).
    rewrite Hg in Hg'. by injection Hg' as <-.
Qed.

Lemma fits_refreshed (colors : bool) (indexLists : list (list (option nat)))
  (gs gs1 : list (BufferGeometry num)) :
  Forall2 same_buffers gs gs1 ->
  Forall2 (fun l g => fits colors (length l) g) indexLists gs ->
  Forall2 (fun l g => fits colors (length l) g) indexLists gs1.
Proof.
  intros Hsame Hfits.
  eapply Forall2_trans; [|exact Hfits|exact Hsame].
  intros l g g1 Hg Hgg1. by eapply fits_same_buffers.
Qed.

Lemma update_fitted project b b1 calls :
  fitted b -> update vertexNormals project b = Ok (b1, calls) -> fitted b1.
Proof.
  intros (HF & HE & HP) Hup.
  apply update_same_topology in Hup as (_ & Ho & Hv & Hd & HF1 & HE1 & HP1).
  unfold fitted. rewrite Ho, Hv, Hd. split; [|split].
  - destruct (useFaces (options b)); [by eapply fits_refreshed|].
    rewrite HF in HF1. by apply Forall2_nil_inv_l in HF1.
  - destruct (useEdges (options b)); [by eapply fits_refreshed|].
    rewrite HE in HE1. by apply Forall2_nil_inv_l in HE1.
  - destruct (usePoints (options b)); [by eapply fits_refreshed|].
    rewrite HP in HP1. by apply Forall2_nil_inv_l in HP1.
Qed.

(** A kind of geometries in use whose buffers have the size of their index
    lists: the positions are the projections, and nothing else. *)
Lemma refresh_fitted after (colors : bool) project (vs : list vertex)
  (indexLists : list (list (option nat))) gs gs1 :
  (forall g, position (after g) = position g) ->
  refresh after (map project vs) indexLists gs = Ok gs1 ->
  Forall2 (fun l g => fits colors (length l) g) indexLists gs ->
  forall j l g1, indexLists !! j = Some l -> gs1 !! j = Some g1 ->
    position g1 = flat_map coords3 (points_of (map project vs) l).
Proof.
  intros Hafter Hrun Hfits j l g1 Hl Hg1.
  destruct (Forall2_lookup_l _ _ _ _ _ Hfits Hl) as (g & Hg & Hlen & _).
  pose proof (refresh_positions after true project vs indexLists gs gs1 Hafter Hrun)
    as Hpos.
  destruct (Hpos j l g Hl Hg) as (g' & Hg' & _ & Hwritten & _); [lia|].
  rewrite Hg1 in Hg'. injection Hg' as ->.
  rewrite Hwritten, drop_ge by lia. apply app_nil_r.
Qed.

(** X15: the sizes of the buffers.  The constructor gives each kind of
    geometry in use one geometry per cell, with three positions (and, with
    colours, three colour components) for each entry of the index list of
    the cell, and leaves the other kinds without geometries; [update] keeps
    this; and after an [update] of such a builder the position array of a
    geometry is exactly the projected vertices its index list names, three
    coordinates for each. *)
Theorem hyper_buffers_fitted :
  (forall project shape opts b calls,
     constructor vertexNormals colorGetter project shape opts = Ok (b, calls) ->
     fitted b
     /\ (useFaces opts = true -> length (geometries b) = length (cells shape))
     /\ (useEdges opts = true -> length (edgesGeometries b) = length (cells shape))
     /\ (usePoints opts = true -> length (pointsGeometries b) = length (cells shape)))
  /\ (forall project b b1 calls,
        fitted b -> update vertexNormals project b = Ok (b1, calls) ->
        let projected := map project (vertices (shape b)) in
        fitted b1
        /\ (forall cellIndex l g1,
              useFaces (options b) = true ->
              vertexGeometriesIndices b !! cellIndex = Some l ->
              geometries b1 !! cellIndex = Some g1 ->
              position g1 = flat_map coords3 (points_of projected l))
        /\ (forall cellIndex l g1,
              useEdges (options b) = true ->
              dedupVertexGeometriesIndices b !! cellIndex = Some l ->
              edgesGeometries b1 !! cellIndex = Some g1 ->
              position g1 = flat_map coords3 (points_of projected l))
        /\ (forall cellIndex l g1,
              usePoints (options b) = true ->
              dedupVertexGeometriesIndices b !! cellIndex = Some l ->
              pointsGeometries b1 !! cellIndex = Some g1 ->
              position g1 = flat_map coords3 (points_of projected l))).
Proof.
  split.
  - intros project shape opts b calls Hc.
    split; [by eapply constructor_fitted|].
    pose proof (constructor_faces _ _ _ _ _ Hc) as HF.
    pose proof (constructor_edges _ _ _ _ _ Hc) as HE.
    pose proof (constructor_points _ _ _ _ _ Hc) as HP.
    repeat split; intros Hw; rewrite Hw in *; tauto.
  - intros project b b1 calls Hfit Hup projected.
    split; [by eapply update_fitted|].
    destruct Hfit as (HF & HE & HP).
    apply update_inv in Hup as (gs & egs & pgs & Hgs & Hegs & Hpgs & -> & _).
    simpl. repeat split; intros cellIndex l g1 Hw Hl Hg1; rewrite Hw in *.
    + exact (refresh_fitted (computeVertexNormals vertexNormals) _ project _ _ _ _
               (fun _ => eq_refl) Hgs HF
               cellIndex l g1 Hl Hg1).
    + exact (refresh_fitted id _ project _ _ _ _ (fun _ => eq_refl) Hegs HE
               cellIndex l g1 Hl Hg1).
    + exact (refresh_fitted id _ project _ _ _ _ (fun _ => eq_refl) Hpgs HP
               cellIndex l g1 Hl Hg1).
Qed.

(** *** The edges *)

Lemma edge_indices_prefix (d : list (option nat)) (whole l rest : list nat) :
  whole = l ++ rest -> (forall v, v ∈ whole -> Some v ∈ d) ->
  let ixs := flat_map (fun e => [indexOf d (Some e.2);
                                 indexOf d (whole !! ((e.1 + 1) mod length whole))])
                      (imap (fun i verticeIndex => (i, verticeIndex)) l) in
  Forall (fun e => (0 <= e < Z.of_nat (length d))%Z) ixs
  /\ map (fun e => d !! Z.to_nat e) ixs
     = map Some (flat_map (fun k => [whole !! k; whole !! ((k + 1) mod length whole)])
                          (seq 0 (length l)))
  /\ length ixs = 2 * length l.
Proof.
  intros Hwhole Hd. cbv zeta. revert rest Hwhole.
  induction l as [|x l IH] using rev_ind; intros rest Hwhole; [done|].
  destruct (IH (x :: rest)) as (Hrange & Hdecode & Hlen);
    [by rewrite Hwhole, <- app_assoc|].
  assert (whole !! length l = Some x) as Hx.
  { rewrite Hwhole, <- app_assoc. by apply list_lookup_middle. }
  assert (length whole <> 0) as Hne.
  { apply lookup_lt_Some in Hx. lia. }
  destruct (lookup_lt_is_Some_2 whole ((length l + 1) mod length whole)) as [y Hy];
    [by apply Nat.mod_upper_bound|].
  destruct (indexOf_elem d (Some x)) as [Hxr Hxd];
    [apply Hd; by eapply list_elem_of_lookup_2|].
  destruct (indexOf_elem d (Some y)) as [Hyr Hyd];
    [apply Hd; by eapply list_elem_of_lookup_2|].
  rewrite imap_app, flat_map_app, (length_app l [x]).
  change (length [x]) with 1. rewrite (seq_app (length l) 1 0), flat_map_app.
  simpl. rewrite !Nat.add_0_r, Hx, Hy.
  rewrite Forall_app, !map_app, length_app, Hdecode, Hlen. simpl.
  rewrite Hxd, Hyd. split; [|split; [done | lia]].
  split; [done|].
  apply Forall_cons_2; [done|]. apply Forall_cons_2; [done|]. apply Forall_nil_2.
Qed.

Lemma edge_indices_face (d : list (option nat)) (face : list nat) :
  (forall v, v ∈ face -> Some v ∈ d) ->
  Forall (fun e => (0 <= e < Z.of_nat (length d))%Z) (edge_indices d face)
  /\ map (fun e => d !! Z.to_nat e) (edge_indices d face) = map Some (boundary face)
  /\ length (edge_indices d face) = 2 * length face.
Proof.
  intros Hd. apply (edge_indices_prefix d face face []); [by rewrite app_nil_r | done].
Qed.

Lemma edge_indices_cell (d : list (option nat)) (cellFaces : list (list nat)) :
  (forall face v, face ∈ cellFaces -> v ∈ face -> Some v ∈ d) ->
  Forall (fun e => (0 <= e < Z.of_nat (length d))%Z)
         (flat_map (edge_indices d) cellFaces)
  /\ map (fun e => d !! Z.to_nat e) (flat_map (edge_indices d) cellFaces)
     = map Some (flat_map boundary cellFaces)
  /\ length (flat_map (edge_indices d) cellFaces) = 2 * length (concat cellFaces).
Proof.
  induction cellFaces as [|face cellFaces IH]; intros Hd; [done|].
  destruct IH as (Hrange & Hdecode & Hlen).
  { intros f v Hf. apply Hd. by right. }
  destruct (edge_indices_face d face) as (Hrange1 & Hdecode1 & Hlen1).
  { intros v. apply Hd. by left. }
  simpl. rewrite Forall_app, !map_app, !length_app, Hdecode, Hdecode1, Hlen, Hlen1.
  split; [done|]. split; [done | lia].
Qed.

(** X16: the index of the edge geometry of a cell.  It holds two entries
    for each vertex of each face of the cell, face after face: the
    positions, in the deduplicated index list of the cell, of the vertex and
    of the vertex after it on the face, the first vertex coming after the
    last.  Every entry is a position of that list, never the -1 of a failed
    [indexOf], and reading the list at the entries gives back the boundary
    edges of the faces. *)
Theorem edge_indices_decode project shape opts b calls cellIndex cell :
  constructor vertexNormals colorGetter project shape opts = Ok (b, calls) ->
  useEdges opts = true ->
  cells shape !! cellIndex = Some cell ->
  exists cellFaces d g ixs,
    cell_faces shape cell = map Some cellFaces
    /\ dedupVertexGeometriesIndices b !! cellIndex = Some d
    /\ d = dedup (map Some (concat cellFaces))
    /\ edgesGeometries b !! cellIndex = Some g
    /\ index g = Some ixs
    /\ length ixs = 2 * length (concat cellFaces)
    /\ Forall (fun e => (0 <= e < Z.of_nat (length d))%Z) ixs
    /\ map (fun e => d !! Z.to_nat e) ixs = map Some (flat_map boundary cellFaces).
Proof.
  intros Hc Hw Hcell.
  destruct (constructor_lists _ _ _ _ _ Hc) as (_ & _ & _ & Hd).
  pose proof (constructor_edges _ _ _ _ _ Hc) as HE. rewrite Hw in HE.
  destruct HE as [_ Hcells].
  destruct (Hcells cellIndex cell Hcell) as (cellFaces & g & Hcf & Hg & _ & Hindex & _).
  destruct (edge_indices_cell (dedup (map Some (concat cellFaces))) cellFaces)
    as (Hrange & Hdecode & Hlen).
  { intros face v Hface Hv. apply dedup_elem_iff, list_elem_of_fmap.
    exists v. split; [done|]. apply list_elem_of_In, in_concat.
    exists face. split; by apply list_elem_of_In. }
  eexists cellFaces, _, g, _. split; [done|]. split.
  { rewrite Hd, !list_lookup_fmap, Hcell. simpl. by rewrite Hcf, flat_Some. }
  split; [done|]. split; [done|]. split; [done|]. by split.
Qed.

(** *** The colours *)



End Output.

Import Small.

(** The tetrahedron: twelve face vertices, four distinct ones. *)
Lemma index_lists_of_cells_witness :
  exists b calls,
    constructor no_normals black Square.project Tetrahedron.shape Square.all_buffers
    = Ok (b, calls)
    /\ vertexGeometriesIndices b
       = [map Some [0; 1; 2; 0; 1; 3; 0; 3; 2; 1; 2; 3]]
    /\ dedupVertexGeometriesIndices b = [map Some [0; 1; 2; 3]].
Proof.
  destruct (constructor no_normals black Square.project Tetrahedron.shape
              Square.all_buffers) as [[b calls]|e] eqn:Hc;
    [|vm_compute in Hc; discriminate].
  destruct (index_lists_of_cells (num := small) (vertex := nat) no_normals black
              Square.project Tetrahedron.shape Square.all_buffers b calls Hc)
    as (Hv & Hd & _).
  exists b, calls. split; [done|]. rewrite Hd, Hv. by split.
Defined.

(** The square, built with one projection and updated with another. *)
Lemma hyper_update_positions_witness :
  exists b calls b1 calls1,
    constructor no_normals black Square.project Square.shape Square.all_buffers
    = Ok (b, calls)
    /\ update no_normals Square.project' b = Ok (b1, calls1)
    /\ forall g, geometries b !! 0 = Some g -> 12 <= length (position g) ->
         exists g1, geometries b1 !! 0 = Some g1
           /\ position g1
              = pt 0 0 1 ++ pt 0 1 1 ++ pt 0 2 1 ++ pt 0 3 1 ++ drop 12 (position g).
Proof.
  destruct (constructor no_normals black Square.project Square.shape
              Square.all_buffers) as [[b calls]|e] eqn:Hc;
    [|vm_compute in Hc; discriminate].
  pose proof Hc as Hb. vm_compute in Hb. injection Hb as Hb _.
  destruct (update no_normals Square.project' b) as [[b1 calls1]|e] eqn:Hup;
    [|rewrite <- Hb in Hup; vm_compute in Hup; discriminate].
  destruct (hyper_update_positions (num := small) (vertex := nat) no_normals
              Square.project' b b1 calls1 Hup) as (HF & _).
  exists b, calls, b1, calls1. split; [done|]. split; [done|].
  clear Hc Hup. subst b.
  intros g Hg Hcap.
  destruct (HF 0 (map Some [0; 1; 2; 3]) g eq_refl eq_refl Hg Hcap)
    as (g1 & Hg1 & [Hpos _] & _).
  exists g1. split; [done|]. exact Hpos.
Defined.

(** The square: the eight ends of its four edges. *)
Lemma edge_indices_decode_witness :
  exists b calls cellFaces d g ixs,
    constructor no_normals black Square.project Square.shape Square.all_buffers
    = Ok (b, calls)
    /\ cell_faces Square.shape [0] = map Some cellFaces
    /\ dedupVertexGeometriesIndices b !! 0 = Some d
    /\ edgesGeometries b !! 0 = Some g
    /\ index g = Some ixs
    /\ length ixs = 8
    /\ map (fun e => d !! Z.to_nat e) ixs
       = map Some (map Some [0; 1; 1; 2; 2; 3; 3; 0]).
Proof.
  destruct (constructor no_normals black Square.project Square.shape
              Square.all_buffers) as [[b calls]|e] eqn:Hc;
    [|vm_compute in Hc; discriminate].
  destruct (edge_indices_decode (num := small) (vertex := nat) no_normals black
              Square.project Square.shape Square.all_buffers b calls 0 [0] Hc
              eq_refl eq_refl)
    as (cellFaces & d & g & ixs & Hcf & Hd & _ & Hg & Hindex & Hlen & _ & Hdecode).
  destruct cellFaces as [|face [|face' cellFaces]]; vm_compute in Hcf;
    [discriminate Hcf | | discriminate Hcf].
  injection Hcf as <-.
  by exists b, calls, [[0; 1; 2; 3]], d, g, ixs.
Defined.


End HyperGeometryOutput.

(** ** The shapes HyperGeometry accepts *)

Module HyperGeometryAcceptance.
Import HyperGeometry HyperVocabulary HyperGeometryUpdate HyperGeometryConstructor.
Import HyperOutputVocabulary HyperGeometryOutput JSFacts.

Section Acceptance.
Context {num : Type} `{Number num} {vertex : Type}.
Variable vertexNormals : list num -> option (list Z) -> list num.
Variable colorGetter : VertexContext -> num * num * num.

Implicit Types (shape : Shape vertex) (opts : Options).
Implicit Types (project : vertex -> list num).
Implicit Types (b : Builder num vertex) (g : BufferGeometry num).

Lemma cell_faces_found shape (cell : list nat) (cellFaces : list (list nat)) :
  Forall2 (fun faceIndex face => faces shape !! faceIndex = Some face) cell cellFaces
  <-> cell_faces shape cell = map Some cellFaces.
Proof.
  unfold cell_faces. split.
  - induction 1 as [|faceIndex face cell cellFaces Hface _ IH]; [done|].
    simpl. by rewrite Hface, IH.
  - revert cellFaces. induction cell as [|faceIndex cell IH]; intros [|face cellFaces];
      simpl; try done.
    intros [= Hface Hrest]. constructor; [done | by apply IH].
Qed.

Lemma cell_ready_faces opts shape cell :
  cell_ready opts shape cell ->
  exists cellFaces,
    cell_faces shape cell = map Some cellFaces
    /\ Forall (fun face => Forall (fun v => v < length (vertices shape)) face) cellFaces
    /\ (useFaces opts = true -> Forall (fun face => 2 <= length face) cellFaces).
Proof.
  intros (cellFaces & Hfound & Hall). exists cellFaces.
  split; [by apply cell_faces_found|]. split.
  - eapply Forall_impl; [done|]. by intros face [Hvs _].
  - intros Hw. eapply Forall_impl; [done|]. intros face [_ Hlen]. by apply Hlen.
Qed.

Lemma buildable_cell opts shape cellIndex (l : list (option nat)) :
  buildable opts shape ->
  map (fun cell => flat (cell_faces shape cell)) (cells shape) !! cellIndex = Some l ->
  exists cell, cells shape !! cellIndex = Some cell /\ cell_ready opts shape cell.
Proof.
  intros Hall Hl. apply lookup_expanded in Hl as (cell & Hcell & _).
  exists cell. split; [done|].
  unfold buildable in Hall. rewrite Forall_forall in Hall.
  apply Hall. by eapply list_elem_of_lookup_2.
Qed.

Lemma buildable_names opts shape :
  buildable opts shape ->
  Forall (Forall (names_vertex (length (vertices shape))))
         (map (fun cell => flat (cell_faces shape cell)) (cells shape)).
Proof.
  intros Hall. apply Forall_map. eapply Forall_impl; [exact Hall|].
  intros cell Hready. simpl.
  destruct (cell_ready_faces _ _ _ Hready) as (cellFaces & -> & Hvs & _).
  rewrite flat_Some. apply Forall_map, Forall_forall. intros v Hv.
  exists v. split; [done|].
  apply list_elem_of_In, in_concat in Hv as (face & Hface & Hvf).
  apply list_elem_of_In in Hface, Hvf.
  rewrite Forall_forall in Hvs. specialize (Hvs face Hface).
  rewrite Forall_forall in Hvs. by apply Hvs.
Qed.

(** The constructor accepts a buildable shape. *)
Lemma constructor_accepts project shape opts :
  buildable opts shape ->
  exists b, constructor vertexNormals colorGetter project shape opts
            = Ok (b, vertices shape).
Proof.
  intros Hok. rewrite constructor_unfold. cbv zeta.
  set (expanded := map (fun cell => flat (cell_faces shape cell)) (cells shape)).
  set (deduped := map dedup expanded).
  assert (exists gs0, (if useFaces opts then init_faces shape opts expanded else Ok [])
                      = Ok gs0 /\ (useFaces opts = true -> length gs0 = length expanded))
    as (gs0 & -> & Hgs0).
  { destruct (useFaces opts) eqn:Hw; [|exists []; by split].
    destruct (mapM_Ok (fun i verticesIndices =>
                indices ← tesselate (cell_faces shape (default [] (cells shape !! i))) [] 0;
                Ok (setIndex indices
                      (initGeometry (num := num) (useColors opts) (length verticesIndices))))
              0 expanded) as [gs0 Hgs0].
    { intros j x Hx. simpl.
      destruct (buildable_cell _ _ _ _ Hok Hx) as (cell & -> & Hready). simpl.
      destruct (cell_ready_faces _ _ _ Hready) as (cellFaces & -> & _ & Hlen).
      rewrite tesselate_Ok by (by apply Hlen). simpl. by eauto. }
    exists gs0. split; [done|]. intros _. by eapply mapM_length. }
  assert (exists egs0, (if useEdges opts then init_edges shape opts deduped else Ok [])
                       = Ok egs0 /\ (useEdges opts = true -> length egs0 = length deduped))
    as (egs0 & -> & Hegs0).
  { destruct (useEdges opts); [|exists []; by split].
    destruct (mapM_Ok (fun i verticesIndices =>
                indices ← edges verticesIndices
                            (cell_faces shape (default [] (cells shape !! i))) [];
                Ok (setIndex indices
                      (initGeometry (num := num) (useColors opts) (length verticesIndices))))
              0 deduped) as [egs0 Hegs0].
    { intros j x Hx. simpl. unfold deduped in Hx. rewrite list_lookup_fmap in Hx.
      destruct (expanded !! j) as [l|] eqn:Hl; [|done].
      destruct (buildable_cell _ _ _ _ Hok Hl) as (cell & -> & Hready). simpl.
      destruct (cell_ready_faces _ _ _ Hready) as (cellFaces & -> & _).
      rewrite edges_Some. simpl. by eauto. }
    exists egs0. split; [done|]. intros _. by eapply mapM_length. }
  cbn [mbind result_bind].
  assert (exists gs1, (if useColors opts && useFaces opts
                       then color_faces colorGetter shape gs0 else Ok gs0) = Ok gs1
                      /\ length gs1 = length gs0)
    as (gs1 & -> & Hgs1).
  { destruct (useColors opts && useFaces opts) eqn:Hcf; [|exists gs0; by split].
    apply andb_true_iff in Hcf as [_ Hw].
    destruct (mapM_Ok (fun cellIndex geometry =>
                rgbs ← face_colors colorGetter cellIndex 0
                         (cell_faces shape (default [] (cells shape !! cellIndex)));
                Ok (paint rgbs geometry)) 0 gs0) as [gs1 Hgs1].
    { intros j x Hx. simpl.
      destruct (lookup_lt_is_Some_2 expanded j) as [l Hl].
      { rewrite <- (Hgs0 Hw). by eapply lookup_lt_Some. }
      destruct (buildable_cell _ _ _ _ Hok Hl) as (cell & -> & Hready). simpl.
      destruct (cell_ready_faces _ _ _ Hready) as (cellFaces & -> & _).
      rewrite face_colors_Some. simpl. by eauto. }
    exists gs1. split; [done|]. by eapply mapM_length. }
  cbn [mbind result_bind].
  pose proof (buildable_names _ _ Hok) as Hexp. fold expanded in Hexp.
  pose proof (deduped_names_vertices _ _ Hexp) as Hded. fold deduped in Hded.
  match goal with |- exists b, update _ _ ?r = _ => set (b0 := r) end.
  assert (length (map project (vertices (HyperGeometry.shape b0)))
          = length (vertices shape)) as Hlen by (by rewrite length_map).
  destruct (refresh_or_keep_Ok (computeVertexNormals vertexNormals) (useFaces opts)
              (map project (vertices (HyperGeometry.shape b0))) expanded gs1)
    as [gs2 Hgs2]; [by rewrite Hlen | intros Hf; rewrite Hgs1; by apply Hgs0 |].
  destruct (refresh_or_keep_Ok id (useEdges opts)
              (map project (vertices (HyperGeometry.shape b0))) deduped
              (edgesGeometries b0))
    as [egs2 Hegs2]; [by rewrite Hlen | |].
  { intros He. simpl. destruct (useColors opts && useEdges opts).
    - unfold color_vertices. rewrite length_imap. by apply Hegs0.
    - by apply Hegs0. }
  destruct (refresh_or_keep_Ok id (usePoints opts)
              (map project (vertices (HyperGeometry.shape b0))) deduped
              (pointsGeometries b0))
    as [pgs2 Hpgs2]; [by rewrite Hlen | |].
  { intros Hp. simpl. rewrite Hp.
    destruct (useColors opts && true).
    - unfold color_vertices, init_points. by rewrite length_imap, length_map.
    - unfold init_points. by rewrite length_map. }
  eexists. by apply (update_intro vertexNormals project b0 gs2 egs2 pgs2).
Qed.

(** *** What a builder says of its shape *)

(** An index list whose entries name vertices comes from faces that exist
    and name vertices. *)
Lemma flat_names_faces n (fs : list (option (list nat))) :
  Forall (names_vertex n) (flat fs) ->
  exists cellFaces, fs = map Some cellFaces
                    /\ Forall (Forall (fun v => v < n)) cellFaces.
Proof.
  induction fs as [|[face|] fs IH].
  - intros _. by exists [].
  - change (flat (Some face :: fs)) with (map Some face ++ flat fs).
    intros Hall. apply Forall_app in Hall as [Hface Hrest].
    destruct (IH Hrest) as (cellFaces & -> & Hall).
    exists (face :: cellFaces). split; [done|]. constructor; [|done].
    apply Forall_forall. intros v Hv. rewrite Forall_forall in Hface.
    destruct (Hface (Some v)) as (v' & [= <-] & Hlt); [|done].
    apply list_elem_of_fmap. by exists v.
  - change (flat (None :: fs)) with (None :: flat fs).
    intros Hall. apply Forall_cons in Hall as [(v & Hv & _) _]. done.
Qed.

Lemma dedup_names n (l : list (option nat)) :
  Forall (names_vertex n) (dedup l) -> Forall (names_vertex n) l.
Proof.
  rewrite !Forall_forall. intros Hall v Hv. by apply Hall, dedup_elem_iff.
Qed.

(** A builder with a geometry of some kind was made from a buildable
    shape. *)
Lemma constructor_buildable project shape opts b calls :
  constructor vertexNormals colorGetter project shape opts = Ok (b, calls) ->
  useFaces opts = true \/ useEdges opts = true \/ usePoints opts = true ->
  buildable opts shape.
Proof.
  intros Hc Hused.
  pose proof Hc as Hsteps.
  apply constructor_steps in Hsteps as (gs0 & egs0 & gs1 & Hgs0 & _ & _ & Hup).
  cbv zeta in Hup.
  apply update_inv in Hup as (gs & egs & pgs & Hgs & Hegs & Hpgs & _ & _).
  simpl in Hgs, Hegs, Hpgs.
  assert (Forall (Forall (names_vertex (length (vertices shape))))
                 (map (fun cell => flat (cell_faces shape cell)) (cells shape)))
    as Hnames.
  { destruct Hused as [Hw|[Hw|Hw]]; rewrite Hw in *.
    - apply refresh_cells_names in Hgs. by rewrite length_map in Hgs.
    - apply refresh_cells_names in Hegs. rewrite length_map in Hegs.
      apply (proj1 (Forall_map _ _ _)) in Hegs. eapply Forall_impl; [exact Hegs|].
      intros l. apply dedup_names.
    - apply refresh_cells_names in Hpgs. rewrite length_map in Hpgs.
      apply (proj1 (Forall_map _ _ _)) in Hpgs. eapply Forall_impl; [exact Hpgs|].
      intros l. apply dedup_names. }
  apply (proj1 (Forall_map _ _ _)) in Hnames.
  apply Forall_lookup. intros cellIndex cell Hcell.
  rewrite Forall_lookup in Hnames. specialize (Hnames cellIndex cell Hcell).
  simpl in Hnames.
  destruct (flat_names_faces _ _ Hnames) as (cellFaces & Hcf & Hvs).
  exists cellFaces. split; [by apply cell_faces_found|].
  apply Forall_forall. intros face Hface. split.
  - rewrite Forall_forall in Hvs. by apply Hvs.
  - intros Hw. rewrite Hw in Hgs0.
    assert (map (fun cell => flat (cell_faces shape cell)) (cells shape) !! cellIndex
            = Some (flat (cell_faces shape cell))) as Hx
      by (by rewrite list_lookup_fmap, Hcell).
    destruct (mapM_lookup _ _ _ _ _ _ Hgs0 Hx) as (g0 & _ & Hinit).
    simpl in Hinit. rewrite Hcell in Hinit. simpl in Hinit.
    apply bind_Ok in Hinit as (indices & Htess & _).
    rewrite Hcf in Htess.
    destruct (tesselate_inv _ _ _ _ Htess) as (cellFaces' & Heq & Hlen).
    assert (cellFaces' = cellFaces) as ->.
    { clear -Heq. revert cellFaces' Heq.
      induction cellFaces as [|f fs IH]; intros [|f' fs']; simpl; try done.
      intros [= -> Hrest]. f_equal. by apply IH. }
    rewrite Forall_forall in Hlen. by apply Hlen.
Qed.

(** *** The exceptions of the constructor *)

Lemma mapM_Throw_inv {A B : Type} (f : nat -> A -> result B) k xs e :
  mapM f k xs = Throw e -> exists j x, xs !! j = Some x /\ f (k + j) x = Throw e.
Proof.
  revert k. induction xs as [|x xs IH]; intros k; simpl; [done|].
  destruct (f k x) as [y|e0] eqn:Hx; simpl.
  - destruct (mapM f (S k) xs) as [ys|e1] eqn:Hrest; simpl; [done|].
    intros [= <-]. destruct (IH (S k) Hrest) as (j & x' & Hx' & Hf).
    exists (S j), x'. split; [done|]. by replace (k + S j) with (S k + j) by lia.
  - intros [= <-]. exists 0, x. split; [done|]. by rewrite Nat.add_0_r.
Qed.

Lemma tesselate_raises (fs : list (option (list nat))) indices faceShift e :
  tesselate fs indices faceShift = Throw e ->
  e = TypeError
  \/ (e = RangeError /\ exists face, Some face ∈ fs /\ length face < 2).
Proof.
  revert indices faceShift.
  induction fs as [|[face|] fs IH]; intros indices faceShift; simpl; [done| |].
  - unfold fan at 1.
    destruct (Z.ltb_spec (Z.of_nat (length face) - 2) 0) as [Hlt|Hge]; simpl.
    + intros [= <-]. right. split; [done|]. exists face. split; [by left | lia].
    + intros Hrun. apply IH in Hrun as [->|(-> & face' & Hin & Hlen)]; [by left|].
      right. split; [done|]. exists face'. split; [by right | done].
  - intros [= <-]. by left.
Qed.

Lemma edges_raises (d : list (option nat)) (fs : list (option (list nat))) indices e :
  edges d fs indices = Throw e -> e = TypeError.
Proof.
  revert indices. induction fs as [|[face|] fs IH]; intros indices; simpl; [done| |].
  - apply IH.
  - by intros [= <-].
Qed.

Lemma face_colors_raises cellIndex k (fs : list (option (list nat))) e :
  face_colors colorGetter cellIndex k fs = Throw e -> e = TypeError.
Proof.
  revert k. induction fs as [|[face|] fs IH]; intros k; simpl; [done| |].
  - destruct (face_colors colorGetter cellIndex (S k) fs) as [rest|e'] eqn:Hrest;
      simpl; [done|]. intros [= <-]. by eapply IH.
  - by intros [= <-].
Qed.

Lemma refresh_or_keep_raises after (wanted : bool) (projected : list (list num))
  (indexLists : list (list (option nat))) gs e :
  (if wanted then refresh after projected indexLists gs else Ok gs) = Throw e ->
  e = TypeError.
Proof. destruct wanted; [apply refresh_raises | done]. Qed.

Lemma hyper_update_raises project b e :
  update vertexNormals project b = Throw e -> e = TypeError.
Proof.
  rewrite update_unfold.
  destruct (if useFaces (options b) then _ else _) as [gs|e1] eqn:Hgs;
    cbn [mbind result_bind];
    [|intros [= <-]; by eapply refresh_or_keep_raises].
  destruct (if useEdges (options b) then _ else _) as [egs|e1] eqn:Hegs;
    cbn [mbind result_bind];
    [|intros [= <-]; by eapply refresh_or_keep_raises].
  destruct (if usePoints (options b) then _ else _) as [pgs|e1] eqn:Hpgs;
    cbn [mbind result_bind];
    [done|intros [= <-]; by eapply refresh_or_keep_raises].
Qed.

(** The only RangeError of the constructor is that of line 49. *)
Lemma constructor_RangeError project shape opts :
  constructor vertexNormals colorGetter project shape opts = Throw RangeError ->
  useFaces opts = true
  /\ exists cell faceIndex face,
       cell ∈ cells shape /\ faceIndex ∈ cell
       /\ faces shape !! faceIndex = Some face /\ length face < 2.
Proof.
  rewrite constructor_unfold. cbv zeta.
  destruct (if useFaces opts then _ else _) as [gs0|e0] eqn:Hgs0;
    cbn [mbind result_bind].
  - destruct (if useEdges opts then _ else _) as [egs0|e1] eqn:Hegs0;
      cbn [mbind result_bind].
    + destruct (if useColors opts && useFaces opts then _ else _) as [gs1|e2] eqn:Hgs1;
        cbn [mbind result_bind].
      * intros Hup. by apply hyper_update_raises in Hup.
      * intros [= ->]. destruct (useColors opts && useFaces opts); [|done].
        apply mapM_Throw_inv in Hgs1 as (j & g & _ & Hf).
        destruct (face_colors colorGetter (0 + j) 0 _) as [rgbs|e'] eqn:Hcolors;
          [done|]. injection Hf as ->. by apply face_colors_raises in Hcolors.
    + intros [= ->]. destruct (useEdges opts); [|done].
      apply mapM_Throw_inv in Hegs0 as (j & d & _ & Hf).
      destruct (edges d _ []) as [ixs|e'] eqn:Hedges; [done|].
      injection Hf as ->. by apply edges_raises in Hedges.
  - intros [= ->]. destruct (useFaces opts); [|done]. split; [done|].
    apply mapM_Throw_inv in Hgs0 as (j & l & Hl & Hf).
    apply lookup_expanded in Hl as (cell & Hcell & _).
    change (0 + j) with j in Hf. cbv beta in Hf. rewrite Hcell in Hf.
    change (default [] (Some cell)) with cell in Hf.
    destruct (tesselate (cell_faces shape cell) [] 0) as [ixs|e'] eqn:Htess; [done|].
    injection Hf as ->.
    apply tesselate_raises in Htess as [|(_ & face & Hface & Hlen)]; [done|].
    apply list_elem_of_fmap in Hface as (faceIndex & Hface & Hin).
    exists cell, faceIndex, face. split; [by eapply list_elem_of_lookup_2|].
    by split.
Qed.

(** X19: the shapes the constructor accepts.  A shape is accepted exactly
    when it is buildable for the options: every face index of every cell
    names a face, every vertex index of these faces names a vertex, and,
    with face buffers, each of these faces has two vertices or more;
    nothing is asked of a face or a vertex that no cell reaches.  Without
    any kind of geometry every shape is accepted.  Otherwise a shape that
    is not buildable makes the constructor raise, and it raises a
    RangeError only with face buffers for a face of fewer than two
    vertices. *)
Theorem hyper_constructor_result project shape opts :
  (buildable opts shape ->
   exists b, constructor vertexNormals colorGetter project shape opts
             = Ok (b, vertices shape))
  /\ (useFaces opts = false -> useEdges opts = false -> usePoints opts = false ->
      exists b, constructor vertexNormals colorGetter project shape opts
                = Ok (b, vertices shape))
  /\ (useFaces opts = true \/ useEdges opts = true \/ usePoints opts = true ->
      ~ buildable opts shape ->
      exists e, constructor vertexNormals colorGetter project shape opts = Throw e)
  /\ (constructor vertexNormals colorGetter project shape opts = Throw RangeError ->
      useFaces opts = true
      /\ exists cell faceIndex face,
           cell ∈ cells shape /\ faceIndex ∈ cell
           /\ faces shape !! faceIndex = Some face /\ length face < 2).
Proof.
  split; [apply constructor_accepts|]. split; [|split].
  - intros HF HE HP. rewrite constructor_unfold. cbv zeta.
    rewrite HF, HE, HP, !andb_false_r. simpl.
    rewrite update_unfold. simpl. rewrite HF, HE, HP. simpl. by eauto.
  - intros Hused Hnot.
    destruct (constructor vertexNormals colorGetter project shape opts)
      as [[b calls]|e] eqn:Hc; [|by eauto].
    destruct Hnot. by eapply constructor_buildable.
  - apply constructor_RangeError.
Qed.

End Acceptance.

Import Small.

(** The spare face of one vertex, which no cell names, does not keep the
    constructor from building the square. *)
Lemma hyper_constructor_result_witness :
  exists b, constructor no_normals black Square.project Spare.shape Square.all_buffers
            = Ok (b, vertices Spare.shape).
Proof.
  destruct (hyper_constructor_result (num := small) (vertex := nat) no_normals black
              Square.project Spare.shape Square.all_buffers) as (Haccepts & _).
  apply Haccepts. apply Forall_singleton. exists [[0; 1; 2; 3]]. split.
  - by apply Forall2_cons.
  - apply Forall_singleton. split; [|simpl; lia].
    apply Forall_forall. intros v Hv. simpl.
    repeat (apply elem_of_cons in Hv as [->|Hv]; [lia|]).
    by apply not_elem_of_nil in Hv.
Defined.

End HyperGeometryAcceptance.

(** ** HyperGeometry: the triangles of the faces, and the shapes refused *)

Module HyperGeometryFaces.
Import HyperGeometry HyperVocabulary HyperOutputVocabulary.
Import HyperGeometryUpdate HyperGeometryConstructor HyperGeometryOutput.
Import HyperGeometryAcceptance JSFacts.

Section Faces.
Context {num : Type} `{Number num} {vertex : Type}.
Variable vertexNormals : list num -> option (list Z) -> list num.
Variable colorGetter : VertexContext -> num * num * num.

Implicit Types (shape : Shape vertex) (opts : Options) (cell : list nat).
Implicit Types (b : Builder num vertex) (project : vertex -> list num).
Implicit Types (g : BufferGeometry num).

Lemma map_Some_inj {A : Type} (xs ys : list A) : map Some xs = map Some ys -> xs = ys.
Proof.
  revert ys. induction xs as [|x xs IH]; intros [|y ys]; simpl; try done.
  intros [= -> Hrest]. f_equal. by apply IH.
Qed.

(** Without face buffers there is no face geometry. *)
Lemma constructor_without_faces project shape opts b calls :
  constructor vertexNormals colorGetter project shape opts = Ok (b, calls) ->
  useFaces opts = false -> geometries b = [].
Proof.
  intros Hc Hw.
  apply constructor_inv in Hc
    as (gs0 & egs0 & gs1 & b0 & Hgs0 & _ & Hgs1 & Hup & Hb0 & _).
  cbv zeta in *. rewrite Hw in Hgs0, Hgs1. rewrite andb_false_r in Hgs1.
  injection Hgs0 as <-. injection Hgs1 as <-.
  apply update_same_topology in Hup as (_ & _ & _ & _ & HF & _).
  rewrite Hb0 in HF. by apply Forall2_nil_inv_l in HF.
Qed.

(** The expanded index list of a cell, whatever the buffers. *)
Lemma constructor_expanded project shape opts b calls cellIndex cell cellFaces :
  constructor vertexNormals colorGetter project shape opts = Ok (b, calls) ->
  cells shape !! cellIndex = Some cell ->
  Forall2 (fun faceIndex face => faces shape !! faceIndex = Some face) cell cellFaces ->
  vertexGeometriesIndices b !! cellIndex = Some (map Some (concat cellFaces)).
Proof.
  intros Hc Hcell Hfaces.
  apply constructor_inv in Hc as (_ & _ & _ & b0 & _ & _ & _ & Hup & _ & _ & _ & Hv).
  cbv zeta in *.
  apply update_same_topology in Hup as (_ & _ & -> & _).
  rewrite Hv, list_lookup_fmap, Hcell. simpl.
  apply cell_faces_found in Hfaces. by rewrite Hfaces, flat_Some.
Qed.

(** C6: the triangle index list of a cell, the index of its face geometry,
    is the concatenation of the fans of the faces the cell names, in the
    order of the cell.  The fan of a face of [k] vertices holds the [k - 2]
    triangles (f, f + j + 1, f + j + 2), [j] from 0 to [k - 3], where [f] is
    the slot of the first vertex of the face in the expanded index list of
    the cell, that is the number of vertices of the faces before it.  A
    cell has such a list when the builder has face buffers, and no face
    geometry exists otherwise. *)
Theorem fan_triangulation project shape opts b calls cellIndex cell cellFaces :
  constructor vertexNormals colorGetter project shape opts = Ok (b, calls) ->
  cells shape !! cellIndex = Some cell ->
  Forall2 (fun faceIndex face => faces shape !! faceIndex = Some face) cell cellFaces ->
  vertexGeometriesIndices b !! cellIndex = Some (map Some (concat cellFaces))
  /\ (useFaces opts = true -> exists g, geometries b !! cellIndex = Some g)
  /\ (useFaces opts = false -> geometries b = [])
  /\ (forall g, geometries b !! cellIndex = Some g ->
        index g = Some (fans_of 0 cellFaces)
        /\ forall before face after,
             cellFaces = before ++ face :: after ->
             let f := length (concat before) in
             2 <= length face
             /\ fans_of 0 cellFaces
                = fans_of 0 before ++ fan_of f (length face)
                  ++ fans_of (f + length face) after
             /\ length (fan_of f (length face)) = 3 * (length face - 2)).
Proof.
  intros Hc Hcell Hfaces.
  split; [by eapply constructor_expanded|].
  assert (useFaces opts = true ->
          exists g, geometries b !! cellIndex = Some g
            /\ index g = Some (fans_of 0 cellFaces)
            /\ forall before face after,
                 cellFaces = before ++ face :: after ->
                 let f := length (concat before) in
                 2 <= length face
                 /\ fans_of 0 cellFaces
                    = fans_of 0 before ++ fan_of f (length face)
                      ++ fans_of (f + length face) after
                 /\ length (fan_of f (length face)) = 3 * (length face - 2)) as Hfans.
  { intros Hw.
    destruct (constructor_fans vertexNormals colorGetter project shape opts b calls
                cellIndex cell Hc Hw Hcell) as (cellFaces' & g & Hcf & _ & Hg & Hi & Hall).
    apply cell_faces_found in Hfaces. rewrite Hfaces in Hcf.
    apply map_Some_inj in Hcf as <-. by exists g. }
  split; [|split].
  - intros Hw. destruct (Hfans Hw) as (g & Hg & _). by exists g.
  - by eapply constructor_without_faces.
  - intros g Hg. destruct (useFaces opts) eqn:Hw.
    + destruct (Hfans eq_refl) as (g' & Hg' & Hi & Hall).
      rewrite Hg in Hg'. injection Hg' as <-. by split.
    + rewrite (constructor_without_faces _ _ _ _ _ Hc Hw) in Hg. done.
Qed.

(** *** The shapes the constructor refuses *)

Lemma buildable_face opts shape cell faceIndex :
  buildable opts shape -> cell ∈ cells shape -> faceIndex ∈ cell ->
  exists face,
    faces shape !! faceIndex = Some face
    /\ Forall (fun v => v < length (vertices shape)) face
    /\ (useFaces opts = true -> 2 <= length face).
Proof.
  intros Hall Hcell Hfi. unfold buildable in Hall. rewrite Forall_forall in Hall.
  destruct (Hall cell Hcell) as (cellFaces & Hfound & Hprops).
  apply list_elem_of_lookup in Hfi as [k Hk].
  destruct (Forall2_lookup_l _ _ _ _ _ Hfound Hk) as (face & Hface & Hlook).
  exists face. split; [done|].
  rewrite Forall_lookup in Hprops. by apply (Hprops k face).
Qed.

Lemma faces_ready_cell opts shape cellIndex (l : list (option nat)) :
  faces_ready opts shape ->
  map (fun cell => flat (cell_faces shape cell)) (cells shape) !! cellIndex = Some l ->
  exists cell cellFaces,
    cells shape !! cellIndex = Some cell
    /\ cell_faces shape cell = map Some cellFaces
    /\ (useFaces opts = true -> Forall (fun face => 2 <= length face) cellFaces).
Proof.
  intros Hall Hl. apply lookup_expanded in Hl as (cell & Hcell & _).
  unfold faces_ready in Hall. rewrite Forall_lookup in Hall.
  destruct (Hall cellIndex cell Hcell) as (cellFaces & Hfound & Hlen).
  exists cell, cellFaces. split; [done|]. split; [by apply cell_faces_found | done].
Qed.

(** The buffers are built for every shape whose faces are fit for them:
    the vertices the faces name are not looked at before [update]. *)
Lemma build_accepts shape opts :
  faces_ready opts shape -> exists b0, build (num := num) colorGetter shape opts = Ok b0.
Proof.
  intros Hok. unfold build.
  set (expanded := map (fun cell => flat (cell_faces shape cell)) (cells shape)).
  set (deduped := map dedup expanded).
  assert (exists gs0, (if useFaces opts then init_faces shape opts expanded else Ok [])
                      = Ok gs0 /\ (useFaces opts = true -> length gs0 = length expanded))
    as (gs0 & -> & Hgs0).
  { destruct (useFaces opts) eqn:Hw; [|exists []; by split].
    destruct (mapM_Ok (fun i verticesIndices =>
                indices ← tesselate (cell_faces shape (default [] (cells shape !! i))) [] 0;
                Ok (setIndex indices
                      (initGeometry (num := num) (useColors opts) (length verticesIndices))))
              0 expanded) as [gs0 Hgs0].
    { intros j x Hx. simpl.
      destruct (faces_ready_cell _ _ _ _ Hok Hx) as (cell & cellFaces & -> & Hcf & Hlen).
      simpl. rewrite Hcf, tesselate_Ok by (by apply Hlen). simpl. by eauto. }
    exists gs0. split; [done|]. intros _. by eapply mapM_length. }
  assert (exists egs0, (if useEdges opts then init_edges shape opts deduped else Ok [])
                       = Ok egs0) as (egs0 & ->).
  { destruct (useEdges opts); [|by exists []].
    apply (mapM_Ok (fun i verticesIndices =>
             indices ← edges verticesIndices
                         (cell_faces shape (default [] (cells shape !! i))) [];
             Ok (setIndex indices
                   (initGeometry (num := num) (useColors opts) (length verticesIndices))))
           0 deduped).
    intros j x Hx. simpl. unfold deduped in Hx. rewrite list_lookup_fmap in Hx.
    destruct (expanded !! j) as [l|] eqn:Hl; [|done].
    destruct (faces_ready_cell _ _ _ _ Hok Hl) as (cell & cellFaces & -> & Hcf & _).
    simpl. rewrite Hcf, edges_Some. simpl. by eauto. }
  cbn [mbind result_bind].
  assert (exists gs1, (if useColors opts && useFaces opts
                       then color_faces colorGetter shape gs0 else Ok gs0) = Ok gs1)
    as (gs1 & ->).
  { destruct (useColors opts && useFaces opts) eqn:Hcf; [|by exists gs0].
    apply andb_true_iff in Hcf as [_ Hw].
    apply (mapM_Ok (fun cellIndex geometry =>
             rgbs ← face_colors colorGetter cellIndex 0
                      (cell_faces shape (default [] (cells shape !! cellIndex)));
             Ok (paint rgbs geometry)) 0 gs0).
    intros j x Hx. simpl.
    destruct (lookup_lt_is_Some_2 expanded j) as [l Hl].
    { rewrite <- (Hgs0 Hw). by eapply lookup_lt_Some. }
    destruct (faces_ready_cell _ _ _ _ Hok Hl) as (cell & cellFaces & -> & Hcf & _).
    simpl. rewrite Hcf, face_colors_Some. simpl. by eauto. }
  cbn [mbind result_bind]. by eexists.
Qed.

(** C3, as amended: with a buffer of any kind in use, the constructor
    raises, and gives no builder, when a cell names a face that does not
    exist or a face that names a vertex that does not exist, and, with face
    buffers (the default), when a cell names a face with fewer than two
    vertices.  With face buffers a missing face and a face of fewer than
    two vertices raise while the buffers are built, before [update] is
    reached.  A vertex that does not exist, in a shape whose faces are fit
    for the buffers, raises a TypeError inside the [update] that ends the
    constructor, after the buffers were built.  A shape whose cells name
    faces that exist, name vertices that exist and, with face buffers, have
    two vertices or more is accepted; a face of exactly two vertices adds
    no triangle to the triangle index list of its cell. *)
Theorem invalid_faces_raise project shape opts :
  (useFaces opts = true \/ useEdges opts = true \/ usePoints opts = true ->
   forall cell faceIndex,
     cell ∈ cells shape -> faceIndex ∈ cell ->
     faces shape !! faceIndex = None
     \/ (exists face v, faces shape !! faceIndex = Some face /\ v ∈ face
                        /\ length (vertices shape) <= v)
     \/ (useFaces opts = true
         /\ exists face, faces shape !! faceIndex = Some face /\ length face < 2) ->
     exists e, constructor vertexNormals colorGetter project shape opts = Throw e)
  /\ (useFaces opts = true ->
      forall cell faceIndex,
        cell ∈ cells shape -> faceIndex ∈ cell ->
        faces shape !! faceIndex = None
        \/ (exists face, faces shape !! faceIndex = Some face /\ length face < 2) ->
        exists e, build (num := num) colorGetter shape opts = Throw e
                  /\ constructor vertexNormals colorGetter project shape opts = Throw e)
  /\ (faces_ready opts shape ->
      useFaces opts = true \/ useEdges opts = true \/ usePoints opts = true ->
      forall cell faceIndex face v,
        cell ∈ cells shape -> faceIndex ∈ cell ->
        faces shape !! faceIndex = Some face -> v ∈ face ->
        length (vertices shape) <= v ->
        exists b0, build colorGetter shape opts = Ok b0
                   /\ update vertexNormals project b0 = Throw TypeError
                   /\ constructor vertexNormals colorGetter project shape opts
                      = Throw TypeError)
  /\ (buildable opts shape ->
      exists b, constructor vertexNormals colorGetter project shape opts
                = Ok (b, vertices shape))
  /\ (forall b calls cellIndex cell cellFaces g,
        constructor vertexNormals colorGetter project shape opts = Ok (b, calls) ->
        cells shape !! cellIndex = Some cell ->
        Forall2 (fun faceIndex face => faces shape !! faceIndex = Some face)
                cell cellFaces ->
        geometries b !! cellIndex = Some g ->
        index g = Some (fans_of 0 cellFaces)
        /\ forall before face after,
             cellFaces = before ++ face :: after -> length face = 2 ->
             fans_of 0 cellFaces
             = fans_of 0 before ++ fans_of (length (concat before) + 2) after).
Proof.
  split; [|split; [|split; [|split]]].
  - intros Hused cell faceIndex Hcell Hfi Hbad.
    destruct (constructor vertexNormals colorGetter project shape opts)
      as [[b calls]|e] eqn:Hc; [exfalso | by eauto].
    pose proof (constructor_buildable _ _ _ _ _ _ _ Hc Hused) as Hok.
    destruct (buildable_face _ _ _ _ Hok Hcell Hfi) as (face & Hface & Hvs & Hlen).
    destruct Hbad as [Hnone|[(face' & v & Hface' & Hv & Hge)|(Hw & face' & Hface' & Hlt)]].
    + congruence.
    + rewrite Hface in Hface'. injection Hface' as <-.
      rewrite Forall_forall in Hvs. specialize (Hvs v Hv). lia.
    + rewrite Hface in Hface'. injection Hface' as <-. specialize (Hlen Hw). lia.
  - intros Hw cell faceIndex Hcell Hfi Hbad.
    apply list_elem_of_lookup in Hcell as [cellIndex Hcell].
    destruct (init_faces_Throw shape opts _ _ _ Hcell Hfi Hbad) as [e He].
    assert (build (num := num) colorGetter shape opts = Throw e) as Hbuild.
    { unfold build. cbv zeta. by rewrite Hw, He. }
    exists e. split; [done|]. by rewrite constructor_build, Hbuild.
  - intros Hready Hused cell faceIndex face v Hcell Hfi Hface Hv Hge.
    destruct (build_accepts shape opts Hready) as [b0 Hb0].
    exists b0. split; [done|].
    assert (constructor vertexNormals colorGetter project shape opts
            = update vertexNormals project b0) as Hctor.
    { by rewrite constructor_build, Hb0. }
    destruct (update vertexNormals project b0) as [[b calls]|e] eqn:Hup.
    + exfalso.
      pose proof (constructor_buildable _ _ _ _ _ _ _ Hctor Hused) as Hok.
      destruct (buildable_face _ _ _ _ Hok Hcell Hfi) as (face' & Hface' & Hvs & _).
      rewrite Hface in Hface'. injection Hface' as <-.
      rewrite Forall_forall in Hvs. specialize (Hvs v Hv). lia.
    + apply hyper_update_raises in Hup as ->. by split.
  - apply constructor_accepts.
  - intros b calls cellIndex cell cellFaces g Hc Hcell Hfaces Hg.
    assert (useFaces opts = true) as Hw.
    { destruct (useFaces opts) eqn:Hw; [done|].
      rewrite (constructor_without_faces _ _ _ _ _ Hc Hw) in Hg. done. }
    destruct (constructor_fans vertexNormals colorGetter project shape opts b calls
                cellIndex cell Hc Hw Hcell) as (cellFaces' & g' & Hcf & _ & Hg' & Hi & _).
    apply cell_faces_found in Hfaces. rewrite Hfaces in Hcf.
    apply map_Some_inj in Hcf as <-.
    rewrite Hg in Hg'. injection Hg' as <-. split; [done|].
    intros before face after -> Hlen.
    rewrite fans_of_app. simpl. by rewrite Hlen.
Qed.

End Faces.

Import Small Square.

(** The flag: a triangle, a face of two vertices and a square.  The
    triangle has its fan at slot 0, the square its two triangles at slot
    5, behind the two slots of the face that has no triangle. *)
Lemma fan_triangulation_witness :
  exists b calls g,
    constructor no_normals black project flag all_buffers = Ok (b, calls)
    /\ geometries b !! 0 = Some g
    /\ index g = Some [0; 1; 2; 5; 6; 7; 5; 7; 8]%Z.
Proof.
  destruct (constructor no_normals black project flag all_buffers)
    as [[b calls]|e] eqn:Hc; [|vm_compute in Hc; discriminate].
  destruct (fan_triangulation no_normals black project flag all_buffers b calls 0
              [0; 1; 2] [[0; 1; 2]; [2; 3]; [0; 1; 2; 3]] Hc eq_refl)
    as (_ & Hg & _ & Hfans).
  { repeat constructor. }
  destruct (Hg eq_refl) as [g Hgeometry].
  destruct (Hfans g Hgeometry) as [Hindex _].
  by exists b, calls, g.
Defined.

(** The dangling face is refused while the buffers are built, with face
    buffers, and is refused with edge buffers alone; the dangling vertex is
    refused by the [update] that ends the constructor, with face buffers
    and with point buffers alone; the face of two vertices is accepted. *)
Lemma invalid_faces_raise_witness :
  (exists e, build (num := small) black dangling_face defaults = Throw e
             /\ constructor no_normals black project dangling_face defaults = Throw e)
  /\ (exists e, constructor no_normals black project dangling_face edges_only = Throw e)
  /\ (exists b0, build black dangling_vertex defaults = Ok b0
                 /\ update no_normals project b0 = Throw TypeError
                 /\ constructor no_normals black project dangling_vertex defaults
                    = Throw TypeError)
  /\ (exists b0, build black dangling_vertex points_only = Ok b0
                 /\ update no_normals project b0 = Throw TypeError
                 /\ constructor no_normals black project dangling_vertex points_only
                    = Throw TypeError)
  /\ (exists b, constructor no_normals black project digon defaults
                = Ok (b, vertices digon)).
Proof.
  split; [|split; [|split; [|split]]].
  - destruct (invalid_faces_raise no_normals black project dangling_face defaults)
      as (_ & Hbuild & _).
    apply (Hbuild eq_refl [0; 7] 7); [left | right; left | by left].
  - destruct (invalid_faces_raise no_normals black project dangling_face edges_only)
      as (Hraise & _).
    apply (Hraise (or_intror (or_introl eq_refl)) [0; 7] 7);
      [left | right; left | by left].
  - destruct (invalid_faces_raise no_normals black project dangling_vertex defaults)
      as (_ & _ & Hupdate & _).
    apply (Hupdate) with (cell := [0]) (faceIndex := 0) (face := [0; 1; 9]) (v := 9).
    + apply Forall_singleton. exists [[0; 1; 9]]. split; [by repeat constructor|].
      intros _. apply Forall_singleton. simpl. lia.
    + by left.
    + left.
    + left.
    + reflexivity.
    + right. right. left.
    + simpl. lia.
  - destruct (invalid_faces_raise no_normals black project dangling_vertex points_only)
      as (_ & _ & Hupdate & _).
    apply (Hupdate) with (cell := [0]) (faceIndex := 0) (face := [0; 1; 9]) (v := 9).
    + apply Forall_singleton. exists [[0; 1; 9]]. split; [by repeat constructor|].
      intros Hw. discriminate Hw.
    + right. by right.
    + left.
    + left.
    + reflexivity.
    + right. right. left.
    + simpl. lia.
  - destruct (invalid_faces_raise no_normals black project digon defaults)
      as (_ & _ & _ & Haccept & _).
    apply Haccept. apply Forall_singleton. exists [[0; 1]]. split; [by repeat constructor|].
    apply Forall_singleton. split; [|simpl; lia].
    apply Forall_forall. intros v Hv. simpl.
    repeat (apply elem_of_cons in Hv as [->|Hv]; [lia|]).
    by apply not_elem_of_nil in Hv.
Defined.

(** C3 as the specification words it fails: a shape with a face of two
    vertices is constructed without an exception. *)
Lemma two_vertex_face_accepted :
  ~ (forall (project : nat -> list small) (shape : Shape nat) face,
       face ∈ faces shape -> length face < 3 ->
       exists e, constructor no_normals black project shape defaults = Throw e).
Proof.
  intros Hclaim.
  destruct (Hclaim project digon [0; 1]) as [e He].
  - left.
  - simpl. lia.
  - vm_compute in He. discriminate.
Qed.

End HyperGeometryFaces.
